(** * Linearised UVLM state-space engine (sharpy/linear/src/linuvlm.py)

    A shallow embedding of the [Dynamic] class of [linuvlm.py]: construction
    ([__init__]), scaling ([nondimss], [dimss]), state-space assembly
    ([assemble_ss]), the wake operator ([get_Cw_cpx]), frequency-limited
    balancing ([balfreq]) and the time stepper ([solve_step]); of its
    steady solver ([solve_steady]), its state reader ([unpack_state]) and
    its fast frequency response ([freqresp]); of the [Frequency] class
    ([__init__], [nondimss], [dimss], [assemble], [addGain], [freqresp],
    [get_Cw_cpx]); and of the gains and totals of the [Static] class
    ([reshape], [total_forces], [get_sect_forces_gain],
    [get_rigid_motion_gains]).

    Conventions.
    - numpy [float64] entries are elements of an abstract field ([Field]),
      [complex128] entries are complex numbers over it ([complex], a field
      when the scalars are real, [Real]); rounding is not represented,
      arithmetic is exact.  [Qc] is the executable instance of the examples.
    - a two-dimensional array is its shape and its entries ([ndarray]);
      one-dimensional arrays are lists ([vector]).
    - a Python call returns [Ok v] or raises ([Raise e]).
    - the division of the model is the field's, which is total.  Python
      raises [ZeroDivisionError] when it divides a float by zero
      ([length / speed] in the constructors, the factors of [nondimss] and
      [dimss]): a result [Ok] of a constructor or of a scaling operation
      stands for a call whose divisors are nonzero, and the statements on
      scaling take the scaling quantities nonzero.
    - numpy repeats an operand of one entry along the other operand
      (broadcasting); a sum, a difference or an assignment of arrays of
      different shapes is otherwise a [ValueError].  Only the second is
      represented: [vadd], [vsub] and [setitem] raise on every pair of
      different shapes, and the statements take operands of equal shapes or
      leave the one-entry case out.
    - every matrix is held by its entries, also where the instance holds a
      [libsparse.csc_matrix] object ([use_sparse]).  What [np.dot] does with
      such an operand in [balfreq] is not represented: the statements that
      [balfreq] completes, or reaches a given line, are for dense instances.
    - the routines of scipy/numpy and of the modules [assembly], [libss],
      [libsparse] and [multisurfaces], whose code is not part of this file's
      source, are parameters of the sections that use them. *)

From Stdlib Require Import String List ZArith Lia Bool Field QArith Qcanon Lqa.
Import ListNotations.

Close Scope Qc_scope.
Close Scope Q_scope.
Open Scope nat_scope.

Set Implicit Arguments.

(** ** Scalars *)

Class Num (T : Type) : Type := {
  zero : T;
  one : T;
  add : T -> T -> T;
  mul : T -> T -> T;
  sub : T -> T -> T;
  opp : T -> T;
  div : T -> T -> T;
  inv : T -> T }.

Class Field (T : Type) {N : Num T} : Prop := {
  Field_laws : field_theory zero one add mul sub opp div inv (@eq T);
  two_neq_zero : add one one <> zero }.
Arguments Field T {N}.

Declare Scope num_scope.
Delimit Scope num_scope with num.
Infix "+" := add : num_scope.
Infix "*" := mul : num_scope.
Infix "-" := sub : num_scope.
Infix "/" := div : num_scope.
Notation "- x" := (opp x) : num_scope.

#[export] Instance Qc_Num : Num Qc := {|
  zero := 0%Qc; one := 1%Qc;
  add := Qcplus; mul := Qcmult; sub := Qcminus;
  opp := Qcopp; div := Qcdiv; inv := Qcinv |}.

#[export] Instance Qc_Field : Field Qc.
Proof. split; [exact Qcft | discriminate]. Qed.

(** Python complex numbers over a real scalar type. *)
Record complex (T : Type) : Type := Cpx { real : T; imag : T }.

Section ComplexOps.
Context {T : Type} {N : Num T}.
Local Open Scope num_scope.

Definition cplx_of (x : T) : complex T := Cpx x zero.
Definition conj (z : complex T) : complex T := Cpx (real z) (- imag z).
Definition cadd (z w : complex T) := Cpx (real z + real w) (imag z + imag w).
Definition csub (z w : complex T) := Cpx (real z - real w) (imag z - imag w).
Definition copp (z : complex T) := Cpx (- real z) (- imag z).
Definition cmul (z w : complex T) :=
  Cpx (real z * real w - imag z * imag w) (real z * imag w + imag z * real w).
Definition cinv (z : complex T) :=
  let n := real z * real z + imag z * imag z in
  Cpx (real z / n) (- imag z / n).
Definition cdiv (z w : complex T) := cmul z (cinv w).

#[export] Instance complex_Num : Num (complex T) := {|
  zero := cplx_of zero; one := cplx_of one;
  add := cadd; mul := cmul; sub := csub;
  opp := copp; div := cdiv; inv := cinv |}.
End ComplexOps.

(** The reals among the fields: a sum of two squares vanishes only when both
    do.  This is what makes the complex numbers over them a field. *)
Class Real (T : Type) {N : Num T} : Prop := {
  Real_field :: Field T;
  sum_squares : forall a b : T,
    add (mul a a) (mul b b) = zero -> a = zero /\ b = zero }.
Arguments Real T {N}.

Section ComplexField.
Context {T : Type} {N : Num T} {RT : Real T}.
Add Field RealField : Field_laws.
Local Open Scope num_scope.

Lemma complex_ext (z w : complex T) :
  real z = real w -> imag z = imag w -> z = w.
Proof. destruct z, w. simpl. intros -> ->. reflexivity. Qed.

Lemma norm_neq_zero (z : complex T) :
  z <> zero -> real z * real z + imag z * imag z <> zero.
Proof.
  intros Hz H. apply sum_squares in H as [Hr Hi]. apply Hz.
  apply complex_ext; assumption.
Qed.

Lemma real_one_neq_zero : (one : T) <> zero.
Proof. exact (F_1_neq_0 Field_laws). Qed.

#[export] Instance complex_Field : Field (complex T).
Proof.
  split.
  - split; [split|..].
    + intros x. apply complex_ext; simpl; ring.
    + intros x y. apply complex_ext; simpl; ring.
    + intros x y z. apply complex_ext; simpl; ring.
    + intros x. apply complex_ext; simpl; ring.
    + intros x y. apply complex_ext; simpl; ring.
    + intros x y z. apply complex_ext; simpl; ring.
    + intros x y z. apply complex_ext; simpl; ring.
    + intros x y. apply complex_ext; simpl; ring.
    + intros x. apply complex_ext; simpl; ring.
    + intro H. apply real_one_neq_zero. exact (f_equal (@real T) H).
    + reflexivity.
    + intros p Hp. pose proof (norm_neq_zero Hp) as Hn.
      apply complex_ext; simpl; field; exact Hn.
  - intro H. apply (@two_neq_zero T N _). exact (f_equal (@real T) H).
Qed.
End ComplexField.

#[export] Instance Qc_Real : Real Qc.
Proof.
  split; [exact Qc_Field|].
  intros a b H.
  assert (Hq : (this a * this a + this b * this b == 0)%Q).
  { assert (E : (this (a * a + b * b)%Qc == this a * this a + this b * this b)%Q).
    { unfold Qcplus, Qcmult, Q2Qc. cbn [this]. rewrite !Qred_correct. reflexivity. }
    rewrite <- E. change (a * a + b * b)%Qc with (add (mul a a) (mul b b)).
    rewrite H. reflexivity. }
  assert (Ha : (this a == 0)%Q) by nra.
  assert (Hb : (this b == 0)%Q) by nra.
  split; apply Qc_is_canon; simpl; assumption.
Qed.

(** ** Exceptions *)

Inductive exn : Type :=
| NameError (msg : string)
| AttributeError (msg : string)
| ValueError
| IndexError
| LinAlgError.

Inductive result (A : Type) : Type :=
| Ok (a : A)
| Raise (e : exn).
Arguments Ok {A} a.
Arguments Raise {A} e.

Definition bind {A B : Type} (c : result A) (k : A -> result B) : result B :=
  match c with
  | Ok a => k a
  | Raise e => Raise e
  end.

Declare Scope result_scope.
Delimit Scope result_scope with result.
Notation "x <- c ;; k" := (bind c (fun x => k))
  (at level 61, c at next level, right associativity) : result_scope.
Notation "' p <- c ;; k" := (bind c (fun x => match x with p => k end))
  (at level 61, p pattern, c at next level, right associativity) : result_scope.
Open Scope result_scope.

Definition is_ok {A : Type} (c : result A) : bool :=
  match c with Ok _ => true | Raise _ => false end.

(** Reading a name that no assignment has bound. *)
Definition unbound {A : Type} (name : string) : result A :=
  Raise (NameError ("name '" ++ name ++ "' is not defined")%string).

(** [l[k]]. *)
Definition lookup {A : Type} (l : list A) (k : nat) : result A :=
  match nth_error l k with
  | Some a => Ok a
  | None => Raise IndexError
  end.

(** [for a in l: st = body(st, a)]. *)
Fixpoint for_each {A St : Type} (l : list A) (body : St -> A -> result St)
    (st : St) : result St :=
  match l with
  | [] => Ok st
  | a :: l' => st' <- body st a ;; for_each l' body st'
  end.

(** Calls that can also fail an [assert], subscript [None] or read a local
    variable before its assignment: their exceptions, beside those of
    [exn]. *)
Inductive pyexn : Type :=
| Exn (e : exn)
| AssertionError (msg : string)
| TypeError (msg : string)
| UnboundLocalError (msg : string).

Inductive outcome (A : Type) : Type :=
| Returns (a : A)
| Raises (e : pyexn).
Arguments Returns {A} a.
Arguments Raises {A} e.

Definition of_result {A : Type} (c : result A) : outcome A :=
  match c with
  | Ok a => Returns a
  | Raise e => Raises (Exn e)
  end.
Coercion of_result : result >-> outcome.

Definition obind {A B : Type} (c : outcome A) (k : A -> outcome B) : outcome B :=
  match c with
  | Returns a => k a
  | Raises e => Raises e
  end.

Declare Scope outcome_scope.
Delimit Scope outcome_scope with outcome.
Notation "x <~ c ;; k" := (obind c (fun x => k))
  (at level 61, c at next level, right associativity) : outcome_scope.
Notation "' p <~ c ;; k" := (obind c (fun x => match x with p => k end))
  (at level 61, p pattern, c at next level, right associativity) : outcome_scope.
Open Scope outcome_scope.

(** [for a in l: st = body(st, a)]. *)
Fixpoint ofor_each {A St : Type} (l : list A) (body : St -> A -> outcome St)
    (st : St) : outcome St :=
  match l with
  | [] => Returns st
  | a :: l' => st' <~ body st a ;; ofor_each l' body st'
  end.

(** Reading a local variable that no assignment has bound. *)
Definition unbound_local {A : Type} (name : string) : outcome A :=
  Raises (UnboundLocalError
            ("local variable '" ++ name ++ "' referenced before assignment")%string).

(** ** Arrays *)

Definition vector (T : Type) : Type := list T.

Record ndarray (T : Type) : Type := mk_ndarray {
  nrows : nat;
  ncols : nat;
  item : nat -> nat -> T }.

(** Two arrays hold the same value: same shape, same entries. *)
Definition array_eq {T : Type} (X Y : ndarray T) : Prop :=
  nrows X = nrows Y /\ ncols X = ncols Y /\
  forall i j, i < nrows X -> j < ncols X -> item X i j = item Y i j.

Definition shape {T : Type} (X : ndarray T) : nat * nat := (nrows X, ncols X).

Section Arrays.
Context {T : Type} {N : Num T}.
Local Open Scope num_scope.

(** [sum_n n f] is f 0 + ... + f (n-1). *)
Fixpoint sum_n (n : nat) (f : nat -> T) : T :=
  match n with
  | O => zero
  | S k => sum_n k f + f k
  end.

Definition vget (v : vector T) (k : nat) : T := nth k v zero.

Definition tabulate (n : nat) (f : nat -> T) : vector T := map f (seq 0 n).

(** Entry by entry sum and difference, matrix product and matrix-vector
    product, on operands whose shapes agree. *)
Definition vplus (x y : vector T) : vector T :=
  tabulate (length x) (fun k => vget x k + vget y k).

Definition vminus (x y : vector T) : vector T :=
  tabulate (length x) (fun k => vget x k - vget y k).

Definition madd (X Y : ndarray T) : ndarray T :=
  mk_ndarray (nrows X) (ncols X) (fun i j => item X i j + item Y i j).

Definition msub (X Y : ndarray T) : ndarray T :=
  mk_ndarray (nrows X) (ncols X) (fun i j => item X i j - item Y i j).

Definition matmul (X Y : ndarray T) : ndarray T :=
  mk_ndarray (nrows X) (ncols Y)
    (fun i j => sum_n (ncols X) (fun k => item X i k * item Y k j)).

Definition matvec (X : ndarray T) (v : vector T) : vector T :=
  tabulate (nrows X) (fun i => sum_n (ncols X) (fun k => item X i k * vget v k)).

(** [x + y] and [x - y] of one-dimensional arrays of equal lengths.  On
    operands of different lengths the model raises [ValueError], as numpy
    does unless one of them has one entry, which it repeats: that case is
    not represented. *)
Definition vadd (x y : vector T) : result (vector T) :=
  if length x =? length y then Ok (vplus x y) else Raise ValueError.

Definition vsub (x y : vector T) : result (vector T) :=
  if length x =? length y then Ok (vminus x y) else Raise ValueError.

Definition np_zeros (r c : nat) : ndarray T := mk_ndarray r c (fun _ _ => zero).

Definition np_eye (n : nat) : ndarray T :=
  mk_ndarray n n (fun i j => if i =? j then one else zero).

Definition np_ones (n : nat) : vector T := repeat one n.

Definition amap {U : Type} (f : T -> U) (X : ndarray T) : ndarray U :=
  mk_ndarray (nrows X) (ncols X) (fun i j => f (item X i j)).

(** [s * X], [X / s] and [-X]. *)
Definition scale (s : T) (X : ndarray T) : ndarray T := amap (fun x => s * x) X.
Definition divide (X : ndarray T) (s : T) : ndarray T := amap (fun x => x / s) X.
Definition neg (X : ndarray T) : ndarray T := amap opp X.

Definition transpose (X : ndarray T) : ndarray T :=
  mk_ndarray (ncols X) (nrows X) (fun i j => item X j i).

Definition same_shape (X Y : ndarray T) : bool :=
  (nrows X =? nrows Y) && (ncols X =? ncols Y).

(** [X + Y] and [X - Y] of two-dimensional arrays of one shape. *)
Definition np_add (X Y : ndarray T) : result (ndarray T) :=
  if same_shape X Y then Ok (madd X Y) else Raise ValueError.

Definition np_sub (X Y : ndarray T) : result (ndarray T) :=
  if same_shape X Y then Ok (msub X Y) else Raise ValueError.

(** [X.dot(Y)] for two-dimensional [Y]. *)
Definition dot (X Y : ndarray T) : result (ndarray T) :=
  if ncols X =? nrows Y then Ok (matmul X Y) else Raise ValueError.

(** [X.dot(v)] for one-dimensional [v]. *)
Definition dotv (X : ndarray T) (v : vector T) : result (vector T) :=
  if ncols X =? length v then Ok (matvec X v) else Raise ValueError.

(** [X[r0:r1, c0:c1]]; a slice is clipped to the shape. *)
Definition getitem (X : ndarray T) (r0 r1 c0 c1 : nat) : ndarray T :=
  let r0' := Nat.min r0 (nrows X) in
  let r1' := Nat.min r1 (nrows X) in
  let c0' := Nat.min c0 (ncols X) in
  let c1' := Nat.min c1 (ncols X) in
  mk_ndarray (r1' - r0') (c1' - c0')
    (fun i j => item X (r0' + i)%nat (c0' + j)%nat).

Definition in_block (r0 r1 c0 c1 i j : nat) : bool :=
  (r0 <=? i) && (i <? r1) && (c0 <=? j) && (j <? c1).

(** [X[r0:r1, c0:c1] = Y], for a [Y] of the shape of the block (numpy also
    accepts a [Y] that it can repeat to that shape, which is not
    represented). *)
Definition setitem (X : ndarray T) (r0 r1 c0 c1 : nat) (Y : ndarray T)
  : result (ndarray T) :=
  let r0' := Nat.min r0 (nrows X) in
  let r1' := Nat.min r1 (nrows X) in
  let c0' := Nat.min c0 (ncols X) in
  let c1' := Nat.min c1 (ncols X) in
  if (nrows Y =? r1' - r0') && (ncols Y =? c1' - c0')
  then Ok (mk_ndarray (nrows X) (ncols X)
             (fun i j => if in_block r0' r1' c0' c1' i j
                         then item Y (i - r0')%nat (j - c0')%nat
                         else item X i j))
  else Raise ValueError.

(** [X[range(r0, r1), c0:c1] = Y]: the rows are an index list, which is
    checked against the shape, the columns a slice. *)
Definition setitem_rows (X : ndarray T) (r0 r1 c0 c1 : nat) (Y : ndarray T)
  : result (ndarray T) :=
  if (r0 <? r1) && (nrows X <? r1) then Raise IndexError
  else setitem X r0 r1 c0 c1 Y.

Definition on_diag (r0 c0 n i j : nat) : bool :=
  (r0 <=? i) && (i <? r0 + n) && (c0 <=? j) && (j - c0 =? i - r0).

Definition diag_in_bounds (X : ndarray T) (r0 c0 n : nat) : bool :=
  (n =? 0) || ((r0 + n <=? nrows X) && (c0 + n <=? ncols X)).

(** [X[range(r0, r0+n), range(c0, c0+n)] = v], [+= v] and [-= v] with
    [n = len(v)]: paired index lists address the entries
    [(r0+k, c0+k)]. *)
Definition setitem_diag (X : ndarray T) (r0 c0 : nat) (v : vector T)
  : result (ndarray T) :=
  if diag_in_bounds X r0 c0 (length v)
  then Ok (mk_ndarray (nrows X) (ncols X)
             (fun i j => if on_diag r0 c0 (length v) i j
                         then vget v (i - r0)
                         else item X i j))
  else Raise IndexError.

Definition iadd_diag (X : ndarray T) (r0 c0 : nat) (v : vector T)
  : result (ndarray T) :=
  if diag_in_bounds X r0 c0 (length v)
  then Ok (mk_ndarray (nrows X) (ncols X)
             (fun i j => if on_diag r0 c0 (length v) i j
                         then item X i j + vget v (i - r0)
                         else item X i j))
  else Raise IndexError.

Definition isub_diag (X : ndarray T) (r0 c0 : nat) (v : vector T)
  : result (ndarray T) :=
  if diag_in_bounds X r0 c0 (length v)
  then Ok (mk_ndarray (nrows X) (ncols X)
             (fun i j => if on_diag r0 c0 (length v) i j
                         then item X i j - vget v (i - r0)
                         else item X i j))
  else Raise IndexError.

(** [np.block([X, Y])]: blocks side by side. *)
Definition hstack (X Y : ndarray T) : result (ndarray T) :=
  if nrows X =? nrows Y
  then Ok (mk_ndarray (nrows X) (ncols X + ncols Y)
             (fun i j => if j <? ncols X then item X i j
                         else item Y i (j - ncols X)%nat))
  else Raise ValueError.

(** [np.vstack([X, Y])]: blocks on top of each other. *)
Definition vstack (X Y : ndarray T) : result (ndarray T) :=
  if ncols X =? ncols Y
  then Ok (mk_ndarray (nrows X + nrows Y) (ncols X)
             (fun i j => if i <? nrows X then item X i j
                         else item Y (i - nrows X)%nat j))
  else Raise ValueError.

(** [X[:, range(c0, c1)]], [X[range(r0, r1), :]] and
    [X[:, range(c0, c1)] = Y]: the columns (rows) are an index list, which is
    checked against the shape. *)
Definition getitem_cols (X : ndarray T) (c0 c1 : nat) : result (ndarray T) :=
  if (c0 <? c1) && (ncols X <? c1) then Raise IndexError
  else Ok (getitem X 0 (nrows X) c0 c1).

Definition getitem_rows (X : ndarray T) (r0 r1 : nat) : result (ndarray T) :=
  if (r0 <? r1) && (nrows X <? r1) then Raise IndexError
  else Ok (getitem X r0 r1 0 (ncols X)).

Definition setitem_cols (X : ndarray T) (c0 c1 : nat) (Y : ndarray T)
  : result (ndarray T) :=
  if (c0 <? c1) && (ncols X <? c1) then Raise IndexError
  else setitem X 0 (nrows X) c0 c1 Y.

(** [X * v]: column [j] of [X] times [v[j]]. *)
Definition mul_cols (X : ndarray T) (v : vector T) : result (ndarray T) :=
  if ncols X =? length v
  then Ok (mk_ndarray (nrows X) (ncols X) (fun i j => item X i j * vget v j))
  else Raise ValueError.

(** [X[:, c0:c1] *= s] and [X[:, c0:c1] /= s]. *)
Definition imul_cols (X : ndarray T) (c0 c1 : nat) (s : T) : ndarray T :=
  mk_ndarray (nrows X) (ncols X)
    (fun i j => if (c0 <=? j) && (j <? c1) then item X i j * s else item X i j).

Definition idiv_cols (X : ndarray T) (c0 c1 : nat) (s : T) : ndarray T :=
  mk_ndarray (nrows X) (ncols X)
    (fun i j => if (c0 <=? j) && (j <? c1) then item X i j / s else item X i j).

(** [s ** n] for a Python integer exponent. *)
Fixpoint pow_nat (s : T) (n : nat) : T :=
  match n with
  | O => one
  | S k => s * pow_nat s k
  end.

Definition power (s : T) (e : Z) : T :=
  match e with
  | Z0 => one
  | Zpos p => pow_nat s (Pos.to_nat p)
  | Zneg p => one / pow_nat s (Pos.to_nat p)
  end.
End Arrays.

(** [X.astype(complex)]: a real array where numpy needs a complex one. *)
Definition astype_complex {T : Type} {N : Num T} (X : ndarray T)
  : ndarray (complex T) :=
  amap cplx_of X.

Section Slices.
Context {T : Type} {N : Num T}.
Local Open Scope num_scope.

(** [v[a:b]] on a one-dimensional array; a slice is clipped to the length. *)
Definition vslice (v : vector T) (a b : nat) : vector T := firstn (b - a) (skipn a v).

(** [v / s] on a one-dimensional array. *)
Definition vdivide (v : vector T) (s : T) : vector T := map (fun x => x / s) v.
End Slices.

Section Concatenation.
Context {T : Type} {N : Num T}.
Local Open Scope num_scope.

(** [v[a:b]] for bounds that can be negative: a negative bound counts from
    the end, and every bound is clipped to the length. *)
Definition slice_bound (len : nat) (i : Z) : nat :=
  if (i <? 0)%Z then Z.to_nat (Z.max (i + Z.of_nat len) 0)
  else Nat.min (Z.to_nat i) len.

Definition pyslice (v : vector T) (a b : Z) : vector T :=
  vslice v (slice_bound (length v) a) (slice_bound (length v) b).

(** [np.concatenate(l)] on one-dimensional arrays: the list is not empty. *)
Definition np_concatenate (l : list (vector T)) : result (vector T) :=
  match l with
  | [] => Raise ValueError
  | _ => Ok (concat l)
  end.

(** [np.sum(v)]. *)
Definition np_sum (v : vector T) : T := fold_left add v zero.

(** [np.sum(X[:, jj::step], axis=1)[i]] for a positive [step]: the sum of the
    entries of row [i] in the columns jj, jj + step, jj + 2 step, ... *)
Definition strided_sum (X : ndarray T) (i jj step : nat) : T :=
  sum_n ((ncols X - jj + step - 1) / step)
        (fun m => item X i (jj + m * step)%nat).
End Concatenation.

Section FancyIndexing.
Context {T : Type} {N : Num T}.
Local Open Scope num_scope.

(** [[f(a) for a in l]]. *)
Fixpoint list_comp {A B : Type} (l : list A) (f : A -> result B) : result (list B) :=
  match l with
  | [] => Ok []
  | a :: l' => b <- f a ;; bs <- list_comp l' f ;; Ok (b :: bs)
  end.

(** [np.ravel_multi_index(idx, dims)]: the position of the entry [idx] in
    the row-major order of an array of shape [dims]; an index outside its
    dimension is refused. *)
Fixpoint ravel_from (acc : nat) (idx dims : list nat) : result nat :=
  match idx, dims with
  | [], [] => Ok acc
  | i :: idx', d :: dims' =>
      if i <? d then ravel_from (acc * d + i) idx' dims' else Raise ValueError
  | _, _ => Raise ValueError
  end.

Definition ravel_multi_index (idx dims : list nat) : result nat :=
  ravel_from 0 idx dims.

(** [np.array(rows)] for a list of rows of one length. *)
Definition np_array (rows : list (list T)) : ndarray T :=
  mk_ndarray (length rows) (length (hd [] rows))
             (fun i j => nth j (nth i rows []) zero).

(** [np.cross(a, b)] on two arrays of three entries. *)
Definition np_cross (a b : vector T) : vector T :=
  [vget a 1 * vget b 2 - vget a 2 * vget b 1;
   vget a 2 * vget b 0 - vget a 0 * vget b 2;
   vget a 0 * vget b 1 - vget a 1 * vget b 0].

(** [a, b, c = v]. *)
Definition unpack3 (v : vector T) : result (T * T * T) :=
  match v with
  | [a; b; c] => Ok (a, b, c)
  | _ => Raise ValueError
  end.

(** The array [X] after [X[i, j] = v], for an entry of the array. *)
Definition set_entry (X : ndarray T) (i j : nat) (v : T) : ndarray T :=
  mk_ndarray (nrows X) (ncols X)
             (fun i' j' => if (i' =? i) && (j' =? j) then v else item X i' j').

Definition rows_ok (X : ndarray T) (ii : list nat) : bool :=
  forallb (fun i => i <? nrows X) ii.

Definition cols_ok (X : ndarray T) (jj : list nat) : bool :=
  forallb (fun j => j <? ncols X) jj.

(** [X[ii, jj] = v] for two lists of indices of one length: the entries
    (ii[k], jj[k]) are set.  Nothing is written when an index is out of
    range. *)
Definition setitem_pairs (X : ndarray T) (ii jj : list nat) (v : T)
  : result (ndarray T) :=
  if length ii =? length jj then
    if rows_ok X ii && cols_ok X jj then
      Ok (fold_left (fun Y ij => set_entry Y (fst ij) (snd ij) v) (combine ii jj) X)
    else Raise IndexError
  else Raise IndexError.

(** [X[ii, jj] += v]: the entries (ii[k], jj[k]) are read, then set. *)
Definition iadd_pairs (X : ndarray T) (ii jj : list nat) (v : T)
  : result (ndarray T) :=
  if length ii =? length jj then
    if rows_ok X ii && cols_ok X jj then
      Ok (fold_left (fun Y ij => set_entry Y (fst ij) (snd ij)
                                           (item X (fst ij) (snd ij) + v))
                    (combine ii jj) X)
    else Raise IndexError
  else Raise IndexError.

(** [X[np.ix_(ii, jj)] = S]: the entry (ii[a], jj[b]) is set to S[a, b],
    for [S] of shape (len(ii), len(jj)). *)
Definition setitem_ix (X : ndarray T) (ii jj : list nat) (S : ndarray T)
  : result (ndarray T) :=
  if rows_ok X ii && cols_ok X jj then
    if (nrows S =? length ii) && (ncols S =? length jj) then
      Ok (fold_left
            (fun Y a =>
               fold_left (fun Y b => set_entry Y (nth a ii 0%nat) (nth b jj 0%nat)
                                               (item S a b))
                         (seq 0 (length jj)) Y)
            (seq 0 (length ii)) X)
    else Raise ValueError
  else Raise IndexError.

(** [X[ii, :] = S]: the row ii[a] is set to the row S[a, :], for [S] of
    shape (len(ii), X.shape[1]). *)
Definition setitem_rows_at (X : ndarray T) (ii : list nat) (S : ndarray T)
  : result (ndarray T) :=
  if rows_ok X ii then
    if (nrows S =? length ii) && (ncols S =? ncols X) then
      Ok (fold_left
            (fun Y a =>
               fold_left (fun Y b => set_entry Y (nth a ii 0%nat) b (item S a b))
                         (seq 0 (ncols X)) Y)
            (seq 0 (length ii)) X)
    else Raise ValueError
  else Raise IndexError.

(** Arrays of three dimensions. *)
Record ndarray3 : Type := mk_ndarray3 {
  dim0 : nat;
  dim1 : nat;
  dim2 : nat;
  item3 : nat -> nat -> nat -> T }.

(** [v[range(a, b)]]: an index outside of [v] is refused. *)
Definition take_range (v : vector T) (a b : nat) : result (vector T) :=
  if (b <=? length v) || (b <=? a) then Ok (vslice v a b) else Raise IndexError.

(** [v.reshape((r, c))] and [v.reshape((d0, d1, d2))], in row-major order:
    the sizes must agree. *)
Definition reshape2 (v : vector T) (r c : nat) : result (ndarray T) :=
  if length v =? r * c
  then Ok (mk_ndarray r c (fun i j => vget v (i * c + j)))
  else Raise ValueError.

Definition reshape3 (v : vector T) (d0 d1 d2 : nat) : result ndarray3 :=
  if length v =? d0 * d1 * d2
  then Ok (mk_ndarray3 d0 d1 d2 (fun i j k => vget v ((i * d1 + j) * d2 + k)))
  else Raise ValueError.

(** [X[:, j, k]]. *)
Definition column3 (X : ndarray3) (j k : nat) : result (vector T) :=
  if (j <? dim1 X) && (k <? dim2 X)
  then Ok (tabulate (dim0 X) (fun i => item3 X i j k))
  else Raise IndexError.

(** [np.cross(a, b)] refuses arrays that do not have three entries (or
    two, which is not represented). *)
Definition cross (a b : vector T) : result (vector T) :=
  if (length a =? 3) && (length b =? 3) then Ok (np_cross a b) else Raise ValueError.
End FancyIndexing.
Arguments ndarray3 : clear implicits.

(** ** Sparse matrices ([libsparse.csc_matrix]) *)

Section Sparse.
Context {S : Type} {N : Num S}.
Local Open Scope num_scope.

(** Python's [range(lo, hi)]. *)
Definition range (lo hi : Z) : list Z :=
  map (fun k => (lo + Z.of_nat k)%Z) (seq 0 (Z.to_nat (hi - lo))).

Definition index_ok (n : nat) (k : Z) : bool :=
  (0 <=? k)%Z && (k <? Z.of_nat n)%Z.

(** The sum of the values of the triplets that address entry [(i, j)]. *)
Fixpoint coo_sum (valvec : list S) (iivec jjvec : list Z) (i j : nat) : S :=
  match valvec, iivec, jjvec with
  | v :: vs, ii :: iis, jj :: jjs =>
      (if (ii =? Z.of_nat i)%Z && (jj =? Z.of_nat j)%Z then v else zero)
      + coo_sum vs iis jjs i j
  | _, _, _ => zero
  end.

(** [csc_matrix((valvec, (iivec, jjvec)), shape=(r, c))]: the three lists
    have one length, every index lies inside the shape, and entries given
    more than once add up. *)
Definition csc_matrix (valvec : list S) (iivec jjvec : list Z) (r c : nat)
  : result (ndarray S) :=
  if (length iivec =? length valvec) && (length jjvec =? length valvec)
     && forallb (index_ok r) iivec && forallb (index_ok c) jjvec
  then Ok (mk_ndarray r c (coo_sum valvec iivec jjvec))
  else Raise ValueError.
End Sparse.

(** ** State-space models ([libss]) *)

Module libss.
(** Modelled from the spec: [libss.ss], the State-Space Model of section 3,
    a tuple (A, B, C, D, dt).  [S] is the entry type of A, B and C, [R] that
    of D and of the time step. *)
Record ss (S R : Type) : Type := mk_ss {
  A : ndarray S;
  B : ndarray S;
  C : ndarray S;
  D : ndarray R;
  dt : R }.

Definition states {S R} (sys : ss S R) : nat := nrows (A sys).
Definition inputs {S R} (sys : ss S R) : nat := ncols (B sys).
Definition outputs {S R} (sys : ss S R) : nat := nrows (C sys).

Section SSconv.
Context {T : Type} {N : Num T}.

(** Modelled from the spec: [libss.SSconv(A, None, B, C, D, Bm1=None)],
    the predictor-elimination transform of section 4.2, step 6, and of the
    doc string of [assemble_ss]: with h = x - B u the model becomes
    h' = A h + (A B) u, y = C h + (C B + D) u.  The result is
    (A, A B, C, C B + D). *)
Definition SSconv (A B C D : ndarray T)
  : result (ndarray T * ndarray T * ndarray T * ndarray T) :=
  Bmod <- dot A B ;;
  CB <- dot C B ;;
  Dmod <- np_add CB D ;;
  Ok (A, Bmod, C, Dmod).
End SSconv.
End libss.

(** ** Lattice sizes ([multisurfaces.MultiAeroGridSurfaces]) *)

Module MultiAeroGridSurfaces.
(** Modelled from the spec: the Surface Size Record of section 3.  Per
    surface: the bound and wake panel grids (M, N) and (M_star, N_star) and
    the counts of bound panels, wake panels, bound vertices and wake
    vertices. *)
Record t : Type := mk {
  dimensions : list (nat * nat);
  dimensions_star : list (nat * nat);
  KK : list nat;
  KK_star : list nat;
  KKzeta : list nat;
  KKzeta_star : list nat }.

Definition n_surf (MS : t) : nat := length (dimensions MS).

(** The counts are those of the grids, every surface has a bound panel
    row, and a wake has the span-wise panel count of its surface. *)
Definition surface_ok (d ds : nat * nat) (k ks kz kzs : nat) : Prop :=
  1 <= fst d /\ snd ds = snd d /\
  k = fst d * snd d /\ ks = fst ds * snd ds /\
  kz = (fst d + 1) * (snd d + 1) /\ kzs = (fst ds + 1) * (snd ds + 1).

Inductive sizes_ok :
  list (nat * nat) -> list (nat * nat) ->
  list nat -> list nat -> list nat -> list nat -> Prop :=
| sizes_nil : sizes_ok [] [] [] [] [] []
| sizes_cons d ds k ks kz kzs dl dsl kl ksl kzl kzsl :
    surface_ok d ds k ks kz kzs ->
    sizes_ok dl dsl kl ksl kzl kzsl ->
    sizes_ok (d :: dl) (ds :: dsl) (k :: kl) (ks :: ksl) (kz :: kzl) (kzs :: kzsl).

Definition wf (MS : t) : Prop :=
  sizes_ok (dimensions MS) (dimensions_star MS)
           (KK MS) (KK_star MS) (KKzeta MS) (KKzeta_star MS).

(** The lattice of (M, N) bound panels and (M_star, N) wake panels per
    surface. *)
Definition of_grids (g : list (nat * nat * nat)) : t :=
  mk (map (fun s => (fst (fst s), snd s)) g)
     (map (fun s => (snd (fst s), snd s)) g)
     (map (fun s => fst (fst s) * snd s) g)
     (map (fun s => snd (fst s) * snd s) g)
     (map (fun s => (fst (fst s) + 1) * (snd s + 1)) g)
     (map (fun s => (snd (fst s) + 1) * (snd s + 1)) g).
(** Modelled from the spec: the other views of the Surface Size Record of
    section 3 that the solvers read.  [MM], [NN] and [NN_star] are the
    chord-wise and span-wise panel counts of the bound grids and the
    span-wise ones of the wakes; [Surfs[ss].maps] holds the sizes M, N, K,
    Kzeta of the bound grid of surface [ss], [Surfs_star[ss].maps] those of
    its wake. *)
Definition MM (MS : t) : list nat := map fst (dimensions MS).
Definition NN (MS : t) : list nat := map snd (dimensions MS).
Definition NN_star (MS : t) : list nat := map snd (dimensions_star MS).

Definition Surfs_maps_M (MS : t) (ss : nat) : result nat := lookup (MM MS) ss.
Definition Surfs_maps_N (MS : t) (ss : nat) : result nat := lookup (NN MS) ss.
Definition Surfs_maps_K (MS : t) (ss : nat) : result nat := lookup (KK MS) ss.
Definition Surfs_maps_Kzeta (MS : t) (ss : nat) : result nat := lookup (KKzeta MS) ss.
Definition Surfs_star_maps_M (MS : t) (ss : nat) : result nat :=
  lookup (map fst (dimensions_star MS)) ss.

End MultiAeroGridSurfaces.

Definition sum (l : list nat) : nat := fold_left Nat.add l 0.

(** ** The [Dynamic] class *)

Module Scaling.
(** The dictionary [ScalingFacts], by key. *)
Record t (R : Type) : Type := mk {
  length : R;
  speed : R;
  density : R;
  time : R;
  circulation : R;
  dyn_pressure : R;
  force : R }.
End Scaling.

Module assembly.
(** The blocks that [assemble_ss] obtains from the influence-coefficient
    provider ([ass.AICs], [ass.wake_prop], [ass.nc_dqcdzeta], ...,
    [interp.get_Wnv_vector]) for the lattice [self.MS], merged over the
    surfaces as [assemble_ss] merges them ([np.block], [block_diag]). *)
Record blocks (R : Type) : Type := mk {
  A0 : ndarray R;
  A0W : ndarray R;
  Cgamma : ndarray R;
  CgammaW : ndarray R;
  Ducdzeta : ndarray R;
  Wnv0 : ndarray R;
  Dfqsdgamma : ndarray R;
  Dfqsdgamma_star : ndarray R;
  Dfunstdgamma_dot : ndarray R;
  Dfqsdzeta_vrel0 : ndarray R;
  Dfqsdvind_zeta : ndarray R;
  Dfqsduinput : ndarray R }.
End assembly.

Module Dynamic.
Section Model.
Context {R : Type} {N : Num R}.
Local Open Scope num_scope.

(** The attributes of an instance; an attribute that is not set yet is
    [None]. *)
Record t : Type := mk {
  MS : MultiAeroGridSurfaces.t;
  K : nat;
  K_star : nat;
  Kzeta : nat;
  Kzeta_star : nat;
  dt : R;
  integr_order : Z;
  Nx : nat;
  Nu : nat;
  Ny : nat;
  remove_predictor : bool;
  B_predictor : option (ndarray R);
  include_added_mass : bool;
  use_sparse : bool;
  ScalingFacts : Scaling.t R;
  SS : option (libss.ss R R);
  Zc : option (ndarray (complex R));
  Zo : option (ndarray (complex R));
  SSb : option (libss.ss (complex R) R);
  T : option (ndarray (complex R));
  gv : option (vector R) }.

Definition set_SS (self : t) (sys : libss.ss R R) (Bp : option (ndarray R)) : t :=
  mk (MS self) (K self) (K_star self) (Kzeta self) (Kzeta_star self)
     (dt self) (integr_order self) (Nx self) (Nu self) (Ny self)
     (remove_predictor self) Bp (include_added_mass self)
     (use_sparse self) (ScalingFacts self) (Some sys)
     (Zc self) (Zo self) (SSb self) (T self) (gv self).

Definition set_factors (self : t) (zc zo : ndarray (complex R)) : t :=
  mk (MS self) (K self) (K_star self) (Kzeta self) (Kzeta_star self)
     (dt self) (integr_order self) (Nx self) (Nu self) (Ny self)
     (remove_predictor self) (B_predictor self) (include_added_mass self)
     (use_sparse self) (ScalingFacts self) (SS self)
     (Some zc) (Some zo) (SSb self) (T self) (gv self).

Definition set_balanced (self : t) (sysb : libss.ss (complex R) R)
    (Tb : ndarray (complex R)) (s : vector R) : t :=
  mk (MS self) (K self) (K_star self) (Kzeta self) (Kzeta_star self)
     (dt self) (integr_order self) (Nx self) (Nu self) (Ny self)
     (remove_predictor self) (B_predictor self) (include_added_mass self)
     (use_sparse self) (ScalingFacts self) (SS self)
     (Zc self) (Zo self) (Some sysb) (Some Tb) (Some s).

Definition get_SS (self : t) : result (libss.ss R R) :=
  match SS self with
  | Some sys => Ok sys
  | None => Raise (AttributeError "'Dynamic' object has no attribute 'SS'"%string)
  end.

Definition two : R := one + one.
Definition three : R := one + one + one.

(** [Dynamic.__init__(tsdata, dt, integr_order, RemovePredictor,
    ScalingDict, UseSparse)]; the lattice [MS] stands for [tsdata], from
    which [Static.__init__] builds it.  [ScalingDict] holds the reference
    length, speed and density.  [length / speed] is the division of the
    field: Python raises [ZeroDivisionError] there when the speed is 0, so
    [Ok self] stands for a call with a nonzero reference speed. *)
Definition __init__ (MS : MultiAeroGridSurfaces.t) (dt : R) (integr_order : Z)
    (RemovePredictor : bool) (ScalingDict : option (R * R * R))
    (UseSparse : bool) : result t :=
  let K := sum (MultiAeroGridSurfaces.KK MS) in
  let K_star := sum (MultiAeroGridSurfaces.KK_star MS) in
  let Kzeta := sum (MultiAeroGridSurfaces.KKzeta MS) in
  let Kzeta_star := sum (MultiAeroGridSurfaces.KKzeta_star MS) in
  Nx <- (if (integr_order =? 1)%Z then Ok (2 * K + K_star)%nat
         else if (integr_order =? 2)%Z then Ok (3 * K + K_star)%nat
         else Raise (NameError "Only integration orders 1 and 2 are supported"%string)) ;;
  let Ny := (3 * Kzeta)%nat in
  let Nu := (3 * Ny)%nat in
  let '(length, speed, density) :=
    match ScalingDict with
    | None => (one, one, one)
    | Some d => d
    end in
  let time := length / speed in
  let circulation := speed * length in
  let dyn_pressure := (one / two) * density * power speed 2 in
  let force := dyn_pressure * power length 2 in
  Ok (mk MS K K_star Kzeta Kzeta_star dt integr_order Nx Nu Ny
         RemovePredictor None true UseSparse
         (Scaling.mk length speed density time circulation dyn_pressure force)
         None None None None None None).

(** [X *= s] on a whole array. *)
Definition imul (X : ndarray R) (s : R) : ndarray R := amap (fun x => x * s) X.

(** [nondimss()] and [dimss()]: the instance after a call that returns.
    The factors are quotients of Python floats: a call on an instance whose
    circulation, force or time is 0 raises [ZeroDivisionError] (after the
    matrices scaled before that line have been changed in place), which the
    total division of the field does not represent.  The balanced model
    [SSb], when [balfreq] has built it, holds the array D of [SS]; the model
    keeps the two by value and rescales the D of [SS] only. *)
Definition nondimss (self : t) : result t :=
  sys <- get_SS self ;;
  let Kzeta := Kzeta self in
  let sf := ScalingFacts self in
  let B := libss.B sys in
  let B := imul_cols B 0 (3 * Kzeta) (Scaling.length sf / Scaling.circulation sf) in
  let B := imul_cols B (3 * Kzeta) (ncols B) (Scaling.speed sf / Scaling.circulation sf) in
  let C := imul (libss.C sys) (Scaling.circulation sf / Scaling.force sf) in
  let D := libss.D sys in
  let D := imul_cols D 0 (3 * Kzeta) (Scaling.length sf / Scaling.force sf) in
  let D := imul_cols D (3 * Kzeta) (ncols D) (Scaling.speed sf / Scaling.force sf) in
  let dt := libss.dt sys / Scaling.time sf in
  Ok (set_SS self (libss.mk_ss (libss.A sys) B C D dt) (B_predictor self)).

Definition dimss (self : t) : result t :=
  sys <- get_SS self ;;
  let Kzeta := Kzeta self in
  let sf := ScalingFacts self in
  let B := libss.B sys in
  let B := idiv_cols B 0 (3 * Kzeta) (Scaling.length sf / Scaling.circulation sf) in
  let B := idiv_cols B (3 * Kzeta) (ncols B) (Scaling.speed sf / Scaling.circulation sf) in
  let C := divide (libss.C sys) (Scaling.circulation sf / Scaling.force sf) in
  let D := libss.D sys in
  let D := idiv_cols D 0 (3 * Kzeta) (Scaling.length sf / Scaling.force sf) in
  let D := idiv_cols D (3 * Kzeta) (ncols D) (Scaling.speed sf / Scaling.force sf) in
  let dt := libss.dt sys * Scaling.time sf in
  Ok (set_SS self (libss.mk_ss (libss.A sys) B C D dt) (B_predictor self)).

Definition get_B_predictor (self : t) : result (ndarray R) :=
  match B_predictor self with
  | Some Bp => Ok Bp
  | None => Raise (AttributeError "'NoneType' object has no attribute 'dot'"%string)
  end.

(** [solve_step(x_n, u_n, u_n1=None, transform_state=False)]. *)
Definition solve_step (self : t) (x_n u_n : vector R)
    (u_n1 : option (vector R)) (transform_state : bool)
  : result (vector R * vector R) :=
  let u_n1 := match u_n1 with
              | None => u_n
              | Some u => u
              end in
  if remove_predictor self then
    h_n <- (if transform_state
            then Bp <- get_B_predictor self ;;
                 Bu <- dotv Bp u_n ;;
                 vsub x_n Bu
            else Ok x_n) ;;
    sys <- get_SS self ;;
    Ah <- dotv (libss.A sys) h_n ;;
    Bu <- dotv (libss.B sys) u_n ;;
    h_n1 <- vadd Ah Bu ;;
    Ch <- dotv (libss.C sys) h_n1 ;;
    Du <- dotv (libss.D sys) u_n1 ;;
    y_n1 <- vadd Ch Du ;;
    x_n1 <- (if transform_state
             then Bp <- get_B_predictor self ;;
                  Bu1 <- dotv Bp u_n1 ;;
                  vadd h_n1 Bu1
             else Ok h_n1) ;;
    Ok (x_n1, y_n1)
  else
    sys <- get_SS self ;;
    Ax <- dotv (libss.A sys) x_n ;;
    Bu <- dotv (libss.B sys) u_n1 ;;
    x_n1 <- vadd Ax Bu ;;
    Cx <- dotv (libss.C sys) x_n1 ;;
    Du <- dotv (libss.D sys) u_n1 ;;
    y_n1 <- vadd Cx Du ;;
    Ok (x_n1, y_n1).

(** *** [assemble_ss] *)

Section Assembly.
(** [scalg.lu_factor(A0)] followed by [scalg.lu_solve((LU, P), rhs)]. *)
Variable lu_solve : ndarray R -> ndarray R -> result (ndarray R).

(** The state terms: the A matrix. *)
Definition assemble_A (self : t) (AinvAWCgamma AinvAWCgammaW Cgamma CgammaW : ndarray R)
  : result (ndarray R) :=
  let K := K self in
  let K_star := K_star self in
  let Nx := Nx self in
  (* second order differencing scheme coefficients *)
  let b0 := - two in
  let bm1 := one / two in
  let bp1 := three / two in
  let Ass := np_zeros Nx Nx in
  Ass <- setitem Ass 0 K 0 K AinvAWCgamma ;;
  Ass <- setitem Ass 0 K K (K + K_star) AinvAWCgammaW ;;
  Ass <- setitem Ass K (K + K_star) 0 K Cgamma ;;
  Ass <- setitem Ass K (K + K_star) K (K + K_star) CgammaW ;;
  (* delta eq. *)
  let ones := np_ones K in
  Ass <- (if (integr_order self =? 1)%Z then
            Ass <- setitem_rows Ass (K + K_star) (2 * K + K_star) 0 K AinvAWCgamma ;;
            Ass <- isub_diag Ass (K + K_star) 0 ones ;;
            setitem_rows Ass (K + K_star) (2 * K + K_star) K (K + K_star)
                         AinvAWCgammaW
          else Ok Ass) ;;
  if (integr_order self =? 2)%Z then
    Ass <- setitem_rows Ass (K + K_star) (2 * K + K_star) 0 K
                        (scale bp1 AinvAWCgamma) ;;
    Ass <- iadd_diag Ass (K + K_star) 0 (map (mul b0) ones) ;;
    Ass <- setitem_rows Ass (K + K_star) (2 * K + K_star) K (K + K_star)
                        (scale bp1 AinvAWCgammaW) ;;
    Ass <- setitem_diag Ass (K + K_star) (2 * K + K_star) (map (mul bm1) ones) ;;
    (* identity eq. *)
    setitem_diag Ass (2 * K + K_star) 0 ones
  else Ok Ass.

(** The B matrix. *)
Definition assemble_B (self : t) (Bup : ndarray R) : result (ndarray R) :=
  let K := K self in
  let K_star := K_star self in
  let bp1 := three / two in
  let Bss := np_zeros (Nx self) (Nu self) in
  Bss <- setitem Bss 0 K 0 (ncols Bss) Bup ;;
  Bss <- (if (integr_order self =? 1)%Z
          then setitem Bss (K + K_star) (2 * K + K_star) 0 (ncols Bss) Bup
          else Ok Bss) ;;
  if (integr_order self =? 2)%Z
  then setitem Bss (K + K_star) (2 * K + K_star) 0 (ncols Bss) (scale bp1 Bup)
  else Ok Bss.

(** The state terms of the output equation: the C matrix. *)
Definition assemble_C (self : t) (ass : assembly.blocks R) : result (ndarray R) :=
  let K := K self in
  let K_star := K_star self in
  let Css := np_zeros (Ny self) (Nx self) in
  Css <- setitem Css 0 (nrows Css) 0 K (assembly.Dfqsdgamma ass) ;;
  Css <- setitem Css 0 (nrows Css) K (K + K_star) (assembly.Dfqsdgamma_star ass) ;;
  if include_added_mass self
  then setitem Css 0 (nrows Css) (K + K_star) (2 * K + K_star)
               (divide (assembly.Dfunstdgamma_dot ass) (dt self))
  else Ok Css.

(** The input terms of the output equation: the D matrix. *)
Definition assemble_D (self : t) (ass : assembly.blocks R) : result (ndarray R) :=
  let Kzeta := Kzeta self in
  let Dss := np_zeros (Ny self) (Nu self) in
  Dss <- setitem Dss 0 (nrows Dss) 0 (3 * Kzeta) (assembly.Dfqsdzeta_vrel0 ass) ;;
  X <- np_add (getitem Dss 0 (nrows Dss) 0 (3 * Kzeta)) (assembly.Dfqsdvind_zeta ass) ;;
  Dss <- setitem Dss 0 (nrows Dss) 0 (3 * Kzeta) X ;;
  Dss <- setitem Dss 0 (nrows Dss) (6 * Kzeta) (9 * Kzeta) (assembly.Dfqsduinput ass) ;;
  if include_added_mass self
  then setitem Dss 0 (nrows Dss) (3 * Kzeta) (6 * Kzeta)
               (neg (getitem Dss 0 (nrows Dss) (6 * Kzeta) (9 * Kzeta)))
  else Ok Dss.

(** [assemble_ss], up to the choice of the form of the model: the four
    matrices of x' = A x + B u', y = C x + D u. *)
Definition assemble_matrices (self : t) (ass : assembly.blocks R)
  : result (ndarray R * ndarray R * ndarray R * ndarray R) :=
  (* state eq. *)
  AinvAW <- lu_solve (assembly.A0 ass) (assembly.A0W ass) ;;
  let Cgamma := assembly.Cgamma ass in
  let CgammaW := assembly.CgammaW ass in
  X <- dot AinvAW Cgamma ;;
  let AinvAWCgamma := neg X in
  X <- dot AinvAW CgammaW ;;
  let AinvAWCgammaW := neg X in
  Ass <- assemble_A self AinvAWCgamma AinvAWCgammaW Cgamma CgammaW ;;
  AinvWnv0 <- lu_solve (assembly.A0 ass) (assembly.Wnv0 ass) ;;
  X <- lu_solve (assembly.A0 ass) (assembly.Ducdzeta ass) ;;
  X <- hstack (neg X) AinvWnv0 ;;
  Bup <- hstack X (neg AinvWnv0) ;;
  Bss <- assemble_B self Bup ;;
  (* output eq. *)
  Css <- assemble_C self ass ;;
  Dss <- assemble_D self ass ;;
  Ok (Ass, Bss, Css, Dss).

Definition assemble_ss (self : t) (ass : assembly.blocks R) : result t :=
  '(Ass, Bss, Css, Dss) <- assemble_matrices self ass ;;
  if remove_predictor self then
    '(Ass, Bmod, Css, Dmod) <- libss.SSconv Ass Bss Css Dss ;;
    Ok (set_SS self (libss.mk_ss Ass Bmod Css Dmod (dt self)) (Some Bss))
  else
    Ok (set_SS self (libss.mk_ss Ass Bss Css Dss (dt self)) (B_predictor self)).
End Assembly.

(** *** [get_Cw_cpx] *)

Section Wake.
Context {S : Type} {NS : Num S}.

(** The state of the loop over the surfaces. *)
Record Cw_state : Type := mk_Cw {
  K0tot : Z;
  K0totstar : Z;
  jjvec : list Z;
  iivec : list Z;
  valvec : list S }.

(** [for mm in range(Mstar)]: one chord-wise wake row. *)
Definition Cw_row (zval : S) (M N : Z) (K0 K0star : Z)
    (acc : list Z * list Z * list S) (mm : nat)
  : list Z * list Z * list S :=
  let '(jj, ii, val) := acc in
  let mm := Z.of_nat mm in
  (jj ++ range (K0 + N * (M - 1)) (K0 + N * M),
   ii ++ range (K0star + mm * N) (K0star + (mm + 1) * N),
   val ++ repeat (power zval (- mm - 1)) (Z.to_nat N))%Z.

(** [for ss in range(MS.n_surf)]: one surface. *)
Definition Cw_surface (zval : S) (MS : MultiAeroGridSurfaces.t)
    (st : Cw_state) (ss : nat) : result Cw_state :=
  '(M, _) <- lookup (MultiAeroGridSurfaces.dimensions MS) ss ;;
  '(Mstar, N) <- lookup (MultiAeroGridSurfaces.dimensions_star MS) ss ;;
  let '(jj, ii, val) :=
    fold_left (Cw_row zval (Z.of_nat M) (Z.of_nat N) (K0tot st) (K0totstar st))
              (seq 0 Mstar) (jjvec st, iivec st, valvec st) in
  kk <- lookup (MultiAeroGridSurfaces.KK MS) ss ;;
  kks <- lookup (MultiAeroGridSurfaces.KK_star MS) ss ;;
  Ok (mk_Cw (K0tot st + Z.of_nat kk) (K0totstar st + Z.of_nat kks) jj ii val).

Definition get_Cw_cpx (self : t) (zval : S) : result (ndarray S) :=
  let MS := MS self in
  st <- for_each (seq 0 (MultiAeroGridSurfaces.n_surf MS)) (Cw_surface zval MS)
                 (mk_Cw 0 0 [] [] []) ;;
  csc_matrix (valvec st) (iivec st) (jjvec st) (K_star self) (K self).
End Wake.

(** *** [balfreq] *)

Section Balancing.
Variables np_cos np_sin : R -> R.
(** [np.linalg.inv], [libsp.solve], [scalg.svd(M, full_matrices=False)]
    and [s ** (-0.5)]. *)
Variable linalg_inv : ndarray (complex R) -> result (ndarray (complex R)).
Variable libsp_solve :
  ndarray (complex R) -> ndarray (complex R) -> result (ndarray (complex R)).
Variable svd :
  ndarray (complex R) ->
  result (ndarray (complex R) * vector R * ndarray (complex R)).
Variable rsqrt : R -> R.

Local Abbreviation C := (complex R).

(** The arrays that one pass of the frequency loop updates. *)
Record factors : Type := mk_factors {
  f_Zc : ndarray C;
  f_Zo : ndarray C;
  f_Qobs : ndarray C }.

(** The body of [for kk in range(len(kvdt))]. *)
Definition balfreq_point (self : t) (sys : libss.ss R R)
    (P Pw Bup : ndarray R) (zv : list C) (wv : list R) (Nk_low : nat)
    (st : factors) (kk : nat) : result factors :=
  let K := K self in
  let K_star := K_star self in
  let Eye : ndarray R := np_eye K in
  (* indices to manipulate obs solution *)
  let ii00 := (0, K) in
  let ii01 := (K, K + K_star)%nat in
  let ii02 := (K + K_star, 2 * K + K_star)%nat in
  let ii03 := (2 * K + K_star, 3 * K + K_star)%nat in
  (* integration factors *)
  let b0 : R := if (integr_order self =? 2)%Z then - two else - one in
  let bp1 : R := if (integr_order self =? 2)%Z then three / two else one in
  let bm1 : result R :=
    if (integr_order self =? 2)%Z then Ok (one / two) else unbound "bm1"%string in
  let bp0 : result R := unbound "bp0"%string in
  let inputs := libss.inputs sys in
  let outputs := libss.outputs sys in
  zval <- lookup zv kk ;;
  Intfact <- lookup wv kk ;;
  (* build terms that will be recycled *)
  Cw_cpx <- get_Cw_cpx self zval ;;
  PwCw_T <- dot (transpose Cw_cpx) (astype_complex (transpose Pw)) ;;
  X <- np_sub (scale zval (astype_complex Eye)) (astype_complex P) ;;
  X <- np_sub X (transpose PwCw_T) ;;
  Kernel <- linalg_inv X ;;
  (* controllability *)
  X <- dot Kernel (astype_complex Bup) ;;
  let Ygamma := scale (cplx_of Intfact) X in
  Ygamma_star <- dot Cw_cpx Ygamma ;;
  Qctrl <- (if (integr_order self =? 1)%Z then
              bp0 <- bp0 ;;
              let dfact := cplx_of bp1 + cplx_of bp0 / zval in
              X <- vstack Ygamma Ygamma_star ;;
              vstack X (scale dfact Ygamma)
            else if (integr_order self =? 2)%Z then
              bm1 <- bm1 ;;
              let dfact := cplx_of bp1 + cplx_of b0 / zval
                           + cplx_of bm1 / power zval 2 in
              X <- vstack Ygamma Ygamma_star ;;
              X <- vstack X (scale dfact Ygamma) ;;
              vstack X (scale (cplx_of one / zval) Ygamma)
            else Raise (NameError "Specify valid integration order"%string)) ;;
  Zc <- setitem_cols (f_Zc st) (2 * kk * inputs) (2 * kk * inputs + inputs)
                     (astype_complex (amap (@real R) Qctrl)) ;;
  Zc <- setitem_cols Zc (2 * kk * inputs + inputs) (2 * (kk + 1) * inputs)
                     (astype_complex (amap (@imag R) Qctrl)) ;;
  (* observability *)
  if Nk_low <=? kk then Ok (mk_factors Zc (f_Zo st) (f_Qobs st))
  else
    let zinv := cplx_of one / zval in
    let Cw_cpx_H := transpose (amap conj Cw_cpx) in
    C02 <- getitem_cols (libss.C sys) (fst ii02) (snd ii02) ;;
    let C02T := astype_complex (transpose C02) in
    Qobs <- setitem_rows (f_Qobs st) (fst ii02) (snd ii02) 0 (ncols (f_Qobs st))
                         (scale zval C02T) ;;
    Qobs <- (if (integr_order self =? 2)%Z then
               bm1 <- bm1 ;;
               setitem_rows Qobs (fst ii03) (snd ii03) 0 (ncols Qobs)
                            (scale (cplx_of bm1 * power zval 2) C02T)
             else Ok Qobs) ;;
    C00 <- getitem_cols (libss.C sys) (fst ii00) (snd ii00) ;;
    C01 <- getitem_cols (libss.C sys) (fst ii01) (snd ii01) ;;
    let C00T := astype_complex (transpose C00) in
    let C01T := astype_complex (transpose C01) in
    X <- dot Cw_cpx_H C01T ;;
    rhs <- np_add C00T X ;;
    bm1 <- bm1 ;;
    X <- np_add (scale (cplx_of bp1 * zval) (amap conj PwCw_T))
                (scale (cplx_of bp1 * zval) (astype_complex (transpose P))) ;;
    X <- np_add X (scale (cplx_of b0 * zval + cplx_of bm1 * power zval 2)
                         (astype_complex Eye)) ;;
    X <- dot X C02T ;;
    rhs <- np_add rhs X ;;
    X <- dot (transpose (amap conj Kernel)) rhs ;;
    Qobs <- setitem_rows Qobs (fst ii00) (snd ii00) 0 (ncols Qobs) X ;;
    Eye_star <- csc_matrix (map (mul zinv) (np_ones K_star))
                           (range 0 (Z.of_nat K_star)) (range 0 (Z.of_nat K_star))
                           K_star K_star ;;
    lhs <- np_sub Eye_star
             (astype_complex
                (transpose (getitem (libss.A sys) K (K + K_star) K (K + K_star)))) ;;
    Q00 <- getitem_rows Qobs (fst ii00) (snd ii00) ;;
    X <- np_add Q00 (scale (cplx_of bp1 * zval) C02T) ;;
    X <- dot (astype_complex (transpose Pw)) X ;;
    X <- np_add X C01T ;;
    X <- libsp_solve lhs X ;;
    Qobs <- setitem_rows Qobs (fst ii01) (snd ii01) 0 (ncols Qobs) X ;;
    Zo <- setitem_cols (f_Zo st) (2 * kk * outputs) (2 * kk * outputs + outputs)
            (scale (cplx_of Intfact) (astype_complex (amap (@real R) Qobs))) ;;
    Zo <- setitem_cols Zo (2 * kk * outputs + outputs) (2 * (kk + 1) * outputs)
            (scale (cplx_of Intfact) (astype_complex (amap (@imag R) Qobs))) ;;
    Ok (mk_factors Zc Zo Qobs).

(** The checks and the frequency loop: everything [balfreq] does before
    it writes an attribute.  The blocks [P], [Pw] and [Bup] are those of a
    dense instance; on an instance with [use_sparse] the code converts [P]
    and [Pw] to arrays of the same entries and leaves [Bup] a
    [libsparse.csc_matrix], and the products of the loop with that operand
    are not represented. *)
Definition balfreq_factors (self : t) (kv_low kv_high : vector R)
    (wv_low wv_high : option (vector R)) : result (ndarray C * ndarray C) :=
  '(wv_low, wv_high) <-
    match wv_low, wv_high with
    | Some wl, Some wh => Ok (wl, wh)
    | _, _ => Raise (NameError "Automatic weights under development"%string)
    end ;;
  if remove_predictor self
  then Raise (NameError "Case without predictor Not yet implemented!"%string)
  else
    let K := K self in
    let K_star := K_star self in
    sys <- get_SS self ;;
    let Bup := getitem (libss.B sys) 0 K 0 (ncols (libss.B sys)) in
    let P := getitem (libss.A sys) 0 K 0 K in
    let Pw := getitem (libss.A sys) 0 K K (K + K_star) in
    let Nk_low := List.length kv_low in
    let kvdt := map (fun k => k * libss.dt sys) (kv_low ++ kv_high) in
    let wv := map (fun w => w * libss.dt sys) (wv_low ++ wv_high) in
    let zv := map (fun x => Cpx (np_cos x) (np_sin x)) kvdt in
    let Qobs := np_zeros (libss.states sys) (libss.outputs sys) in
    let Zc := np_zeros (libss.states sys) (2 * libss.inputs sys * List.length kvdt) in
    let Zo := np_zeros (libss.states sys) (2 * libss.outputs sys * Nk_low) in
    st <- for_each (seq 0 (List.length kvdt))
                   (balfreq_point self sys P Pw Bup zv wv Nk_low)
                   (mk_factors Zc Zo Qobs) ;;
    Ok (f_Zc st, f_Zo st).

(** The low-rank square-root method and the balanced model. *)
Definition balfreq_project (sys : libss.ss R R) (Zc Zo : ndarray C)
  : result (libss.ss C R * ndarray C * vector R) :=
  M <- dot (transpose Zo) Zc ;;
  '(U, s, Vh) <- svd M ;;
  let sinv := map (fun x => cplx_of (rsqrt x)) s in
  X <- mul_cols (transpose Vh) sinv ;;
  T <- dot Zc X ;;
  X <- mul_cols U sinv ;;
  Ti <- dot (transpose X) (transpose Zo) ;;
  (* build frequency balanced model *)
  X <- dot (astype_complex (libss.A sys)) T ;;
  Ab <- dot Ti X ;;
  Bb <- dot Ti (astype_complex (libss.B sys)) ;;
  Cb <- dot (astype_complex (libss.C sys)) T ;;
  Ok (libss.mk_ss Ab Bb Cb (libss.D sys) (libss.dt sys), T, s).

(** [balfreq(kv_low, kv_high, wv_low=None, wv_high=None)]: the instance
    after the call, with what the call returned or raised. *)
Definition balfreq (self : t) (kv_low kv_high : vector R)
    (wv_low wv_high : option (vector R)) : t * result unit :=
  match balfreq_factors self kv_low kv_high wv_low wv_high with
  | Raise e => (self, Raise e)
  | Ok (Zc, Zo) =>
      let self := set_factors self Zc Zo in
      match get_SS self with
      | Raise e => (self, Raise e)
      | Ok sys =>
          match balfreq_project sys Zc Zo with
          | Raise e => (self, Raise e)
          | Ok (SSb, T, s) => (set_balanced self SSb T s, Ok tt)
          end
      end
  end.
End Balancing.
(** *** [unpack_state] *)

(** [unpack_state(xvec)]: the bound circulation, the wake circulation and
    the circulation derivative held in a state. *)
Definition unpack_state (self : t) (xvec : vector R)
  : vector R * vector R * vector R :=
  let K := K self in
  let K_star := K_star self in
  let gamma_vec := vslice xvec 0 K in
  let gamma_star_vec := vslice xvec K (K + K_star) in
  let gamma_dot_vec := vdivide (vslice xvec (K + K_star) (2 * K + K_star)) (dt self) in
  (gamma_vec, gamma_star_vec, gamma_dot_vec).

(** *** [freqresp] *)

Section FrequencyResponse.
Variables np_cos np_sin : R -> R.
(** [libsp.solve]. *)
Variable libsp_solve :
  ndarray (complex R) -> ndarray (complex R) -> result (ndarray (complex R)).

Local Abbreviation C := (complex R).

Definition four : R := two + two.

(** [Yfreq[:, :, kk] = Y]: the array [Yfreq] of shape (outputs, inputs, Nk)
    is the list of its slices [Yfreq[:, :, kk]], which the loop sets one
    after the other; a slice takes an array of shape (outputs, inputs). *)
Definition set_slice (outputs inputs : nat) (Yfreq : list (ndarray C))
    (Y : ndarray C) : result (list (ndarray C)) :=
  if (nrows Y =? outputs) && (ncols Y =? inputs)
  then Ok (Yfreq ++ [Y])
  else Raise ValueError.

(** The body of the loop over the frequencies, with the predictor: the
    array assigned to [Yfreq[:, :, kk]]. *)
Definition freqresp_point (self : t) (sys : libss.ss R R)
    (P Pw Bup : ndarray R) (zval : C) : result (ndarray C) :=
  let K := K self in
  let K_star := K_star self in
  let Eye : ndarray R := np_eye K in
  let Css := libss.C sys in
  (* build Cw complex *)
  Cw_cpx <- get_Cw_cpx self zval ;;
  X <- np_sub (scale zval (astype_complex Eye)) (astype_complex P) ;;
  PwCw <- dot (astype_complex Pw) Cw_cpx ;;
  X <- np_sub X PwCw ;;
  Ygamma <- libsp_solve X (astype_complex Bup) ;;
  Ygamma_star <- dot Cw_cpx Ygamma ;;
  dfact <- (if (integr_order self =? 1)%Z then
              Ok (cplx_of one - cplx_of one / zval)
            else if (integr_order self =? 2)%Z then
              Ok (cplx_of (one / two)
                  * (cplx_of three - cplx_of four / zval
                     + cplx_of one / power zval 2))
            else Raise (NameError "Specify valid integration order"%string)) ;;
  (* calculate solution *)
  Y0 <- dot (astype_complex (getitem Css 0 (nrows Css) 0 K)) Ygamma ;;
  Y1 <- dot (astype_complex (getitem Css 0 (nrows Css) K (K + K_star))) Ygamma_star ;;
  Y <- np_add Y0 Y1 ;;
  Y2 <- dot (astype_complex (getitem Css 0 (nrows Css) (K + K_star) (2 * K + K_star)))
            (scale dfact Ygamma) ;;
  Y <- np_add Y Y2 ;;
  np_add Y (astype_complex (libss.D sys)).

(** The body of the loop over the frequencies, with the predictor removed. *)
Definition freqresp_point_predictor (self : t) (sys : libss.ss R R)
    (P Pw : ndarray R) (zval : C) : outcome (ndarray C) :=
  let K := K self in
  let K_star := K_star self in
  let Eye : ndarray R := np_eye K in
  let Ass := libss.A sys in
  let Css := libss.C sys in
  (* build Cw complex *)
  Cw_cpx <~ get_Cw_cpx self zval ;;
  X <~ np_sub (scale zval (astype_complex Eye)) (astype_complex P) ;;
  PwCw <~ dot (astype_complex Pw) Cw_cpx ;;
  X <~ np_sub X PwCw ;;
  Bp <~ match B_predictor self with
        | Some Bp => Returns Bp
        | None => Raises (TypeError "'NoneType' object is not subscriptable"%string)
        end ;;
  Ygamma <~ libsp_solve X (scale zval (astype_complex (getitem Bp 0 K 0 (ncols Bp)))) ;;
  Ygamma_star <~ dot Cw_cpx Ygamma ;;
  let ii0 := (K + K_star)%nat in
  let ii1 := (2 * K + K_star)%nat in
  Arows <~ getitem_rows Ass ii0 ii1 ;;
  D0 <~ dot (astype_complex (getitem Arows 0 (nrows Arows) 0 K)) Ygamma ;;
  Arows <~ getitem_rows Ass ii0 ii1 ;;
  D1 <~ dot (astype_complex (getitem Arows 0 (nrows Arows) K (K + K_star))) Ygamma_star ;;
  Ydelta <~ np_add D0 D1 ;;
  Brows <~ getitem_rows (libss.B sys) ii0 ii1 ;;
  Ydelta <~ np_add Ydelta (astype_complex Brows) ;;
  Ydelta <~ (if (integr_order self =? 1)%Z then Returns Ydelta (* all done *)
             else if (integr_order self =? 2)%Z then
               let Ygamma_old := scale (cplx_of one / zval) Ygamma in
               Arows <~ getitem_rows Ass ii0 ii1 ;;
               D2 <~ dot (astype_complex
                            (getitem Arows 0 (nrows Arows) (2 * K + K_star) (ncols Arows)))
                         Ygamma_old ;;
               np_add Ydelta D2
             else Raise (NameError "Specify valid integration order"%string)) ;;
  let Ydelta := divide Ydelta zval in
  Y0 <~ dot (astype_complex (getitem Css 0 (nrows Css) 0 K)) Ygamma ;;
  Y1 <~ dot (astype_complex (getitem Css 0 (nrows Css) K (K + K_star))) Ygamma_star ;;
  Y <~ np_add Y0 Y1 ;;
  Y2 <~ dot (astype_complex (getitem Css 0 (nrows Css) (K + K_star) (2 * K + K_star)))
            Ydelta ;;
  Y <~ np_add Y Y2 ;;
  np_add Y (astype_complex (libss.D sys)).

(** [for kk in range(Nk)], around either body. *)
Definition freqresp_loop (sys : libss.ss R R) (point : C -> outcome (ndarray C))
    (zv : list C) : outcome (list (ndarray C)) :=
  ofor_each (seq 0 (List.length zv))
            (fun Yfreq kk =>
               zval <~ lookup zv kk ;;
               Y <~ point zval ;;
               set_slice (libss.outputs sys) (libss.inputs sys) Yfreq Y)
            [].

(** [freqresp(kv)].  With [use_sparse] the blocks [P] and [Pw] are made
    dense, which leaves their entries as they are. *)
Definition freqresp (self : t) (kv : vector R) : outcome (list (ndarray C)) :=
  if remove_predictor self
  then Raises (AssertionError
         "Fast frequency response not implemented for remove_predictor - True"%string)
  else
    let K := K self in
    let K_star := K_star self in
    sys <~ get_SS self ;;
    let Bup := getitem (libss.B sys) 0 K 0 (ncols (libss.B sys)) in
    let P := getitem (libss.A sys) 0 K 0 K in
    let Pw := getitem (libss.A sys) 0 K K (K + K_star) in
    let kvdt := map (fun k => k * libss.dt sys) kv in
    let zv := map (fun x => Cpx (np_cos x) (np_sin x)) kvdt in
    if remove_predictor self
    then freqresp_loop sys (freqresp_point_predictor self sys P Pw) zv
    else freqresp_loop sys (fun zval => freqresp_point self sys P Pw Bup zval) zv.
End FrequencyResponse.

(** *** [solve_steady] *)

Section SteadyState.
(** [libsp.eye_as]; [libsp.solve] and [np.linalg.solve] with a
    one-dimensional right-hand side; [np.linalg.norm]; [a > b] on floats. *)
Variable libsp_eye_as : ndarray R -> ndarray R.
Variable libsp_solve : ndarray R -> vector R -> result (vector R).
Variable linalg_solve : ndarray R -> vector R -> result (vector R).
Variable linalg_norm : vector R -> R.
Variable gt : R -> R -> bool.

(** The state of [for ss_in in range(MS.n_surf)]. *)
Record condensed : Type := mk_condensed {
  c_AIC : ndarray R;
  c_K0in : nat;
  c_K0in_star : nat }.

(** The body of the loop over the surfaces [ss_in]: the wake columns of a
    pair of surfaces are summed along the chord and taken from the last
    [N_star] columns of the block [aic] of [AIC], which is a view. *)
Definition condense_pair (MS : MultiAeroGridSurfaces.t) (PwCw : ndarray R)
    (K0out Kout : nat) (st : condensed) (ss_in : nat) : result condensed :=
  let AIC := c_AIC st in
  let K0in := c_K0in st in
  let K0in_star := c_K0in_star st in
  Kin <- lookup (MultiAeroGridSurfaces.KK MS) ss_in ;;
  Kin_star <- lookup (MultiAeroGridSurfaces.KK_star MS) ss_in ;;
  (* link to sub-matrices *)
  let r0 := Nat.min K0out (nrows AIC) in
  let r1 := Nat.min (K0out + Kout) (nrows AIC) in
  let c0 := Nat.min K0in (ncols AIC) in
  let c1 := Nat.min (K0in + Kin) (ncols AIC) in
  let aic_star := getitem PwCw K0out (K0out + Kout) K0in_star (K0in_star + Kin_star) in
  (* fold aic_star: sum along chord at each span-coordinate *)
  N_star <- lookup (MultiAeroGridSurfaces.NN_star MS) ss_in ;;
  aic_star_fold <- (if (N_star =? 0) || (nrows aic_star =? Kout)
                    then Ok (mk_ndarray Kout N_star
                               (fun i jj => strided_sum aic_star i jj N_star))
                    else Raise ValueError) ;;
  let cs := (c0 + (if N_star =? 0 then 0 else c1 - c0 - N_star))%nat in
  X <- np_sub (getitem AIC r0 r1 cs c1) aic_star_fold ;;
  AIC <- setitem AIC r0 r1 cs c1 X ;;
  Ok (mk_condensed AIC (K0in + Kin) (K0in_star + Kin_star)).

(** The body of the loop over the surfaces [ss_out]. *)
Definition condense_surface (MS : MultiAeroGridSurfaces.t) (PwCw : ndarray R)
    (st : ndarray R * nat * nat) (ss_out : nat) : result (ndarray R * nat * nat) :=
  let '(AIC, K0out, K0out_star) := st in
  Kout <- lookup (MultiAeroGridSurfaces.KK MS) ss_out ;;
  Kout_star <- lookup (MultiAeroGridSurfaces.KK_star MS) ss_out ;;
  st' <- for_each (seq 0 (MultiAeroGridSurfaces.n_surf MS))
                  (condense_pair MS PwCw K0out Kout) (mk_condensed AIC 0 0) ;;
  Ok (c_AIC st', K0out + Kout, K0out_star + Kout_star)%nat.

(** The body of the loop that retrieves gamma over the wake. *)
Definition wake_copies (MS : MultiAeroGridSurfaces.t) (gamma : vector R)
    (st : list (vector R) * nat) (ss : nat) : result (list (vector R) * nat) :=
  let '(gamma_star, Ktot) := st in
  k <- MultiAeroGridSurfaces.Surfs_maps_K MS ss ;;
  let Ktot := (Ktot + k)%nat in
  N <- MultiAeroGridSurfaces.Surfs_maps_N MS ss ;;
  Mstar <- MultiAeroGridSurfaces.Surfs_star_maps_M MS ss ;;
  piece <- np_concatenate
             (repeat (pyslice gamma (Z.of_nat Ktot - Z.of_nat N) (Z.of_nat Ktot)) Mstar) ;;
  Ok (gamma_star ++ [piece], Ktot).

(** The state vector that the branches on the integration order bind. *)
Definition bound_xsta (xsta : option (vector R)) : outcome (vector R) :=
  match xsta with
  | Some x => Returns x
  | None => unbound_local "xsta"
  end.

(** [method == 'minsize']. *)
Definition solve_steady_minsize (self : t) (sys : libss.ss R R) (usta : vector R)
  : outcome (vector R * vector R) :=
  let MS := MS self in
  let K := K self in
  let K_star := K_star self in
  let Ass := libss.A sys in
  let Bss := libss.B sys in
  (* build eq. 2 *)
  let P := getitem Ass 0 K 0 K in
  let Pw := getitem Ass 0 K K (K + K_star) in
  let C := getitem Ass K (K + K_star) 0 K in
  let Cw := getitem Ass K (K + K_star) K (K + K_star) in
  PwCw <~ dot Pw Cw ;;
  (* build eq. 3 *)
  X <~ np_sub (np_eye K) P ;;
  PwC <~ dot Pw C ;;
  AIC <~ np_sub X PwC ;;
  (* condense Gammaw terms *)
  '(AIC, _, _) <~ for_each (seq 0 (MultiAeroGridSurfaces.n_surf MS))
                           (condense_surface MS PwCw) (AIC, 0, 0) ;;
  (* solve: gamma *)
  Bu <~ dotv (getitem Bss 0 K 0 (ncols Bss)) usta ;;
  gamma <~ linalg_solve AIC Bu ;;
  (* retrieve gamma over wake *)
  '(gamma_star, _) <~ for_each (seq 0 (MultiAeroGridSurfaces.n_surf MS))
                               (wake_copies MS gamma) ([], 0) ;;
  gamma_star <~ np_concatenate gamma_star ;;
  let zeros_like_gamma := repeat zero (length gamma) in
  let xsta := if (integr_order self =? 1)%Z
              then Some (gamma ++ gamma_star ++ zeros_like_gamma)
              else None in
  let xsta := if (integr_order self =? 2)%Z
              then Some (gamma ++ gamma_star ++ zeros_like_gamma ++ gamma)
              else xsta in
  xsta <~ bound_xsta xsta ;;
  Cx <~ dotv (libss.C sys) xsta ;;
  Du <~ dotv (libss.D sys) usta ;;
  ysta <~ vadd Cx Du ;;
  Returns (xsta, ysta).

(** [method == 'direct']: solves (I - A) x = B u with a direct method. *)
Definition solve_steady_direct (sys : libss.ss R R) (usta : vector R)
  : outcome (vector R * vector R) :=
  X <~ np_sub (libsp_eye_as (libss.A sys)) (libss.A sys) ;;
  Bu <~ dotv (libss.B sys) usta ;;
  xsta <~ libsp_solve X Bu ;;
  Cx <~ dotv (libss.C sys) xsta ;;
  Du <~ dotv (libss.D sys) usta ;;
  ysta <~ vadd Cx Du ;;
  Returns (xsta, ysta).

(** [1e-4]. *)
Definition ten : R := two * (two + three).
Definition tol : R := one / pow_nat ten 4.

(** The variables of the loop of the recursive solution. *)
Record marching : Type := mk_marching {
  m_er : R;
  m_Ftot0 : vector R;
  m_xsta : vector R;
  m_ysta : option (vector R) }.

(** [while er > tol and nn < 1000], with [1000 - nn] passes left. *)
Fixpoint recursive_loop (left : nat) (self : t) (sys : libss.ss R R)
    (usta : vector R) (st : marching) : result marching :=
  match left with
  | O => Ok st
  | S left' =>
      if gt (m_er st) tol then
        Ax <- dotv (libss.A sys) (m_xsta st) ;;
        Bu <- dotv (libss.B sys) usta ;;
        xsta <- vadd Ax Bu ;;
        Cx <- dotv (libss.C sys) xsta ;;
        Du <- dotv (libss.D sys) usta ;;
        ysta <- vadd Cx Du ;;
        let Ftot := map (fun cc => np_sum (vslice ysta (cc * Kzeta self)
                                                  ((cc + 1) * Kzeta self)))
                        (seq 0 3) in
        diff <- vsub Ftot (m_Ftot0 st) ;;
        let er := linalg_norm diff in
        recursive_loop left' self sys usta (mk_marching er Ftot xsta (Some ysta))
      else Ok st
  end.

(** [method == 'recursive']: the steady state as the limit of the response
    to a constant input.  The message printed when the iterations end above
    the tolerance is not represented. *)
Definition solve_steady_recursive (self : t) (sys : libss.ss R R) (usta : vector R)
  : outcome (vector R * vector R) :=
  st <~ recursive_loop 1000 self sys usta
          (mk_marching one (repeat zero 3) (repeat zero (Nx self)) None) ;;
  match m_ysta st with
  | Some ysta => Returns (m_xsta st, ysta)
  | None => unbound_local "ysta"
  end.

(** [method == 'subsystem']: solves the sub-system of the states Gamma and
    Gamma_w only. *)
Definition solve_steady_subsystem (self : t) (sys : libss.ss R R) (usta : vector R)
  : outcome (vector R * vector R) :=
  let Nxsub := (K self + K_star self)%nat in
  Asub_steady <~ np_sub (np_eye Nxsub) (getitem (libss.A sys) 0 Nxsub 0 Nxsub) ;;
  Bu <~ dotv (getitem (libss.B sys) 0 Nxsub 0 (ncols (libss.B sys))) usta ;;
  xsub <~ linalg_solve Asub_steady Bu ;;
  let xsta := if (integr_order self =? 1)%Z
              then Some (xsub ++ repeat zero (K self))
              else None in
  let xsta := if (integr_order self =? 2)%Z
              then Some (xsub ++ repeat zero (2 * K self))
              else xsta in
  xsta <~ bound_xsta xsta ;;
  Cx <~ dotv (libss.C sys) xsta ;;
  Du <~ dotv (libss.D sys) usta ;;
  ysta <~ vadd Cx Du ;;
  Returns (xsta, ysta).

(** [solve_steady(usta, method='direct')]. *)
Definition solve_steady (self : t) (usta : vector R) (method : string)
  : outcome (vector R * vector R) :=
  if remove_predictor self && negb (method =? "direct")%string then
    Raise (NameError "Only direct solution is available if predictor term has been removed from the state-space equations (see assembly_ss)"%string)
  else if use_sparse self && negb (method =? "direct")%string then
    Raise (NameError "Only direct solution is available if use_sparse is True. (see assembly_ss)"%string)
  else
    sys <~ get_SS self ;;
    if (method =? "minsize")%string then solve_steady_minsize self sys usta
    else if (method =? "direct")%string then solve_steady_direct sys usta
    else if (method =? "recursive")%string then solve_steady_recursive self sys usta
    else if (method =? "subsystem")%string then solve_steady_subsystem self sys usta
    else Raise (NameError ("Method " ++ method ++ " not recognised!")%string).
End SteadyState.

End Model.
Arguments t : clear implicits.
End Dynamic.

(** ** The [Frequency] class *)

Module Frequency.
Section Model.
Context {R : Type} {N : Num R}.
Local Open Scope num_scope.

(** The matrices that [assemble] stores in the instance, all at once. *)
Record matrices : Type := mk_matrices {
  A0 : ndarray R;
  A0W : ndarray R;
  Bss : ndarray R;
  Css : ndarray R;
  Dss : ndarray R }.

(** The attributes of an instance; the matrices are [None] until
    [assemble] has run. *)
Record t : Type := mk {
  MS : MultiAeroGridSurfaces.t;
  K : nat;
  K_star : nat;
  Kzeta : nat;
  Kzeta_star : nat;
  dt : R;
  integr_order : Z;
  inputs : nat;
  outputs : nat;
  remove_predictor : bool;
  use_sparse : bool;
  ScalingFacts : Scaling.t R;
  mats : option matrices }.

Definition set_mats (self : t) (m : matrices) : t :=
  mk (MS self) (K self) (K_star self) (Kzeta self) (Kzeta_star self)
     (dt self) (integr_order self) (inputs self) (outputs self)
     (remove_predictor self) (use_sparse self) (ScalingFacts self) (Some m).

Definition set_dt (self : t) (dt' : R) : t :=
  mk (MS self) (K self) (K_star self) (Kzeta self) (Kzeta_star self)
     dt' (integr_order self) (inputs self) (outputs self)
     (remove_predictor self) (use_sparse self) (ScalingFacts self) (mats self).

Definition set_inputs (self : t) (n : nat) : t :=
  mk (MS self) (K self) (K_star self) (Kzeta self) (Kzeta_star self)
     (dt self) (integr_order self) n (outputs self)
     (remove_predictor self) (use_sparse self) (ScalingFacts self) (mats self).

Definition set_outputs (self : t) (n : nat) : t :=
  mk (MS self) (K self) (K_star self) (Kzeta self) (Kzeta_star self)
     (dt self) (integr_order self) (inputs self) n
     (remove_predictor self) (use_sparse self) (ScalingFacts self) (mats self).

(** Reading one of the attributes [A0], [A0W], [Bss], [Css], [Dss]. *)
Definition get_mats (name : string) (self : t) : result matrices :=
  match mats self with
  | Some m => Ok m
  | None => Raise (AttributeError
                     ("'Frequency' object has no attribute '" ++ name ++ "'")%string)
  end.

(** [Frequency.__init__(tsdata, dt, integr_order, RemovePredictor,
    ScalingDict, UseSparse)]; the lattice [MS] stands for [tsdata], from
    which [Static.__init__] builds it.  As in [Dynamic.__init__],
    [length / speed] is the division of the field, and a returned instance
    stands for a call with a nonzero reference speed. *)
Definition __init__ (MS : MultiAeroGridSurfaces.t) (dt : R) (integr_order : Z)
    (RemovePredictor : bool) (ScalingDict : option (R * R * R))
    (UseSparse : bool) : outcome t :=
  let K := sum (MultiAeroGridSurfaces.KK MS) in
  let K_star := sum (MultiAeroGridSurfaces.KK_star MS) in
  let Kzeta := sum (MultiAeroGridSurfaces.KKzeta MS) in
  let Kzeta_star := sum (MultiAeroGridSurfaces.KKzeta_star MS) in
  if (integr_order =? 1)%Z || (integr_order =? 2)%Z || (integr_order =? 0)%Z then
    let inputs := (9 * Kzeta)%nat in
    let outputs := (3 * Kzeta)%nat in
    let '(length, speed, density) :=
      match ScalingDict with
      | None => (one, one, one)
      | Some d => d
      end in
    let time := length / speed in
    let circulation := speed * length in
    let dyn_pressure := (one / Dynamic.two) * density * power speed 2 in
    let force := dyn_pressure * power length 2 in
    Returns (mk MS K K_star Kzeta Kzeta_star dt integr_order inputs outputs
                RemovePredictor UseSparse
                (Scaling.mk length speed density time circulation dyn_pressure force)
                None)
  else Raises (AssertionError "integr_order must be in [0,1,2]"%string).

Definition nondimss (self : t) : result t :=
  m <- get_mats "Bss" self ;;
  let Kzeta := Kzeta self in
  let sf := ScalingFacts self in
  let B := Bss m in
  let B := imul_cols B 0 (3 * Kzeta) (Scaling.length sf / Scaling.circulation sf) in
  let B := imul_cols B (3 * Kzeta) (ncols B) (Scaling.speed sf / Scaling.circulation sf) in
  let C := Dynamic.imul (Css m) (Scaling.circulation sf / Scaling.force sf) in
  let D := Dss m in
  let D := imul_cols D 0 (3 * Kzeta) (Scaling.length sf / Scaling.force sf) in
  let D := imul_cols D (3 * Kzeta) (ncols D) (Scaling.speed sf / Scaling.force sf) in
  Ok (set_dt (set_mats self (mk_matrices (A0 m) (A0W m) B C D))
             (dt self / Scaling.time sf)).

Definition dimss (self : t) : result t :=
  m <- get_mats "Bss" self ;;
  let Kzeta := Kzeta self in
  let sf := ScalingFacts self in
  let B := Bss m in
  let B := idiv_cols B 0 (3 * Kzeta) (Scaling.length sf / Scaling.circulation sf) in
  let B := idiv_cols B (3 * Kzeta) (ncols B) (Scaling.speed sf / Scaling.circulation sf) in
  let C := divide (Css m) (Scaling.circulation sf / Scaling.force sf) in
  let D := Dss m in
  let D := idiv_cols D 0 (3 * Kzeta) (Scaling.length sf / Scaling.force sf) in
  let D := idiv_cols D (3 * Kzeta) (ncols D) (Scaling.speed sf / Scaling.force sf) in
  Ok (set_dt (set_mats self (mk_matrices (A0 m) (A0W m) B C D))
             (dt self * Scaling.time sf)).

(** [assemble()], on the blocks of the influence-coefficient provider for
    the lattice of the instance. *)
Definition assemble (self : t) (ass : assembly.blocks R) : result t :=
  let K := K self in
  let K_star := K_star self in
  let Kzeta := Kzeta self in
  let Nu := inputs self in
  let Ny := outputs self in
  (* B matrix assembly *)
  X <- hstack (neg (assembly.Ducdzeta ass)) (assembly.Wnv0 ass) ;;
  Bss <- hstack X (neg (assembly.Wnv0 ass)) ;;
  (* C matrix assembly *)
  let Css := np_zeros Ny (2 * K + K_star) in
  Css <- setitem Css 0 (nrows Css) 0 K (assembly.Dfqsdgamma ass) ;;
  Css <- setitem Css 0 (nrows Css) K (K + K_star) (assembly.Dfqsdgamma_star ass) ;;
  (* added mass *)
  Css <- setitem Css 0 (nrows Css) (K + K_star) (2 * K + K_star)
                 (divide (assembly.Dfunstdgamma_dot ass) (dt self)) ;;
  (* input terms (D matrix) *)
  let Dss := np_zeros Ny Nu in
  Dss <- setitem Dss 0 (nrows Dss) 0 (3 * Kzeta) (assembly.Dfqsdzeta_vrel0 ass) ;;
  X <- np_add (getitem Dss 0 (nrows Dss) 0 (3 * Kzeta)) (assembly.Dfqsdvind_zeta ass) ;;
  Dss <- setitem Dss 0 (nrows Dss) 0 (3 * Kzeta) X ;;
  Dss <- setitem Dss 0 (nrows Dss) (6 * Kzeta) (9 * Kzeta) (assembly.Dfqsduinput ass) ;;
  Dss <- setitem Dss 0 (nrows Dss) (3 * Kzeta) (6 * Kzeta)
                 (neg (getitem Dss 0 (nrows Dss) (6 * Kzeta) (9 * Kzeta))) ;;
  (* store matrices *)
  let self := set_mats self (mk_matrices (assembly.A0 ass) (assembly.A0W ass)
                                         Bss Css Dss) in
  Ok (set_outputs (set_inputs self (9 * Kzeta)) (3 * Kzeta)).

(** [addGain(K, where)]: the instance after the call, with what the call
    returned or raised. *)
Definition addGain (self : t) (Kgain : ndarray R) (where_ : string)
  : t * outcome unit :=
  if (where_ =? "in")%string || (where_ =? "out")%string then
    let st :=
      if (where_ =? "in")%string then
        match get_mats "Bss" self with
        | Raise e => (self, Raise e)
        | Ok m =>
            match dot (Bss m) Kgain with
            | Raise e => (self, Raise e)
            | Ok B =>
                let self := set_mats self (mk_matrices (A0 m) (A0W m) B (Css m) (Dss m)) in
                match dot (Dss m) Kgain with
                | Raise e => (self, Raise e)
                | Ok D =>
                    let self :=
                      set_mats self (mk_matrices (A0 m) (A0W m) B (Css m) D) in
                    (set_inputs self (ncols Kgain), Ok tt)
                end
            end
        end
      else (self, Ok tt) in
    match st with
    | (self, Raise e) => (self, Raises (Exn e))
    | (self, Ok _) =>
        if (where_ =? "out")%string then
          match get_mats "Css" self with
          | Raise e => (self, Raises (Exn e))
          | Ok m =>
              match dot Kgain (Css m) with
              | Raise e => (self, Raises (Exn e))
              | Ok C =>
                  let self :=
                    set_mats self (mk_matrices (A0 m) (A0W m) (Bss m) C (Dss m)) in
                  match dot Kgain (Dss m) with
                  | Raise e => (self, Raises (Exn e))
                  | Ok D =>
                      let self :=
                        set_mats self (mk_matrices (A0 m) (A0W m) (Bss m) C D) in
                      (set_outputs self (nrows Kgain), Returns tt)
                  end
              end
          end
        else (self, Returns tt)
    end
  else (self, Raises (AssertionError
                        "Specify whether gains are added to input or output"%string)).

(** [get_Cw_cpx(zval)], the code of [Dynamic.get_Cw_cpx]. *)
Definition get_Cw_cpx {S : Type} {NS : Num S} (self : t) (zval : S)
  : result (ndarray S) :=
  let MS := MS self in
  st <- for_each (seq 0 (MultiAeroGridSurfaces.n_surf MS)) (Dynamic.Cw_surface zval MS)
                 (Dynamic.mk_Cw 0 0 [] [] []) ;;
  csc_matrix (Dynamic.valvec st) (Dynamic.iivec st) (Dynamic.jjvec st)
             (K_star self) (K self).

Section FrequencyResponse.
Variables np_cos np_sin : R -> R.
(** [np.linalg.solve] with a two-dimensional right-hand side. *)
Variable linalg_solve :
  ndarray (complex R) -> ndarray (complex R) -> result (ndarray (complex R)).

Local Abbreviation C := (complex R).

(** The body of the loop over the frequencies: the array assigned to
    [Yfreq[:, :, kk]]. *)
Definition freqresp_point (self : t) (kval : R) (zval : C) : result (ndarray C) :=
  let K := K self in
  let K_star := K_star self in
  (* build Cw complex *)
  Cw_cpx <- get_Cw_cpx self zval ;;
  (* get bound state freq response *)
  m <- get_mats "A0" self ;;
  let Cs := Css m in
  X <- dot (astype_complex (A0W m)) Cw_cpx ;;
  X <- np_add (astype_complex (A0 m)) X ;;
  Ygamma <- linalg_solve X (astype_complex (Bss m)) ;;
  let Ygamma := if remove_predictor self then Ygamma
                else scale (power zval (- 1)) Ygamma in
  Ygamma_star <- dot Cw_cpx Ygamma ;;
  (* determine factor for delta of bound circulation *)
  dfact <- (if (integr_order self =? 0)%Z then
              Ok (Cpx zero kval * cplx_of (dt self))
            else if (integr_order self =? 1)%Z then
              Ok (cplx_of one - cplx_of one / zval)
            else if (integr_order self =? 2)%Z then
              Ok (cplx_of (one / Dynamic.two)
                  * (cplx_of Dynamic.three - cplx_of Dynamic.four / zval
                     + cplx_of one / power zval 2))
            else Raise (NameError "Specify valid integration order"%string)) ;;
  Y0 <- dot (astype_complex (getitem Cs 0 (nrows Cs) 0 K)) Ygamma ;;
  Y1 <- dot (astype_complex (getitem Cs 0 (nrows Cs) K (K + K_star))) Ygamma_star ;;
  Y <- np_add Y0 Y1 ;;
  let c0 := if K =? 0 then 0%nat else (ncols Cs - K)%nat in
  Y2 <- dot (astype_complex (getitem Cs 0 (nrows Cs) c0 (ncols Cs)))
            (scale dfact Ygamma) ;;
  Y <- np_add Y Y2 ;;
  np_add Y (astype_complex (Dss m)).

(** [freqresp(kv)]; the array [Yfreq] is the list of its slices
    [Yfreq[:, :, kk]]. *)
Definition freqresp (self : t) (kv : vector R) : result (list (ndarray C)) :=
  let kvdt := map (fun k => k * dt self) kv in
  let zv := map (fun x => Cpx (np_cos x) (np_sin x)) kvdt in
  for_each (seq 0 (List.length kv))
           (fun Yfreq kk =>
              zval <- lookup zv kk ;;
              kval <- lookup kv kk ;;
              Y <- freqresp_point self kval zval ;;
              Dynamic.set_slice (outputs self) (inputs self) Yfreq Y)
           [].
End FrequencyResponse.
End Model.
Arguments t : clear implicits.
Arguments matrices : clear implicits.
End Frequency.

(** ** The [Static] class: gain matrices *)

Module Static.
Section Model.
Context {R : Type} {N : Num R}.

(** The attributes of an instance: those that [Static.__init__] sets, the
    state [gamma] and the output [fqs] that [solve] stores, their reshaped
    forms [Gamma] and [Fqs], and the total force and moment; an attribute
    that no call has set yet is [None]. *)
Record t : Type := mk {
  MS : MultiAeroGridSurfaces.t;
  K : nat;
  K_star : nat;
  Kzeta : nat;
  Kzeta_star : nat;
  zeta : vector R;
  zeta_dot : vector R;
  u_ext : vector R;
  gamma : option (vector R);
  fqs : option (vector R);
  Gamma : option (list (ndarray R));
  Fqs : option (list (ndarray3 R));
  Ftot : option (vector R);
  Mtot : option (vector R) }.

(** [Static.__init__(tsdata)]; the lattice [MS] stands for [tsdata], from
    which the constructor builds it. *)
Definition __init__ (MS : MultiAeroGridSurfaces.t) : t :=
  (* define total sizes *)
  let K := sum (MultiAeroGridSurfaces.KK MS) in
  let K_star := sum (MultiAeroGridSurfaces.KK_star MS) in
  let Kzeta := sum (MultiAeroGridSurfaces.KKzeta MS) in
  let Kzeta_star := sum (MultiAeroGridSurfaces.KKzeta_star MS) in
  (* define input perturbation *)
  mk MS K K_star Kzeta Kzeta_star
     (repeat zero (3 * Kzeta)) (repeat zero (3 * Kzeta)) (repeat zero (3 * Kzeta))
     None None None None None None.

(** The instance once [gamma] and [fqs] hold the state and the output, as
    [solve] stores them. *)
Definition set_solution (self : t) (gamma fqs : vector R) : t :=
  mk (MS self) (K self) (K_star self) (Kzeta self) (Kzeta_star self)
     (zeta self) (zeta_dot self) (u_ext self)
     (Some gamma) (Some fqs) (Gamma self) (Fqs self) (Ftot self) (Mtot self).

Definition set_reshaped (self : t) (G : list (ndarray R)) (Fq : list (ndarray3 R)) : t :=
  mk (MS self) (K self) (K_star self) (Kzeta self) (Kzeta_star self)
     (zeta self) (zeta_dot self) (u_ext self)
     (gamma self) (fqs self) (Some G) (Some Fq) (Ftot self) (Mtot self).

Definition set_totals (self : t) (Ft Mt : vector R) : t :=
  mk (MS self) (K self) (K_star self) (Kzeta self) (Kzeta_star self)
     (zeta self) (zeta_dot self) (u_ext self)
     (gamma self) (fqs self) (Gamma self) (Fqs self) (Some Ft) (Some Mt).

(** *** [reshape] *)

(** The body of the loop over the surfaces, on [Ktot], [Kzeta_tot] and
    the two lists. *)
Definition reshape_surface (MS : MultiAeroGridSurfaces.t) (gamma fqs : vector R)
    (st : nat * nat * list (ndarray R) * list (ndarray3 R)) (ss : nat)
  : result (nat * nat * list (ndarray R) * list (ndarray3 R)) :=
  let '(Ktot, Kzeta_tot, G, Fq) := st in
  M <- MultiAeroGridSurfaces.Surfs_maps_M MS ss ;;
  N <- MultiAeroGridSurfaces.Surfs_maps_N MS ss ;;
  K <- MultiAeroGridSurfaces.Surfs_maps_K MS ss ;;
  Kzeta <- MultiAeroGridSurfaces.Surfs_maps_Kzeta MS ss ;;
  x <- take_range gamma Ktot (Ktot + K) ;;
  X <- reshape2 x M N ;;
  let G := G ++ [X] in
  y <- take_range fqs Kzeta_tot (Kzeta_tot + 3 * Kzeta) ;;
  Y <- reshape3 y 3 (M + 1) (N + 1) ;;
  let Fq := Fq ++ [Y] in
  Ok (Ktot + K, Kzeta_tot + 3 * Kzeta, G, Fq).

(** The two lists that [reshape()] builds. *)
Definition reshape_lists (self : t) : result (list (ndarray R) * list (ndarray3 R)) :=
  let MS := MS self in
  match gamma self, fqs self with
  | Some gamma, Some fqs =>
      st <- for_each (seq 0 (MultiAeroGridSurfaces.n_surf MS))
                     (reshape_surface MS gamma fqs) (0, 0, [], []) ;;
      let '(_, _, G, Fq) := st in
      Ok (G, Fq)
  | _, _ => Raise (NameError "State and output not found")
  end.

(** [reshape()]: the instance after a call that returns.  A call that
    raises inside the loop has already bound [Gamma] and [Fqs] to the lists
    it was filling; the model returns the exception alone. *)
Definition reshape (self : t) : result t :=
  '(G, Fq) <- reshape_lists self ;;
  Ok (set_reshaped self G Fq).

Section Gains.
(** [MS.Surfs[ss].zeta[cc, mm, nn]]: the coordinates of the vertices of the
    bound grid of surface [ss], an array of shape (3, M + 1, N + 1). *)
Variable Surfs_zeta : nat -> nat -> nat -> nat -> R.

(** [zeta[:, mm, nn]]. *)
Definition zeta_node (ss mm nn : nat) : vector R :=
  [Surfs_zeta ss 0 mm nn; Surfs_zeta ss 1 mm nn; Surfs_zeta ss 2 mm nn].

(** [[start + np.ravel_multi_index((cc, mm, nn), (3, M + 1, N + 1))
     for cc in range(3)]]. *)
Definition vertex_indices (start M N mm nn : nat) : result (list nat) :=
  list_comp (seq 0 3)
    (fun cc => k <- ravel_multi_index [cc; mm; nn] [3; M + 1; N + 1] ;;
               Ok (start + k)).

(** [Ntot]: the number of span-wise sections of the lattice. *)
Definition count_sections (MS : MultiAeroGridSurfaces.t) : result nat :=
  for_each (seq 0 (MultiAeroGridSurfaces.n_surf MS))
           (fun Ntot ss =>
              n <- lookup (MultiAeroGridSurfaces.NN MS) ss ;;
              Ok (Ntot + (n + 1)))
           0.

(** *** [total_forces] *)

(** The body of the loop over [mm], on [Ftot] and [Mtot]. *)
Definition total_vertex (Fq : list (ndarray3 R)) (zeta_pole : vector R)
    (ss nn : nat) (st : vector R * vector R) (mm : nat)
  : result (vector R * vector R) :=
  let '(Ftot, Mtot) := st in
  let zeta_node := zeta_node ss mm nn in
  Y <- lookup Fq ss ;;
  fnode <- column3 Y mm nn ;;
  Ftot <- vadd Ftot fnode ;;
  arm <- vsub zeta_node zeta_pole ;;
  m <- cross arm fnode ;;
  Mtot <- vadd Mtot m ;;
  Ok (Ftot, Mtot).

Definition total_surface (MS : MultiAeroGridSurfaces.t) (Fq : list (ndarray3 R))
    (zeta_pole : vector R) (st : vector R * vector R) (ss : nat)
  : result (vector R * vector R) :=
  M <- MultiAeroGridSurfaces.Surfs_maps_M MS ss ;;
  N <- MultiAeroGridSurfaces.Surfs_maps_N MS ss ;;
  for_each (seq 0 (N + 1))
    (fun st nn => for_each (seq 0 (M + 1)) (total_vertex Fq zeta_pole ss nn) st)
    st.

(** [total_forces(zeta_pole)]; the default of [zeta_pole] is
    [np.zeros((3,))].  The call reshapes the state and the output when
    [Gamma] or [Fqs] is missing, and reads [Fqs] of the instance.  The
    instance after a call that returns. *)
Definition total_forces (self : t) (zeta_pole : vector R) : result t :=
  '(self, Fq) <- match Gamma self, Fqs self with
                  | Some _, Some Fq => Ok (self, Fq)
                  | _, _ => '(G, Fq) <- reshape_lists self ;;
                            Ok (set_reshaped self G Fq, Fq)
                  end ;;
  st <- for_each (seq 0 (MultiAeroGridSurfaces.n_surf (MS self)))
                 (total_surface (MS self) Fq zeta_pole)
                 (repeat zero 3, repeat zero 3) ;;
  Ok (set_totals self (fst st) (snd st)).

(** *** [get_sect_forces_gain] *)

(** The matrices [Kfsec] and [Kmsec] that the call stores. *)
Record sect_gains : Type := mk_sect {
  Kfsec : ndarray R;
  Kmsec : ndarray R }.

(** The body of the loop over [mm]. *)
Definition sect_vertex (ss M N nn : nat) (iivec : list nat) (Kzeta_start : nat)
    (g : sect_gains) (mm : nat) : result sect_gains :=
  (* vertex indices *)
  jjvec <- vertex_indices Kzeta_start M N mm nn ;;
  (* sectional force *)
  Kf <- setitem_pairs (Kfsec g) iivec jjvec one ;;
  (* sectional moment *)
  d <- vsub (zeta_node ss mm nn) (zeta_node ss (M / 2) nn) ;;
  '(dx, dy, dz) <- unpack3 d ;;
  Km <- setitem_ix (Kmsec g) iivec jjvec
          (np_array [[zero; opp dz; dy]; [dz; zero; opp dx]; [opp dy; dx; zero]]) ;;
  Ok (mk_sect Kf Km).

(** The body of the loop over [nn]. *)
Definition sect_section (ss M N : nat) (Kzeta_start II_start : nat)
    (g : sect_gains) (nn : nat) : result sect_gains :=
  (* section indices *)
  iivec <- list_comp (seq 0 3)
             (fun cc => k <- ravel_multi_index [cc; nn] [3; N + 1] ;;
                        Ok (II_start + k)) ;;
  for_each (seq 0 (M + 1)) (sect_vertex ss M N nn iivec Kzeta_start) g.

(** The body of the loop over the surfaces, on [Kzeta_start], [II_start]
    and the two matrices. *)
Definition sect_surface (MS : MultiAeroGridSurfaces.t)
    (st : nat * nat * sect_gains) (ss : nat) : result (nat * nat * sect_gains) :=
  let '(Kzeta_start, II_start, g) := st in
  M <- lookup (MultiAeroGridSurfaces.MM MS) ss ;;
  N <- lookup (MultiAeroGridSurfaces.NN MS) ss ;;
  g <- for_each (seq 0 (N + 1)) (sect_section ss M N Kzeta_start II_start) g ;;
  kz <- lookup (MultiAeroGridSurfaces.KKzeta MS) ss ;;
  Ok ((Kzeta_start + 3 * kz), (II_start + 3 * (N + 1)), g).

Definition get_sect_forces_gain (self : t) : result sect_gains :=
  let MS := MS self in
  Ntot <- count_sections MS ;;
  let Kfsec := np_zeros (3 * Ntot) (3 * Kzeta self) in
  let Kmsec := np_zeros (3 * Ntot) (3 * Kzeta self) in
  st <- for_each (seq 0 (MultiAeroGridSurfaces.n_surf MS)) (sect_surface MS)
                 (0, 0, mk_sect Kfsec Kmsec) ;;
  Ok (snd st).

(** *** [get_rigid_motion_gains] *)

(** The matrices [Ktra], [Ktra_dot], [Krot] and [Krot_dot] that the call
    stores. *)
Record rigid_gains : Type := mk_rigid {
  Ktra : ndarray R;
  Ktra_dot : ndarray R;
  Krot : ndarray R;
  Krot_dot : ndarray R }.

(** The body of the loop over [mm]. *)
Definition rigid_vertex (ss M N nn : nat) (zeta_rotation : vector R)
    (Kzeta_start : nat) (g : rigid_gains) (mm : nat) : result rigid_gains :=
  (* vertex indices *)
  iivec <- vertex_indices Kzeta_start M N mm nn ;;
  Kt <- iadd_pairs (Ktra g) iivec [0; 1; 2] one ;;
  Ktd <- iadd_pairs (Ktra_dot g) iivec [0; 1; 2] one ;;
  (* sectional moment *)
  d <- vsub (zeta_node ss mm nn) zeta_rotation ;;
  '(dx, dy, dz) <- unpack3 d ;;
  let Dskew := np_array [[zero; opp dz; dy]; [dz; zero; opp dx]; [opp dy; dx; zero]] in
  Kr <- setitem_rows_at (Krot g) iivec Dskew ;;
  Krd <- setitem_rows_at (Krot_dot g) iivec Dskew ;;
  Ok (mk_rigid Kt Ktd Kr Krd).

(** The body of the loop over the surfaces, on [Kzeta_start] and the four
    matrices. *)
Definition rigid_surface (MS : MultiAeroGridSurfaces.t) (zeta_rotation : vector R)
    (st : nat * rigid_gains) (ss : nat) : result (nat * rigid_gains) :=
  let '(Kzeta_start, g) := st in
  M <- lookup (MultiAeroGridSurfaces.MM MS) ss ;;
  N <- lookup (MultiAeroGridSurfaces.NN MS) ss ;;
  g <- for_each (seq 0 (N + 1))
         (fun g nn =>
            for_each (seq 0 (M + 1)) (rigid_vertex ss M N nn zeta_rotation Kzeta_start) g)
         g ;;
  kz <- lookup (MultiAeroGridSurfaces.KKzeta MS) ss ;;
  Ok ((Kzeta_start + 3 * kz), g).

(** [get_rigid_motion_gains(zeta_rotation)]; the default of [zeta_rotation]
    is [np.zeros((3,))]. *)
Definition get_rigid_motion_gains (self : t) (zeta_rotation : vector R)
  : result rigid_gains :=
  let MS := MS self in
  Ntot <- count_sections MS ;;
  let Ktra := np_zeros (3 * Kzeta self) 3 in
  let Ktra_dot := np_zeros (3 * Kzeta self) 3 in
  let Krot := np_zeros (3 * Kzeta self) 3 in
  let Krot_dot := np_zeros (3 * Kzeta self) 3 in
  st <- for_each (seq 0 (MultiAeroGridSurfaces.n_surf MS))
                 (rigid_surface MS zeta_rotation)
                 (0, mk_rigid Ktra Ktra_dot Krot Krot_dot) ;;
  Ok (snd st).
End Gains.
End Model.
Arguments t : clear implicits.
Arguments sect_gains : clear implicits.
Arguments rigid_gains : clear implicits.
End Static.

(** ** Assembled models and their use *)

Section Usage.
Context {R : Type} {N : Num R}.

(** The blocks of a lattice with [K] bound panels, [K_star] wake panels and
    [Kzeta] bound vertices have the shapes of section 6. *)
Definition blocks_shaped (K K_star Kzeta : nat) (ass : assembly.blocks R) : Prop :=
  shape (assembly.A0 ass) = (K, K) /\
  shape (assembly.A0W ass) = (K, K_star) /\
  shape (assembly.Cgamma ass) = (K_star, K) /\
  shape (assembly.CgammaW ass) = (K_star, K_star) /\
  shape (assembly.Ducdzeta ass) = (K, 3 * Kzeta) /\
  shape (assembly.Wnv0 ass) = (K, 3 * Kzeta) /\
  shape (assembly.Dfqsdgamma ass) = (3 * Kzeta, K) /\
  shape (assembly.Dfqsdgamma_star ass) = (3 * Kzeta, K_star) /\
  shape (assembly.Dfunstdgamma_dot ass) = (3 * Kzeta, K) /\
  shape (assembly.Dfqsdzeta_vrel0 ass) = (3 * Kzeta, 3 * Kzeta) /\
  shape (assembly.Dfqsdvind_zeta ass) = (3 * Kzeta, 3 * Kzeta) /\
  shape (assembly.Dfqsduinput ass) = (3 * Kzeta, 3 * Kzeta).

(** The factorised solve returns a solution of the shape of its right-hand
    side, for the three right-hand sides of [assemble_ss]. *)
Definition lu_solves (lu_solve : ndarray R -> ndarray R -> result (ndarray R))
    (ass : assembly.blocks R) : Prop :=
  forall rhs,
    rhs = assembly.A0W ass \/ rhs = assembly.Wnv0 ass \/ rhs = assembly.Ducdzeta ass ->
    exists X, lu_solve (assembly.A0 ass) rhs = Ok X /\ shape X = shape rhs.

(** The outputs y1, ..., yn of [solve_step] along the inputs u0, u1, ..., un,
    from the state [x_n] at u0; each step is given the next input. *)
Fixpoint time_march (self : Dynamic.t R) (transform_state : bool)
    (x_n u_n : vector R) (us : list (vector R)) : result (list (vector R)) :=
  match us with
  | [] => Ok []
  | u_n1 :: us' =>
      '(x_n1, y_n1) <- Dynamic.solve_step self x_n u_n (Some u_n1) transform_state ;;
      ys <- time_march self transform_state x_n1 u_n1 us' ;;
      Ok (y_n1 :: ys)
  end.

(** The transformed state h0 = x0 - B_predictor u0. *)
Definition transformed_state (self : Dynamic.t R) (x0 u0 : vector R)
  : result (vector R) :=
  Bp <- Dynamic.get_B_predictor self ;;
  Bu <- dotv Bp u0 ;;
  vsub x0 Bu.

(** The state-space model is set and its matrices have the shapes of
    section 3; a predictor-removed model keeps the original B. *)
Definition assembled (self : Dynamic.t R) : Prop :=
  exists sys,
    Dynamic.SS self = Some sys /\
    shape (libss.A sys) = (Dynamic.Nx self, Dynamic.Nx self) /\
    shape (libss.B sys) = (Dynamic.Nx self, Dynamic.Nu self) /\
    shape (libss.C sys) = (Dynamic.Ny self, Dynamic.Nx self) /\
    shape (libss.D sys) = (Dynamic.Ny self, Dynamic.Nu self) /\
    (Dynamic.remove_predictor self = true ->
     exists Bp, Dynamic.B_predictor self = Some Bp /\
                shape Bp = (Dynamic.Nx self, Dynamic.Nu self)).

(** [m] has the attributes of [self], the state-space model [SS] (and the
    balanced model built from it) apart. *)
Definition same_attributes (self m : Dynamic.t R) : Prop :=
  Dynamic.MS m = Dynamic.MS self /\
  Dynamic.K m = Dynamic.K self /\
  Dynamic.K_star m = Dynamic.K_star self /\
  Dynamic.Kzeta m = Dynamic.Kzeta self /\
  Dynamic.Kzeta_star m = Dynamic.Kzeta_star self /\
  Dynamic.dt m = Dynamic.dt self /\
  Dynamic.integr_order m = Dynamic.integr_order self /\
  Dynamic.Nx m = Dynamic.Nx self /\
  Dynamic.Nu m = Dynamic.Nu self /\
  Dynamic.Ny m = Dynamic.Ny self /\
  Dynamic.remove_predictor m = Dynamic.remove_predictor self /\
  Dynamic.B_predictor m = Dynamic.B_predictor self /\
  Dynamic.include_added_mass m = Dynamic.include_added_mass self /\
  Dynamic.use_sparse m = Dynamic.use_sparse self /\
  Dynamic.ScalingFacts m = Dynamic.ScalingFacts self /\
  Dynamic.Zc m = Dynamic.Zc self /\
  Dynamic.Zo m = Dynamic.Zo self /\
  Dynamic.T m = Dynamic.T self /\
  Dynamic.gv m = Dynamic.gv self.

(** The quantities that the scaling operations divide by are nonzero: the
    reference length and speed, and the circulation, force and time derived
    from them. *)
Definition scaling_nonzero (sf : Scaling.t R) : Prop :=
  Scaling.length sf <> zero /\ Scaling.speed sf <> zero /\
  Scaling.circulation sf <> zero /\ Scaling.force sf <> zero /\
  Scaling.time sf <> zero.

(** A scaling operation took [self], with state-space model [sys], to [m]:
    the state-space model of [m] has the A of [sys] and matrices B, C, D of
    the shapes of those of [sys]; nothing else changed. *)
Definition scaled_from (self : Dynamic.t R) (sys : libss.ss R R) (m : Dynamic.t R)
  : Prop :=
  same_attributes self m /\
  exists sys',
    Dynamic.SS m = Some sys' /\
    libss.A sys' = libss.A sys /\
    shape (libss.B sys') = shape (libss.B sys) /\
    shape (libss.C sys') = shape (libss.C sys) /\
    shape (libss.D sys') = shape (libss.D sys).

(** Rows K + K_star, ..., 2K + K_star - 1 of (A, B) hold a finite difference
    of the bound circulation: the new state "dt times the circulation
    derivative" is [c_new] times the bound circulation of the new step (rows
    0, ..., K - 1 of (A, B)), plus [c_cur] times that of the current step, plus
    [c_old] times that of the previous step, when the scheme uses one. *)
Definition derivative_rows (K K_star : nat) (A B : ndarray R)
    (c_new c_cur : R) (c_old : option R) : Prop :=
  forall i, i < K ->
    (forall j, j < K ->
       item A (K + K_star + i) j
       = add (mul c_new (item A i j)) (if i =? j then c_cur else zero)) /\
    (forall j, j < K_star ->
       item A (K + K_star + i) (K + j) = mul c_new (item A i (K + j))) /\
    (forall j, j < K -> item A (K + K_star + i) (K + K_star + j) = zero) /\
    (forall j, j < ncols B -> item B (K + K_star + i) j = mul c_new (item B i j)) /\
    match c_old with
    | Some c =>
        forall j, j < K ->
          item A (K + K_star + i) (2 * K + K_star + j) = if i =? j then c else zero
    | None => True
    end.

(** Rows 2K + K_star, ..., 3K + K_star - 1 of (A, B) store the bound
    circulation of the current step: an identity on the first K states. *)
Definition delayed_rows (K K_star : nat) (A B : ndarray R) : Prop :=
  forall i, i < K ->
    (forall j, j < ncols A ->
       item A (2 * K + K_star + i) j = if j =? i then one else zero) /\
    (forall j, j < ncols B -> item B (2 * K + K_star + i) j = zero).


End Usage.

(** ** Vocabulary of the statements *)

Section ArrayUpdates.
Context {T : Type} {N : Num T}.

(** What an assignment that lies inside the array does: the result exists,
    has the shape of the array, and holds the assigned block. *)
Definition assigned (X : ndarray T) (r0 r1 c0 c1 : nat) (Y Z : ndarray T) : Prop :=
  nrows Z = nrows X /\ ncols Z = ncols X /\
  forall i j, item Z i j = if in_block r0 r1 c0 c1 i j
                           then item Y (i - r0) (j - c0) else item X i j.

(** What an update of diagonal entries does. *)
Definition diag_updated (f : T -> T -> T) (X : ndarray T) (r0 c0 : nat)
    (v : vector T) (Z : ndarray T) : Prop :=
  nrows Z = nrows X /\ ncols Z = ncols X /\
  forall i j, item Z i j = if on_diag r0 c0 (length v) i j
                           then f (item X i j) (vget v (i - r0)) else item X i j.

(** A call that completes and returns an array of [r] rows and [c] columns. *)
Definition returns (c0 : result (ndarray T)) (r c : nat) : Prop :=
  exists Z, c0 = Ok Z /\ nrows Z = r /\ ncols Z = c.
End ArrayUpdates.

Section ModelShapes.
Context {R : Type} {N : Num R}.

(** The integration order and the number of states it gives. *)
Definition order_dims (self : Dynamic.t R) : Prop :=
  Dynamic.integr_order self = 1%Z /\
  Dynamic.Nx self = 2 * Dynamic.K self + Dynamic.K_star self \/
  Dynamic.integr_order self = 2%Z /\
  Dynamic.Nx self = 3 * Dynamic.K self + Dynamic.K_star self.

(** The shapes of the arrays of the frequency loop. *)
Definition factors_shaped (sys : libss.ss R R) (Nk Nk_low : nat) (st : @Dynamic.factors R) : Prop :=
  shape (Dynamic.f_Zc st) = (libss.states sys, 2 * libss.inputs sys * Nk) /\
  shape (Dynamic.f_Zo st) = (libss.states sys, 2 * libss.outputs sys * Nk_low) /\
  shape (Dynamic.f_Qobs st) = (libss.states sys, libss.outputs sys).

Variable svd :
  ndarray (complex R) ->
  result (ndarray (complex R) * vector R * ndarray (complex R)).
Variable rsqrt : R -> R.

(** [svd(M, full_matrices=False)] returns the reduced factors and every
    singular value of [M]. *)
Definition svd_reduced : Prop :=
  forall M, exists U s Vh,
    svd M = Ok (U, s, Vh) /\
    nrows U = nrows M /\ ncols U = length s /\
    nrows Vh = length s /\ ncols Vh = ncols M /\
    length s = Nat.min (nrows M) (ncols M).

(** What the square-root method computes from the factors: the projection
    [T], its left inverse [Ti] and the balanced matrices, with one column of
    [T] and one row of [Ti] for every singular value in [s]. *)
Definition projected (sys : libss.ss R R) (Zc Zo : ndarray (complex R))
    (s : vector R) (T Ti Ab Bb Cb : ndarray (complex R)) : Prop :=
  let sinv := map (fun x => cplx_of (rsqrt x)) s in
  exists M U Vh X1 X2 AT,
    dot (transpose Zo) Zc = Ok M /\ svd M = Ok (U, s, Vh) /\
    mul_cols (transpose Vh) sinv = Ok X1 /\ dot Zc X1 = Ok T /\
    mul_cols U sinv = Ok X2 /\ dot (transpose X2) (transpose Zo) = Ok Ti /\
    dot (astype_complex (libss.A sys)) T = Ok AT /\ dot Ti AT = Ok Ab /\
    dot Ti (astype_complex (libss.B sys)) = Ok Bb /\
    dot (astype_complex (libss.C sys)) T = Ok Cb /\
    ncols T = length s /\ nrows Ti = length s.
End ModelShapes.

Section WakeSums.
Context {S : Type} {NS : Num S}.
Local Open Scope num_scope.

(** The value [v] at the entries (a + k, b + k), k < n. *)
Definition row_val (a b : Z) (n : nat) (v : S) (i j : nat) : S :=
  if ((a <=? Z.of_nat i) && (Z.of_nat i <? a + Z.of_nat n)
      && (Z.of_nat j =? b + (Z.of_nat i - a)))%Z
  then v else zero.

(** What the triplets of the surfaces still to be visited add to entry
    (i, j), the panels visited so far being [K0] and [K0star]. *)
Fixpoint wake_sum (z : S) (dl dsl : list (nat * nat)) (kl ksl : list nat)
    (K0 K0star : nat) (i j : nat) : S :=
  match dl, dsl, kl, ksl with
  | d :: dl', ds :: dsl', k :: kl', ks :: ksl' =>
      sum_n (fst ds) (fun mm =>
        row_val (Z.of_nat K0star + Z.of_nat mm * Z.of_nat (snd ds))
                (Z.of_nat K0 + Z.of_nat (snd ds) * (Z.of_nat (fst d) - 1))
                (snd ds) (power z (- Z.of_nat mm - 1)) i j)
      + wake_sum z dl' dsl' kl' ksl' (K0 + k) (K0star + ks) i j
  | _, _, _, _ => zero
  end.
End WakeSums.

Section RelativeVelocityDefs.
Context {R : Type} {N : Num R}.
Local Open Scope num_scope.

(** The input [u = (zeta, zeta_dot, u_ext)], three blocks of 3 Kzeta entries,
    with the velocity [w] added to the grid velocity [zeta_dot] and to the
    external velocity [u_ext]. *)
Definition add_velocity (Kzeta : nat) (u w : vector R) : vector R :=
  tabulate (length u) (fun k =>
    if (3 * Kzeta <=? k) && (k <? 6 * Kzeta)
    then vget u k + vget w (k - 3 * Kzeta)
    else if (6 * Kzeta <=? k) && (k <? 9 * Kzeta)
    then vget u k + vget w (k - 6 * Kzeta)
    else vget u k).

(** The columns of the grid velocity are the opposite of those of the
    external velocity. *)
Definition opposite_velocity_columns (Kzeta : nat) (M : ndarray R) : Prop :=
  forall i j, (i < nrows M)%nat -> (j < 3 * Kzeta)%nat ->
    item M i (3 * Kzeta + j) = - item M i (6 * Kzeta + j).
End RelativeVelocityDefs.

Section DerivativeStatesDefs.
Context {R : Type} {N : Num R}.

(** Two arrays of one length that agree on every entry outside [a:b]. *)
Definition agree_outside (a b : nat) (x x' : vector R) : Prop :=
  length x = length x' /\
  forall k, (k < a \/ b <= k)%nat -> vget x k = vget x' k.
End DerivativeStatesDefs.

Section ScaledSignals.
Context {R : Type} {N : Num R}.
Local Open Scope num_scope.

(** The signals of the scaled model: a state in units of the reference
    circulation, the displacements of an input [u = (zeta, zeta_dot, u_ext)]
    in units of the reference length and its velocities in units of the
    reference speed, an output in units of the reference force. *)
Definition nondim_state (sf : Scaling.t R) (x : vector R) : vector R :=
  map (fun v => v / Scaling.circulation sf) x.

Definition nondim_input (sf : Scaling.t R) (Kzeta : nat) (u : vector R) : vector R :=
  tabulate (length u) (fun k =>
    if k <? 3 * Kzeta then vget u k / Scaling.length sf
    else vget u k / Scaling.speed sf).

Definition nondim_output (sf : Scaling.t R) (y : vector R) : vector R :=
  map (fun v => v / Scaling.force sf) y.
End ScaledSignals.

Section HeldInput.
Context {R : Type} {N : Num R}.

(** [n] steps of the time stepper under the constant input [u], from the
    state of the pair [xy]: the state and the output of the last step. *)
Fixpoint held_input_march (self : Dynamic.t R) (u : vector R) (n : nat)
    (xy : vector R * vector R) : result (vector R * vector R) :=
  match n with
  | O => Ok xy
  | S k => xy' <- Dynamic.solve_step self (fst xy) u None false ;;
           held_input_march self u k xy'
  end.
End HeldInput.

Section ResponseSlices.
Context {R : Type} {N : Num R} {RR : Real R}.
Local Open Scope num_scope.
Local Abbreviation C := (complex R).

(** The slices of two responses: the second is the first, its part without
    the feed-through [D] delayed by one step at each frequency. *)
Definition delayed_slices (zv : list C) (D : ndarray R)
    (Yf Yf' : list (ndarray C)) : Prop :=
  forall kk z Y Y',
    nth_error zv kk = Some z ->
    nth_error Yf kk = Some Y -> nth_error Yf' kk = Some Y' ->
    shape Y' = shape Y /\
    forall i j,
      item Y' i j
      = power z (- 1) * (item Y i j - cplx_of (item D i j)) + cplx_of (item D i j).
End ResponseSlices.

Section GainIndices.
Context {R : Type} {N : Num R}.

(** The position of the vertex (cc, mm, nn) in the row-major order of an
    array of shape (3, M + 1, N + 1). *)
Definition vertex_position (M N0 cc mm nn : nat) : nat :=
  (cc * (M + 1) + mm) * (N0 + 1) + nn.

(** The offset of the vertices of surface [ss] in the vectors of 3 Kzeta
    entries, and of its sections in the vectors of 3 Ntot entries. *)
Definition vertex_offset (MS : MultiAeroGridSurfaces.t) (ss : nat) : nat :=
  3 * sum (firstn ss (MultiAeroGridSurfaces.KKzeta MS)).

Definition section_offset (MS : MultiAeroGridSurfaces.t) (ss : nat) : nat :=
  3 * sum (firstn ss (map (fun n => n + 1) (MultiAeroGridSurfaces.NN MS))).

(** Entry [i] of a vector of 3 Kzeta entries holds the coordinate [cc] of
    the vertex (mm, nn) of surface [ss]. *)
Definition vertex_entry (MS : MultiAeroGridSurfaces.t) (ss cc mm nn i : nat) : Prop :=
  exists M N0,
    nth_error (MultiAeroGridSurfaces.dimensions MS) ss = Some (M, N0) /\
    cc < 3 /\ mm <= M /\ nn <= N0 /\
    i = vertex_offset MS ss + vertex_position M N0 cc mm nn.

(** The vertices that the loops over the surfaces, the sections and the
    chord have passed when they reach vertex [m] of section [n] of surface
    [s]. *)
Definition visited (s n m ss mm nn : nat) : Prop :=
  ss < s \/ (ss = s /\ (nn < n \/ (nn = n /\ mm < m))).

(** The matrix of the cross product by [d] on the left: its product with
    [u] is d x u. *)
Definition cross_matrix (d : vector R) : ndarray R :=
  np_array [[zero; opp (vget d 2); vget d 1];
            [vget d 2; zero; opp (vget d 0)];
            [opp (vget d 1); vget d 0; zero]].

(** The entries of the rigid-motion gains once the loops have passed the
    vertices [P]: the rows of the passed vertices are set, the other rows
    of the translation gains are still zero. *)
Definition rigid_invariant (Surfs_zeta : nat -> nat -> nat -> nat -> R)
    (MS : MultiAeroGridSurfaces.t) (zeta_rotation : vector R)
    (P : nat -> nat -> nat -> Prop) (g : Static.rigid_gains R) : Prop :=
  let r := 3 * sum (MultiAeroGridSurfaces.KKzeta MS) in
  shape (Static.Ktra g) = (r, 3) /\ shape (Static.Ktra_dot g) = (r, 3) /\
  shape (Static.Krot g) = (r, 3) /\ shape (Static.Krot_dot g) = (r, 3) /\
  (forall ss cc mm nn i,
     vertex_entry MS ss cc mm nn i -> P ss mm nn ->
     forall c, c < 3 ->
     let D := cross_matrix (vminus (Static.zeta_node Surfs_zeta ss mm nn)
                                   zeta_rotation) in
     item (Static.Ktra g) i c = (if c =? cc then one else zero) /\
     item (Static.Ktra_dot g) i c = (if c =? cc then one else zero) /\
     item (Static.Krot g) i c = item D cc c /\
     item (Static.Krot_dot g) i c = item D cc c) /\
  (forall i,
     (forall ss cc mm nn, vertex_entry MS ss cc mm nn i -> ~ P ss mm nn) ->
     forall c, item (Static.Ktra g) i c = zero /\
               item (Static.Ktra_dot g) i c = zero).

(** The position of the section (cc, nn) in the row-major order of an array
    of shape (3, N + 1). *)
Definition section_position (N0 cc nn : nat) : nat := cc * (N0 + 1) + nn.

(** Entry [i] of a vector of 3 Ntot entries holds the coordinate [cc] of
    the section [nn] of surface [ss]. *)
Definition section_entry (MS : MultiAeroGridSurfaces.t) (ss cc nn i : nat) : Prop :=
  exists M N0,
    nth_error (MultiAeroGridSurfaces.dimensions MS) ss = Some (M, N0) /\
    cc < 3 /\ nn <= N0 /\
    i = section_offset MS ss + section_position N0 cc nn.

(** The entry of the coordinate [cc] of the vertex (mm, nn) of surface
    [ss] in the vectors of 3 Kzeta entries. *)
Definition vertex_column (MS : MultiAeroGridSurfaces.t) (ss cc mm nn : nat) : nat :=
  let d := nth ss (MultiAeroGridSurfaces.dimensions MS) (0, 0) in
  vertex_offset MS ss + vertex_position (fst d) (snd d) cc mm nn.

(** The entry of the coordinate [cc] of the section [nn] of surface [ss]
    in the vectors of 3 Ntot entries. *)
Definition section_row (MS : MultiAeroGridSurfaces.t) (ss cc nn : nat) : nat :=
  let d := nth ss (MultiAeroGridSurfaces.dimensions MS) (0, 0) in
  section_offset MS ss + section_position (snd d) cc nn.

(** The sum over the sections of the lattice, surface by surface. *)
Definition sum_sections (MS : MultiAeroGridSurfaces.t) (h : nat -> nat -> R) : R :=
  sum_n (MultiAeroGridSurfaces.n_surf MS)
        (fun ss =>
           sum_n (snd (nth ss (MultiAeroGridSurfaces.dimensions MS) (0, 0)) + 1)
                 (fun nn => h ss nn)).

(** The force at the vertex (mm, nn) of surface [ss] in the vector [fqs] of
    3 Kzeta entries, and its moment about [zeta_pole]. *)
Definition vertex_force (MS : MultiAeroGridSurfaces.t) (fqs : vector R)
    (ss nn mm : nat) : vector R :=
  [vget fqs (vertex_column MS ss 0 mm nn);
   vget fqs (vertex_column MS ss 1 mm nn);
   vget fqs (vertex_column MS ss 2 mm nn)].

Definition vertex_moment (Surfs_zeta : nat -> nat -> nat -> nat -> R)
    (MS : MultiAeroGridSurfaces.t) (fqs zeta_pole : vector R)
    (ss nn mm : nat) : vector R :=
  np_cross (vminus (Static.zeta_node Surfs_zeta ss mm nn) zeta_pole)
           (vertex_force MS fqs ss nn mm).

(** The reshaped output [Fq] holds the forces [fqs] at the vertices of the
    lattice: one array of shape (3, M + 1, N + 1) per surface. *)
Definition holds_forces (MS : MultiAeroGridSurfaces.t) (fqs : vector R)
    (Fq : list (ndarray3 R)) : Prop :=
  forall ss M N0,
    nth_error (MultiAeroGridSurfaces.dimensions MS) ss = Some (M, N0) ->
    exists Y,
      nth_error Fq ss = Some Y /\
      dim0 Y = 3 /\ dim1 Y = M + 1 /\ dim2 Y = N0 + 1 /\
      forall c m n, c < 3 -> m <= M -> n <= N0 ->
        item3 Y c m n = vget fqs (vertex_column MS ss c m n).

(** The position of the vertex (mm, nn) of surface [ss] from the vertex at
    the middle of the chord of its section, (M // 2, nn). *)
Definition section_arm (Surfs_zeta : nat -> nat -> nat -> nat -> R)
    (MS : MultiAeroGridSurfaces.t) (ss mm nn : nat) : vector R :=
  let M := fst (nth ss (MultiAeroGridSurfaces.dimensions MS) (0, 0)) in
  vminus (Static.zeta_node Surfs_zeta ss mm nn)
         (Static.zeta_node Surfs_zeta ss (M / 2) nn).

(** The number of vertices of section [nn] of surface [ss] that the loops
    have passed when they reach vertex [m] of section [n] of surface [s]. *)
Definition chord_count (MS : MultiAeroGridSurfaces.t) (s n m ss nn : nat) : nat :=
  if (ss <? s) || ((ss =? s) && (nn <? n))
  then fst (nth ss (MultiAeroGridSurfaces.dimensions MS) (0, 0)) + 1
  else if (ss =? s) && (nn =? n) then m else 0.

(** The rows of the sectional gains once the loops have passed the first
    [cnt ss nn] vertices of every section: a row of [Kfsec] holds a one at
    the passed vertices of its section and coordinate, a row of [Kmsec] the
    rows of the cross-product matrices of their arms. *)
Definition sect_invariant (Surfs_zeta : nat -> nat -> nat -> nat -> R)
    (MS : MultiAeroGridSurfaces.t) (cnt : nat -> nat -> nat)
    (g : Static.sect_gains R) : Prop :=
  let r := 3 * sum (map (fun n => n + 1) (MultiAeroGridSurfaces.NN MS)) in
  let c := 3 * sum (MultiAeroGridSurfaces.KKzeta MS) in
  shape (Static.Kfsec g) = (r, c) /\ shape (Static.Kmsec g) = (r, c) /\
  forall ss a nn i,
    section_entry MS ss a nn i ->
    forall j,
      item (Static.Kfsec g) i j
      = sum_n (cnt ss nn)
          (fun mm => if j =? vertex_column MS ss a mm nn then one else zero) /\
      item (Static.Kmsec g) i j
      = sum_n (cnt ss nn)
          (fun mm =>
             sum_n 3 (fun b =>
               if j =? vertex_column MS ss b mm nn
               then item (cross_matrix (section_arm Surfs_zeta MS ss mm nn)) a b
               else zero)).
End GainIndices.

(** ** A lattice of one bound and one wake panel *)

(** The value a call returned, for the examples. *)
Definition get_ok {A : Type} (c : result A) (d : A) : A :=
  match c with Ok a => a | Raise _ => d end.

(** One surface with M = M_star = N = 1: K = K_star = 1 and Kzeta = 4. *)
Definition ex_MS : MultiAeroGridSurfaces.t :=
  MultiAeroGridSurfaces.of_grids [((1, 1), 1)].

(** [np.full((r, c), v)]. *)
Definition np_full (r c : nat) (v : Qc) : ndarray Qc := mk_ndarray r c (fun _ _ => v).

Definition ex_blocks : assembly.blocks Qc :=
  assembly.mk (np_full 1 1 (Q2Qc 1)) (np_full 1 1 (Q2Qc 1)) (np_full 1 1 (Q2Qc 1)) (np_full 1 1 (Q2Qc 0))
    (np_full 1 12 (Q2Qc 1)) (np_full 1 12 (Q2Qc 2))
    (np_full 12 1 (Q2Qc 1)) (np_full 12 1 (Q2Qc 1)) (np_full 12 1 (Q2Qc 1))
    (np_full 12 12 (Q2Qc 1)) (np_full 12 12 (Q2Qc 1)) (np_full 12 12 (Q2Qc 1)).

(** The influence matrix [A0] of the example is the identity. *)
Definition ex_lu_solve (A b : ndarray Qc) : result (ndarray Qc) := Ok b.

Definition ex_empty : Dynamic.t Qc :=
  Dynamic.mk ex_MS 0 0 0 0 (Q2Qc 0) 0 0 0 0 false None false false
    (Scaling.mk (Q2Qc 1) (Q2Qc 1) (Q2Qc 1) (Q2Qc 1) (Q2Qc 1) (Q2Qc 1) (Q2Qc 1))
    None None None None None None.

Definition ex_init (order : Z) (rp : bool) (sd : option (Qc * Qc * Qc)) : Dynamic.t Qc :=
  get_ok (Dynamic.__init__ ex_MS (Q2Qc 1) order rp sd false) ex_empty.

Definition ex_model (order : Z) (rp : bool) (sd : option (Qc * Qc * Qc)) : Dynamic.t Qc :=
  get_ok (Dynamic.assemble_ss ex_lu_solve (ex_init order rp sd) ex_blocks) ex_empty.

Definition ex_x0 : vector Qc := [Q2Qc 1; Q2Qc 2; Q2Qc 3; Q2Qc 4].
Definition ex_u0 : vector Qc := repeat (Q2Qc 1) 36.
Definition ex_us : list (vector Qc) := [repeat (Q2Qc 2) 36; repeat (Q2Qc 3) 36].

Definition ex_matrices : ndarray Qc * ndarray Qc * ndarray Qc * ndarray Qc :=
  get_ok (Dynamic.assemble_matrices ex_lu_solve (ex_init 2 false None) ex_blocks)
         (np_full 0 0 (Q2Qc 0), np_full 0 0 (Q2Qc 0), np_full 0 0 (Q2Qc 0), np_full 0 0 (Q2Qc 0)).


(** Stand-ins for the numerical routines, with the shapes of their results. *)
Definition ex_cos (x : Qc) : Qc := Q2Qc 1.
Definition ex_sin (x : Qc) : Qc := Q2Qc 0.
Definition ex_inv (X : ndarray (complex Qc)) : result (ndarray (complex Qc)) := Ok X.
Definition ex_solve (L X : ndarray (complex Qc)) : result (ndarray (complex Qc)) := Ok X.
Definition ex_svd (M : ndarray (complex Qc))
  : result (ndarray (complex Qc) * vector Qc * ndarray (complex Qc)) :=
  let k := Nat.min (nrows M) (ncols M) in
  Ok (mk_ndarray (nrows M) k (fun i j => if i =? j then one else zero),
      repeat (Q2Qc 1) k,
      mk_ndarray k (ncols M) (fun i j => if i =? j then one else zero)).
Definition ex_rsqrt (x : Qc) : Qc := x.
Definition ex_kv : vector Qc := [Q2Qc 1].

(** A model with reference length 2, speed 3 and density 5, and one of its
    steps. *)
Definition ex_scaled : Dynamic.t Qc :=
  ex_model 2 false (Some (Q2Qc 2, Q2Qc 3, Q2Qc 5)).

Definition ex_step : vector Qc * vector Qc :=
  get_ok (Dynamic.solve_step ex_scaled ex_x0 ex_u0 None false) ([], []).

(** A step of the direct form with second-order integration. *)
Definition ex_direct : Dynamic.t Qc := ex_model 2 false None.

Definition ex_direct_step : vector Qc * vector Qc :=
  get_ok (Dynamic.solve_step ex_direct ex_x0 ex_u0 None false) ([], []).

(** The value a call returned, for the examples. *)
Definition get_returned {A : Type} (c : outcome A) (d : A) : A :=
  match c with Returns a => a | Raises _ => d end.

Definition has_returned {A : Type} (c : outcome A) : bool :=
  match c with Returns _ => true | Raises _ => false end.

(** Stand-ins for the solvers of linear systems: elimination in exact
    arithmetic, whose result is returned when it solves the system. *)
Fixpoint find_pivot (c : nat) (rows : list (list Qc))
  : option (list Qc * list (list Qc)) :=
  match rows with
  | [] => None
  | r :: rest =>
      if Qc_eq_bool (nth c r zero) zero
      then match find_pivot c rest with
           | Some (p, rest') => Some (p, r :: rest')
           | None => None
           end
      else Some (r, rest)
  end.

Fixpoint eliminate (n c : nat) (done rows : list (list Qc)) : list (list Qc) :=
  match n with
  | O => done
  | S n' =>
      match find_pivot c rows with
      | None => done
      | Some (p, rest) =>
          let p' := map (fun a => div a (nth c p zero)) p in
          let clear r := map (fun ab => sub (fst ab) (mul (nth c r zero) (snd ab)))
                             (combine r p') in
          eliminate n' (S c) (map clear done ++ [p']) (map clear rest)
      end
  end.

Fixpoint vector_eqb (x y : vector Qc) : bool :=
  match x, y with
  | [], [] => true
  | a :: x', b :: y' => Qc_eq_bool a b && vector_eqb x' y'
  | _, _ => false
  end.

Definition ex_solve_vector (L : ndarray Qc) (b : vector Qc) : result (vector Qc) :=
  let rows := map (fun i => map (item L i) (seq 0 (ncols L)) ++ [vget b i])
                  (seq 0 (nrows L)) in
  let x := map (fun r => last r zero) (eliminate (ncols L) 0 [] rows) in
  if (length x =? ncols L) && vector_eqb (matvec L x) b
  then Ok x
  else Raise LinAlgError.

Definition ex_eye_as (M : ndarray Qc) : ndarray Qc :=
  mk_ndarray (nrows M) (ncols M) (fun i j => if i =? j then one else zero).

(** Stand-ins for the norm and for the comparison of floats. *)
Definition ex_norm (v : vector Qc) : Qc := np_sum (map (fun x => mul x x) v).
Definition ex_gt (a b : Qc) : bool :=
  match (a ?= b)%Qc with Gt => true | _ => false end.

(** The steady states of the direct form under the input [ex_u0]. *)
Definition ex_steady (method : string) : vector Qc * vector Qc :=
  get_returned (Dynamic.solve_steady ex_eye_as ex_solve_vector ex_solve_vector
                                     ex_norm ex_gt ex_direct ex_u0 method) ([], []).

(** Frequency descriptions of the lattice: an instance before assembly, and
    assembled ones with and without the predictor and with reference
    units. *)
Definition ex_frequency_empty : Frequency.t Qc :=
  Frequency.mk ex_MS 0 0 0 0 (Q2Qc 0) 0 0 0 false false
    (Scaling.mk (Q2Qc 1) (Q2Qc 1) (Q2Qc 1) (Q2Qc 1) (Q2Qc 1) (Q2Qc 1) (Q2Qc 1))
    None.

Definition ex_frequency_init (order : Z) (rp : bool) (sd : option (Qc * Qc * Qc))
  : Frequency.t Qc :=
  get_returned (Frequency.__init__ ex_MS (Q2Qc 1) order rp sd false) ex_frequency_empty.

Definition ex_frequency (order : Z) (rp : bool) (sd : option (Qc * Qc * Qc))
  : Frequency.t Qc :=
  get_ok (Frequency.assemble (ex_frequency_init order rp sd) ex_blocks)
         ex_frequency_empty.

Definition ex_frequency_mats : Frequency.matrices Qc :=
  match Frequency.mats (ex_frequency 2 true None) with
  | Some m => m
  | None => Frequency.mk_matrices (np_full 0 0 (Q2Qc 0)) (np_full 0 0 (Q2Qc 0))
              (np_full 0 0 (Q2Qc 0)) (np_full 0 0 (Q2Qc 0)) (np_full 0 0 (Q2Qc 0))
  end.

(** Gains from 2 inputs and to 3 outputs. *)
Definition ex_Kin : ndarray Qc := np_full 36 2 (Q2Qc 1).
Definition ex_Kout : ndarray Qc := np_full 3 12 (Q2Qc 2).

(** A response at the frequencies 1 and 2, where the stand-ins for the
    cosine and the sine give z = (3 + 4i)/5. *)
Definition ex_cos35 (x : Qc) : Qc := Q2Qc (3 # 5).
Definition ex_sin45 (x : Qc) : Qc := Q2Qc (4 # 5).
Definition ex_kv2 : vector Qc := [Q2Qc 1; Q2Qc 2].

Definition ex_frequency_response : list (ndarray (complex Qc)) :=
  get_ok (Frequency.freqresp ex_cos35 ex_sin45 ex_solve (ex_frequency 2 true None) ex_kv2)
         [].

(** A lattice of two surfaces, of 2 x 1 and 1 x 2 bound panels, the
    positions of its vertices and a rotation point. *)
Definition ex_lattice : MultiAeroGridSurfaces.t :=
  MultiAeroGridSurfaces.of_grids [((2, 1), 1); ((1, 1), 2)].

Definition ex_zeta (ss cc mm nn : nat) : Qc :=
  Q2Qc (Z.of_nat (1000 * ss + 100 * cc + 10 * mm + nn) # 1).

Definition ex_pole : vector Qc := [Q2Qc 1; Q2Qc 2; Q2Qc 3].

(** Two solutions on the lattice: bound circulations and vertex forces. *)
Definition ex_gamma1 : vector Qc := repeat (Q2Qc 1) 4.
Definition ex_fqs1 : vector Qc := map (fun k => Q2Qc (Z.of_nat (k * k + 1) # 1)) (seq 0 36).
Definition ex_gamma2 : vector Qc := repeat (Q2Qc 2) 4.
Definition ex_fqs2 : vector Qc := map (fun k => Q2Qc (Z.of_nat (3 * k) # 1)) (seq 0 36).

(** * Properties *)

(** ** Results *)

Lemma bind_ok {A B : Type} (c : result A) (k : A -> result B) (b : B) :
  bind c k = Ok b -> exists a, c = Ok a /\ k a = Ok b.
Proof.
  destruct c as [a|e]; simpl; intro H; [exists a; auto | discriminate].
Qed.

Lemma bind_assoc {A B C : Type} (c : result A) (k1 : A -> result B)
    (k2 : B -> result C) :
  bind (bind c k1) k2 = bind c (fun a => bind (k1 a) k2).
Proof. destruct c; reflexivity. Qed.

(** Splits a hypothesis [x <- c ;; k = Ok b] into the two calls. *)
Ltac bind_inv H :=
  let a := fresh "r" in
  let Ha := fresh "E" in
  apply bind_ok in H; destruct H as (a & Ha & H).

Ltac binds_inv H :=
  repeat (first [ progress (cbv zeta in H)
                | let a := fresh "r" in
                  let Ha := fresh "E" in
                  apply bind_ok in H; destruct H as (a & Ha & H) ]).

(** ** One-dimensional arrays *)

Section VectorFacts.
Context {T : Type} {N : Num T}.

Lemma length_tabulate (n : nat) (f : nat -> T) : length (tabulate n f) = n.
Proof. unfold tabulate. now rewrite length_map, length_seq. Qed.

Lemma vget_tabulate (n : nat) (f : nat -> T) (k : nat) :
  k < n -> vget (tabulate n f) k = f k.
Proof.
  intro Hk. unfold vget, tabulate.
  rewrite (nth_indep _ zero (f 0)) by (rewrite length_map, length_seq; exact Hk).
  rewrite (map_nth f (seq 0 n) 0 k). now rewrite seq_nth.
Qed.

Lemma tabulate_ext (n : nat) (f g : nat -> T) :
  (forall k, k < n -> f k = g k) -> tabulate n f = tabulate n g.
Proof.
  intro H. unfold tabulate. apply map_ext_in.
  intros k Hk. apply in_seq in Hk. apply H. lia.
Qed.

Lemma vadd_ok (x y : vector T) : length x = length y -> vadd x y = Ok (vplus x y).
Proof. intro H. unfold vadd. now rewrite (proj2 (Nat.eqb_eq _ _) H). Qed.

Lemma vsub_ok (x y : vector T) : length x = length y -> vsub x y = Ok (vminus x y).
Proof. intro H. unfold vsub. now rewrite (proj2 (Nat.eqb_eq _ _) H). Qed.

Lemma dotv_ok (X : ndarray T) (v : vector T) :
  ncols X = length v -> dotv X v = Ok (matvec X v).
Proof. intro H. unfold dotv. now rewrite (proj2 (Nat.eqb_eq _ _) H). Qed.

Lemma length_vplus (x y : vector T) : length (vplus x y) = length x.
Proof. apply length_tabulate. Qed.

Lemma length_vminus (x y : vector T) : length (vminus x y) = length x.
Proof. apply length_tabulate. Qed.

Lemma length_matvec (X : ndarray T) (v : vector T) : length (matvec X v) = nrows X.
Proof. apply length_tabulate. Qed.

Lemma length_np_ones (n : nat) : length (np_ones n : vector T) = n.
Proof. apply repeat_length. Qed.

Lemma vget_np_ones (n k : nat) : k < n -> vget (np_ones n) k = one.
Proof.
  intro H. unfold vget, np_ones.
  rewrite (nth_indep _ zero one) by (rewrite repeat_length; exact H).
  apply nth_repeat.
Qed.
End VectorFacts.

(** ** Shapes *)

Section ShapeFacts.
Context {T : Type} {N : Num T}.

Lemma dot_ok (X Y : ndarray T) : ncols X = nrows Y -> dot X Y = Ok (matmul X Y).
Proof. intro H. unfold dot. now rewrite (proj2 (Nat.eqb_eq _ _) H). Qed.

Lemma dot_shape (X Y Z : ndarray T) :
  dot X Y = Ok Z -> ncols X = nrows Y /\ nrows Z = nrows X /\ ncols Z = ncols Y.
Proof.
  unfold dot. destruct (ncols X =? nrows Y) eqn:E; [|discriminate].
  intro H; injection H as <-. apply Nat.eqb_eq in E. simpl. auto.
Qed.

Lemma same_shape_true (X Y : ndarray T) :
  nrows X = nrows Y -> ncols X = ncols Y -> same_shape X Y = true.
Proof.
  intros H1 H2. unfold same_shape.
  now rewrite (proj2 (Nat.eqb_eq _ _) H1), (proj2 (Nat.eqb_eq _ _) H2).
Qed.

Lemma same_shape_inv (X Y : ndarray T) :
  same_shape X Y = true -> nrows X = nrows Y /\ ncols X = ncols Y.
Proof.
  unfold same_shape. intro H. apply andb_prop in H as [H1 H2].
  now apply Nat.eqb_eq in H1, H2.
Qed.

Lemma np_add_ok (X Y : ndarray T) :
  nrows X = nrows Y -> ncols X = ncols Y -> np_add X Y = Ok (madd X Y).
Proof. intros H1 H2. unfold np_add. now rewrite same_shape_true. Qed.

Lemma np_sub_ok (X Y : ndarray T) :
  nrows X = nrows Y -> ncols X = ncols Y -> np_sub X Y = Ok (msub X Y).
Proof. intros H1 H2. unfold np_sub. now rewrite same_shape_true. Qed.

Lemma np_add_shape (X Y Z : ndarray T) :
  np_add X Y = Ok Z ->
  nrows Y = nrows X /\ ncols Y = ncols X /\ nrows Z = nrows X /\ ncols Z = ncols X.
Proof.
  unfold np_add. destruct (same_shape X Y) eqn:E; [|discriminate].
  intro H; injection H as <-. apply same_shape_inv in E. simpl. lia.
Qed.

Lemma setitem_ok (X : ndarray T) (r0 r1 c0 c1 : nat) (Y : ndarray T) :
  nrows Y = Nat.min r1 (nrows X) - Nat.min r0 (nrows X) ->
  ncols Y = Nat.min c1 (ncols X) - Nat.min c0 (ncols X) ->
  setitem X r0 r1 c0 c1 Y =
  Ok (mk_ndarray (nrows X) (ncols X)
        (fun i j => if in_block (Nat.min r0 (nrows X)) (Nat.min r1 (nrows X))
                                (Nat.min c0 (ncols X)) (Nat.min c1 (ncols X)) i j
                    then item Y (i - Nat.min r0 (nrows X)) (j - Nat.min c0 (ncols X))
                    else item X i j)).
Proof.
  intros H1 H2. unfold setitem.
  now rewrite (proj2 (Nat.eqb_eq _ _) H1), (proj2 (Nat.eqb_eq _ _) H2).
Qed.

Lemma setitem_shape (X : ndarray T) (r0 r1 c0 c1 : nat) (Y Z : ndarray T) :
  setitem X r0 r1 c0 c1 Y = Ok Z -> nrows Z = nrows X /\ ncols Z = ncols X.
Proof.
  unfold setitem.
  destruct (_ && _); [|discriminate]. intro H; injection H as <-. simpl. auto.
Qed.

Lemma setitem_rows_shape (X : ndarray T) (r0 r1 c0 c1 : nat) (Y Z : ndarray T) :
  setitem_rows X r0 r1 c0 c1 Y = Ok Z -> nrows Z = nrows X /\ ncols Z = ncols X.
Proof.
  unfold setitem_rows. destruct (_ && _); [discriminate|]. apply setitem_shape.
Qed.

Lemma setitem_rows_ok (X : ndarray T) (r0 r1 c0 c1 : nat) (Y : ndarray T) :
  r1 <= nrows X ->
  setitem_rows X r0 r1 c0 c1 Y = setitem X r0 r1 c0 c1 Y.
Proof.
  intro H. unfold setitem_rows.
  replace (nrows X <? r1) with false by (symmetry; apply Nat.ltb_ge; exact H).
  now rewrite andb_false_r.
Qed.

Lemma diag_in_bounds_true (X : ndarray T) (r0 c0 n : nat) :
  r0 + n <= nrows X -> c0 + n <= ncols X -> diag_in_bounds X r0 c0 n = true.
Proof.
  intros H1 H2. unfold diag_in_bounds.
  rewrite (proj2 (Nat.leb_le _ _) H1), (proj2 (Nat.leb_le _ _) H2).
  apply orb_true_r.
Qed.

Lemma setitem_diag_shape (X : ndarray T) (r0 c0 : nat) (v : vector T) (Z : ndarray T) :
  setitem_diag X r0 c0 v = Ok Z -> nrows Z = nrows X /\ ncols Z = ncols X.
Proof.
  unfold setitem_diag. destruct (diag_in_bounds _ _ _ _); [|discriminate].
  intro H; injection H as <-. simpl. auto.
Qed.

Lemma iadd_diag_shape (X : ndarray T) (r0 c0 : nat) (v : vector T) (Z : ndarray T) :
  iadd_diag X r0 c0 v = Ok Z -> nrows Z = nrows X /\ ncols Z = ncols X.
Proof.
  unfold iadd_diag. destruct (diag_in_bounds _ _ _ _); [|discriminate].
  intro H; injection H as <-. simpl. auto.
Qed.

Lemma isub_diag_shape (X : ndarray T) (r0 c0 : nat) (v : vector T) (Z : ndarray T) :
  isub_diag X r0 c0 v = Ok Z -> nrows Z = nrows X /\ ncols Z = ncols X.
Proof.
  unfold isub_diag. destruct (diag_in_bounds _ _ _ _); [|discriminate].
  intro H; injection H as <-. simpl. auto.
Qed.

Lemma hstack_ok (X Y : ndarray T) :
  nrows X = nrows Y ->
  hstack X Y = Ok (mk_ndarray (nrows X) (ncols X + ncols Y)
                     (fun i j => if j <? ncols X then item X i j
                                 else item Y i (j - ncols X))).
Proof. intro H. unfold hstack. now rewrite (proj2 (Nat.eqb_eq _ _) H). Qed.

Lemma vstack_ok (X Y : ndarray T) :
  ncols X = ncols Y ->
  vstack X Y = Ok (mk_ndarray (nrows X + nrows Y) (ncols X)
                     (fun i j => if i <? nrows X then item X i j
                                 else item Y (i - nrows X) j)).
Proof. intro H. unfold vstack. now rewrite (proj2 (Nat.eqb_eq _ _) H). Qed.
End ShapeFacts.

(** ** Finite sums *)

Section SumFacts.
Context {T : Type} {N : Num T} {F : Field T}.
Add Field SumField : Field_laws.
Local Open Scope num_scope.

Lemma sum_n_ext (n : nat) (f g : nat -> T) :
  (forall k, k < n -> f k = g k) -> sum_n n f = sum_n n g.
Proof.
  induction n as [|n IH]; simpl; intro H; [reflexivity|].
  rewrite IH by (intros; apply H; lia). now rewrite H by lia.
Qed.

Lemma sum_n_zero (n : nat) : sum_n n (fun _ => zero) = (zero : T).
Proof. induction n as [|n IH]; simpl; [reflexivity|]. rewrite IH. ring. Qed.

Lemma sum_n_add (n : nat) (f g : nat -> T) :
  sum_n n (fun k => f k + g k) = sum_n n f + sum_n n g.
Proof. induction n as [|n IH]; simpl; [ring|]. rewrite IH. ring. Qed.

Lemma sum_n_sub (n : nat) (f g : nat -> T) :
  sum_n n (fun k => f k - g k) = sum_n n f - sum_n n g.
Proof. induction n as [|n IH]; simpl; [ring|]. rewrite IH. ring. Qed.

Lemma sum_n_mul_l (n : nat) (c : T) (f : nat -> T) :
  sum_n n (fun k => c * f k) = c * sum_n n f.
Proof. induction n as [|n IH]; simpl; [ring|]. rewrite IH. ring. Qed.

Lemma sum_n_mul_r (n : nat) (c : T) (f : nat -> T) :
  sum_n n (fun k => f k * c) = sum_n n f * c.
Proof. induction n as [|n IH]; simpl; [ring|]. rewrite IH. ring. Qed.

Lemma sum_n_exchange (n m : nat) (f : nat -> nat -> T) :
  sum_n n (fun i => sum_n m (fun j => f i j)) =
  sum_n m (fun j => sum_n n (fun i => f i j)).
Proof.
  induction n as [|n IH]; simpl.
  - now rewrite sum_n_zero.
  - rewrite IH. now rewrite <- sum_n_add.
Qed.

(** A sum with one non-zero term. *)
Lemma sum_n_single (n k : nat) (f : nat -> T) :
  k < n -> (forall j, j < n -> j <> k -> f j = zero) -> sum_n n f = f k.
Proof.
  induction n as [|n IH]; [lia|]. intros Hk H. simpl.
  destruct (Nat.eq_dec k n) as [->|Hne].
  - rewrite sum_n_ext with (g := fun _ => zero) by (intros; apply H; lia).
    rewrite sum_n_zero. ring.
  - rewrite IH by (try lia; intros; apply H; lia).
    rewrite (H n) by lia. ring.
Qed.

(** (X Y) v = X (Y v), entry by entry. *)
Lemma sum_n_assoc (n m : nat) (x : nat -> T) (y : nat -> nat -> T) (v : nat -> T) :
  sum_n m (fun k => sum_n n (fun j => x j * y j k) * v k) =
  sum_n n (fun j => x j * sum_n m (fun k => y j k * v k)).
Proof.
  rewrite sum_n_ext with (g := fun k => sum_n n (fun j => x j * y j k * v k))
    by (intros; now rewrite sum_n_mul_r).
  rewrite sum_n_exchange. apply sum_n_ext. intros j _.
  rewrite <- sum_n_mul_l. apply sum_n_ext. intros k _. ring.
Qed.
End SumFacts.

(** ** Shapes of the assembled matrices *)

Ltac shapes :=
  repeat match goal with
  | H : setitem _ _ _ _ _ _ = Ok _ |- _ => apply setitem_shape in H; destruct H
  | H : setitem_rows _ _ _ _ _ _ = Ok _ |- _ => apply setitem_rows_shape in H; destruct H
  | H : setitem_diag _ _ _ _ = Ok _ |- _ => apply setitem_diag_shape in H; destruct H
  | H : iadd_diag _ _ _ _ = Ok _ |- _ => apply iadd_diag_shape in H; destruct H
  | H : isub_diag _ _ _ _ = Ok _ |- _ => apply isub_diag_shape in H; destruct H
  | H : dot _ _ = Ok _ |- _ => apply dot_shape in H; destruct H as (? & ? & ?)
  | H : np_add _ _ = Ok _ |- _ => apply np_add_shape in H; destruct H as (? & ? & ? & ?)
  | H : Ok _ = Ok _ |- _ => injection H as H; try subst
  end.

Section AssemblyShapes.
Context {R : Type} {N : Num R}.
Variable lu_solve : ndarray R -> ndarray R -> result (ndarray R).

Lemma assemble_A_shape (self : Dynamic.t R) (P Pw Cg CgW Ass : ndarray R) :
  Dynamic.assemble_A self P Pw Cg CgW = Ok Ass ->
  nrows Ass = Dynamic.Nx self /\ ncols Ass = Dynamic.Nx self.
Proof.
  unfold Dynamic.assemble_A. intro H. binds_inv H.
  destruct (Dynamic.integr_order self =? 1)%Z, (Dynamic.integr_order self =? 2)%Z;
    binds_inv H; binds_inv E3; shapes; simpl in *; lia.
Qed.

Lemma assemble_B_shape (self : Dynamic.t R) (Bup Bss : ndarray R) :
  Dynamic.assemble_B self Bup = Ok Bss ->
  nrows Bss = Dynamic.Nx self /\ ncols Bss = Dynamic.Nu self.
Proof.
  unfold Dynamic.assemble_B. intro H. binds_inv H.
  destruct (Dynamic.integr_order self =? 1)%Z, (Dynamic.integr_order self =? 2)%Z;
    shapes; simpl in *; lia.
Qed.

Lemma assemble_C_shape (self : Dynamic.t R) (ass : assembly.blocks R) (Css : ndarray R) :
  Dynamic.assemble_C self ass = Ok Css ->
  nrows Css = Dynamic.Ny self /\ ncols Css = Dynamic.Nx self.
Proof.
  unfold Dynamic.assemble_C. intro H. binds_inv H.
  destruct (Dynamic.include_added_mass self); shapes; simpl in *; lia.
Qed.

Lemma assemble_D_shape (self : Dynamic.t R) (ass : assembly.blocks R) (Dss : ndarray R) :
  Dynamic.assemble_D self ass = Ok Dss ->
  nrows Dss = Dynamic.Ny self /\ ncols Dss = Dynamic.Nu self.
Proof.
  unfold Dynamic.assemble_D. intro H. binds_inv H.
  destruct (Dynamic.include_added_mass self); shapes; simpl in *; lia.
Qed.
End AssemblyShapes.

Section AssembledShapes.
Context {R : Type} {N : Num R}.
Variable lu_solve : ndarray R -> ndarray R -> result (ndarray R).

Lemma assemble_matrices_shape (self : Dynamic.t R) (ass : assembly.blocks R)
    (Ass Bss Css Dss : ndarray R) :
  Dynamic.assemble_matrices lu_solve self ass = Ok (Ass, Bss, Css, Dss) ->
  shape Ass = (Dynamic.Nx self, Dynamic.Nx self) /\
  shape Bss = (Dynamic.Nx self, Dynamic.Nu self) /\
  shape Css = (Dynamic.Ny self, Dynamic.Nx self) /\
  shape Dss = (Dynamic.Ny self, Dynamic.Nu self).
Proof.
  unfold Dynamic.assemble_matrices. intro H. binds_inv H.
  injection H as -> -> -> ->.
  repeat match goal with
  | H : Dynamic.assemble_A _ _ _ _ _ = Ok _ |- _ => apply assemble_A_shape in H; destruct H
  | H : Dynamic.assemble_B _ _ = Ok _ |- _ => apply assemble_B_shape in H; destruct H
  | H : Dynamic.assemble_C _ _ = Ok _ |- _ => apply assemble_C_shape in H; destruct H
  | H : Dynamic.assemble_D _ _ = Ok _ |- _ => apply assemble_D_shape in H; destruct H
  end.
  unfold shape. repeat split; congruence.
Qed.

(** What [assemble_ss] leaves in the instance. *)
Lemma assemble_ss_inv (self self' : Dynamic.t R) (ass : assembly.blocks R) :
  Dynamic.assemble_ss lu_solve self ass = Ok self' ->
  exists Ass Bss Css Dss,
    Dynamic.assemble_matrices lu_solve self ass = Ok (Ass, Bss, Css, Dss) /\
    if Dynamic.remove_predictor self then
      exists Bmod CB Dmod,
        dot Ass Bss = Ok Bmod /\ dot Css Bss = Ok CB /\ np_add CB Dss = Ok Dmod /\
        self' = Dynamic.set_SS self (libss.mk_ss Ass Bmod Css Dmod (Dynamic.dt self))
                               (Some Bss)
    else
      self' = Dynamic.set_SS self (libss.mk_ss Ass Bss Css Dss (Dynamic.dt self))
                             (Dynamic.B_predictor self).
Proof.
  unfold Dynamic.assemble_ss. intro H. bind_inv H.
  destruct r as [[[Ass Bss] Css] Dss]. exists Ass, Bss, Css, Dss. split; [exact E|].
  destruct (Dynamic.remove_predictor self).
  - bind_inv H. unfold libss.SSconv in E0. binds_inv E0.
    injection E0 as <-. injection H as <-. eauto 8.
  - now injection H as <-.
Qed.
End AssembledShapes.

(** ** Linear algebra *)

Section LinearAlgebra.
Context {T : Type} {N : Num T} {F : Field T}.
Add Field LAField : Field_laws.
Local Open Scope num_scope.

Lemma vget_vplus (x y : vector T) (k : nat) :
  k < length x -> vget (vplus x y) k = vget x k + vget y k.
Proof. intro H. unfold vplus. now rewrite vget_tabulate. Qed.

Lemma vget_vminus (x y : vector T) (k : nat) :
  k < length x -> vget (vminus x y) k = vget x k - vget y k.
Proof. intro H. unfold vminus. now rewrite vget_tabulate. Qed.

Lemma vget_matvec (X : ndarray T) (v : vector T) (i : nat) :
  i < nrows X ->
  vget (matvec X v) i = sum_n (ncols X) (fun k => item X i k * vget v k).
Proof. intro H. unfold matvec. now rewrite vget_tabulate. Qed.

(** Two one-dimensional arrays of one length and the same entries are equal. *)
Lemma vector_ext (x y : vector T) :
  length x = length y -> (forall k, k < length x -> vget x k = vget y k) -> x = y.
Proof.
  intros Hl H. apply (nth_ext x y zero zero Hl). exact H.
Qed.

Lemma matvec_matmul (X Y : ndarray T) (v : vector T) :
  ncols X = nrows Y -> matvec (matmul X Y) v = matvec X (matvec Y v).
Proof.
  intro H. apply vector_ext; rewrite !length_matvec; [reflexivity|].
  simpl. intros i Hi. rewrite !vget_matvec by exact Hi. simpl.
  rewrite sum_n_assoc. apply sum_n_ext. intros k Hk.
  rewrite vget_matvec by lia. reflexivity.
Qed.

Lemma matvec_vplus (X : ndarray T) (x y : vector T) :
  length x = ncols X -> matvec X (vplus x y) = vplus (matvec X x) (matvec X y).
Proof.
  intro H. apply vector_ext; rewrite ?length_vplus, !length_matvec; [reflexivity|].
  intros i Hi. rewrite vget_vplus by (rewrite length_matvec; exact Hi).
  rewrite !vget_matvec by exact Hi. rewrite <- sum_n_add.
  apply sum_n_ext. intros k Hk. rewrite vget_vplus by lia. ring.
Qed.

Lemma matvec_vminus (X : ndarray T) (x y : vector T) :
  length x = ncols X -> matvec X (vminus x y) = vminus (matvec X x) (matvec X y).
Proof.
  intro H. apply vector_ext; rewrite ?length_vminus, !length_matvec; [reflexivity|].
  intros i Hi. rewrite vget_vminus by (rewrite length_matvec; exact Hi).
  rewrite !vget_matvec by exact Hi. rewrite <- sum_n_sub.
  apply sum_n_ext. intros k Hk. rewrite vget_vminus by lia. ring.
Qed.

Lemma matvec_madd (X Y : ndarray T) (v : vector T) :
  matvec (madd X Y) v =
  vplus (matvec X v) (tabulate (nrows X)
                        (fun i => sum_n (ncols X) (fun k => item Y i k * vget v k))).
Proof.
  apply vector_ext; rewrite ?length_vplus, !length_matvec; [reflexivity|].
  simpl. intros i Hi. rewrite vget_vplus by (rewrite length_matvec; exact Hi).
  rewrite !vget_matvec by exact Hi. rewrite vget_tabulate by exact Hi. simpl.
  rewrite <- sum_n_add. apply sum_n_ext. intros k Hk. ring.
Qed.

Lemma vplus_vminus_cancel (x y : vector T) :
  length y = length x -> vplus (vminus x y) y = x.
Proof.
  intro H. apply vector_ext; rewrite length_vplus, length_vminus; [reflexivity|].
  intros k Hk. rewrite vget_vplus by (rewrite length_vminus; exact Hk).
  rewrite vget_vminus by exact Hk. ring.
Qed.

Lemma vminus_vplus_cancel (x y : vector T) :
  length y = length x -> vminus (vplus x y) y = x.
Proof.
  intro H. apply vector_ext; rewrite length_vminus, length_vplus; [reflexivity|].
  intros k Hk. rewrite vget_vminus by (rewrite length_vplus; exact Hk).
  rewrite vget_vplus by exact Hk. ring.
Qed.

Lemma vplus_assoc (x y z : vector T) :
  length y = length x -> vplus (vplus x y) z = vplus x (vplus y z).
Proof.
  intro H. apply vector_ext; rewrite !length_vplus; [reflexivity|].
  intros k Hk. rewrite !vget_vplus; rewrite ?length_vplus; try lia. ring.
Qed.
End LinearAlgebra.

(** ** Direct form and predictor-removed form *)

Section PredictorRemoval.
Context {R : Type} {N : Num R} {F : Field R}.

Variables (A B C D : ndarray R) (nx nu ny : nat).
Hypothesis HA : shape A = (nx, nx).
Hypothesis HB : shape B = (nx, nu).
Hypothesis HC : shape C = (ny, nx).
Hypothesis HD : shape D = (ny, nu).

Variables md mp : Dynamic.t R.
Variable dt : R.
Hypothesis Hmd : Dynamic.SS md = Some (libss.mk_ss A B C D dt).
Hypothesis Hmd_rp : Dynamic.remove_predictor md = false.
Hypothesis Hmp :
  Dynamic.SS mp = Some (libss.mk_ss A (matmul A B) C (madd (matmul C B) D) dt).
Hypothesis Hmp_rp : Dynamic.remove_predictor mp = true.

(** One step: from x and h = x - B u, both forms give the same output, and
    the new states are again related by h' = x' - B u'. *)
Lemma solve_step_equiv (x u u1 : vector R) :
  length x = nx -> length u = nu -> length u1 = nu ->
  exists x1 y,
    Dynamic.solve_step md x u (Some u1) false = Ok (x1, y) /\
    Dynamic.solve_step mp (vminus x (matvec B u)) u (Some u1) false
    = Ok (vminus x1 (matvec B u1), y) /\
    length x1 = nx.
Proof.
  intros Hx Hu Hu1.
  pose proof (f_equal fst HA) as HA1. pose proof (f_equal snd HA) as HA2.
  pose proof (f_equal fst HB) as HB1. pose proof (f_equal snd HB) as HB2.
  pose proof (f_equal fst HC) as HC1. pose proof (f_equal snd HC) as HC2.
  pose proof (f_equal fst HD) as HD1. pose proof (f_equal snd HD) as HD2.
  simpl in HA1, HA2, HB1, HB2, HC1, HC2, HD1, HD2.
  unfold Dynamic.solve_step, Dynamic.get_SS.
  rewrite Hmd_rp, Hmp_rp, Hmd, Hmp. simpl.
  rewrite (dotv_ok A x) by congruence. simpl.
  rewrite (dotv_ok B u1) by congruence. simpl.
  rewrite vadd_ok by (rewrite !length_matvec; congruence). simpl.
  rewrite (dotv_ok C) by (rewrite length_vplus, length_matvec; congruence). simpl.
  rewrite (dotv_ok D u1) by congruence. simpl.
  rewrite vadd_ok by (rewrite !length_matvec; congruence). simpl.
  rewrite (dotv_ok A) by (rewrite length_vminus; congruence). simpl.
  rewrite (dotv_ok _ u) by (simpl; congruence). simpl.
  rewrite vadd_ok by (rewrite !length_matvec; simpl; congruence). simpl.
  rewrite (dotv_ok C) by (rewrite length_vplus, length_matvec; congruence). simpl.
  rewrite (dotv_ok _ u1) by (simpl; congruence). simpl.
  rewrite vadd_ok by (rewrite !length_matvec; simpl; congruence). simpl.
  assert (Eh : vplus (matvec A (vminus x (matvec B u))) (matvec (matmul A B) u)
               = matvec A x).
  { rewrite matvec_matmul by congruence.
    rewrite matvec_vminus by congruence.
    apply vplus_vminus_cancel. rewrite !length_matvec. reflexivity. }
  rewrite Eh.
  eexists _, _. split; [reflexivity|]. split.
  - f_equal. f_equal.
    + rewrite vminus_vplus_cancel by (rewrite !length_matvec; congruence).
      reflexivity.
    + rewrite matvec_vplus by (rewrite length_matvec; congruence).
      rewrite vplus_assoc by (rewrite !length_matvec; reflexivity).
      f_equal. rewrite matvec_madd. simpl.
      rewrite matvec_matmul by congruence. f_equal.
      unfold matvec. rewrite HC1, HD1, HB2, HD2. reflexivity.
  - rewrite length_vplus, length_matvec. exact HA1.
Qed.

(** The two forms along a whole input sequence. *)
Lemma time_march_equiv (us : list (vector R)) :
  forall x u,
    length x = nx -> length u = nu -> Forall (fun v => length v = nu) us ->
    exists ys,
      time_march md false x u us = Ok ys /\
      time_march mp false (vminus x (matvec B u)) u us = Ok ys /\
      length ys = length us /\ Forall (fun y => length y = ny) ys.
Proof.
  induction us as [|u1 us IH]; intros x u Hx Hu Hus.
  - exists []. simpl. auto.
  - pose proof (Forall_inv Hus) as Hu1. pose proof (Forall_inv_tail Hus) as Hus'.
    simpl in Hu1.
    destruct (solve_step_equiv x u u1 Hx Hu Hu1) as (x1 & y & E1 & E2 & Hx1).
    destruct (IH x1 u1 Hx1 Hu1 Hus') as (ys & E3 & E4 & Hl & Hy).
    exists (y :: ys). simpl. rewrite E1, E2. simpl. rewrite E3, E4. simpl.
    repeat split; [congruence|]. constructor; [|exact Hy].
    clear - E1 Hmd Hmd_rp HC HD Hu1 Hx Hu HA HB.
    unfold Dynamic.solve_step, Dynamic.get_SS in E1. rewrite Hmd_rp, Hmd in E1.
    simpl in E1. binds_inv E1. injection E1 as _ <-.
    unfold vadd in E5. destruct (_ =? _); [|discriminate]. injection E5 as <-.
    rewrite length_vplus.
    unfold dotv in E3. destruct (_ =? _); [|discriminate]. injection E3 as <-.
    rewrite length_matvec. exact (f_equal fst HC).
Qed.
End PredictorRemoval.

(** ** Completion of the assembly *)

Section Completion.
Context {T : Type} {N : Num T}.

Lemma shape_eq (X : ndarray T) (r c : nat) :
  shape X = (r, c) -> nrows X = r /\ ncols X = c.
Proof. unfold shape. intro H. now injection H. Qed.

Lemma in_block_iff (r0 r1 c0 c1 i j : nat) :
  in_block r0 r1 c0 c1 i j = true <-> r0 <= i < r1 /\ c0 <= j < c1.
Proof.
  unfold in_block. rewrite !andb_true_iff, !Nat.leb_le, !Nat.ltb_lt. lia.
Qed.

Lemma in_block_true (r0 r1 c0 c1 i j : nat) :
  r0 <= i < r1 /\ c0 <= j < c1 -> in_block r0 r1 c0 c1 i j = true.
Proof. apply in_block_iff. Qed.

Lemma in_block_false (r0 r1 c0 c1 i j : nat) :
  ~ (r0 <= i < r1 /\ c0 <= j < c1) -> in_block r0 r1 c0 c1 i j = false.
Proof.
  intro H. destruct (in_block r0 r1 c0 c1 i j) eqn:E; [|reflexivity].
  apply in_block_iff in E. contradiction.
Qed.

Lemma on_diag_iff (r0 c0 n i j : nat) :
  on_diag r0 c0 n i j = true <-> r0 <= i < r0 + n /\ c0 <= j /\ j - c0 = i - r0.
Proof.
  unfold on_diag. rewrite !andb_true_iff, !Nat.leb_le, Nat.ltb_lt, Nat.eqb_eq. lia.
Qed.

Lemma on_diag_true (r0 c0 n i j : nat) :
  r0 <= i < r0 + n /\ c0 <= j /\ j - c0 = i - r0 -> on_diag r0 c0 n i j = true.
Proof. apply on_diag_iff. Qed.

Lemma on_diag_false (r0 c0 n i j : nat) :
  ~ (r0 <= i < r0 + n /\ c0 <= j /\ j - c0 = i - r0) -> on_diag r0 c0 n i j = false.
Proof.
  intro H. destruct (on_diag r0 c0 n i j) eqn:E; [|reflexivity].
  apply on_diag_iff in E. contradiction.
Qed.

Lemma setitem_complete (X : ndarray T) (r0 r1 c0 c1 : nat) (Y : ndarray T) :
  r1 <= nrows X -> c1 <= ncols X -> nrows Y = r1 - r0 -> ncols Y = c1 - c0 ->
  exists Z, setitem X r0 r1 c0 c1 Y = Ok Z /\ assigned X r0 r1 c0 c1 Y Z.
Proof.
  intros H1 H2 H3 H4. rewrite setitem_ok by lia.
  eexists. split; [reflexivity|]. repeat split. intros i j. simpl.
  destruct (Nat.le_gt_cases r0 r1) as [Hr|Hr], (Nat.le_gt_cases c0 c1) as [Hc|Hc].
  - now rewrite !Nat.min_l by lia.
  - rewrite in_block_false by lia. now rewrite in_block_false by lia.
  - rewrite in_block_false by lia. now rewrite in_block_false by lia.
  - rewrite in_block_false by lia. now rewrite in_block_false by lia.
Qed.

Lemma setitem_rows_complete (X : ndarray T) (r0 r1 c0 c1 : nat) (Y : ndarray T) :
  r1 <= nrows X -> c1 <= ncols X -> nrows Y = r1 - r0 -> ncols Y = c1 - c0 ->
  exists Z, setitem_rows X r0 r1 c0 c1 Y = Ok Z /\ assigned X r0 r1 c0 c1 Y Z.
Proof.
  intros H1 H2 H3 H4. rewrite setitem_rows_ok by assumption.
  now apply setitem_complete.
Qed.

Lemma setitem_cols_ok (X : ndarray T) (c0 c1 : nat) (Y : ndarray T) :
  c1 <= ncols X -> setitem_cols X c0 c1 Y = setitem X 0 (nrows X) c0 c1 Y.
Proof.
  intro H. unfold setitem_cols.
  replace (ncols X <? c1) with false by (symmetry; apply Nat.ltb_ge; exact H).
  now rewrite andb_false_r.
Qed.

Lemma setitem_cols_complete (X : ndarray T) (c0 c1 : nat) (Y : ndarray T) :
  c1 <= ncols X -> nrows Y = nrows X -> ncols Y = c1 - c0 ->
  exists Z, setitem_cols X c0 c1 Y = Ok Z /\ nrows Z = nrows X /\ ncols Z = ncols X.
Proof.
  intros H2 H3 H4. rewrite setitem_cols_ok by assumption.
  destruct (@setitem_complete X 0 (nrows X) c0 c1 Y) as (Z & E & Hr & Hc & _);
    try lia.
  eauto.
Qed.

Lemma setitem_diag_complete (X : ndarray T) (r0 c0 : nat) (v : vector T) :
  r0 + length v <= nrows X -> c0 + length v <= ncols X ->
  exists Z, setitem_diag X r0 c0 v = Ok Z /\ diag_updated (fun _ y => y) X r0 c0 v Z.
Proof.
  intros H1 H2. unfold setitem_diag. rewrite diag_in_bounds_true by assumption.
  eexists. split; [reflexivity|]. repeat split.
Qed.

Lemma iadd_diag_complete (X : ndarray T) (r0 c0 : nat) (v : vector T) :
  r0 + length v <= nrows X -> c0 + length v <= ncols X ->
  exists Z, iadd_diag X r0 c0 v = Ok Z /\ diag_updated add X r0 c0 v Z.
Proof.
  intros H1 H2. unfold iadd_diag. rewrite diag_in_bounds_true by assumption.
  eexists. split; [reflexivity|]. repeat split.
Qed.

Lemma isub_diag_complete (X : ndarray T) (r0 c0 : nat) (v : vector T) :
  r0 + length v <= nrows X -> c0 + length v <= ncols X ->
  exists Z, isub_diag X r0 c0 v = Ok Z /\ diag_updated sub X r0 c0 v Z.
Proof.
  intros H1 H2. unfold isub_diag. rewrite diag_in_bounds_true by assumption.
  eexists. split; [reflexivity|]. repeat split.
Qed.

Lemma getitem_cols_ok (X : ndarray T) (c0 c1 : nat) :
  c1 <= ncols X -> getitem_cols X c0 c1 = Ok (getitem X 0 (nrows X) c0 c1).
Proof.
  intro H. unfold getitem_cols.
  replace (ncols X <? c1) with false by (symmetry; apply Nat.ltb_ge; exact H).
  now rewrite andb_false_r.
Qed.

Lemma getitem_rows_ok (X : ndarray T) (r0 r1 : nat) :
  r1 <= nrows X -> getitem_rows X r0 r1 = Ok (getitem X r0 r1 0 (ncols X)).
Proof.
  intro H. unfold getitem_rows.
  replace (nrows X <? r1) with false by (symmetry; apply Nat.ltb_ge; exact H).
  now rewrite andb_false_r.
Qed.

Lemma mul_cols_ok (X : ndarray T) (v : vector T) :
  ncols X = length v ->
  mul_cols X v = Ok (mk_ndarray (nrows X) (ncols X)
                       (fun i j => mul (item X i j) (vget v j))).
Proof. intro H. unfold mul_cols. now rewrite (proj2 (Nat.eqb_eq _ _) H). Qed.

Lemma returns_setitem (X : ndarray T) (r0 r1 c0 c1 : nat) (Y : ndarray T) :
  r1 <= nrows X -> c1 <= ncols X -> nrows Y = r1 - r0 -> ncols Y = c1 - c0 ->
  returns (setitem X r0 r1 c0 c1 Y) (nrows X) (ncols X).
Proof.
  intros H1 H2 H3 H4.
  destruct (@setitem_complete X r0 r1 c0 c1 Y H1 H2 H3 H4) as (Z & E & Hr & Hc & _).
  exists Z. auto.
Qed.

Lemma returns_setitem_rows (X : ndarray T) (r0 r1 c0 c1 : nat) (Y : ndarray T) :
  r1 <= nrows X -> c1 <= ncols X -> nrows Y = r1 - r0 -> ncols Y = c1 - c0 ->
  returns (setitem_rows X r0 r1 c0 c1 Y) (nrows X) (ncols X).
Proof.
  intros H1 H2 H3 H4. rewrite setitem_rows_ok by assumption.
  now apply returns_setitem.
Qed.

Lemma returns_setitem_cols (X : ndarray T) (c0 c1 : nat) (Y : ndarray T) :
  c1 <= ncols X -> nrows Y = nrows X -> ncols Y = c1 - c0 ->
  returns (setitem_cols X c0 c1 Y) (nrows X) (ncols X).
Proof. apply setitem_cols_complete. Qed.

Lemma returns_setitem_diag (X : ndarray T) (r0 c0 : nat) (v : vector T) :
  r0 + length v <= nrows X -> c0 + length v <= ncols X ->
  returns (setitem_diag X r0 c0 v) (nrows X) (ncols X).
Proof.
  intros H1 H2.
  destruct (@setitem_diag_complete X r0 c0 v H1 H2) as (Z & E & Hr & Hc & _).
  exists Z. auto.
Qed.

Lemma returns_iadd_diag (X : ndarray T) (r0 c0 : nat) (v : vector T) :
  r0 + length v <= nrows X -> c0 + length v <= ncols X ->
  returns (iadd_diag X r0 c0 v) (nrows X) (ncols X).
Proof.
  intros H1 H2.
  destruct (@iadd_diag_complete X r0 c0 v H1 H2) as (Z & E & Hr & Hc & _).
  exists Z. auto.
Qed.

Lemma returns_isub_diag (X : ndarray T) (r0 c0 : nat) (v : vector T) :
  r0 + length v <= nrows X -> c0 + length v <= ncols X ->
  returns (isub_diag X r0 c0 v) (nrows X) (ncols X).
Proof.
  intros H1 H2.
  destruct (@isub_diag_complete X r0 c0 v H1 H2) as (Z & E & Hr & Hc & _).
  exists Z. auto.
Qed.

Lemma returns_getitem_cols (X : ndarray T) (c0 c1 : nat) :
  c1 <= ncols X -> returns (getitem_cols X c0 c1) (nrows X) (c1 - c0).
Proof.
  intro H. rewrite getitem_cols_ok by exact H.
  eexists. split; [reflexivity|]. simpl. lia.
Qed.

Lemma returns_getitem_rows (X : ndarray T) (r0 r1 : nat) :
  r1 <= nrows X -> returns (getitem_rows X r0 r1) (r1 - r0) (ncols X).
Proof.
  intro H. rewrite getitem_rows_ok by exact H.
  eexists. split; [reflexivity|]. simpl. lia.
Qed.

Lemma returns_dot (X Y : ndarray T) :
  ncols X = nrows Y -> returns (dot X Y) (nrows X) (ncols Y).
Proof. intro H. rewrite dot_ok by exact H. eexists. simpl. eauto. Qed.

Lemma returns_np_add (X Y : ndarray T) :
  nrows X = nrows Y -> ncols X = ncols Y -> returns (np_add X Y) (nrows X) (ncols X).
Proof. intros H1 H2. rewrite np_add_ok by assumption. eexists. simpl. eauto. Qed.

Lemma returns_np_sub (X Y : ndarray T) :
  nrows X = nrows Y -> ncols X = ncols Y -> returns (np_sub X Y) (nrows X) (ncols X).
Proof. intros H1 H2. rewrite np_sub_ok by assumption. eexists. simpl. eauto. Qed.

Lemma returns_hstack (X Y : ndarray T) :
  nrows X = nrows Y -> returns (hstack X Y) (nrows X) (ncols X + ncols Y).
Proof. intro H. rewrite hstack_ok by exact H. eexists. simpl. eauto. Qed.

Lemma returns_vstack (X Y : ndarray T) :
  ncols X = ncols Y -> returns (vstack X Y) (nrows X + nrows Y) (ncols X).
Proof. intro H. rewrite vstack_ok by exact H. eexists. simpl. eauto. Qed.

Lemma returns_mul_cols (X : ndarray T) (v : vector T) :
  ncols X = length v -> returns (mul_cols X v) (nrows X) (ncols X).
Proof. intro H. rewrite mul_cols_ok by exact H. eexists. simpl. eauto. Qed.
End Completion.

Ltac shape_side :=
  simpl; rewrite ?length_map, ?length_np_ones, ?length_seq, ?length_app; lia.

Lemma is_ok_ex {A : Type} (c : result A) : is_ok c = true -> exists a, c = Ok a.
Proof. destruct c as [a|e]; [eauto | discriminate]. Qed.

(** Runs the first call of a chain [is_ok (x <- op ;; k) = true] when the
    shapes of the operands of [op] agree: the call returns an array, known
    by its shape. *)
Ltac run_lemma c :=
  lazymatch c with
  | setitem _ _ _ _ _ _ => constr:(@returns_setitem)
  | setitem_rows _ _ _ _ _ _ => constr:(@returns_setitem_rows)
  | setitem_cols _ _ _ _ => constr:(@returns_setitem_cols)
  | setitem_diag _ _ _ _ => constr:(@returns_setitem_diag)
  | iadd_diag _ _ _ _ => constr:(@returns_iadd_diag)
  | isub_diag _ _ _ _ => constr:(@returns_isub_diag)
  | getitem_cols _ _ _ => constr:(@returns_getitem_cols)
  | getitem_rows _ _ _ => constr:(@returns_getitem_rows)
  | dot _ _ => constr:(@returns_dot)
  | np_add _ _ => constr:(@returns_np_add)
  | np_sub _ _ => constr:(@returns_np_sub)
  | hstack _ _ => constr:(@returns_hstack)
  | vstack _ _ => constr:(@returns_vstack)
  | mul_cols _ _ => constr:(@returns_mul_cols)
  end.

Ltac run :=
  rewrite ?bind_assoc;
  lazymatch goal with
  | |- is_ok (bind (Ok _) _) = true => cbn [bind]
  | |- is_ok (bind ?c _) = true =>
      let L := run_lemma c in
      let Z := fresh "Z" in
      let E := fresh "EZ" in
      let Hr := fresh "Hr" in
      let Hc := fresh "Hc" in
      assert (returns c _ _) as (Z & E & Hr & Hc) by (apply L; shape_side);
      rewrite E; clear E; cbn [bind]; simpl in Hr, Hc
  end.

Ltac finish :=
  rewrite ?bind_assoc;
  lazymatch goal with
  | |- is_ok (Ok _) = true => reflexivity
  | |- is_ok ?c = true =>
      let L := run_lemma c in
      let Z := fresh "Z" in
      let E := fresh "EZ" in
      assert (returns c _ _) as (Z & E & _) by (apply L; shape_side);
      rewrite E; reflexivity
  end.

Section AssemblyCompletes.
Context {R : Type} {N : Num R}.
Variable lu_solve : ndarray R -> ndarray R -> result (ndarray R).

Lemma assemble_A_completes (self : Dynamic.t R) (P Pw Cg CgW : ndarray R) :
  order_dims self ->
  shape P = (Dynamic.K self, Dynamic.K self) ->
  shape Pw = (Dynamic.K self, Dynamic.K_star self) ->
  shape Cg = (Dynamic.K_star self, Dynamic.K self) ->
  shape CgW = (Dynamic.K_star self, Dynamic.K_star self) ->
  exists Ass, Dynamic.assemble_A self P Pw Cg CgW = Ok Ass.
Proof.
  intros Hord HP HPw HCg HCgW.
  apply shape_eq in HP, HPw, HCg, HCgW.
  destruct HP as (HP1 & HP2), HPw as (HPw1 & HPw2).
  destruct HCg as (HCg1 & HCg2), HCgW as (HCgW1 & HCgW2).
  assert (HNx : 2 * Dynamic.K self + Dynamic.K_star self <= Dynamic.Nx self)
    by (destruct Hord as [(_ & ->)|(_ & ->)]; lia).
  unfold Dynamic.assemble_A. cbv zeta. apply is_ok_ex.
  do 4 run.
  destruct Hord as [(Ho & Hn)|(Ho & Hn)]; rewrite Ho; simpl Z.eqb; cbv iota;
    cbn [bind].
  - do 3 run. reflexivity.
  - do 4 run. finish.
Qed.

Lemma assemble_B_completes (self : Dynamic.t R) (Bup : ndarray R) :
  order_dims self ->
  shape Bup = (Dynamic.K self, Dynamic.Nu self) ->
  exists Bss, Dynamic.assemble_B self Bup = Ok Bss.
Proof.
  intros Hord HB. apply shape_eq in HB. destruct HB as (HB1 & HB2).
  assert (HNx : 2 * Dynamic.K self + Dynamic.K_star self <= Dynamic.Nx self)
    by (destruct Hord as [(_ & ->)|(_ & ->)]; lia).
  unfold Dynamic.assemble_B. cbv zeta. apply is_ok_ex. run.
  destruct Hord as [(Ho & Hn)|(Ho & Hn)]; rewrite Ho; simpl Z.eqb; cbv iota;
    cbn [bind].
  - run. reflexivity.
  - finish.
Qed.

Lemma assemble_C_completes (self : Dynamic.t R) (ass : assembly.blocks R) :
  2 * Dynamic.K self + Dynamic.K_star self <= Dynamic.Nx self ->
  Dynamic.Ny self = 3 * Dynamic.Kzeta self ->
  blocks_shaped (Dynamic.K self) (Dynamic.K_star self) (Dynamic.Kzeta self) ass ->
  exists Css, Dynamic.assemble_C self ass = Ok Css.
Proof.
  intros HNx HNy Hb.
  destruct Hb as (_ & _ & _ & _ & _ & _ & H7 & H8 & H9 & _).
  apply shape_eq in H7, H8, H9.
  destruct H7 as (? & ?), H8 as (? & ?), H9 as (? & ?).
  unfold Dynamic.assemble_C. cbv zeta. apply is_ok_ex. do 2 run.
  destruct (Dynamic.include_added_mass self); [|reflexivity].
  finish.
Qed.

Lemma assemble_D_completes (self : Dynamic.t R) (ass : assembly.blocks R) :
  Dynamic.Ny self = 3 * Dynamic.Kzeta self ->
  Dynamic.Nu self = 9 * Dynamic.Kzeta self ->
  blocks_shaped (Dynamic.K self) (Dynamic.K_star self) (Dynamic.Kzeta self) ass ->
  exists Dss, Dynamic.assemble_D self ass = Ok Dss.
Proof.
  intros HNy HNu Hb.
  destruct Hb as (_ & _ & _ & _ & _ & _ & _ & _ & _ & H10 & H11 & H12).
  apply shape_eq in H10, H11, H12.
  destruct H10 as (? & ?), H11 as (? & ?), H12 as (? & ?).
  unfold Dynamic.assemble_D. cbv zeta. apply is_ok_ex. do 4 run.
  destruct (Dynamic.include_added_mass self); [|reflexivity].
  finish.
Qed.

Lemma assemble_matrices_completes (self : Dynamic.t R) (ass : assembly.blocks R) :
  order_dims self ->
  Dynamic.Ny self = 3 * Dynamic.Kzeta self ->
  Dynamic.Nu self = 9 * Dynamic.Kzeta self ->
  blocks_shaped (Dynamic.K self) (Dynamic.K_star self) (Dynamic.Kzeta self) ass ->
  lu_solves lu_solve ass ->
  exists M, Dynamic.assemble_matrices lu_solve self ass = Ok M.
Proof.
  intros Hord HNy HNu Hb Hlu.
  assert (HNx : 2 * Dynamic.K self + Dynamic.K_star self <= Dynamic.Nx self)
    by (destruct Hord as [(_ & ->)|(_ & ->)]; lia).
  destruct (@assemble_C_completes self ass HNx HNy Hb) as (Css & EC).
  destruct (@assemble_D_completes self ass HNy HNu Hb) as (Dss & ED).
  destruct (Hlu _ (or_introl eq_refl)) as (X1 & E1 & S1).
  destruct (Hlu _ (or_intror (or_introl eq_refl))) as (X2 & E2 & S2).
  destruct (Hlu _ (or_intror (or_intror eq_refl))) as (X3 & E3 & S3).
  destruct Hb as (H1 & H2 & H3 & H4 & H5 & H6 & _).
  rewrite H2 in S1. rewrite H6 in S2. rewrite H5 in S3.
  apply shape_eq in H3, H4, S1, S2, S3.
  destruct H3 as (? & ?), H4 as (? & ?), S1 as (? & ?), S2 as (? & ?), S3 as (? & ?).
  unfold Dynamic.assemble_matrices. rewrite E1. cbn [bind]. cbv zeta.
  rewrite dot_ok by lia. cbn [bind]. rewrite dot_ok by lia. cbn [bind].
  destruct (@assemble_A_completes self
              (neg (matmul X1 (assembly.Cgamma ass)))
              (neg (matmul X1 (assembly.CgammaW ass)))
              (assembly.Cgamma ass) (assembly.CgammaW ass)) as (Ass & EA);
    try (unfold shape; simpl; congruence); try assumption.
  rewrite EA, E2, E3. cbn [bind].
  rewrite hstack_ok by (simpl; lia). cbn [bind].
  rewrite hstack_ok by (simpl; lia). cbn [bind].
  match goal with |- context [Dynamic.assemble_B self ?Bup] =>
    destruct (@assemble_B_completes self Bup) as (Bss & EB);
      [assumption | unfold shape; simpl; f_equal; lia |] end.
  rewrite EB, EC, ED. cbn [bind]. eauto.
Qed.
End AssemblyCompletes.

(** ** Entries of the assembled matrices *)

Section Entries.
Context {T : Type} {N : Num T}.

Lemma setitem_assigned (X : ndarray T) (r0 r1 c0 c1 : nat) (Y Z : ndarray T) :
  setitem X r0 r1 c0 c1 Y = Ok Z ->
  r0 <= r1 -> r1 <= nrows X -> c0 <= c1 -> c1 <= ncols X ->
  assigned X r0 r1 c0 c1 Y Z /\ nrows Y = r1 - r0 /\ ncols Y = c1 - c0.
Proof.
  intros H Hr0 Hr1 Hc0 Hc1. unfold setitem in H.
  rewrite !Nat.min_l in H by lia.
  destruct (nrows Y =? _) eqn:E1; [|discriminate].
  destruct (ncols Y =? _) eqn:E2; [|discriminate]. simpl in H.
  apply Nat.eqb_eq in E1, E2. injection H as <-.
  repeat split; assumption.
Qed.

Lemma setitem_rows_inv (X : ndarray T) (r0 r1 c0 c1 : nat) (Y Z : ndarray T) :
  setitem_rows X r0 r1 c0 c1 Y = Ok Z -> setitem X r0 r1 c0 c1 Y = Ok Z.
Proof. unfold setitem_rows. destruct (_ && _); [discriminate|auto]. Qed.

Lemma setitem_diag_updated (X : ndarray T) (r0 c0 : nat) (v : vector T) (Z : ndarray T) :
  setitem_diag X r0 c0 v = Ok Z -> diag_updated (fun _ y => y) X r0 c0 v Z.
Proof.
  unfold setitem_diag. destruct (diag_in_bounds _ _ _ _); [|discriminate].
  intro H. injection H as <-. repeat split.
Qed.

Lemma iadd_diag_updated (X : ndarray T) (r0 c0 : nat) (v : vector T) (Z : ndarray T) :
  iadd_diag X r0 c0 v = Ok Z -> diag_updated add X r0 c0 v Z.
Proof.
  unfold iadd_diag. destruct (diag_in_bounds _ _ _ _); [|discriminate].
  intro H. injection H as <-. repeat split.
Qed.

Lemma isub_diag_updated (X : ndarray T) (r0 c0 : nat) (v : vector T) (Z : ndarray T) :
  isub_diag X r0 c0 v = Ok Z -> diag_updated sub X r0 c0 v Z.
Proof.
  unfold isub_diag. destruct (diag_in_bounds _ _ _ _); [|discriminate].
  intro H. injection H as <-. repeat split.
Qed.

Lemma sub_add_l (a b : nat) : a + b - a = b.
Proof. lia. Qed.
End Entries.

(** Turns the calls of a completed chain of assignments into facts about the
    shapes and the entries of the arrays it went through. *)
Ltac chain_facts :=
  repeat match goal with
  | H : setitem_rows _ _ _ _ _ _ = Ok _ |- _ => apply setitem_rows_inv in H
  | H : setitem _ _ _ _ _ _ = Ok _ |- _ =>
      let Hr := fresh "Hr" in
      let Hc := fresh "Hc" in
      let Hi := fresh "Hi" in
      let Yr := fresh "Yr" in
      let Yc := fresh "Yc" in
      apply setitem_assigned in H; [ | simpl; lia ..];
      destruct H as ((Hr & Hc & Hi) & Yr & Yc); simpl in Hr, Hc
  | H : setitem_diag _ _ _ _ = Ok _ |- _ =>
      let Hr := fresh "Hr" in
      let Hc := fresh "Hc" in
      let Hi := fresh "Hi" in
      apply setitem_diag_updated in H; destruct H as (Hr & Hc & Hi); simpl in Hr, Hc
  | H : iadd_diag _ _ _ _ = Ok _ |- _ =>
      let Hr := fresh "Hr" in
      let Hc := fresh "Hc" in
      let Hi := fresh "Hi" in
      apply iadd_diag_updated in H; destruct H as (Hr & Hc & Hi); simpl in Hr, Hc
  | H : isub_diag _ _ _ _ = Ok _ |- _ =>
      let Hr := fresh "Hr" in
      let Hc := fresh "Hc" in
      let Hi := fresh "Hi" in
      apply isub_diag_updated in H; destruct H as (Hr & Hc & Hi); simpl in Hr, Hc
  end.

(** Decides the position test at the head of an entry. *)
Ltac position :=
  lazymatch goal with
  | |- context [in_block ?a ?b ?c ?d ?i ?j] =>
      first [ rewrite (@in_block_true a b c d i j) by lia
            | rewrite (@in_block_false a b c d i j) by lia ]
  | |- context [on_diag ?a ?b ?n ?i ?j] =>
      first [ rewrite (@on_diag_true a b n i j)
                by (rewrite ?length_map, ?length_np_ones; lia)
            | rewrite (@on_diag_false a b n i j)
                by (rewrite ?length_map, ?length_np_ones; lia) ]
  end.

(** Reads an entry of an array through the assignments that built it. *)
Ltac entry :=
  repeat match goal with
  | Hi : forall i j, item ?Z i j = _ |- context [item ?Z ?i ?j] =>
      rewrite (Hi i j); cbn [nrows ncols np_zeros]; position
  end;
  cbn [item nrows ncols np_zeros scale neg amap divide];
  rewrite ?sub_add_l, ?Nat.sub_0_r, ?Nat.sub_diag.

Section DifferenceRows.
Context {R : Type} {N : Num R} {F : Field R}.
Add Field DRField : Field_laws.
Local Open Scope num_scope.

Lemma vget_scaled_ones (c : R) (n k : nat) :
  k < n -> vget (map (mul c) (np_ones n)) k = c * one.
Proof.
  intro H. unfold vget, np_ones.
  rewrite (nth_indep _ zero (c * one))
    by (rewrite length_map, repeat_length; exact H).
  rewrite (map_nth (mul c) (repeat one n) one k). now rewrite nth_repeat.
Qed.

Lemma assemble_order2_rows (self : Dynamic.t R) (P Pw Cg CgW Bup Ass Bss : ndarray R) :
  Dynamic.integr_order self = 2%Z ->
  Dynamic.Nx self = (3 * Dynamic.K self + Dynamic.K_star self)%nat ->
  Dynamic.assemble_A self P Pw Cg CgW = Ok Ass ->
  Dynamic.assemble_B self Bup = Ok Bss ->
  derivative_rows (Dynamic.K self) (Dynamic.K_star self) Ass Bss
                  (Dynamic.three / Dynamic.two) (- Dynamic.two)
                  (Some (one / Dynamic.two)) /\
  delayed_rows (Dynamic.K self) (Dynamic.K_star self) Ass Bss.
Proof.
  intros Ho HNx HA HB.
  unfold Dynamic.assemble_A in HA. unfold Dynamic.assemble_B in HB.
  rewrite Ho in HA, HB. simpl Z.eqb in HA, HB. cbv iota zeta in HA, HB.
  binds_inv HA. binds_inv HB. injection E3 as <-. injection E9 as <-.
  set (K := Dynamic.K self) in *. set (Ks := Dynamic.K_star self) in *.
  chain_facts.
  split.
  - intros i Hi'. repeat split.
    + intros j Hj. destruct (Nat.eqb_spec i j) as [->|Hne]; entry.
      * rewrite vget_scaled_ones by lia. ring.
      * ring.
    + intros j Hj. entry. ring.
    + intros j Hj. entry. reflexivity.
    + intros j Hj. entry. reflexivity.
    + intros j Hj. destruct (Nat.eqb_spec i j) as [->|Hne]; entry.
      * rewrite vget_scaled_ones by lia. ring.
      * reflexivity.
  - intros i Hi'. split.
    + intros j Hj. destruct (Nat.eqb_spec j i) as [->|Hne]; entry.
      * apply vget_np_ones. lia.
      * reflexivity.
    + intros j Hj. entry. reflexivity.
Qed.

Lemma assemble_order1_rows (self : Dynamic.t R) (P Pw Cg CgW Bup Ass Bss : ndarray R) :
  Dynamic.integr_order self = 1%Z ->
  Dynamic.Nx self = (2 * Dynamic.K self + Dynamic.K_star self)%nat ->
  Dynamic.assemble_A self P Pw Cg CgW = Ok Ass ->
  Dynamic.assemble_B self Bup = Ok Bss ->
  derivative_rows (Dynamic.K self) (Dynamic.K_star self) Ass Bss one (- one) None.
Proof.
  intros Ho HNx HA HB.
  unfold Dynamic.assemble_A in HA. unfold Dynamic.assemble_B in HB.
  rewrite Ho in HA, HB. simpl Z.eqb in HA, HB. cbv iota zeta in HA, HB.
  binds_inv HA. binds_inv HB. injection HA as <-. injection HB as <-.
  binds_inv E3.
  set (K := Dynamic.K self) in *. set (Ks := Dynamic.K_star self) in *.
  chain_facts.
  intros i Hi'. repeat split.
  - intros j Hj. destruct (Nat.eqb_spec i j) as [->|Hne]; entry.
    + rewrite vget_np_ones by lia. ring.
    + ring.
  - intros j Hj. entry. ring.
  - intros j Hj. entry. reflexivity.
  - intros j Hj. entry. ring.
Qed.

Lemma assemble_matrices_blocks (lu_solve : ndarray R -> ndarray R -> result (ndarray R))
    (self : Dynamic.t R) (ass : assembly.blocks R) (Ass Bss Css Dss : ndarray R) :
  Dynamic.assemble_matrices lu_solve self ass = Ok (Ass, Bss, Css, Dss) ->
  exists P Pw Bup,
    Dynamic.assemble_A self P Pw (assembly.Cgamma ass) (assembly.CgammaW ass) = Ok Ass /\
    Dynamic.assemble_B self Bup = Ok Bss.
Proof.
  unfold Dynamic.assemble_matrices. intro H. binds_inv H.
  injection H as <- <- <- <-. eauto.
Qed.
End DifferenceRows.

Section ModelProperties.
Context {R : Type} {N : Num R} {F : Field R}.
Variable lu_solve : ndarray R -> ndarray R -> result (ndarray R).

Lemma init_inv (MS : MultiAeroGridSurfaces.t) (dt : R) (order : Z) (rp : bool)
    (sd : option (R * R * R)) (sp : bool) (self : Dynamic.t R) :
  Dynamic.__init__ MS dt order rp sd sp = Ok self ->
  (order = 1 \/ order = 2)%Z /\
  Dynamic.MS self = MS /\
  Dynamic.K self = sum (MultiAeroGridSurfaces.KK MS) /\
  Dynamic.K_star self = sum (MultiAeroGridSurfaces.KK_star MS) /\
  Dynamic.Kzeta self = sum (MultiAeroGridSurfaces.KKzeta MS) /\
  Dynamic.dt self = dt /\
  Dynamic.integr_order self = order /\
  Dynamic.Nx self = (if (order =? 1)%Z then 2 * Dynamic.K self + Dynamic.K_star self
                     else 3 * Dynamic.K self + Dynamic.K_star self) /\
  Dynamic.Ny self = 3 * Dynamic.Kzeta self /\
  Dynamic.Nu self = 9 * Dynamic.Kzeta self /\
  Dynamic.remove_predictor self = rp /\
  Dynamic.B_predictor self = None /\
  Dynamic.include_added_mass self = true /\
  Dynamic.use_sparse self = sp /\
  Dynamic.SS self = None.
Proof.
  unfold Dynamic.__init__. intro H. bind_inv H.
  destruct sd as [[[l s] d]|]; injection H as <-; simpl;
    (destruct (order =? 1)%Z eqn:E1;
     [ apply Z.eqb_eq in E1; injection E as <-
     | destruct (order =? 2)%Z eqn:E2;
       [ apply Z.eqb_eq in E2; injection E as <- | discriminate ] ]);
    repeat split; auto; lia.
Qed.

(** Two instances built from one lattice and one set of blocks, which differ
    in [RemovePredictor] (and [UseSparse]) only, assemble the same matrices. *)
Lemma assemble_matrices_indep (MS : MultiAeroGridSurfaces.t) (dt : R) (order : Z)
    (rp rp' : bool) (sd : option (R * R * R)) (sp sp' : bool)
    (self self' : Dynamic.t R) (ass : assembly.blocks R) :
  Dynamic.__init__ MS dt order rp sd sp = Ok self ->
  Dynamic.__init__ MS dt order rp' sd sp' = Ok self' ->
  Dynamic.assemble_matrices lu_solve self ass =
  Dynamic.assemble_matrices lu_solve self' ass.
Proof.
  unfold Dynamic.__init__. intros H H'. bind_inv H. bind_inv H'.
  rewrite E in E0. injection E0 as <-.
  destruct sd as [[[l s] d]|]; injection H as <-; injection H' as <-; reflexivity.
Qed.

(** C1.  Predictor-removal equivalence: for every model assembled in direct
    form ([md]) and in predictor-removed form ([mp]) from one lattice and one
    set of influence blocks, every initial state x0 and every input sequence
    u0, u1, ..., un of the model's dimensions, the predictor-removed
    time-stepper started from h0 = x0 - B_predictor u0 returns the outputs
    y1, ..., yn of the direct-form time-stepper, entry for entry (scalars are
    exact, so the outputs agree within any tolerance). *)
Theorem C1_predictor_removal_equivalence
    (MS : MultiAeroGridSurfaces.t) (dt : R) (order : Z) (sd : option (R * R * R))
    (sp sp' : bool) (ass : assembly.blocks R) (d0 p0 md mp : Dynamic.t R)
    (x0 u0 : vector R) (us : list (vector R)) :
  Dynamic.__init__ MS dt order false sd sp = Ok d0 ->
  Dynamic.assemble_ss lu_solve d0 ass = Ok md ->
  Dynamic.__init__ MS dt order true sd sp' = Ok p0 ->
  Dynamic.assemble_ss lu_solve p0 ass = Ok mp ->
  length x0 = Dynamic.Nx md ->
  Forall (fun u => length u = Dynamic.Nu md) (u0 :: us) ->
  exists h0 ys,
    transformed_state mp x0 u0 = Ok h0 /\
    time_march md false x0 u0 us = Ok ys /\
    time_march mp false h0 u0 us = Ok ys /\
    length ys = length us /\
    Forall (fun y => length y = Dynamic.Ny md) ys.
Proof.
  intros Hd0 Hmd Hp0 Hmp Hx0 Hus.
  pose proof (@assemble_matrices_indep MS dt order false true sd sp sp' d0 p0 ass
                Hd0 Hp0) as Eq.
  apply init_inv in Hd0. apply init_inv in Hp0.
  destruct Hd0 as (_ & _ & _ & _ & _ & Hdt & _ & _ & _ & _ & Hrp & _).
  destruct Hp0 as (_ & _ & _ & _ & _ & Hdt' & _ & _ & _ & _ & Hrp' & _).
  apply assemble_ss_inv in Hmd. destruct Hmd as (Ass & Bss & Css & Dss & Em & Hmd).
  apply assemble_ss_inv in Hmp. destruct Hmp as (Ass' & Bss' & Css' & Dss' & Em' & Hmp).
  rewrite Eq, Em' in Em. injection Em as -> -> -> ->.
  rewrite <- Eq in Em'. apply assemble_matrices_shape in Em'.
  destruct Em' as (HA & HB & HC & HD).
  rewrite Hrp in Hmd. rewrite Hrp' in Hmp.
  destruct Hmp as (Bmod & CB & Dmod & EB & ECB & ED & Hmp).
  pose proof (f_equal fst HA) as HA1. pose proof (f_equal snd HA) as HA2.
  pose proof (f_equal fst HB) as HB1. pose proof (f_equal snd HB) as HB2.
  pose proof (f_equal fst HC) as HC1. pose proof (f_equal snd HC) as HC2.
  pose proof (f_equal fst HD) as HD1. pose proof (f_equal snd HD) as HD2.
  simpl in HA1, HA2, HB1, HB2, HC1, HC2, HD1, HD2.
  rewrite dot_ok in EB by congruence. injection EB as <-.
  rewrite dot_ok in ECB by congruence. injection ECB as <-.
  rewrite np_add_ok in ED by (simpl; congruence). injection ED as <-.
  assert (HNx : Dynamic.Nx md = Dynamic.Nx d0) by (subst md; reflexivity).
  assert (HNu : Dynamic.Nu md = Dynamic.Nu d0) by (subst md; reflexivity).
  assert (HNy : Dynamic.Ny md = Dynamic.Ny d0) by (subst md; reflexivity).
  rewrite HNx in Hx0.
  rewrite HNy.
  assert (Hu0 : length u0 = Dynamic.Nu d0)
    by (rewrite <- HNu; exact (Forall_inv Hus)).
  assert (Hus' : Forall (fun v => length v = Dynamic.Nu d0) us)
    by (rewrite <- HNu; exact (Forall_inv_tail Hus)).
  exists (vminus x0 (matvec Bss u0)).
  destruct (@time_march_equiv R N F Ass Bss Css Dss
              (Dynamic.Nx d0) (Dynamic.Nu d0) (Dynamic.Ny d0) HA HB HC HD
              md mp (Dynamic.dt d0)) with (us := us) (x := x0) (u := u0)
    as (ys & E1 & E2 & Hl & Hy); auto.
  - subst md. reflexivity.
  - subst md. simpl. exact Hrp.
  - subst mp. simpl. rewrite Hdt', <- Hdt. reflexivity.
  - subst mp. simpl. exact Hrp'.
  - exists ys. repeat split; auto.
    unfold transformed_state, Dynamic.get_B_predictor. subst mp. simpl.
    rewrite dotv_ok by congruence. simpl.
    apply vsub_ok. rewrite length_matvec. congruence.
Qed.

Lemma assemble_ss_assembled (MS : MultiAeroGridSurfaces.t) (dt : R) (order : Z)
    (rp : bool) (sd : option (R * R * R)) (sp : bool) (ass : assembly.blocks R)
    (self0 self : Dynamic.t R) :
  Dynamic.__init__ MS dt order rp sd sp = Ok self0 ->
  Dynamic.assemble_ss lu_solve self0 ass = Ok self ->
  assembled self /\
  exists sys, self = Dynamic.set_SS self0 sys (Dynamic.B_predictor self).
Proof.
  intros H0 H. apply init_inv in H0.
  destruct H0 as (_ & _ & _ & _ & _ & _ & _ & _ & _ & _ & Hrp & HBp & _).
  apply assemble_ss_inv in H. destruct H as (Ass & Bss & Css & Dss & Em & H).
  apply assemble_matrices_shape in Em. destruct Em as (HA & HB & HC & HD).
  pose proof (f_equal fst HA) as HA1. pose proof (f_equal snd HA) as HA2.
  pose proof (f_equal fst HB) as HB1. pose proof (f_equal snd HB) as HB2.
  pose proof (f_equal fst HC) as HC1. pose proof (f_equal snd HC) as HC2.
  pose proof (f_equal fst HD) as HD1. pose proof (f_equal snd HD) as HD2.
  simpl in HA1, HA2, HB1, HB2, HC1, HC2, HD1, HD2.
  destruct (Dynamic.remove_predictor self0) eqn:E.
  - destruct H as (Bmod & CB & Dmod & EB & ECB & ED & ->).
    rewrite dot_ok in EB by congruence. injection EB as <-.
    rewrite dot_ok in ECB by congruence. injection ECB as <-.
    rewrite np_add_ok in ED by (simpl; congruence). injection ED as <-.
    split; [|eexists; reflexivity].
    eexists. split; [reflexivity|]. unfold shape. simpl.
    repeat split; try congruence. intros _. exists Bss. split; [reflexivity|exact HB].
  - subst self. split; [|eexists; reflexivity].
    eexists. split; [reflexivity|]. simpl.
    repeat split; try assumption. rewrite E. discriminate.
Qed.

(** A step on an assembled model completes on a state and inputs of the
    model's dimensions. *)
Lemma solve_step_completes (self : Dynamic.t R) (x u : vector R)
    (u1 : option (vector R)) (ts : bool) :
  assembled self ->
  length x = Dynamic.Nx self -> length u = Dynamic.Nu self ->
  (forall v, u1 = Some v -> length v = Dynamic.Nu self) ->
  exists x1 y1,
    Dynamic.solve_step self x u u1 ts = Ok (x1, y1) /\
    length x1 = Dynamic.Nx self /\ length y1 = Dynamic.Ny self.
Proof.
  intros (sys & HSS & HA & HB & HC & HD & HBp) Hx Hu Hu1.
  pose proof (f_equal fst HA) as HA1. pose proof (f_equal snd HA) as HA2.
  pose proof (f_equal fst HB) as HB1. pose proof (f_equal snd HB) as HB2.
  pose proof (f_equal fst HC) as HC1. pose proof (f_equal snd HC) as HC2.
  pose proof (f_equal fst HD) as HD1. pose proof (f_equal snd HD) as HD2.
  simpl in HA1, HA2, HB1, HB2, HC1, HC2, HD1, HD2.
  assert (Hv : exists v, match u1 with None => u | Some w => w end = v /\
                         length v = Dynamic.Nu self).
  { destruct u1 as [w|]; eexists; split; try reflexivity; auto. }
  destruct Hv as (v & Ev & Hv).
  unfold Dynamic.solve_step, Dynamic.get_SS, Dynamic.get_B_predictor.
  rewrite Ev, HSS. clear Ev.
  destruct (Dynamic.remove_predictor self) eqn:Erp.
  - destruct (HBp eq_refl) as (Bp & EBp & HBp').
    pose proof (f_equal fst HBp') as HP1. pose proof (f_equal snd HBp') as HP2.
    simpl in HP1, HP2. rewrite EBp.
    destruct ts; simpl;
      repeat (first
        [ rewrite dotv_ok
            by (rewrite ?length_vplus, ?length_vminus, ?length_matvec; congruence)
        | rewrite vadd_ok
            by (rewrite ?length_vplus, ?length_vminus, ?length_matvec; congruence)
        | rewrite vsub_ok
            by (rewrite ?length_vplus, ?length_vminus, ?length_matvec; congruence)
        | progress simpl ]);
      eexists _, _; (split; [reflexivity|]);
      rewrite ?length_vplus, ?length_vminus, ?length_matvec; split; congruence.
  - simpl;
      repeat (first
        [ rewrite dotv_ok
            by (rewrite ?length_vplus, ?length_vminus, ?length_matvec; congruence)
        | rewrite vadd_ok
            by (rewrite ?length_vplus, ?length_vminus, ?length_matvec; congruence)
        | progress simpl ]);
      eexists _, _; (split; [reflexivity|]);
      rewrite ?length_vplus, ?length_vminus, ?length_matvec; split; congruence.
Qed.

(** C8.  In [solve_step], a next-step input that is omitted is replaced by the
    current-step input: the call returns (or raises) exactly what the call
    with [u_n1 = u_n] returns, for every instance, state and input; and on an
    assembled model, with a state and an input of the model's dimensions, the
    step with the next-step input omitted completes. *)
Theorem C8_omitted_next_input_defaults :
  (forall (self : Dynamic.t R) (x_n u_n : vector R) (transform_state : bool),
      Dynamic.solve_step self x_n u_n None transform_state =
      Dynamic.solve_step self x_n u_n (Some u_n) transform_state) /\
  (forall (MS : MultiAeroGridSurfaces.t) (dt : R) (order : Z) (rp : bool)
          (sd : option (R * R * R)) (sp : bool) (ass : assembly.blocks R)
          (self0 self : Dynamic.t R) (x_n u_n : vector R) (transform_state : bool),
      Dynamic.__init__ MS dt order rp sd sp = Ok self0 ->
      Dynamic.assemble_ss lu_solve self0 ass = Ok self ->
      length x_n = Dynamic.Nx self -> length u_n = Dynamic.Nu self ->
      exists x_n1 y_n1,
        Dynamic.solve_step self x_n u_n None transform_state = Ok (x_n1, y_n1)).
Proof.
  split; [reflexivity|].
  intros MS dt order rp sd sp ass self0 self x u ts H0 H Hx Hu.
  assert (Hs : assembled self) by (eapply proj1, assemble_ss_assembled; eassumption).
  destruct (@solve_step_completes self x u None ts Hs Hx Hu) as (x1 & y1 & E & _).
  - discriminate.
  - eauto.
Qed.

(** *** Scaling *)

Add Field ModelField : Field_laws.
Local Open Scope num_scope.

Lemma scaling_of_init (MS : MultiAeroGridSurfaces.t) (dt : R) (order : Z) (rp : bool)
    (l s d : R) (sp : bool) (self : Dynamic.t R) :
  Dynamic.__init__ MS dt order rp (Some (l, s, d)) sp = Ok self ->
  Dynamic.ScalingFacts self =
  Scaling.mk l s d (l / s) (s * l) (one / Dynamic.two * d * power s 2)
             (one / Dynamic.two * d * power s 2 * power l 2).
Proof.
  unfold Dynamic.__init__. intro H. bind_inv H. injection H as <-. reflexivity.
Qed.

Lemma imul_idiv_cols (X : ndarray R) (c0 c1 : nat) (f : R) (i j : nat) :
  f <> zero ->
  item (idiv_cols (imul_cols X c0 c1 f) c0 c1 f) i j = item X i j.
Proof.
  intro Hf. simpl. destruct ((c0 <=? j) && (j <? c1)); [|reflexivity].
  field. exact Hf.
Qed.

Lemma scale_factors_nonzero (l s d : R) :
  l <> zero -> s <> zero -> d <> zero ->
  l / (s * l) <> zero /\ s / (s * l) <> zero /\
  s * l / (one / Dynamic.two * d * power s 2 * power l 2) <> zero /\
  l / (one / Dynamic.two * d * power s 2 * power l 2) <> zero /\
  s / (one / Dynamic.two * d * power s 2 * power l 2) <> zero /\
  l / s <> zero.
Proof.
  intros Hl Hs Hd. pose proof two_neq_zero as H2.
  assert (Hinv : forall a b : R, a <> zero -> b <> zero -> a / b <> zero).
  { intros a b Ha Hb E. apply Ha.
    transitivity (a / b * b); [field; exact Hb | rewrite E; ring]. }
  assert (Hmul : forall a b : R, a <> zero -> b <> zero -> a * b <> zero).
  { intros a b Ha Hb E. apply Ha.
    transitivity (a * b / b); [field; exact Hb | rewrite E; field; exact Hb]. }
  assert (H1 : (one : R) <> zero) by (apply (F_1_neq_0 Field_laws)).
  assert (Hforce : one / Dynamic.two * d * power s 2 * power l 2 <> zero).
  { unfold Dynamic.two. simpl. repeat apply Hmul; auto. }
  repeat split; auto.
Qed.

(** C2.  Round-trip scaling: on every assembled model whose reference length,
    speed and density are nonzero, [nondimss] followed by [dimss] completes
    and restores the matrices B, C and D and the time step dt of the
    state-space model to their original values (it leaves A as it is). *)
Theorem C2_nondimss_dimss_round_trip
    (MS : MultiAeroGridSurfaces.t) (dt : R) (order : Z) (rp : bool)
    (length speed density : R) (sp : bool) (ass : assembly.blocks R)
    (self0 self : Dynamic.t R) :
  Dynamic.__init__ MS dt order rp (Some (length, speed, density)) sp = Ok self0 ->
  Dynamic.assemble_ss lu_solve self0 ass = Ok self ->
  length <> zero -> speed <> zero -> density <> zero ->
  exists self1 self2 sys sys2,
    Dynamic.nondimss self = Ok self1 /\
    Dynamic.dimss self1 = Ok self2 /\
    Dynamic.SS self = Some sys /\
    Dynamic.SS self2 = Some sys2 /\
    array_eq (libss.B sys2) (libss.B sys) /\
    array_eq (libss.C sys2) (libss.C sys) /\
    array_eq (libss.D sys2) (libss.D sys) /\
    libss.dt sys2 = libss.dt sys /\
    libss.A sys2 = libss.A sys.
Proof.
  intros H0 H Hl Hs Hd.
  pose proof H0 as Hsf. apply scaling_of_init in Hsf.
  pose proof H as Hs'. eapply assemble_ss_assembled in Hs'; [|exact H0].
  destruct Hs' as ((sys & HSS & _) & (sys' & Hself)).
  assert (Hsf' : Dynamic.ScalingFacts self = Dynamic.ScalingFacts self0)
    by (rewrite Hself; reflexivity).
  destruct (scale_factors_nonzero Hl Hs Hd) as (F1 & F2 & F3 & F4 & F5 & F6).
  eexists _, _, sys, _.
  split; [unfold Dynamic.nondimss, Dynamic.get_SS; rewrite HSS; reflexivity|].
  split; [reflexivity|]. split; [exact HSS|]. split; [reflexivity|].
  cbn [Dynamic.SS Dynamic.set_SS Dynamic.ScalingFacts Dynamic.Kzeta
       libss.A libss.B libss.C libss.D libss.dt].
  rewrite Hsf', Hsf.
  cbn [Scaling.length Scaling.speed Scaling.circulation Scaling.force Scaling.time].
  set (f1 := length / (speed * length)) in *.
  set (f2 := speed / (speed * length)) in *.
  set (f3 := speed * length / _) in *.
  set (f4 := length / _) in F4 |- *.
  set (f5 := speed / _) in F5 |- *.
  set (f6 := length / speed) in *.
  clearbody f1 f2 f3 f4 f5 f6.
  repeat split; simpl;
    try (intros i j Hi Hj;
         repeat match goal with
         | |- context [if ?c then _ else _] => destruct c
         end; field; auto).
  field. assumption.
Qed.

(** C10.  [nondimss] and [dimss] rewrite B, C, D and dt of the state-space
    model: on every instance whose state-space model is set and whose
    scaling quantities are nonzero (the two operations divide by them) both
    complete, and leave the state-transition matrix A, the stored
    [B_predictor] and every attribute other than the state-space models as
    they were; the balanced model [SSb], which shares the array D with the
    state-space model, is not part of the statement.  In particular, after
    [nondimss] a predictor-removed model still holds as [B_predictor] the B
    matrix that [assemble_ss] assembled, in dimensional units. *)
Theorem C10_scaling_leaves_A_and_B_predictor :
  (forall (self : Dynamic.t R) (sys : libss.ss R R),
      Dynamic.SS self = Some sys ->
      scaling_nonzero (Dynamic.ScalingFacts self) ->
      exists m1 m2,
        Dynamic.nondimss self = Ok m1 /\ Dynamic.dimss self = Ok m2 /\
        scaled_from self sys m1 /\ scaled_from self sys m2) /\
  (forall (MS : MultiAeroGridSurfaces.t) (dt : R) (order : Z)
          (sd : option (R * R * R)) (sp : bool) (ass : assembly.blocks R)
          (self0 self m1 : Dynamic.t R) (Ass Bss Css Dss : ndarray R),
      Dynamic.__init__ MS dt order true sd sp = Ok self0 ->
      Dynamic.assemble_matrices lu_solve self0 ass = Ok (Ass, Bss, Css, Dss) ->
      Dynamic.assemble_ss lu_solve self0 ass = Ok self ->
      Dynamic.nondimss self = Ok m1 ->
      Dynamic.B_predictor m1 = Some Bss).
Proof.
  split.
  - intros self sys HSS _.
    unfold Dynamic.nondimss, Dynamic.dimss, Dynamic.get_SS. rewrite HSS.
    eexists _, _. split; [reflexivity|]. split; [reflexivity|].
    split; (split; [repeat split | eexists; repeat split]).
  - intros MS dt order sd sp ass self0 self m1 Ass Bss Css Dss H0 Hm H H1.
    apply init_inv in H0.
    destruct H0 as (_ & _ & _ & _ & _ & _ & _ & _ & _ & _ & Hrp & _).
    apply assemble_ss_inv in H. destruct H as (A' & B' & C' & D' & Em & H).
    rewrite Hm in Em. injection Em as <- <- <- <-.
    rewrite Hrp in H. destruct H as (Bmod & CB & Dmod & _ & _ & _ & ->).
    unfold Dynamic.nondimss, Dynamic.get_SS in H1. simpl in H1.
    injection H1 as <-. reflexivity.
Qed.

(** *** Dimensions *)

Local Close Scope num_scope.

Lemma assemble_ss_completes (MS : MultiAeroGridSurfaces.t) (dt : R) (order : Z)
    (rp : bool) (sd : option (R * R * R)) (sp : bool) (ass : assembly.blocks R)
    (self0 : Dynamic.t R) :
  Dynamic.__init__ MS dt order rp sd sp = Ok self0 ->
  blocks_shaped (sum (MultiAeroGridSurfaces.KK MS))
                (sum (MultiAeroGridSurfaces.KK_star MS))
                (sum (MultiAeroGridSurfaces.KKzeta MS)) ass ->
  lu_solves lu_solve ass ->
  exists self, Dynamic.assemble_ss lu_solve self0 ass = Ok self.
Proof.
  intros H0 Hb Hlu. apply init_inv in H0.
  destruct H0 as (Hord & _ & HK & HKs & HKz & _ & Ho & HNx & HNy & HNu & _).
  rewrite <- HK, <- HKs, <- HKz in Hb.
  assert (Hd : order_dims self0).
  { unfold order_dims. rewrite Ho, HNx.
    destruct Hord as [-> | ->]; simpl; auto. }
  destruct (@assemble_matrices_completes R N lu_solve self0 ass Hd HNy HNu Hb Hlu)
    as ([[[Ass Bss] Css] Dss] & EM).
  unfold Dynamic.assemble_ss. rewrite EM. cbn [bind].
  destruct (Dynamic.remove_predictor self0); [|eauto].
  apply assemble_matrices_shape in EM. destruct EM as (HA & HB & HC & HD).
  apply shape_eq in HA, HB, HC, HD.
  destruct HA as (? & ?), HB as (? & ?), HC as (? & ?), HD as (? & ?).
  unfold libss.SSconv.
  rewrite dot_ok by congruence. cbn [bind].
  rewrite dot_ok by congruence. cbn [bind].
  rewrite np_add_ok by (simpl; congruence). cbn [bind]. eauto.
Qed.

(** C3.  Dimensions: every Dynamic model that the constructor returns on a
    lattice with K bound panels, K_star wake panels and Kzeta bound vertices
    has Nx = 2K + K_star states for [integr_order = 1] and Nx = 3K + K_star
    for [integr_order = 2] (it returns for no other order), and in both cases
    Ny = 3 Kzeta outputs and Nu = 9 Kzeta inputs; whenever [assemble_ss]
    returns, A is Nx x Nx, B is Nx x Nu, C is Ny x Nx and D is Ny x Nu; and it
    does return when the influence blocks have the shapes of the lattice. *)
Theorem C3_state_space_dimensions
    (MS : MultiAeroGridSurfaces.t) (dt : R) (order : Z) (rp : bool)
    (sd : option (R * R * R)) (sp : bool) (ass : assembly.blocks R)
    (self0 : Dynamic.t R) :
  let K := sum (MultiAeroGridSurfaces.KK MS) in
  let K_star := sum (MultiAeroGridSurfaces.KK_star MS) in
  let Kzeta := sum (MultiAeroGridSurfaces.KKzeta MS) in
  Dynamic.__init__ MS dt order rp sd sp = Ok self0 ->
  (order = 1 \/ order = 2)%Z /\
  (order = 1%Z -> Dynamic.Nx self0 = 2 * K + K_star) /\
  (order = 2%Z -> Dynamic.Nx self0 = 3 * K + K_star) /\
  Dynamic.Ny self0 = 3 * Kzeta /\
  Dynamic.Nu self0 = 9 * Kzeta /\
  (forall self,
      Dynamic.assemble_ss lu_solve self0 ass = Ok self ->
      Dynamic.Nx self = Dynamic.Nx self0 /\
      Dynamic.Nu self = Dynamic.Nu self0 /\
      Dynamic.Ny self = Dynamic.Ny self0 /\
      exists sys,
        Dynamic.SS self = Some sys /\
        shape (libss.A sys) = (Dynamic.Nx self, Dynamic.Nx self) /\
        shape (libss.B sys) = (Dynamic.Nx self, Dynamic.Nu self) /\
        shape (libss.C sys) = (Dynamic.Ny self, Dynamic.Nx self) /\
        shape (libss.D sys) = (Dynamic.Ny self, Dynamic.Nu self)) /\
  (blocks_shaped K K_star Kzeta ass -> lu_solves lu_solve ass ->
   exists self, Dynamic.assemble_ss lu_solve self0 ass = Ok self).
Proof.
  intros K K_star Kzeta H0.
  pose proof H0 as Hi. apply init_inv in Hi.
  destruct Hi as (Hord & _ & HK & HKs & HKz & _ & _ & HNx & HNy & HNu & _).
  fold K in HK. fold K_star in HKs. fold Kzeta in HKz.
  rewrite HK, HKs in HNx. rewrite HKz in HNy, HNu.
  split; [exact Hord|].
  split; [intros ->; exact HNx|]. split; [intros ->; exact HNx|].
  split; [exact HNy|]. split; [exact HNu|]. split.
  - intros self H. pose proof H as H'.
    eapply assemble_ss_assembled in H'; [|exact H0].
    destruct H' as ((sys & HSS & HA & HB & HC & HD & _) & (sys' & Hself)).
    repeat split; try (rewrite Hself; reflexivity).
    exists sys. auto.
  - intros Hb Hlu. eapply assemble_ss_completes; eassumption.
Qed.

(** *** The difference scheme of the circulation derivative *)

(** C4, as the code has it.  With second-order integration the
    circulation-derivative rows of the assembled model apply the coefficients
    1.5, -2 and 0.5 to the bound circulation of the new step (n+1), of the
    current step (n) and of the previous step (n-1), and the delayed-circulation
    rows store the current bound circulation through an identity; with
    first-order integration there is no delayed-circulation block
    (Nx = 2K + K_star) and the rows are the backward difference of the new and
    the current bound circulation.  The matrices are assembled whenever the
    influence blocks have the shapes of the lattice, and A is stored as it was
    assembled in either form of the model. *)
Theorem C4_difference_coefficients
    (MS : MultiAeroGridSurfaces.t) (dt : R) (order : Z) (rp : bool)
    (sd : option (R * R * R)) (sp : bool) (ass : assembly.blocks R)
    (self0 : Dynamic.t R) :
  Dynamic.__init__ MS dt order rp sd sp = Ok self0 ->
  let K := Dynamic.K self0 in
  let K_star := Dynamic.K_star self0 in
  (blocks_shaped K K_star (Dynamic.Kzeta self0) ass -> lu_solves lu_solve ass ->
   exists M, Dynamic.assemble_matrices lu_solve self0 ass = Ok M) /\
  (forall Ass Bss Css Dss,
      Dynamic.assemble_matrices lu_solve self0 ass = Ok (Ass, Bss, Css, Dss) ->
      (order = 2%Z ->
       Dynamic.Nx self0 = 3 * K + K_star /\
       derivative_rows K K_star Ass Bss
         (div Dynamic.three Dynamic.two) (opp Dynamic.two)
         (Some (div one Dynamic.two)) /\
       delayed_rows K K_star Ass Bss) /\
      (order = 1%Z ->
       Dynamic.Nx self0 = 2 * K + K_star /\
       derivative_rows K K_star Ass Bss one (opp one) None) /\
      (forall self,
          Dynamic.assemble_ss lu_solve self0 ass = Ok self ->
          exists sys, Dynamic.SS self = Some sys /\ libss.A sys = Ass)).
Proof.
  intros H0 K K_star. pose proof H0 as Hi. apply init_inv in Hi.
  destruct Hi as (Hord & _ & HK & HKs & HKz & _ & Ho & HNx & HNy & HNu & _).
  split.
  - intros Hb Hlu.
    assert (Hd : order_dims self0).
    { unfold order_dims. rewrite Ho, HNx.
      destruct Hord as [-> | ->]; simpl; auto. }
    exact (@assemble_matrices_completes R N lu_solve self0 ass Hd HNy HNu Hb Hlu).
  - intros Ass Bss Css Dss HM.
    pose proof HM as HM'. apply assemble_matrices_blocks in HM'.
    destruct HM' as (P & Pw & Bup & HA & HB).
    split; [|split].
    + intros ->. simpl in HNx.
      assert (HNx' : Dynamic.Nx self0 = 3 * K + K_star) by (unfold K, K_star; lia).
      split; [exact HNx'|]. eapply assemble_order2_rows; eassumption.
    + intros ->. simpl in HNx.
      assert (HNx' : Dynamic.Nx self0 = 2 * K + K_star) by (unfold K, K_star; lia).
      split; [exact HNx'|]. eapply assemble_order1_rows; eassumption.
    + intros self H. apply assemble_ss_inv in H.
      destruct H as (A' & B' & C' & D' & Em & H).
      rewrite HM in Em. injection Em as <- <- <- <-.
      destruct (Dynamic.remove_predictor self0).
      * destruct H as (Bmod & CB & Dmod & _ & _ & _ & ->). eexists. split; reflexivity.
      * subst self. eexists. split; reflexivity.
Qed.
End ModelProperties.

(** ** The wake operator *)

Section WakeOperator.
Context {S : Type} {NS : Num S} {FS : Field S}.
Add Field WField : Field_laws.
Local Open Scope num_scope.

Lemma range_cons (a : Z) (n : nat) :
  range a (a + Z.of_nat (Datatypes.S n)) = a :: range (a + 1) (a + 1 + Z.of_nat n).
Proof.
  unfold range.
  replace (Z.to_nat (a + Z.of_nat (Datatypes.S n) - a)) with (Datatypes.S n) by lia.
  replace (Z.to_nat (a + 1 + Z.of_nat n - (a + 1))) with n by lia.
  simpl. f_equal; [lia|]. rewrite <- seq_shift, map_map.
  apply map_ext. intros k. lia.
Qed.

Lemma range_nil (a : Z) : range a (a + Z.of_nat 0) = [].
Proof. unfold range. now replace (Z.to_nat (a + Z.of_nat 0 - a)) with 0%nat by lia. Qed.

Lemma length_range (a : Z) (n : nat) : length (range a (a + Z.of_nat n)) = n.
Proof.
  unfold range. rewrite length_map, length_seq. lia.
Qed.

Lemma coo_sum_row (v : S) (n : nat) (a b : Z) (i j : nat) :
  coo_sum (repeat v n) (range a (a + Z.of_nat n)) (range b (b + Z.of_nat n)) i j
  = row_val a b n v i j.
Proof.
  revert a b. induction n as [|n IH]; intros a b.
  - rewrite !range_nil. simpl. unfold row_val.
    destruct (Z.leb_spec a (Z.of_nat i)); destruct (Z.ltb_spec (Z.of_nat i) (a + Z.of_nat 0));
      simpl; try reflexivity; lia.
  - rewrite !range_cons. simpl. rewrite IH. unfold row_val.
    destruct (Z.eqb_spec a (Z.of_nat i)) as [Ea|Ea];
      destruct (Z.eqb_spec b (Z.of_nat j)) as [Eb|Eb]; simpl;
      repeat match goal with
      | |- context [(?x <=? ?y)%Z] => destruct (Z.leb_spec x y)
      | |- context [(?x <? ?y)%Z] => destruct (Z.ltb_spec x y)
      | |- context [(?x =? ?y)%Z] => destruct (Z.eqb_spec x y)
      end; simpl; try ring; try lia.
Qed.

Lemma coo_sum_app (v1 v2 : list S) (i1 i2 j1 j2 : list Z) (i j : nat) :
  length i1 = length v1 -> length j1 = length v1 ->
  coo_sum (v1 ++ v2) (i1 ++ i2) (j1 ++ j2) i j
  = coo_sum v1 i1 j1 i j + coo_sum v2 i2 j2 i j.
Proof.
  revert i1 j1. induction v1 as [|v v1 IH]; intros [|a i1] [|b j1] Hi Hj;
    try discriminate; simpl.
  - ring.
  - rewrite IH by (simpl in *; lia). ring.
Qed.

Lemma forallb_range (r : nat) (a : Z) (n : nat) :
  (0 <= a)%Z -> (a + Z.of_nat n <= Z.of_nat r)%Z ->
  forallb (index_ok r) (range a (a + Z.of_nat n)) = true.
Proof.
  intros Ha Hr. apply forallb_forall. intros k Hk.
  unfold range in Hk. apply in_map_iff in Hk as (m & <- & Hm).
  apply in_seq in Hm. unfold index_ok.
  apply andb_true_intro. split; [apply Z.leb_le | apply Z.ltb_lt]; lia.
Qed.

Lemma Cw_row_eq (z : S) (M N : nat) (K0 K0star : Z) (jj ii : list Z)
    (val : list S) (mm : nat) :
  Dynamic.Cw_row z (Z.of_nat M) (Z.of_nat N) K0 K0star (jj, ii, val) mm
  = (jj ++ range (K0 + Z.of_nat N * (Z.of_nat M - 1))
                 (K0 + Z.of_nat N * (Z.of_nat M - 1) + Z.of_nat N),
     ii ++ range (K0star + Z.of_nat mm * Z.of_nat N)
                 (K0star + Z.of_nat mm * Z.of_nat N + Z.of_nat N),
     val ++ repeat (power z (- Z.of_nat mm - 1)) N)%Z.
Proof.
  unfold Dynamic.Cw_row. rewrite Nat2Z.id.
  replace (K0 + Z.of_nat N * Z.of_nat M)%Z
    with (K0 + Z.of_nat N * (Z.of_nat M - 1) + Z.of_nat N)%Z by lia.
  replace (K0star + (Z.of_nat mm + 1) * Z.of_nat N)%Z
    with (K0star + Z.of_nat mm * Z.of_nat N + Z.of_nat N)%Z by lia.
  reflexivity.
Qed.

(** The loop over the chord-wise wake rows of one surface. *)
Lemma Cw_rows (z : S) (M N : nat) (K0 K0star : Z) (r c cnt : nat)
    (jj ii : list Z) (val : list S) :
  length ii = length val -> length jj = length val ->
  forallb (index_ok r) ii = true -> forallb (index_ok c) jj = true ->
  (0 <= K0star)%Z -> (K0star + Z.of_nat cnt * Z.of_nat N <= Z.of_nat r)%Z ->
  (0 <= K0 + Z.of_nat N * (Z.of_nat M - 1))%Z ->
  (K0 + Z.of_nat N * Z.of_nat M <= Z.of_nat c)%Z ->
  exists jj' ii' val',
    fold_left (Dynamic.Cw_row z (Z.of_nat M) (Z.of_nat N) K0 K0star)
              (seq 0 cnt) (jj, ii, val) = (jj', ii', val') /\
    length ii' = length val' /\ length jj' = length val' /\
    forallb (index_ok r) ii' = true /\ forallb (index_ok c) jj' = true /\
    forall i j,
      coo_sum val' ii' jj' i j
      = coo_sum val ii jj i j
        + sum_n cnt (fun mm =>
            row_val (K0star + Z.of_nat mm * Z.of_nat N)
                    (K0 + Z.of_nat N * (Z.of_nat M - 1)) N
                    (power z (- Z.of_nat mm - 1)) i j).
Proof.
  intros Hi Hj Bi Bj H0 Hr Hc0 Hc.
  induction cnt as [|cnt IH].
  - exists jj, ii, val. simpl. repeat split; auto. intros. ring.
  - destruct IH as (jj1 & ii1 & val1 & E & Li & Lj & Bi1 & Bj1 & Hsum); [nia|].
    rewrite seq_S, fold_left_app, E. cbn [fold_left Nat.add]. rewrite Cw_row_eq.
    eexists _, _, _. split; [reflexivity|].
    rewrite !length_app, !length_range, repeat_length, !forallb_app, Bi1, Bj1.
    repeat split; try lia.
    + apply forallb_range; nia.
    + apply forallb_range; nia.
    + intros i j. rewrite coo_sum_app by assumption.
      rewrite coo_sum_row, Hsum. cbn [sum_n]. ring.
Qed.

Lemma fold_add_acc (l : list nat) (a : nat) :
  fold_left Nat.add l a = (a + fold_left Nat.add l 0)%nat.
Proof.
  revert a. induction l as [|k l IH]; intro a; simpl; [lia|].
  rewrite (IH (a + k)%nat), (IH k). lia.
Qed.

Lemma sum_cons (k : nat) (l : list nat) : sum (k :: l) = (k + sum l)%nat.
Proof. unfold sum. simpl. apply fold_add_acc. Qed.

Lemma skipn_cons_inv (A : Type) (l : list A) (s : nat) (d : A) (l' : list A) :
  skipn s l = d :: l' -> nth_error l s = Some d /\ skipn (Datatypes.S s) l = l'.
Proof.
  revert l. induction s as [|s IH]; intros [|a l] H; try discriminate.
  - simpl in H. injection H as -> ->. split; reflexivity.
  - simpl in H. apply IH in H. exact H.
Qed.

(** The loop over the surfaces, from surface [s] on. *)
Lemma Cw_surfaces (z : S) (MS : MultiAeroGridSurfaces.t) (r c : nat)
    (dl dsl : list (nat * nat)) (kl ksl kzl kzsl : list nat) :
  MultiAeroGridSurfaces.sizes_ok dl dsl kl ksl kzl kzsl ->
  forall (s : nat) (st : Dynamic.Cw_state) (K0 K0star : nat),
  skipn s (MultiAeroGridSurfaces.dimensions MS) = dl ->
  skipn s (MultiAeroGridSurfaces.dimensions_star MS) = dsl ->
  skipn s (MultiAeroGridSurfaces.KK MS) = kl ->
  skipn s (MultiAeroGridSurfaces.KK_star MS) = ksl ->
  Dynamic.K0tot st = Z.of_nat K0 -> Dynamic.K0totstar st = Z.of_nat K0star ->
  (K0 + sum kl <= c)%nat -> (K0star + sum ksl <= r)%nat ->
  length (Dynamic.iivec st) = length (Dynamic.valvec st) ->
  length (Dynamic.jjvec st) = length (Dynamic.valvec st) ->
  forallb (index_ok r) (Dynamic.iivec st) = true ->
  forallb (index_ok c) (Dynamic.jjvec st) = true ->
  exists st',
    for_each (seq s (length dl)) (Dynamic.Cw_surface z MS) st = Ok st' /\
    length (Dynamic.iivec st') = length (Dynamic.valvec st') /\
    length (Dynamic.jjvec st') = length (Dynamic.valvec st') /\
    forallb (index_ok r) (Dynamic.iivec st') = true /\
    forallb (index_ok c) (Dynamic.jjvec st') = true /\
    forall i j,
      coo_sum (Dynamic.valvec st') (Dynamic.iivec st') (Dynamic.jjvec st') i j
      = coo_sum (Dynamic.valvec st) (Dynamic.iivec st) (Dynamic.jjvec st) i j
        + wake_sum z dl dsl kl ksl K0 K0star i j.
Proof.
  induction 1 as [|d ds k ks kz kzs dl dsl kl ksl kzl kzsl Hs Hrest IH];
    intros s st K0 K0star Ed Eds Ek Eks E0 E0s Hc Hr Li Lj Bi Bj.
  - exists st. simpl. repeat split; auto. intros. ring.
  - apply skipn_cons_inv in Ed as [Nd Ed], Eds as [Nds Eds].
    apply skipn_cons_inv in Ek as [Nk Ek], Eks as [Nks Eks].
    destruct d as [M Nb], ds as [Mstar N].
    destruct Hs as (HM & HN & Hk & Hks & _). simpl in HM, HN, Hk, Hks.
    rewrite sum_cons in Hc, Hr.
    destruct (@Cw_rows z M N (Dynamic.K0tot st) (Dynamic.K0totstar st) r c Mstar
                (Dynamic.jjvec st) (Dynamic.iivec st) (Dynamic.valvec st))
      as (jj1 & ii1 & val1 & E & Li1 & Lj1 & Bi1 & Bj1 & Hsum);
      try assumption; try (rewrite ?E0, ?E0s; subst; nia).
    destruct (IH (Datatypes.S s) (Dynamic.mk_Cw (Dynamic.K0tot st + Z.of_nat k)
                    (Dynamic.K0totstar st + Z.of_nat ks) jj1 ii1 val1)
                 (K0 + k)%nat (K0star + ks)%nat)
      as (st' & E' & Li' & Lj' & Bi' & Bj' & Hsum');
      try assumption; cbn [Dynamic.K0tot Dynamic.K0totstar Dynamic.iivec
                           Dynamic.jjvec Dynamic.valvec]; try lia.
    exists st'. split; [|repeat split; try assumption].
    + cbn [length seq for_each]. unfold Dynamic.Cw_surface at 1, lookup.
      rewrite Nd, Nds, Nk, Nks. cbn [bind]. rewrite E. cbn [bind]. exact E'.
    + intros i j. rewrite Hsum'.
      cbn [Dynamic.iivec Dynamic.jjvec Dynamic.valvec wake_sum fst snd].
      rewrite Hsum, E0, E0s. ring.
Qed.










(** [get_Cw_cpx] returns, and the entries of its array are the sums of the
    triplets. *)
Lemma get_Cw_cpx_sums (R : Type) (self : Dynamic.t R) (z : S) :
  let MS := Dynamic.MS self in
  MultiAeroGridSurfaces.wf MS ->
  Dynamic.K self = sum (MultiAeroGridSurfaces.KK MS) ->
  Dynamic.K_star self = sum (MultiAeroGridSurfaces.KK_star MS) ->
  exists Cw,
    Dynamic.get_Cw_cpx self z = Ok Cw /\
    shape Cw = (Dynamic.K_star self, Dynamic.K self) /\
    forall i j,
      item Cw i j
      = wake_sum z (MultiAeroGridSurfaces.dimensions MS)
                 (MultiAeroGridSurfaces.dimensions_star MS)
                 (MultiAeroGridSurfaces.KK MS) (MultiAeroGridSurfaces.KK_star MS)
                 0 0 i j.
Proof.
  intros MS Hwf HK HKs.
  destruct (@Cw_surfaces z MS (Dynamic.K_star self) (Dynamic.K self) _ _ _ _ _ _ Hwf
              0%nat (Dynamic.mk_Cw 0 0 [] [] []) 0%nat 0%nat)
    as (st & E & Li & Lj & Bi & Bj & Hsum); try reflexivity; try lia.
  unfold Dynamic.get_Cw_cpx. fold MS. unfold MultiAeroGridSurfaces.n_surf.
  rewrite E. cbn [bind]. unfold csc_matrix.
  rewrite Li, Lj, Nat.eqb_refl, Bi, Bj. cbn [andb].
  eexists. split; [reflexivity|]. split; [reflexivity|].
  intros i j. cbn [item]. rewrite Hsum. cbn [coo_sum Dynamic.valvec]. ring.
Qed.


End WakeOperator.

Section WakeEntries.
Context {R : Type} {N : Num R} {RR : Real R}.
Add Field ComplexField : (@Field_laws (complex R) _ _).
Local Open Scope num_scope.

End WakeEntries.

(** ** Frequency-limited balancing *)





(** Runs the first call of a chain [x <- op ;; k] in a goal that states
    what the chain returns. *)
Ltac step_call c :=
  let L := run_lemma c in
  let Z := fresh "Z" in
  let E := fresh "EZ" in
  let Hr := fresh "Hr" in
  let Hc := fresh "Hc" in
  assert (returns c _ _) as (Z & E & Hr & Hc) by (apply L; shape_side);
  rewrite E; clear E; cbn [bind]; simpl in Hr, Hc.

Ltac step :=
  rewrite ?bind_assoc;
  lazymatch goal with
  | |- bind (Ok _) _ = _ => cbn [bind]
  | |- bind ?c _ = _ => step_call c
  | |- exists a, bind ?c _ = Ok a /\ _ => step_call c
  | |- exists a, _ /\ bind ?c _ = _ => step_call c
  end.

Ltac step_call_by c tac :=
  let L := run_lemma c in
  let Z := fresh "Z" in
  let E := fresh "EZ" in
  let Hr := fresh "Hr" in
  let Hc := fresh "Hc" in
  assert (returns c _ _) as (Z & E & Hr & Hc) by (apply L; tac);
  rewrite E; clear E; cbn [bind]; simpl in Hr, Hc.

Ltac step_by tac :=
  rewrite ?bind_assoc;
  lazymatch goal with
  | |- exists a, bind ?c _ = Ok a /\ _ => step_call_by c tac
  end.


Lemma returns_csc_diag (S : Type) (NS : Num S) (vals : list S) (n : nat) :
  length vals = n ->
  returns (csc_matrix vals (range 0 (Z.of_nat n)) (range 0 (Z.of_nat n)) n n) n n.
Proof.
  intro Hl. unfold csc_matrix.
  change (Z.of_nat n) with (0 + Z.of_nat n)%Z.
  rewrite !length_range, Hl, Nat.eqb_refl.
  rewrite forallb_range by lia. cbn [andb].
  eexists. split; [reflexivity|]. split; reflexivity.
Qed.


Section BalancingProperties.
Context {R : Type} {N : Num R} {RR : Real R}.
Variables np_cos np_sin : R -> R.
Variable linalg_inv : ndarray (complex R) -> result (ndarray (complex R)).
Variable libsp_solve :
  ndarray (complex R) -> ndarray (complex R) -> result (ndarray (complex R)).
Variable svd :
  ndarray (complex R) ->
  result (ndarray (complex R) * vector R * ndarray (complex R)).
Variable rsqrt : R -> R.

(** C7. On a model whose predictor has been removed, [balfreq] raises
    before it reads the state-space model or calls any numerical routine:
    whatever the frequency grids, the weights and the linear-algebra
    routines are, the call raises [NameError] (for the missing predictor
    when both weights are given, for the missing weights otherwise) and the
    instance is the one it was called on, with every attribute as it was. *)
Theorem C7_balfreq_predictor_removed_raises (self : Dynamic.t R)
    (kv_low kv_high : vector R) (wv_low wv_high : option (vector R)) :
  Dynamic.remove_predictor self = true ->
  Dynamic.balfreq np_cos np_sin linalg_inv libsp_solve svd rsqrt
                  self kv_low kv_high wv_low wv_high
  = (self,
     Raise (NameError
              match wv_low, wv_high with
              | Some _, Some _ => "Case without predictor Not yet implemented!"
              | _, _ => "Automatic weights under development"
              end%string)).
Proof.
  intro Hrp. unfold Dynamic.balfreq, Dynamic.balfreq_factors.
  destruct wv_low as [wl|], wv_high as [wh|]; cbn [bind]; try reflexivity.
  rewrite Hrp. reflexivity.
Qed.





(** One pass of the frequency loop on a second-order model. *)
Lemma balfreq_point_completes (self : Dynamic.t R) (sys : libss.ss R R)
    (P Pw Bup : ndarray R) (zv : list (complex R)) (wv : list R) (Nk_low : nat)
    (st : Dynamic.factors) (kk : nat) :
  MultiAeroGridSurfaces.wf (Dynamic.MS self) ->
  Dynamic.K self = sum (MultiAeroGridSurfaces.KK (Dynamic.MS self)) ->
  Dynamic.K_star self = sum (MultiAeroGridSurfaces.KK_star (Dynamic.MS self)) ->
  Dynamic.integr_order self = 2%Z ->
  shape (libss.A sys) = (3 * Dynamic.K self + Dynamic.K_star self,
                         3 * Dynamic.K self + Dynamic.K_star self) ->
  nrows (libss.B sys) = 3 * Dynamic.K self + Dynamic.K_star self ->
  ncols (libss.C sys) = 3 * Dynamic.K self + Dynamic.K_star self ->
  shape P = (Dynamic.K self, Dynamic.K self) ->
  shape Pw = (Dynamic.K self, Dynamic.K_star self) ->
  shape Bup = (Dynamic.K self, libss.inputs sys) ->
  (forall X, nrows X = ncols X ->
     exists Kern, linalg_inv X = Ok Kern /\ shape Kern = shape X) ->
  (forall L X, nrows L = ncols L -> nrows X = nrows L ->
     exists Y, libsp_solve L X = Ok Y /\ shape Y = shape X) ->
  kk < length zv -> length wv = length zv ->
  factors_shaped sys (length zv) Nk_low st ->
  exists st',
    Dynamic.balfreq_point linalg_inv libsp_solve self sys P Pw Bup zv wv Nk_low st kk
    = Ok st' /\ factors_shaped sys (length zv) Nk_low st'.
Proof.
  intros Hwf HK HKs Ho HA HB HC HP HPw HBup Hinv Hsolve Hkk Hwv (Hzc & Hzo & Hq).
  apply shape_eq in HA, HP, HPw, HBup, Hzc, Hzo, Hq.
  destruct HA as (HA1 & HA2), HP as (HP1 & HP2), HPw as (HPw1 & HPw2).
  destruct HBup as (HBup1 & HBup2), Hzc as (Hzc1 & Hzc2), Hzo as (Hzo1 & Hzo2).
  destruct Hq as (Hq1 & Hq2).
  unfold libss.states, libss.inputs, libss.outputs in *.
  destruct (nth_error zv kk) as [z|] eqn:Ez; [|apply nth_error_None in Ez; lia].
  destruct (nth_error wv kk) as [w|] eqn:Ew; [|apply nth_error_None in Ew; lia].
  destruct (@get_Cw_cpx_sums (complex R) _ _ R self z Hwf HK HKs)
    as (Cw & ECw & HCw & _).
  apply shape_eq in HCw. destruct HCw as (HCw1 & HCw2).
  unfold Dynamic.balfreq_point. cbv zeta. unfold lookup, libss.states, libss.inputs, libss.outputs.
  rewrite Ez, Ew, Ho. cbn [bind Z.eqb Pos.eqb].
  rewrite ECw. cbn [bind].
  do 3 step.
  destruct (Hinv Z1) as (Kern & EK & HKern); [lia|].
  apply shape_eq in HKern. destruct HKern as (HK1 & HK2).
  rewrite EK. cbn [bind].
  do 2 step. cbn [fst snd].
  do 3 step.
  step_by ltac:(simpl; nia). step_by ltac:(simpl; nia).
  destruct (Nk_low <=? kk) eqn:Elow.
  { eexists. split; [reflexivity|]. unfold factors_shaped, shape, libss.states, libss.inputs, libss.outputs.
    cbn [Dynamic.f_Zc Dynamic.f_Zo Dynamic.f_Qobs]. repeat split; congruence. }
  apply Nat.leb_gt in Elow.
  do 13 step.
  assert (returns (csc_matrix (map (mul (div (cplx_of one) z)) (np_ones (Dynamic.K_star self)))
      (range 0 (Z.of_nat (Dynamic.K_star self)))
      (range 0 (Z.of_nat (Dynamic.K_star self))) (Dynamic.K_star self)
      (Dynamic.K_star self)) (Dynamic.K_star self) (Dynamic.K_star self))
    as (Es & EEs & HEs1 & HEs2)
    by (apply returns_csc_diag; rewrite length_map, length_np_ones; reflexivity).
  rewrite EEs. cbn [bind].
  do 5 step.
  destruct (Hsolve Z22 Z26) as (Y & EY & HY); [lia|lia|].
  apply shape_eq in HY. destruct HY as (HY1 & HY2).
  rewrite EY. cbn [bind].
  step.
  step_by ltac:(simpl; nia). step_by ltac:(simpl; nia).
  eexists. split; [reflexivity|].
  unfold factors_shaped, shape, libss.states, libss.inputs, libss.outputs.
  cbn [Dynamic.f_Zc Dynamic.f_Zo Dynamic.f_Qobs]. repeat split; f_equal; lia.
Qed.

Lemma balfreq_loop (self : Dynamic.t R) (sys : libss.ss R R)
    (P Pw Bup : ndarray R) (zv : list (complex R)) (wv : list R) (Nk_low : nat) :
  MultiAeroGridSurfaces.wf (Dynamic.MS self) ->
  Dynamic.K self = sum (MultiAeroGridSurfaces.KK (Dynamic.MS self)) ->
  Dynamic.K_star self = sum (MultiAeroGridSurfaces.KK_star (Dynamic.MS self)) ->
  Dynamic.integr_order self = 2%Z ->
  shape (libss.A sys) = (3 * Dynamic.K self + Dynamic.K_star self,
                         3 * Dynamic.K self + Dynamic.K_star self) ->
  nrows (libss.B sys) = 3 * Dynamic.K self + Dynamic.K_star self ->
  ncols (libss.C sys) = 3 * Dynamic.K self + Dynamic.K_star self ->
  shape P = (Dynamic.K self, Dynamic.K self) ->
  shape Pw = (Dynamic.K self, Dynamic.K_star self) ->
  shape Bup = (Dynamic.K self, libss.inputs sys) ->
  (forall X, nrows X = ncols X ->
     exists Kern, linalg_inv X = Ok Kern /\ shape Kern = shape X) ->
  (forall L X, nrows L = ncols L -> nrows X = nrows L ->
     exists Y, libsp_solve L X = Ok Y /\ shape Y = shape X) ->
  length wv = length zv ->
  forall (cnt s : nat) (st : Dynamic.factors),
  s + cnt <= length zv ->
  factors_shaped sys (length zv) Nk_low st ->
  exists st',
    for_each (seq s cnt)
      (Dynamic.balfreq_point linalg_inv libsp_solve self sys P Pw Bup zv wv Nk_low) st
    = Ok st' /\ factors_shaped sys (length zv) Nk_low st'.
Proof.
  intros Hwf HK HKs Ho HA HB HC HP HPw HBup Hinv Hsolve Hwv.
  induction cnt as [|cnt IH]; intros s st Hs Hst.
  - exists st. split; [reflexivity | exact Hst].
  - destruct (@balfreq_point_completes self sys P Pw Bup zv wv Nk_low st s)
      as (st1 & E1 & Hst1); try assumption; try lia.
    destruct (IH (Datatypes.S s) st1) as (st' & E' & Hst'); [lia | exact Hst1 |].
    exists st'. split; [|exact Hst'].
    cbn [seq for_each]. rewrite E1. cbn [bind]. exact E'.
Qed.

Variable lu_solve : ndarray R -> ndarray R -> result (ndarray R).

(** What the constructor and [assemble_ss] establish. *)
Lemma assembled_model (MS : MultiAeroGridSurfaces.t) (dt : R) (order : Z)
    (rp : bool) (sd : option (R * R * R)) (sp : bool) (ass : assembly.blocks R)
    (self0 self : Dynamic.t R) :
  Dynamic.__init__ MS dt order rp sd sp = Ok self0 ->
  Dynamic.assemble_ss lu_solve self0 ass = Ok self ->
  Dynamic.MS self = MS /\
  Dynamic.K self = sum (MultiAeroGridSurfaces.KK MS) /\
  Dynamic.K_star self = sum (MultiAeroGridSurfaces.KK_star MS) /\
  Dynamic.integr_order self = order /\
  Dynamic.remove_predictor self = rp /\
  Dynamic.Nx self = (if (order =? 1)%Z
                     then 2 * Dynamic.K self + Dynamic.K_star self
                     else 3 * Dynamic.K self + Dynamic.K_star self) /\
  exists sys,
    Dynamic.SS self = Some sys /\
    shape (libss.A sys) = (Dynamic.Nx self, Dynamic.Nx self) /\
    shape (libss.B sys) = (Dynamic.Nx self, Dynamic.Nu self) /\
    shape (libss.C sys) = (Dynamic.Ny self, Dynamic.Nx self) /\
    shape (libss.D sys) = (Dynamic.Ny self, Dynamic.Nu self).
Proof.
  intros H0 H.
  destruct (assemble_ss_assembled lu_solve MS dt order rp sd sp ass H0 H)
    as ((sys & HSS & HA & HB & HC & HD & _) & (sys' & Hself)).
  apply init_inv in H0.
  destruct H0 as (_ & HMS & HK & HKs & _ & _ & Ho & HNx & _ & _ & Hrp & _).
  assert (E1 : Dynamic.MS self = Dynamic.MS self0) by (rewrite Hself; reflexivity).
  assert (E2 : Dynamic.K self = Dynamic.K self0) by (rewrite Hself; reflexivity).
  assert (E3 : Dynamic.K_star self = Dynamic.K_star self0)
    by (rewrite Hself; reflexivity).
  assert (E4 : Dynamic.integr_order self = Dynamic.integr_order self0)
    by (rewrite Hself; reflexivity).
  assert (E5 : Dynamic.remove_predictor self = Dynamic.remove_predictor self0)
    by (rewrite Hself; reflexivity).
  assert (E6 : Dynamic.Nx self = Dynamic.Nx self0) by (rewrite Hself; reflexivity).
  rewrite E1, E2, E3, E4, E5, E6.
  repeat (split; [assumption|]).
  exists sys. rewrite <- E6. auto.
Qed.


Ltac call c Z E :=
  let L := run_lemma c in
  let Hr := fresh "Hr" in
  let Hc := fresh "Hc" in
  assert (returns c _ _) as (Z & E & Hr & Hc) by (apply L; shape_side);
  simpl in Hr, Hc.

Lemma balfreq_project_completes (sys : libss.ss R R) (Zc Zo : ndarray (complex R)) :
  svd_reduced svd ->
  ncols (libss.A sys) = nrows (libss.A sys) ->
  nrows (libss.B sys) = nrows (libss.A sys) ->
  ncols (libss.C sys) = nrows (libss.A sys) ->
  nrows Zc = nrows (libss.A sys) -> nrows Zo = nrows (libss.A sys) ->
  exists s T Ab Bb Cb Ti,
    Dynamic.balfreq_project svd rsqrt sys Zc Zo
    = Ok (libss.mk_ss Ab Bb Cb (libss.D sys) (libss.dt sys), T, s) /\
    projected svd rsqrt sys Zc Zo s T Ti Ab Bb Cb /\
    length s = Nat.min (ncols Zo) (ncols Zc) /\
    nrows T = libss.states sys /\ ncols Ti = libss.states sys.
Proof.
  intros Hsvd HA HB HC Hzc Hzo.
  call (dot (transpose Zo) Zc) M EM.
  destruct (Hsvd M) as (U & s & Vh & Esvd & HU1 & HU2 & HV1 & HV2 & Hs).
  pose (sinv := map (fun x => cplx_of (rsqrt x)) s).
  assert (Hsinv : length sinv = length s) by apply length_map.
  call (mul_cols (transpose Vh) sinv) X1 EX1.
  call (dot Zc X1) T ET.
  call (mul_cols U sinv) X2 EX2.
  call (dot (transpose X2) (transpose Zo)) Ti ETi.
  call (dot (astype_complex (libss.A sys)) T) AT EAT.
  call (dot Ti AT) Ab EAb.
  call (dot Ti (astype_complex (libss.B sys))) Bb EBb.
  call (dot (astype_complex (libss.C sys)) T) Cb ECb.
  exists s, T, Ab, Bb, Cb, Ti. split.
  - unfold Dynamic.balfreq_project. rewrite EM. cbn [bind]. rewrite Esvd. cbn [bind].
    fold sinv. rewrite EX1. cbn [bind]. rewrite ET. cbn [bind].
    rewrite EX2. cbn [bind]. rewrite ETi. cbn [bind]. rewrite EAT. cbn [bind].
    rewrite EAb. cbn [bind]. rewrite EBb. cbn [bind]. rewrite ECb. reflexivity.
  - unfold libss.states. split; [|lia].
    exists M, U, Vh, X1, X2, AT. fold sinv.
    repeat split; try assumption; lia.
Qed.

Lemma mul_cols_shape {S : Type} {NS : Num S} (X Y : ndarray S) (v : vector S) :
  mul_cols X v = Ok Y -> ncols X = length v /\ nrows Y = nrows X /\ ncols Y = ncols X.
Proof.
  unfold mul_cols. destruct (ncols X =? length v) eqn:E; [|discriminate].
  intro H. injection H as <-. apply Nat.eqb_eq in E. simpl. auto.
Qed.

(** Whatever [balfreq_project] returns is the projection of the model. *)
Lemma balfreq_project_inv (sys : libss.ss R R) (Zc Zo : ndarray (complex R))
    (SSb : libss.ss (complex R) R) (T : ndarray (complex R)) (s : vector R) :
  Dynamic.balfreq_project svd rsqrt sys Zc Zo = Ok (SSb, T, s) ->
  exists Ti Ab Bb Cb,
    SSb = libss.mk_ss Ab Bb Cb (libss.D sys) (libss.dt sys) /\
    projected svd rsqrt sys Zc Zo s T Ti Ab Bb Cb.
Proof.
  unfold Dynamic.balfreq_project. intro H.
  bind_inv H. rename r into M. bind_inv H. destruct r as [[U s'] Vh].
  binds_inv H. injection H as <- <- <-.
  exists r2, r4, r5, r6. split; [reflexivity|].
  exists M, U, Vh, r, r1, r3.
  pose proof E1 as S1. apply mul_cols_shape in S1. destruct S1 as (? & ? & ?).
  pose proof E3 as S3. apply mul_cols_shape in S3. destruct S3 as (? & ? & ?).
  pose proof E2 as S2. apply dot_shape in S2. destruct S2 as (? & ? & ?).
  pose proof E4 as S4. apply dot_shape in S4. destruct S4 as (? & ? & ?).
  rewrite length_map in *. simpl in *.
  repeat split; try assumption; lia.
Qed.

(** Whenever [balfreq] completes, the instance holds the factors, the
    balanced model, the projection and the singular values. *)
Lemma balfreq_inv (self self' : Dynamic.t R) (kv_low kv_high : vector R)
    (wv_low wv_high : option (vector R)) :
  Dynamic.balfreq np_cos np_sin linalg_inv libsp_solve svd rsqrt
                  self kv_low kv_high wv_low wv_high = (self', Ok tt) ->
  exists sys Zc Zo s T Ti Ab Bb Cb,
    Dynamic.SS self = Some sys /\
    self' = Dynamic.set_balanced (Dynamic.set_factors self Zc Zo)
              (libss.mk_ss Ab Bb Cb (libss.D sys) (libss.dt sys)) T s /\
    projected svd rsqrt sys Zc Zo s T Ti Ab Bb Cb.
Proof.
  unfold Dynamic.balfreq.
  destruct (Dynamic.balfreq_factors _ _ _ _ _ _ _ _ _) as [[Zc Zo]|e];
    [|intro H; discriminate].
  unfold Dynamic.get_SS. cbn [Dynamic.set_factors Dynamic.SS].
  destruct (Dynamic.SS self) as [sys|]; [|intro H; discriminate].
  destruct (Dynamic.balfreq_project svd rsqrt sys Zc Zo) as [[[SSb T] s]|e] eqn:Ep;
    [|intro H; discriminate].
  intro H. injection H as <-.
  apply balfreq_project_inv in Ep. destruct Ep as (Ti & Ab & Bb & Cb & -> & Hp).
  exists sys, Zc, Zo, s, T, Ti, Ab, Bb, Cb. auto.
Qed.

(** C6. Whenever [balfreq] completes, whatever the model and the numerical
    routines, it has stored the Gramian factors [Zc] and [Zo], the balanced
    model [Ab = Ti A T], [Bb = Ti B], [Cb = C T] with the [D] and the time
    step of the full model, the projection [T], and in [gv] every singular
    value that the decomposition of [Zo^T Zc] returned: [T] has one column
    and [Ti] one row for each of them, so nothing is truncated, and every
    other attribute, the full model included, is as it was.  And [balfreq]
    does complete on a dense ([UseSparse = False]) second-order model with
    its predictor, built by the constructor and assembled by [assemble_ss],
    with a weight for every frequency, when the inversion, the sparse solve
    and the singular value decomposition return arrays of the shapes numpy
    gives them. *)
Theorem C6_balfreq_reduced_model :
  (forall (self self' : Dynamic.t R) (kv_low kv_high : vector R)
          (wv_low wv_high : option (vector R)),
      Dynamic.balfreq np_cos np_sin linalg_inv libsp_solve svd rsqrt
                      self kv_low kv_high wv_low wv_high = (self', Ok tt) ->
      exists sys Zc Zo s T Ti Ab Bb Cb,
        Dynamic.SS self = Some sys /\
        self' = Dynamic.set_balanced (Dynamic.set_factors self Zc Zo)
                  (libss.mk_ss Ab Bb Cb (libss.D sys) (libss.dt sys)) T s /\
        projected svd rsqrt sys Zc Zo s T Ti Ab Bb Cb) /\
  (forall (MS : MultiAeroGridSurfaces.t) (dt : R) (sd : option (R * R * R))
          (ass : assembly.blocks R) (self0 self : Dynamic.t R)
          (kv_low kv_high wv_low wv_high : vector R),
      Dynamic.__init__ MS dt 2 false sd false = Ok self0 ->
      Dynamic.assemble_ss lu_solve self0 ass = Ok self ->
      MultiAeroGridSurfaces.wf MS ->
      length wv_low = length kv_low -> length wv_high = length kv_high ->
      (forall X, nrows X = ncols X ->
         exists Kern, linalg_inv X = Ok Kern /\ shape Kern = shape X) ->
      (forall L X, nrows L = ncols L -> nrows X = nrows L ->
         exists Y, libsp_solve L X = Ok Y /\ shape Y = shape X) ->
      svd_reduced svd ->
      exists self' s T,
        Dynamic.balfreq np_cos np_sin linalg_inv libsp_solve svd rsqrt
                        self kv_low kv_high (Some wv_low) (Some wv_high)
        = (self', Ok tt) /\
        Dynamic.gv self' = Some s /\ Dynamic.T self' = Some T /\
        shape T = (Dynamic.Nx self, length s) /\
        length s = Nat.min (2 * Dynamic.Ny self * length kv_low)
                           (2 * Dynamic.Nu self * length (kv_low ++ kv_high))).
Proof.
  split; [intros; eapply balfreq_inv; eassumption|].
  intros MS dt sd ass self0 self kv_low kv_high wv_low wv_high
         H0 H Hwf Hwl Hwh Hinv Hsolve Hsvd.
  destruct (@assembled_model MS dt 2%Z false sd false ass self0 self H0 H)
    as (HMS & HK & HKs & Ho & Hrp & HNx & sys & HSS & HA & HB & HC & _).
  rewrite <- HMS in Hwf, HK, HKs. simpl in HNx.
  pose proof (shape_eq HA) as (HA1 & HA2). pose proof (shape_eq HB) as (HB1 & HB2).
  pose proof (shape_eq HC) as (HC1 & HC2).
  pose proof HA1 as HA1'. pose proof HB2 as HB2'. pose proof HC1 as HC1'.
  rewrite HNx in HA, HA1, HA2, HB1, HC2.
  set (kvdt := map (fun k => mul k (libss.dt sys)) (kv_low ++ kv_high)).
  set (wv := map (fun w => mul w (libss.dt sys)) (wv_low ++ wv_high)).
  set (zv := map (fun x => Cpx (np_cos x) (np_sin x)) kvdt).
  assert (Hzv : length zv = length kvdt) by apply length_map.
  assert (Hkv : length kvdt = length (kv_low ++ kv_high)) by apply length_map.
  assert (Hwv : length wv = length zv).
  { unfold wv, zv, kvdt. rewrite !length_map, !length_app. lia. }
  destruct (@balfreq_loop self sys
              (getitem (libss.A sys) 0 (Dynamic.K self) 0 (Dynamic.K self))
              (getitem (libss.A sys) 0 (Dynamic.K self) (Dynamic.K self)
                       (Dynamic.K self + Dynamic.K_star self))
              (getitem (libss.B sys) 0 (Dynamic.K self) 0 (ncols (libss.B sys)))
              zv wv (length kv_low) Hwf HK HKs Ho HA HB1 HC2)
    with (cnt := length kvdt) (s := 0)
         (st := Dynamic.mk_factors
                  (np_zeros (libss.states sys) (2 * libss.inputs sys * length kvdt))
                  (np_zeros (libss.states sys) (2 * libss.outputs sys * length kv_low))
                  (np_zeros (libss.states sys) (libss.outputs sys)) : @Dynamic.factors R)
    as (st' & E & Hzc & Hzo & _); try assumption.
  - unfold shape. simpl. f_equal; lia.
  - unfold shape. simpl. f_equal; lia.
  - unfold shape, libss.inputs. simpl. f_equal; lia.
  - lia.
  - unfold factors_shaped, shape. rewrite Hzv. simpl. auto.
  - apply shape_eq in Hzc, Hzo. destruct Hzc as (Hzc1 & Hzc2), Hzo as (Hzo1 & Hzo2).
    unfold libss.states, libss.inputs, libss.outputs in Hzc1, Hzc2, Hzo1, Hzo2.
    destruct (@balfreq_project_completes sys (Dynamic.f_Zc st') (Dynamic.f_Zo st'))
      as (s & T & Ab & Bb & Cb & Ti & Ep & Hp & Hs & HT & _); try assumption; try lia.
    destruct Hp as (_ & _ & _ & _ & _ & _ & _ & _ & _ & _ & _ & _ & _ & _ & _ & _
                    & HTc & _).
    exists (Dynamic.set_balanced
              (Dynamic.set_factors self (Dynamic.f_Zc st') (Dynamic.f_Zo st'))
              (libss.mk_ss Ab Bb Cb (libss.D sys) (libss.dt sys)) T s), s, T.
    split; [|split; [reflexivity|split; [reflexivity|]]].
    + unfold Dynamic.balfreq, Dynamic.balfreq_factors. cbn [bind].
      rewrite Hrp. unfold Dynamic.get_SS at 1. rewrite HSS. cbn [bind]. cbv zeta.
      fold kvdt. fold wv. fold zv. rewrite E. cbn [bind].
      unfold Dynamic.get_SS, Dynamic.set_factors at 1. cbn [Dynamic.SS].
      rewrite HSS, Ep. reflexivity.
    + unfold libss.states in HT. split.
      * unfold shape. f_equal; [rewrite HT, HA1'; reflexivity | exact HTc].
      * rewrite Hs, Hzo2, Hzc2, Hzv, Hkv, HC1', HB2'. reflexivity.
Qed.
End BalancingProperties.

(** ** The example lattice *)

Lemma get_ok_eq {A : Type} (c : result A) (d : A) :
  is_ok c = true -> c = Ok (get_ok c d).
Proof. destruct c; [reflexivity | discriminate]. Qed.

Ltac ok_by_evaluation := apply get_ok_eq; vm_compute; reflexivity.

Lemma Qc_neq (a b : Q) : Qeq_bool a b = false -> Q2Qc a <> Q2Qc b.
Proof.
  intros H E. apply Q2Qc_eq_iff in E. apply Qeq_bool_iff in E. congruence.
Qed.

Lemma ex_MS_wf : MultiAeroGridSurfaces.wf ex_MS.
Proof.
  unfold MultiAeroGridSurfaces.wf, ex_MS. simpl.
  constructor; [|constructor]. unfold MultiAeroGridSurfaces.surface_ok. simpl. lia.
Qed.

Lemma C1_predictor_removal_equivalence_witness :
  exists h0 ys,
    transformed_state (ex_model 2 true None) ex_x0 ex_u0 = Ok h0 /\
    time_march (ex_model 2 false None) false ex_x0 ex_u0 ex_us = Ok ys /\
    time_march (ex_model 2 true None) false h0 ex_u0 ex_us = Ok ys /\
    length ys = length ex_us /\
    Forall (fun y => length y = Dynamic.Ny (ex_model 2 false None)) ys.
Proof.
  apply (@C1_predictor_removal_equivalence Qc _ _ ex_lu_solve ex_MS (Q2Qc 1) 2 None
           false false ex_blocks (ex_init 2 false None) (ex_init 2 true None)).
  - ok_by_evaluation.
  - ok_by_evaluation.
  - ok_by_evaluation.
  - ok_by_evaluation.
  - reflexivity.
  - repeat constructor.
Defined.

Lemma C2_nondimss_dimss_round_trip_witness :
  exists self1 self2 sys sys2,
    Dynamic.nondimss (ex_model 2 true (Some (Q2Qc 2, Q2Qc 3, Q2Qc 5))) = Ok self1 /\
    Dynamic.dimss self1 = Ok self2 /\
    Dynamic.SS (ex_model 2 true (Some (Q2Qc 2, Q2Qc 3, Q2Qc 5))) = Some sys /\
    Dynamic.SS self2 = Some sys2 /\
    array_eq (libss.B sys2) (libss.B sys) /\
    array_eq (libss.C sys2) (libss.C sys) /\
    array_eq (libss.D sys2) (libss.D sys) /\
    libss.dt sys2 = libss.dt sys /\
    libss.A sys2 = libss.A sys.
Proof.
  apply (@C2_nondimss_dimss_round_trip Qc _ _ ex_lu_solve ex_MS (Q2Qc 1) 2 true
           (Q2Qc 2) (Q2Qc 3) (Q2Qc 5) false ex_blocks
           (ex_init 2 true (Some (Q2Qc 2, Q2Qc 3, Q2Qc 5)))).
  - ok_by_evaluation.
  - ok_by_evaluation.
  - apply Qc_neq. reflexivity.
  - apply Qc_neq. reflexivity.
  - apply Qc_neq. reflexivity.
Defined.

Lemma C3_state_space_dimensions_witness :
  Dynamic.__init__ ex_MS (Q2Qc 1) 2 false None false = Ok (ex_init 2 false None) /\
  Dynamic.Nx (ex_init 2 false None) = 4 /\
  Dynamic.Ny (ex_init 2 false None) = 12 /\
  Dynamic.Nu (ex_init 2 false None) = 36 /\
  exists self, Dynamic.assemble_ss ex_lu_solve (ex_init 2 false None) ex_blocks = Ok self.
Proof.
  destruct (@C3_state_space_dimensions Qc _ ex_lu_solve ex_MS (Q2Qc 1) 2 false None
              false ex_blocks (ex_init 2 false None) ltac:(ok_by_evaluation))
    as (_ & _ & HNx & HNy & HNu & _ & Hasm).
  split; [ok_by_evaluation|].
  split; [exact (HNx eq_refl)|]. split; [exact HNy|]. split; [exact HNu|].
  apply Hasm.
  - unfold blocks_shaped. simpl. repeat split; reflexivity.
  - intros rhs _. exists rhs. split; reflexivity.
Defined.

Lemma C4_difference_coefficients_witness :
  derivative_rows 1 1 (fst (fst (fst ex_matrices))) (snd (fst (fst ex_matrices)))
    (div Dynamic.three Dynamic.two) (opp Dynamic.two) (Some (div one Dynamic.two)) /\
  delayed_rows 1 1 (fst (fst (fst ex_matrices))) (snd (fst (fst ex_matrices))).
Proof.
  destruct (@C4_difference_coefficients Qc _ _ ex_lu_solve ex_MS (Q2Qc 1) 2 false None
              false ex_blocks (ex_init 2 false None)) as (_ & H).
  - ok_by_evaluation.
  - destruct (H (fst (fst (fst ex_matrices))) (snd (fst (fst ex_matrices)))
                (snd (fst ex_matrices)) (snd ex_matrices)) as (H2 & _).
    + unfold ex_matrices. rewrite <- !surjective_pairing. ok_by_evaluation.
    + destruct (H2 eq_refl) as (_ & Hd & Hdel). split; [exact Hd | exact Hdel].
Defined.

(** The coefficients in the order of the specification: -2 on the new step
    and 1.5 on the current one. *)
Lemma C4_difference_coefficients_counterexample :
  Dynamic.assemble_matrices ex_lu_solve (ex_init 2 false None) ex_blocks = Ok ex_matrices /\
  ~ derivative_rows 1 1 (fst (fst (fst ex_matrices))) (snd (fst (fst ex_matrices)))
      (opp Dynamic.two) (div Dynamic.three Dynamic.two) (Some (div one Dynamic.two)).
Proof.
  split; [ok_by_evaluation|].
  intro H. destruct (H 0) as (H0 & _); [lia|].
  specialize (H0 0 (Nat.lt_0_succ 0)).
  apply (f_equal (fun x : Qc => this x)) in H0. vm_compute in H0. discriminate.
Qed.


Lemma C6_balfreq_reduced_model_witness :
  exists self' s T,
    Dynamic.balfreq ex_cos ex_sin ex_inv ex_solve ex_svd ex_rsqrt
                    (ex_model 2 false None) ex_kv [] (Some ex_kv) (Some [])
    = (self', Ok tt) /\
    Dynamic.gv self' = Some s /\ Dynamic.T self' = Some T /\
    shape T = (4, length s) /\ length s = 24.
Proof.
  apply (proj2 (@C6_balfreq_reduced_model Qc _ _ ex_cos ex_sin ex_inv ex_solve ex_svd
                  ex_rsqrt ex_lu_solve)
           ex_MS (Q2Qc 1) None ex_blocks (ex_init 2 false None)
           (ex_model 2 false None) ex_kv [] ex_kv []).
  - ok_by_evaluation.
  - ok_by_evaluation.
  - exact ex_MS_wf.
  - reflexivity.
  - reflexivity.
  - intros X _. exists X. split; reflexivity.
  - intros L X _ _. exists X. split; reflexivity.
  - intro M. eexists _, _, _. split; [reflexivity|]. simpl. rewrite repeat_length. auto.
Defined.

Lemma C7_balfreq_predictor_removed_raises_witness :
  Dynamic.balfreq ex_cos ex_sin ex_inv ex_solve ex_svd ex_rsqrt
                  (ex_model 2 true None) ex_kv [] (Some ex_kv) (Some [])
  = (ex_model 2 true None,
     Raise (NameError "Case without predictor Not yet implemented!")).
Proof.
  apply (@C7_balfreq_predictor_removed_raises Qc _ ex_cos ex_sin ex_inv ex_solve ex_svd
           ex_rsqrt (ex_model 2 true None) ex_kv [] (Some ex_kv) (Some [])).
  reflexivity.
Defined.

Lemma C8_omitted_next_input_defaults_witness :
  exists x_n1 y_n1,
    Dynamic.solve_step (ex_model 2 false None) ex_x0 ex_u0 None false = Ok (x_n1, y_n1).
Proof.
  apply (proj2 (@C8_omitted_next_input_defaults Qc _ ex_lu_solve) ex_MS (Q2Qc 1) 2%Z false
           None false ex_blocks (ex_init 2 false None)).
  - ok_by_evaluation.
  - ok_by_evaluation.
  - reflexivity.
  - reflexivity.
Defined.


Lemma C10_scaling_leaves_A_and_B_predictor_witness :
  (exists sys m1 m2,
     Dynamic.SS (ex_model 2 true (Some (Q2Qc 2, Q2Qc 3, Q2Qc 5))) = Some sys /\
     Dynamic.nondimss (ex_model 2 true (Some (Q2Qc 2, Q2Qc 3, Q2Qc 5))) = Ok m1 /\
     Dynamic.dimss (ex_model 2 true (Some (Q2Qc 2, Q2Qc 3, Q2Qc 5))) = Ok m2 /\
     scaled_from (ex_model 2 true (Some (Q2Qc 2, Q2Qc 3, Q2Qc 5))) sys m1 /\
     scaled_from (ex_model 2 true (Some (Q2Qc 2, Q2Qc 3, Q2Qc 5))) sys m2) /\
  Dynamic.B_predictor
    (get_ok (Dynamic.nondimss (ex_model 2 true None)) ex_empty)
  = Some (snd (fst (fst
      (get_ok (Dynamic.assemble_matrices ex_lu_solve (ex_init 2 true None) ex_blocks)
              ex_matrices)))).
Proof.
  split.
  - destruct (Dynamic.SS (ex_model 2 true (Some (Q2Qc 2, Q2Qc 3, Q2Qc 5))))
      as [sys|] eqn:HSS;
      [|apply (f_equal (fun o => match o with Some _ => true | None => false end)) in HSS;
        vm_compute in HSS; discriminate].
    destruct (proj1 (@C10_scaling_leaves_A_and_B_predictor Qc _ ex_lu_solve)
                (ex_model 2 true (Some (Q2Qc 2, Q2Qc 3, Q2Qc 5))) sys HSS)
      as (m1 & m2 & H).
    + repeat split; intro E; apply (f_equal this) in E; vm_compute in E; discriminate.
    + exists sys, m1, m2. split; [reflexivity | exact H].
  - apply (proj2 (@C10_scaling_leaves_A_and_B_predictor Qc _ ex_lu_solve) ex_MS (Q2Qc 1)
             2%Z None false ex_blocks (ex_init 2 true None) (ex_model 2 true None) _
             (fst (fst (fst (get_ok (Dynamic.assemble_matrices ex_lu_solve
                                       (ex_init 2 true None) ex_blocks) ex_matrices))))
             _
             (snd (fst (get_ok (Dynamic.assemble_matrices ex_lu_solve
                                  (ex_init 2 true None) ex_blocks) ex_matrices)))
             (snd (get_ok (Dynamic.assemble_matrices ex_lu_solve
                             (ex_init 2 true None) ex_blocks) ex_matrices))).
    + ok_by_evaluation.
    + rewrite <- !surjective_pairing. ok_by_evaluation.
    + ok_by_evaluation.
    + ok_by_evaluation.
Defined.

(** * Further properties *)

(** ** The two forms of the time stepper *)

Section TwoForms.
Context {R : Type} {N : Num R} {F : Field R}.
Variable lu_solve : ndarray R -> ndarray R -> result (ndarray R).
Add Field TwoFormsField : Field_laws.
Local Open Scope num_scope.

(** The direct form and the predictor-removed form of one model. *)
Lemma two_forms (MS : MultiAeroGridSurfaces.t) (dt : R) (order : Z)
    (sd : option (R * R * R)) (sp sp' : bool) (ass : assembly.blocks R)
    (d0 p0 md mp : Dynamic.t R) :
  Dynamic.__init__ MS dt order false sd sp = Ok d0 ->
  Dynamic.assemble_ss lu_solve d0 ass = Ok md ->
  Dynamic.__init__ MS dt order true sd sp' = Ok p0 ->
  Dynamic.assemble_ss lu_solve p0 ass = Ok mp ->
  exists Ass Bss Css Dss,
    Dynamic.assemble_matrices lu_solve d0 ass = Ok (Ass, Bss, Css, Dss) /\
    shape Ass = (Dynamic.Nx md, Dynamic.Nx md) /\
    shape Bss = (Dynamic.Nx md, Dynamic.Nu md) /\
    shape Css = (Dynamic.Ny md, Dynamic.Nx md) /\
    shape Dss = (Dynamic.Ny md, Dynamic.Nu md) /\
    Dynamic.SS md = Some (libss.mk_ss Ass Bss Css Dss dt) /\
    Dynamic.remove_predictor md = false /\
    Dynamic.SS mp = Some (libss.mk_ss Ass (matmul Ass Bss) Css
                                      (madd (matmul Css Bss) Dss) dt) /\
    Dynamic.remove_predictor mp = true /\
    Dynamic.B_predictor mp = Some Bss /\
    Dynamic.Nx mp = Dynamic.Nx md /\ Dynamic.Nu mp = Dynamic.Nu md /\
    Dynamic.Ny mp = Dynamic.Ny md.
Proof.
  intros Hd0 Hmd Hp0 Hmp.
  pose proof (@assemble_matrices_indep R N lu_solve MS dt order false true sd sp sp'
                d0 p0 ass Hd0 Hp0) as Eq.
  apply init_inv in Hd0. apply init_inv in Hp0.
  destruct Hd0 as (_ & _ & HK & HKs & HKz & Hdt & _ & HNx & HNy & HNu & Hrp & _).
  destruct Hp0 as (_ & _ & HK' & HKs' & HKz' & Hdt' & _ & HNx' & HNy' & HNu' & Hrp' & _).
  apply assemble_ss_inv in Hmd. destruct Hmd as (Ass & Bss & Css & Dss & Em & Hmd).
  apply assemble_ss_inv in Hmp. destruct Hmp as (Ass' & Bss' & Css' & Dss' & Em' & Hmp).
  rewrite Eq, Em' in Em. injection Em as -> -> -> ->.
  rewrite <- Eq in Em'. pose proof Em' as Hsh. apply assemble_matrices_shape in Hsh.
  destruct Hsh as (HA & HB & HC & HD).
  rewrite Hrp in Hmd. rewrite Hrp' in Hmp.
  destruct Hmp as (Bmod & CB & Dmod & EB & ECB & ED & Hmp).
  pose proof (f_equal fst HA) as HA1. pose proof (f_equal snd HA) as HA2.
  pose proof (f_equal fst HB) as HB1. pose proof (f_equal snd HB) as HB2.
  pose proof (f_equal fst HC) as HC1. pose proof (f_equal snd HC) as HC2.
  pose proof (f_equal fst HD) as HD1. pose proof (f_equal snd HD) as HD2.
  simpl in HA1, HA2, HB1, HB2, HC1, HC2, HD1, HD2.
  rewrite dot_ok in EB by congruence. injection EB as <-.
  rewrite dot_ok in ECB by congruence. injection ECB as <-.
  rewrite np_add_ok in ED by (simpl; congruence). injection ED as <-.
  exists Ass, Bss, Css, Dss.
  assert (E1 : Dynamic.Nx md = Dynamic.Nx d0) by (rewrite Hmd; reflexivity).
  assert (E2 : Dynamic.Nu md = Dynamic.Nu d0) by (rewrite Hmd; reflexivity).
  assert (E3 : Dynamic.Ny md = Dynamic.Ny d0) by (rewrite Hmd; reflexivity).
  rewrite E1, E2, E3.
  split; [exact Em'|]. repeat (split; [assumption|]).
  split; [rewrite Hmd; simpl; rewrite Hdt; reflexivity|].
  split; [rewrite Hmd; exact Hrp|].
  split; [rewrite Hmp; simpl; rewrite Hdt'; reflexivity|].
  split; [rewrite Hmp; exact Hrp'|].
  split; [rewrite Hmp; reflexivity|].
  rewrite Hmp. simpl.
  rewrite HNx, HNx', HNy, HNy', HNu, HNu', HK, HK', HKs, HKs', HKz, HKz'. auto.
Qed.

(** With [transform_state=True] the predictor-removed stepper takes and
    returns the physical state: it gives the state and the output of the
    direct-form stepper. *)
Theorem solve_step_transform_state_matches_direct
    (MS : MultiAeroGridSurfaces.t) (dt : R) (order : Z)
    (sd : option (R * R * R)) (sp sp' : bool) (ass : assembly.blocks R)
    (d0 p0 md mp : Dynamic.t R) (x u u1 : vector R) (ts : bool) :
  Dynamic.__init__ MS dt order false sd sp = Ok d0 ->
  Dynamic.assemble_ss lu_solve d0 ass = Ok md ->
  Dynamic.__init__ MS dt order true sd sp' = Ok p0 ->
  Dynamic.assemble_ss lu_solve p0 ass = Ok mp ->
  length x = Dynamic.Nx md -> length u = Dynamic.Nu md ->
  length u1 = Dynamic.Nu md ->
  exists x1 y1,
    Dynamic.solve_step md x u (Some u1) ts = Ok (x1, y1) /\
    Dynamic.solve_step mp x u (Some u1) true = Ok (x1, y1) /\
    length x1 = Dynamic.Nx md /\ length y1 = Dynamic.Ny md.
Proof.
  intros Hd0 Hmd Hp0 Hmp Hx Hu Hu1.
  destruct (@two_forms MS dt order sd sp sp' ass d0 p0 md mp Hd0 Hmd Hp0 Hmp)
    as (A & B & C & D & _ & HA & HB & HC & HD & Emd & Hrp & Emp & Hrp' & EBp & _).
  apply shape_eq in HA, HB, HC, HD.
  destruct HA as (HA1 & HA2), HB as (HB1 & HB2), HC as (HC1 & HC2), HD as (HD1 & HD2).
  unfold Dynamic.solve_step, Dynamic.get_SS, Dynamic.get_B_predictor.
  rewrite Hrp, Hrp', Emd, Emp, EBp. cbn [bind libss.A libss.B libss.C libss.D].
  rewrite (dotv_ok A x) by congruence. cbn [bind].
  rewrite (dotv_ok B u1) by congruence. cbn [bind].
  rewrite vadd_ok by (rewrite !length_matvec; congruence). cbn [bind].
  rewrite (dotv_ok C) by (rewrite length_vplus, length_matvec; congruence). cbn [bind].
  rewrite (dotv_ok D u1) by congruence. cbn [bind].
  rewrite vadd_ok by (rewrite !length_matvec; congruence). cbn [bind].
  rewrite (dotv_ok B u) by congruence. cbn [bind].
  rewrite vsub_ok by (rewrite length_matvec; congruence). cbn [bind].
  rewrite (dotv_ok A) by (rewrite length_vminus; congruence). cbn [bind].
  rewrite (dotv_ok _ u) by (simpl; congruence). cbn [bind].
  rewrite vadd_ok by (rewrite !length_matvec; simpl; congruence). cbn [bind].
  rewrite (dotv_ok C) by (rewrite length_vplus, length_matvec; congruence). cbn [bind].
  rewrite (dotv_ok _ u1) by (simpl; congruence). cbn [bind].
  rewrite vadd_ok by (rewrite !length_matvec; simpl; congruence). cbn [bind].
  rewrite vadd_ok by (rewrite length_vplus, !length_matvec; congruence). cbn [bind].
  assert (Eh : vplus (matvec A (vminus x (matvec B u))) (matvec (matmul A B) u)
               = matvec A x).
  { rewrite matvec_matmul by congruence.
    rewrite matvec_vminus by congruence.
    apply vplus_vminus_cancel. rewrite !length_matvec. reflexivity. }
  rewrite Eh.
  eexists _, _. split; [reflexivity|]. split.
  - f_equal. f_equal.
    rewrite matvec_vplus by (rewrite length_matvec; congruence).
    rewrite vplus_assoc by (rewrite !length_matvec; reflexivity).
    f_equal. rewrite matvec_madd. simpl.
    rewrite matvec_matmul by congruence. f_equal.
    unfold matvec. rewrite HC1, HD1, HB2, HD2. reflexivity.
  - rewrite !length_vplus, !length_matvec. auto.
Qed.
End TwoForms.

(** ** Inputs: the relative velocity *)

Section RelativeVelocity.
Context {R : Type} {N : Num R} {F : Field R}.
Add Field RVField : Field_laws.
Local Open Scope num_scope.

Lemma sum_n_split (a b : nat) (f : nat -> R) :
  sum_n (a + b) f = sum_n a f + sum_n b (fun k => f (a + k)%nat).
Proof.
  induction b as [|b IH].
  - rewrite Nat.add_0_r. simpl. ring.
  - rewrite Nat.add_succ_r. simpl. rewrite IH. ring.
Qed.

Lemma sum_n_opp (n : nat) (f : nat -> R) :
  sum_n n (fun k => - f k) = - sum_n n f.
Proof. induction n as [|n IH]; simpl; [ring|]. rewrite IH. ring. Qed.

Lemma length_add_velocity (Kz : nat) (u w : vector R) :
  length (add_velocity Kz u w) = length u.
Proof. apply length_tabulate. Qed.

Lemma vget_add_velocity (Kz : nat) (u w : vector R) :
  length u = (9 * Kz)%nat ->
  forall j, (j < 3 * Kz)%nat ->
    vget (add_velocity Kz u w) j = vget u j /\
    vget (add_velocity Kz u w) (3 * Kz + j)
    = vget u (3 * Kz + j)%nat + vget w j /\
    vget (add_velocity Kz u w) (6 * Kz + j)
    = vget u (6 * Kz + j)%nat + vget w j.
Proof.
  intros Hu j Hj. unfold add_velocity. rewrite !vget_tabulate by lia.
  repeat match goal with
  | |- context [(?a <=? ?b)%nat] => destruct (Nat.leb_spec a b); try lia
  | |- context [(?a <? ?b)%nat] => destruct (Nat.ltb_spec a b); try lia
  end; cbn [andb].
  split; [reflexivity|]. split; do 2 f_equal; lia.
Qed.

Lemma matvec_add_velocity (Kz : nat) (M : ndarray R) (u w : vector R) :
  ncols M = (9 * Kz)%nat -> length u = (9 * Kz)%nat ->
  opposite_velocity_columns Kz M ->
  matvec M (add_velocity Kz u w) = matvec M u.
Proof.
  intros HM Hu Hop. apply vector_ext; rewrite !length_matvec; [reflexivity|].
  intros i Hi. rewrite !vget_matvec by exact Hi. rewrite HM.
  replace (9 * Kz)%nat with (3 * Kz + (3 * Kz + 3 * Kz))%nat by lia.
  rewrite !sum_n_split.
  apply (f_equal2 add).
  - apply sum_n_ext. intros k Hk.
    now rewrite (proj1 (@vget_add_velocity Kz u w Hu k Hk)).
  - rewrite <- !sum_n_add. apply sum_n_ext. intros j Hj.
    destruct (@vget_add_velocity Kz u w Hu j Hj) as (_ & E1 & E2).
    replace (3 * Kz + (3 * Kz + j))%nat with (6 * Kz + j)%nat by lia.
    rewrite E1, E2, (Hop i j Hi Hj). ring.
Qed.

(** The product of a matrix with pairwise opposite velocity columns has
    them too, and so has its sum with another one. *)
Lemma opposite_matmul (Kz : nat) (X Y : ndarray R) :
  ncols X = nrows Y -> opposite_velocity_columns Kz Y ->
  opposite_velocity_columns Kz (matmul X Y).
Proof.
  intros H HY i j Hi Hj. cbn [matmul item].
  rewrite sum_n_ext with (g := fun k => - (item X i k * item Y k (6 * Kz + j)%nat)).
  - apply sum_n_opp.
  - intros k Hk. rewrite HY by lia. ring.
Qed.

Lemma opposite_madd (Kz : nat) (X Y : ndarray R) :
  nrows X = nrows Y ->
  opposite_velocity_columns Kz X -> opposite_velocity_columns Kz Y ->
  opposite_velocity_columns Kz (madd X Y).
Proof.
  intros H HX HY i j Hi Hj. cbn [madd item nrows] in *.
  rewrite HX, HY by lia. ring.
Qed.

Lemma dotv_add_velocity (Kz : nat) (M : ndarray R) (u w : vector R) :
  ncols M = (9 * Kz)%nat -> length u = (9 * Kz)%nat ->
  opposite_velocity_columns Kz M ->
  dotv M (add_velocity Kz u w) = dotv M u.
Proof.
  intros HM Hu Hop. rewrite !dotv_ok by (rewrite ?length_add_velocity; congruence).
  now rewrite matvec_add_velocity.
Qed.

Lemma assemble_B_opposite (self : Dynamic.t R) (Bup Bss : ndarray R) :
  order_dims self -> Dynamic.Nu self = (9 * Dynamic.Kzeta self)%nat ->
  Dynamic.assemble_B self Bup = Ok Bss ->
  opposite_velocity_columns (Dynamic.Kzeta self) Bup ->
  opposite_velocity_columns (Dynamic.Kzeta self) Bss.
Proof.
  intros Hord HNu HB Hop.
  assert (HNx : (2 * Dynamic.K self + Dynamic.K_star self <= Dynamic.Nx self)%nat)
    by (destruct Hord as [(_ & ->)|(_ & ->)]; lia).
  unfold Dynamic.assemble_B in HB. cbv zeta in HB.
  set (K := Dynamic.K self) in *. set (Ks := Dynamic.K_star self) in *.
  set (Kz := Dynamic.Kzeta self) in *.
  destruct Hord as [(Ho & _)|(Ho & _)]; rewrite Ho in HB;
    simpl Z.eqb in HB; cbv iota in HB; binds_inv HB.
  - injection HB as <-. chain_facts.
    intros i j Hi' Hj.
    destruct (Nat.lt_ge_cases i K);
      [|destruct (Nat.lt_ge_cases i (K + Ks));
        [|destruct (Nat.lt_ge_cases i (2 * K + Ks))]]; entry;
      try ring; apply Hop; lia.
  - injection E0 as <-. chain_facts.
    intros i j Hi' Hj.
    destruct (Nat.lt_ge_cases i K);
      [|destruct (Nat.lt_ge_cases i (K + Ks));
        [|destruct (Nat.lt_ge_cases i (2 * K + Ks))]]; entry;
      try ring; rewrite Hop by lia; ring.
Qed.

Lemma assemble_D_opposite (self : Dynamic.t R) (ass : assembly.blocks R)
    (Dss : ndarray R) :
  Dynamic.include_added_mass self = true ->
  Dynamic.Nu self = (9 * Dynamic.Kzeta self)%nat ->
  Dynamic.assemble_D self ass = Ok Dss ->
  opposite_velocity_columns (Dynamic.Kzeta self) Dss.
Proof.
  intros Ham HNu HD.
  unfold Dynamic.assemble_D in HD. cbv zeta in HD. rewrite Ham in HD.
  set (Kz := Dynamic.Kzeta self) in *.
  binds_inv HD. chain_facts.
  intros i j Hi' Hj. entry.
  f_equal. cbn [getitem item]. rewrite Nat.min_0_l, (Nat.min_l (6 * Kz)) by lia.
  cbn [Nat.add]. entry. reflexivity.
Qed.

Variable lu_solve : ndarray R -> ndarray R -> result (ndarray R).

Lemma assemble_matrices_opposite (self : Dynamic.t R) (ass : assembly.blocks R)
    (Ass Bss Css Dss : ndarray R) :
  order_dims self -> Dynamic.Nu self = (9 * Dynamic.Kzeta self)%nat ->
  Dynamic.include_added_mass self = true ->
  blocks_shaped (Dynamic.K self) (Dynamic.K_star self) (Dynamic.Kzeta self) ass ->
  lu_solves lu_solve ass ->
  Dynamic.assemble_matrices lu_solve self ass = Ok (Ass, Bss, Css, Dss) ->
  opposite_velocity_columns (Dynamic.Kzeta self) Bss /\
  opposite_velocity_columns (Dynamic.Kzeta self) Dss.
Proof.
  intros Hord HNu Ham Hb Hlu H.
  destruct Hb as (_ & _ & _ & _ & HDu & HW & _).
  apply shape_eq in HDu, HW. destruct HDu as (HDu1 & HDu2), HW as (HW1 & HW2).
  unfold Dynamic.assemble_matrices in H. binds_inv H. injection H as <- <- <- <-.
  split; [|eapply assemble_D_opposite; eassumption].
  eapply assemble_B_opposite; try eassumption.
  destruct (Hlu (assembly.Wnv0 ass)) as (W & EW & HWs); [auto|].
  destruct (Hlu (assembly.Ducdzeta ass)) as (X & EX & HXs); [auto|].
  repeat match goal with
  | H : lu_solve _ (assembly.Wnv0 ass) = Ok _ |- _ =>
      rewrite EW in H; injection H as <-
  | H : lu_solve _ (assembly.Ducdzeta ass) = Ok _ |- _ =>
      rewrite EX in H; injection H as <-
  end.
  apply shape_eq in HWs, HXs. destruct HWs as (HWs1 & HWs2), HXs as (HXs1 & HXs2).
  repeat match goal with
  | H : hstack _ _ = Ok _ |- _ =>
      unfold hstack in H; destruct (_ =? _) in H; [|discriminate];
      injection H as <-
  end.
  intros i j Hi Hj. cbn [item ncols neg amap nrows] in *.
  set (Kz := Dynamic.Kzeta self) in *.
  repeat match goal with
  | |- context [(?a <? ?b)%nat] => destruct (Nat.ltb_spec a b); try lia
  end.
  replace (3 * Kz + j - ncols X)%nat with j by lia.
  replace (6 * Kz + j - (ncols X + ncols W))%nat with j by lia.
  ring.
Qed.

(** The response depends on the grid velocity and on the external velocity
    only through their difference: adding one velocity to both blocks of the
    inputs changes neither the new state nor the output of a step. *)
Theorem solve_step_relative_velocity
    (MS : MultiAeroGridSurfaces.t) (dt : R) (order : Z) (rp : bool)
    (sd : option (R * R * R)) (sp : bool) (ass : assembly.blocks R)
    (self0 self : Dynamic.t R) (x u u1 w w1 : vector R) (ts : bool) :
  Dynamic.__init__ MS dt order rp sd sp = Ok self0 ->
  Dynamic.assemble_ss lu_solve self0 ass = Ok self ->
  blocks_shaped (sum (MultiAeroGridSurfaces.KK MS))
                (sum (MultiAeroGridSurfaces.KK_star MS))
                (sum (MultiAeroGridSurfaces.KKzeta MS)) ass ->
  lu_solves lu_solve ass ->
  length u = Dynamic.Nu self -> length u1 = Dynamic.Nu self ->
  Dynamic.solve_step self x (add_velocity (Dynamic.Kzeta self) u w)
                     (Some (add_velocity (Dynamic.Kzeta self) u1 w1)) ts
  = Dynamic.solve_step self x u (Some u1) ts.
Proof.
  intros H0 H Hb Hlu Hu Hu1.
  pose proof (init_inv _ _ _ _ _ _ H0)
    as (Hord & _ & HK & HKs & HKz & _ & Ho & HNx & _ & HNu & Hrp & _ & Ham & _).
  rewrite <- HK, <- HKs, <- HKz in Hb.
  assert (Hd : order_dims self0).
  { unfold order_dims. rewrite Ho, HNx.
    destruct Hord as [-> | ->]; [left|right]; split; reflexivity. }
  apply assemble_ss_inv in H. destruct H as (Ass & Bss & Css & Dss & Em & H).
  destruct (assemble_matrices_opposite Hd HNu Ham Hb Hlu Em) as (HopB & HopD).
  apply assemble_matrices_shape in Em. destruct Em as (HA & HB & HC & HD).
  apply shape_eq in HA, HB, HC, HD.
  destruct HA as (HA1 & HA2), HB as (HB1 & HB2), HC as (HC1 & HC2), HD as (HD1 & HD2).
  set (Kz := Dynamic.Kzeta self).
  assert (EKz : Kz = Dynamic.Kzeta self0).
  { unfold Kz. destruct (Dynamic.remove_predictor self0);
      [destruct H as (? & ? & ? & _ & _ & _ & ->)|rewrite H]; reflexivity. }
  assert (ENu : Dynamic.Nu self = Dynamic.Nu self0).
  { destruct (Dynamic.remove_predictor self0);
      [destruct H as (? & ? & ? & _ & _ & _ & ->)|rewrite H]; reflexivity. }
  rewrite ENu, HNu, <- EKz in Hu, Hu1. rewrite HNu, <- EKz in HB2, HD2.
  rewrite <- EKz in HopB, HopD.
  unfold Dynamic.solve_step, Dynamic.get_SS, Dynamic.get_B_predictor.
  rewrite Hrp in H. destruct rp.
  - destruct H as (Bmod & CB & Dmod & EB & ECB & ED & ->).
    rewrite dot_ok in EB by congruence. injection EB as <-.
    rewrite dot_ok in ECB by congruence. injection ECB as <-.
    rewrite np_add_ok in ED by (simpl; congruence). injection ED as <-.
    cbn [Dynamic.set_SS Dynamic.remove_predictor Dynamic.SS Dynamic.B_predictor
         bind libss.A libss.B libss.C libss.D].
    rewrite Hrp.
    rewrite !(@dotv_add_velocity Kz Bss) by assumption.
    rewrite !(@dotv_add_velocity Kz (matmul Ass Bss))
      by first [assumption | exact HB2 | apply opposite_matmul; [congruence | assumption]].
    rewrite !(@dotv_add_velocity Kz (madd (matmul Css Bss) Dss))
      by first [assumption | exact HB2
               | apply opposite_madd;
                 [simpl; congruence | apply opposite_matmul; [congruence | assumption]
                 | assumption]].
    reflexivity.
  - rewrite H.
    cbn [Dynamic.set_SS Dynamic.remove_predictor Dynamic.SS Dynamic.B_predictor
         bind libss.A libss.B libss.C libss.D].
    rewrite Hrp.
    rewrite !(@dotv_add_velocity Kz Bss) by assumption.
    rewrite !(@dotv_add_velocity Kz Dss) by assumption.
    reflexivity.
Qed.
End RelativeVelocity.

(** ** States: the circulation derivative *)

Section DerivativeStates.
Context {R : Type} {N : Num R} {F : Field R}.
Add Field DSField : Field_laws.
Local Open Scope num_scope.
Variable lu_solve : ndarray R -> ndarray R -> result (ndarray R).

(** The state matrix has no entry in the columns of the circulation
    derivative, the output matrix none in those of the delayed circulation. *)
Lemma assemble_zero_columns (self : Dynamic.t R) (ass : assembly.blocks R)
    (Ass Bss Css Dss : ndarray R) :
  order_dims self ->
  Dynamic.assemble_matrices lu_solve self ass = Ok (Ass, Bss, Css, Dss) ->
  let K := Dynamic.K self in
  let K_star := Dynamic.K_star self in
  (forall i j, (K + K_star <= j < 2 * K + K_star)%nat -> item Ass i j = zero) /\
  (forall i j, (2 * K + K_star <= j)%nat -> item Css i j = zero).
Proof.
  intros Hord H K Ks.
  assert (HNx : (2 * K + Ks <= Dynamic.Nx self)%nat)
    by (destruct Hord as [(_ & ->)|(_ & ->)]; unfold K, Ks; lia).
  unfold Dynamic.assemble_matrices in H. binds_inv H. injection H as <- <- <- <-.
  match goal with HA : Dynamic.assemble_A _ _ _ _ _ = Ok _ |- _ =>
    rename HA into EA end.
  match goal with HC : Dynamic.assemble_C _ _ = Ok _ |- _ =>
    rename HC into EC end.
  split.
  - clear EC.
    unfold Dynamic.assemble_A in EA. cbv zeta in EA. fold K Ks in EA.
    destruct Hord as [(Ho & Hn)|(Ho & Hn)]; rewrite Ho in EA;
      simpl Z.eqb in EA; cbv iota in EA; binds_inv EA.
    + injection EA as <-.
      match goal with HB : bind _ _ = Ok _ |- _ => binds_inv HB end.
      chain_facts. intros i j Hj. entry. reflexivity.
    + match goal with HB : Ok _ = Ok _ |- _ => injection HB as <- end.
      chain_facts. intros i j Hj. entry. reflexivity.
  - unfold Dynamic.assemble_C in EC. cbv zeta in EC. fold K Ks in EC.
    destruct (Dynamic.include_added_mass self); binds_inv EC;
      [|injection EC as <-]; chain_facts; intros i j Hj; entry; reflexivity.
Qed.

Lemma dotv_agree (A : ndarray R) (a b : nat) (x x' : vector R) :
  (forall i j, (a <= j < b)%nat -> item A i j = zero) ->
  agree_outside a b x x' -> dotv A x = dotv A x'.
Proof.
  intros HA (Hl & Hx). unfold dotv. rewrite <- Hl.
  destruct (ncols A =? length x); [|reflexivity].
  f_equal. unfold matvec. apply tabulate_ext. intros i _.
  apply sum_n_ext. intros k _.
  destruct (Nat.lt_ge_cases k a) as [Hk|Hk]; [now rewrite Hx by lia|].
  destruct (Nat.lt_ge_cases k b) as [Hk'|Hk']; [|now rewrite Hx by lia].
  rewrite HA by lia. ring.
Qed.

Lemma vminus_agree (a b : nat) (x x' y : vector R) :
  agree_outside a b x x' -> agree_outside a b (vminus x y) (vminus x' y).
Proof.
  intros (Hl & Hx). split; [now rewrite !length_vminus|].
  intros k Hk. destruct (Nat.lt_ge_cases k (length x)) as [Hlt|Hge].
  - rewrite !vget_vminus by lia. now rewrite Hx.
  - unfold vget. rewrite !nth_overflow by (rewrite length_vminus; lia).
    reflexivity.
Qed.

(** The circulation derivatives in the state are never read: two states that
    differ only there are marched to the same state and outputs. *)
Theorem solve_step_ignores_circulation_derivative
    (MS : MultiAeroGridSurfaces.t) (dt : R) (order : Z) (rp : bool)
    (sd : option (R * R * R)) (sp : bool) (ass : assembly.blocks R)
    (self0 self : Dynamic.t R) (x x' u : vector R) (u1 : option (vector R))
    (ts : bool) :
  Dynamic.__init__ MS dt order rp sd sp = Ok self0 ->
  Dynamic.assemble_ss lu_solve self0 ass = Ok self ->
  agree_outside (Dynamic.K self + Dynamic.K_star self)
                (2 * Dynamic.K self + Dynamic.K_star self) x x' ->
  Dynamic.solve_step self x u u1 ts = Dynamic.solve_step self x' u u1 ts.
Proof.
  intros H0 H Hx.
  pose proof (init_inv _ _ _ _ _ _ H0)
    as (Hord & _ & _ & _ & _ & _ & Ho & HNx & _ & _ & Hrp & _).
  assert (Hd : order_dims self0).
  { unfold order_dims. rewrite Ho, HNx.
    destruct Hord as [-> | ->]; [left|right]; split; reflexivity. }
  apply assemble_ss_inv in H. destruct H as (Ass & Bss & Css & Dss & Em & H).
  destruct (@assemble_zero_columns self0 ass Ass Bss Css Dss Hd Em) as (HA & _).
  assert (EK : Dynamic.K self = Dynamic.K self0 /\
               Dynamic.K_star self = Dynamic.K_star self0).
  { destruct (Dynamic.remove_predictor self0);
      [destruct H as (? & ? & ? & _ & _ & _ & ->)|rewrite H]; split; reflexivity. }
  destruct EK as (EK & EKs). rewrite EK, EKs in Hx.
  unfold Dynamic.solve_step, Dynamic.get_SS, Dynamic.get_B_predictor.
  rewrite Hrp in H. destruct rp.
  - destruct H as (Bmod & CB & Dmod & _ & _ & _ & ->).
    cbn [Dynamic.set_SS Dynamic.remove_predictor Dynamic.SS Dynamic.B_predictor
         bind libss.A libss.B libss.C libss.D].
    rewrite Hrp. destruct ts.
    + cbn [bind]. destruct (dotv Bss u) as [Bu|e]; cbn [bind]; [|reflexivity].
      unfold vsub. rewrite <- (proj1 Hx).
      destruct (length x =? length Bu); cbn [bind]; [|reflexivity].
      rewrite (dotv_agree Ass HA (vminus_agree Bu Hx)). reflexivity.
    + cbn [bind]. rewrite (dotv_agree Ass HA Hx). reflexivity.
  - rewrite H.
    cbn [Dynamic.set_SS Dynamic.remove_predictor Dynamic.SS Dynamic.B_predictor
         bind libss.A libss.B libss.C libss.D].
    rewrite Hrp. rewrite (dotv_agree Ass HA Hx). reflexivity.
Qed.
End DerivativeStates.

(** ** The sizes of the arguments of a step *)

Section StepLengths.
Context {R : Type} {N : Num R} {F : Field R}.
Variable lu_solve : ndarray R -> ndarray R -> result (ndarray R).

Lemma dotv_cases (X : ndarray R) (v : vector R) :
  ncols X = length v /\ dotv X v = Ok (matvec X v) \/
  ncols X <> length v /\ dotv X v = Raise ValueError.
Proof. unfold dotv. destruct (Nat.eqb_spec (ncols X) (length v)); auto. Qed.

Lemma vadd_cases (x y : vector R) :
  length x = length y /\ vadd x y = Ok (vplus x y) \/
  length x <> length y /\ vadd x y = Raise ValueError.
Proof. unfold vadd. destruct (Nat.eqb_spec (length x) (length y)); auto. Qed.

Lemma vsub_cases (x y : vector R) :
  length x = length y /\ vsub x y = Ok (vminus x y) \/
  length x <> length y /\ vsub x y = Raise ValueError.
Proof. unfold vsub. destruct (Nat.eqb_spec (length x) (length y)); auto. Qed.

Ltac length_checks :=
  repeat (match goal with
          | |- context [bind (dotv ?X ?v) _] =>
              let L := fresh "L" in
              destruct (dotv_cases X v) as [(L & ->)|(L & ->)]
          | |- context [bind (vadd ?x ?y) _] =>
              let L := fresh "L" in
              destruct (vadd_cases x y) as [(L & ->)|(L & ->)]
          | |- context [bind (vsub ?x ?y) _] =>
              let L := fresh "L" in
              destruct (vsub_cases x y) as [(L & ->)|(L & ->)]
          end; cbn [bind];
          rewrite ?length_vplus, ?length_vminus, ?length_matvec in *;
          cbn [matmul madd nrows ncols] in *).

(** A step completes when its arguments have the sizes of the model: the
    state has Nx entries, the input of the new step Nu entries and, when
    the predictor is removed, the input of the current step too (the direct
    form does not read it when the input of the new step is given).  With
    arguments of other sizes it raises [ValueError]; one case is left out,
    a state of one entry passed with [transform_state] to a
    predictor-removed model, which numpy repeats against
    [B_predictor.dot(u_n)] and which [vsub] does not represent. *)
Theorem solve_step_sizes
    (MS : MultiAeroGridSurfaces.t) (dt : R) (order : Z) (rp : bool)
    (sd : option (R * R * R)) (sp : bool) (ass : assembly.blocks R)
    (self0 self : Dynamic.t R) (x u w : vector R) (ts : bool) :
  Dynamic.__init__ MS dt order rp sd sp = Ok self0 ->
  Dynamic.assemble_ss lu_solve self0 ass = Ok self ->
  let sized := length x = Dynamic.Nx self /\ length w = Dynamic.Nu self /\
               (rp = true -> length u = Dynamic.Nu self) in
  (sized ->
   exists x1 y1, Dynamic.solve_step self x u (Some w) ts = Ok (x1, y1) /\
                 length x1 = Dynamic.Nx self /\ length y1 = Dynamic.Ny self) /\
  (~ sized -> ~ (rp = true /\ ts = true /\ length x = 1) ->
   Dynamic.solve_step self x u (Some w) ts = Raise ValueError).
Proof.
  intros H0 H sized.
  pose proof (init_inv _ _ _ _ _ _ H0)
    as (_ & _ & _ & _ & _ & _ & _ & _ & _ & _ & Hrp & _).
  apply assemble_ss_inv in H. destruct H as (Ass & Bss & Css & Dss & Em & H).
  pose proof (assemble_matrices_shape _ _ _ Em) as (HA & HB & HC & HD).
  apply shape_eq in HA, HB, HC, HD.
  destruct HA as (HA1 & HA2), HB as (HB1 & HB2), HC as (HC1 & HC2), HD as (HD1 & HD2).
  rewrite Hrp in H. unfold sized. clear sized.
  unfold Dynamic.solve_step, Dynamic.get_SS, Dynamic.get_B_predictor.
  destruct rp.
  - destruct H as (Bmod & CB & Dmod & EB & ECB & ED & ->).
    rewrite dot_ok in EB by congruence. injection EB as <-.
    rewrite dot_ok in ECB by congruence. injection ECB as <-.
    rewrite np_add_ok in ED by (simpl; congruence). injection ED as <-.
    cbn [Dynamic.set_SS Dynamic.remove_predictor Dynamic.SS Dynamic.B_predictor
         Dynamic.Nx Dynamic.Nu Dynamic.Ny bind libss.A libss.B libss.C libss.D].
    rewrite Hrp.
    destruct ts; cbn [bind]; length_checks;
      (split;
       [ intros (Hx & Hw & Hu); specialize (Hu eq_refl);
         first [ eexists _, _; split; [reflexivity|];
                 rewrite ?length_vplus, ?length_vminus, ?length_matvec; split; congruence
               | exfalso; congruence ]
       | intros Hn _;
         first [ reflexivity
               | exfalso; apply Hn; repeat split; congruence ] ]).
  - rewrite H.
    cbn [Dynamic.set_SS Dynamic.remove_predictor Dynamic.SS Dynamic.B_predictor
         Dynamic.Nx Dynamic.Nu Dynamic.Ny bind libss.A libss.B libss.C libss.D].
    rewrite Hrp. cbn [bind]. length_checks;
      (split;
       [ intros (Hx & Hw & _);
         first [ eexists _, _; split; [reflexivity|];
                 rewrite ?length_vplus, ?length_vminus, ?length_matvec; split; congruence
               | exfalso; congruence ]
       | intros Hn _;
         first [ reflexivity
               | exfalso; apply Hn; repeat split; congruence ] ]).
Qed.
End StepLengths.

(** ** Scaling and the time stepper *)

Section ScaledStep.
Context {R : Type} {N : Num R} {F : Field R}.
Add Field SSField : Field_laws.
Local Open Scope num_scope.
Variable lu_solve : ndarray R -> ndarray R -> result (ndarray R).

Lemma dotv_inv (X : ndarray R) (v r : vector R) :
  dotv X v = Ok r -> ncols X = length v /\ r = matvec X v.
Proof.
  unfold dotv. destruct (Nat.eqb_spec (ncols X) (length v)); [|discriminate].
  intro H. injection H as <-. auto.
Qed.

Lemma vadd_inv (x y r : vector R) :
  vadd x y = Ok r -> length x = length y /\ r = vplus x y.
Proof.
  unfold vadd. destruct (Nat.eqb_spec (length x) (length y)); [|discriminate].
  intro H. injection H as <-. auto.
Qed.

Lemma vget_map (f : R -> R) (v : vector R) (k : nat) :
  k < length v -> vget (map f v) k = f (vget v k).
Proof.
  intro H. unfold vget. rewrite (nth_indep _ zero (f zero)) by (now rewrite length_map).
  apply map_nth.
Qed.

Lemma sum_n_div (n : nat) (c : R) (f : nat -> R) :
  sum_n n (fun k => f k / c) = sum_n n f / c.
Proof.
  induction n as [|n IH]; cbn [sum_n].
  - rewrite (Fdiv_def Field_laws). ring.
  - rewrite IH, !(Fdiv_def Field_laws). ring.
Qed.

(** The product of a matrix whose displacement and velocity columns are
    scaled by [l / g] and [s / g] with an input in units of [l] and [s]. *)
Lemma matvec_scaled_input (sf : Scaling.t R) (Kz : nat) (M : ndarray R)
    (u : vector R) (g : R) :
  Scaling.length sf <> zero -> Scaling.speed sf <> zero -> g <> zero ->
  ncols M = length u ->
  matvec (imul_cols (imul_cols M 0 (3 * Kz) (Scaling.length sf / g))
                    (3 * Kz) (ncols M) (Scaling.speed sf / g))
         (nondim_input sf Kz u)
  = map (fun v => v / g) (matvec M u).
Proof.
  intros Hl Hs Hg HM.
  apply vector_ext; rewrite ?length_map, !length_matvec; [reflexivity|].
  cbn [imul_cols nrows]. intros i Hi.
  rewrite vget_map by (now rewrite length_matvec).
  rewrite !vget_matvec by exact Hi. cbn [imul_cols ncols item nrows].
  rewrite <- sum_n_div. apply sum_n_ext. intros k Hk.
  unfold nondim_input. rewrite vget_tabulate by lia.
  destruct (Nat.leb_spec 0 k); [|lia].
  destruct (Nat.leb_spec (3 * Kz) k), (Nat.ltb_spec k (3 * Kz)),
    (Nat.ltb_spec k (ncols M)); try lia; cbn [andb]; field; auto.
Qed.

Lemma matvec_scaled_state (M : ndarray R) (x : vector R) (g f : R) :
  g <> zero -> f <> zero -> ncols M = length x ->
  matvec (Dynamic.imul M (g / f)) (map (fun v => v / g) x)
  = map (fun v => v / f) (matvec M x).
Proof.
  intros Hg Hf HM.
  apply vector_ext; rewrite ?length_map, !length_matvec; [reflexivity|].
  cbn [Dynamic.imul amap nrows]. intros i Hi.
  rewrite vget_map by (now rewrite length_matvec).
  rewrite !vget_matvec by exact Hi. cbn [Dynamic.imul amap ncols item nrows].
  rewrite <- sum_n_div. apply sum_n_ext. intros k Hk.
  rewrite vget_map by lia. field. auto.
Qed.

Lemma matvec_map_div (M : ndarray R) (x : vector R) (g : R) :
  ncols M = length x ->
  matvec M (map (fun v => v / g) x) = map (fun v => v / g) (matvec M x).
Proof.
  intros HM.
  apply vector_ext; rewrite ?length_map, !length_matvec; [reflexivity|].
  intros i Hi.
  rewrite vget_map by (now rewrite length_matvec).
  rewrite !vget_matvec by exact Hi.
  rewrite <- sum_n_div. apply sum_n_ext. intros k Hk.
  rewrite vget_map by lia. rewrite !(Fdiv_def Field_laws). ring.
Qed.

Lemma vplus_map_div (x y : vector R) (g : R) :
  length x = length y ->
  vplus (map (fun v => v / g) x) (map (fun v => v / g) y)
  = map (fun v => v / g) (vplus x y).
Proof.
  intro H. apply vector_ext; rewrite ?length_vplus, ?length_map, ?length_vplus;
    [reflexivity|].
  intros k Hk. rewrite vget_vplus by (now rewrite length_map).
  rewrite !vget_map by (rewrite ?length_vplus; lia).
  rewrite vget_vplus by exact Hk. rewrite !(Fdiv_def Field_laws). ring.
Qed.

Lemma reference_units_nonzero (l s d : R) :
  l <> zero -> s <> zero -> d <> zero ->
  s * l <> zero /\ one / Dynamic.two * d * power s 2 * power l 2 <> zero.
Proof.
  intros Hl Hs Hd. pose proof two_neq_zero as H2.
  assert (Hmul : forall a b : R, a <> zero -> b <> zero -> a * b <> zero).
  { intros a b Ha Hb E. apply Ha.
    transitivity (a * b / b); [field; exact Hb | rewrite E; field; exact Hb]. }
  assert (Hinv : forall a b : R, a <> zero -> b <> zero -> a / b <> zero).
  { intros a b Ha Hb E. apply Ha.
    transitivity (a / b * b); [field; exact Hb | rewrite E; ring]. }
  assert (H1 : (one : R) <> zero) by (apply (F_1_neq_0 Field_laws)).
  split; [auto|]. unfold Dynamic.two. simpl. repeat apply Hmul; auto.
Qed.

(** The scaled model marches the scaled signals: where a step of the
    dimensional model returns a state and an output, the step of the model
    scaled by [nondimss], taken from that state and those inputs in reference
    units, returns that new state and that output in reference units. *)
Theorem solve_step_of_scaled_model
    (MS : MultiAeroGridSurfaces.t) (dt : R) (order : Z) (rp : bool)
    (length speed density : R) (sp : bool) (ass : assembly.blocks R)
    (self0 self : Dynamic.t R) (x u : vector R) (u1 : option (vector R))
    (x1 y1 : vector R) :
  Dynamic.__init__ MS dt order rp (Some (length, speed, density)) sp = Ok self0 ->
  Dynamic.assemble_ss lu_solve self0 ass = Ok self ->
  length <> zero -> speed <> zero -> density <> zero ->
  Dynamic.solve_step self x u u1 false = Ok (x1, y1) ->
  exists nd,
    Dynamic.nondimss self = Ok nd /\
    let sf := Dynamic.ScalingFacts self in
    let Kzeta := Dynamic.Kzeta self in
    Dynamic.solve_step nd (nondim_state sf x) (nondim_input sf Kzeta u)
                       (option_map (nondim_input sf Kzeta) u1) false
    = Ok (nondim_state sf x1, nondim_output sf y1).
Proof.
  intros H0 H Hl Hs Hd Hstep.
  pose proof H0 as Hsf. apply scaling_of_init in Hsf.
  pose proof H as Hs'. eapply assemble_ss_assembled in Hs'; [|exact H0].
  destruct Hs' as ((sys & HSS & _) & (sys' & Hself)).
  assert (Hsf' : Dynamic.ScalingFacts self = Dynamic.ScalingFacts self0)
    by (rewrite Hself; reflexivity).
  destruct (reference_units_nonzero Hl Hs Hd) as (Hg & Hf).
  eexists. split; [unfold Dynamic.nondimss, Dynamic.get_SS; rewrite HSS; reflexivity|].
  cbv zeta. rewrite Hsf', Hsf.
  set (sf := Scaling.mk _ _ _ _ _ _ _).
  assert (Hsl : Scaling.length sf <> zero) by exact Hl.
  assert (Hss : Scaling.speed sf <> zero) by exact Hs.
  set (Kz := Dynamic.Kzeta self).
  unfold Dynamic.solve_step, Dynamic.get_SS in *.
  cbn [Dynamic.set_SS Dynamic.remove_predictor Dynamic.SS Dynamic.B_predictor
       Dynamic.Kzeta bind libss.A libss.B libss.C libss.D].
  rewrite HSS in Hstep. cbn [bind] in Hstep.
  set (v1 := match u1 with Some v => v | None => u end) in *.
  replace (match option_map (nondim_input sf Kz) u1 with
           | Some v => v | None => nondim_input sf Kz u end)
    with (nondim_input sf Kz v1) by (unfold v1; destruct u1; reflexivity).
  fold Kz. clearbody v1.
  change (Scaling.circulation sf) with (speed * length) in *.
  set (g := speed * length) in *.
  change (Scaling.force sf)
    with (one / Dynamic.two * density * power speed 2 * power length 2) in *.
  set (f := one / Dynamic.two * density * power speed 2 * power length 2) in *.
  unfold nondim_state, nondim_output.
  change (Scaling.circulation sf) with g. change (Scaling.force sf) with f.
  repeat match goal with
  | |- context [ncols (imul_cols ?M ?a ?b ?c)] =>
      change (ncols (imul_cols M a b c)) with (ncols M)
  end.
  assert (Hstep' :
    exists v0 Ax Bu x' Cx Du,
      dotv (libss.A sys) x = Ok Ax /\ dotv (libss.B sys) v0 = Ok Bu /\
      vadd Ax Bu = Ok x' /\ dotv (libss.C sys) x' = Ok Cx /\
      dotv (libss.D sys) v1 = Ok Du /\ vadd Cx Du = Ok y1 /\ x' = x1 /\
      v0 = if Dynamic.remove_predictor self then u else v1).
  { destruct (Dynamic.remove_predictor self); binds_inv Hstep;
      injection Hstep as <- <-; eauto 20. }
  clear Hstep.
  destruct Hstep' as (v0 & Ax & Bu & x' & Cx & Du & EA & EB & Ex & EC & ED & Ey & <- & Ev).
  apply dotv_inv in EA, EB, EC, ED. apply vadd_inv in Ex, Ey.
  destruct EA as (HA & ->), EB as (HB & ->), EC as (HC & ->), ED as (HD & ->).
  destruct Ex as (Hx & ->), Ey as (Hy & ->).
  assert (Goal :
    Ax <- dotv (libss.A sys) (map (fun v => v / g) x) ;;
    Bu <- dotv (imul_cols (imul_cols (libss.B sys) 0 (3 * Kz) (Scaling.length sf / g))
                          (3 * Kz) (ncols (libss.B sys)) (Scaling.speed sf / g))
               (nondim_input sf Kz v0) ;;
    x_n1 <- vadd Ax Bu ;;
    Cx <- dotv (Dynamic.imul (libss.C sys) (g / f)) x_n1 ;;
    Du <- dotv (imul_cols (imul_cols (libss.D sys) 0 (3 * Kz) (Scaling.length sf / f))
                          (3 * Kz) (ncols (libss.D sys)) (Scaling.speed sf / f))
               (nondim_input sf Kz v1) ;;
    y_n1 <- vadd Cx Du ;; Ok (x_n1, y_n1)
    = Ok (map (fun v => v / g) (vplus (matvec (libss.A sys) x) (matvec (libss.B sys) v0)),
          map (fun v => v / f)
            (vplus (matvec (libss.C sys)
                      (vplus (matvec (libss.A sys) x) (matvec (libss.B sys) v0)))
                   (matvec (libss.D sys) v1)))).
  { rewrite dotv_ok by (now rewrite length_map). cbn [bind].
    rewrite dotv_ok by (unfold nondim_input; now rewrite length_tabulate). cbn [bind].
    rewrite matvec_map_div by exact HA.
    rewrite matvec_scaled_input by assumption.
    rewrite vadd_ok by (now rewrite !length_map). cbn [bind].
    rewrite vplus_map_div by exact Hx.
    rewrite dotv_ok by (rewrite length_map; exact HC). cbn [bind].
    rewrite matvec_scaled_state by assumption.
    rewrite dotv_ok by (unfold nondim_input; now rewrite length_tabulate). cbn [bind].
    rewrite matvec_scaled_input by assumption.
    rewrite vadd_ok by (now rewrite !length_map). cbn [bind].
    rewrite vplus_map_div by exact Hy. reflexivity. }
  destruct (Dynamic.remove_predictor self); subst v0; exact Goal.
Qed.
End ScaledStep.

(** ** The blocks of the state *)

Section StateBlocks.
Context {R : Type} {N : Num R} {F : Field R}.
Add Field SBField : Field_laws.
Local Open Scope num_scope.
Variable lu_solve : ndarray R -> ndarray R -> result (ndarray R).

Lemma vget_vslice (v : vector R) (a b i : nat) :
  (i < b - a)%nat -> vget (vslice v a b) i = vget v (a + i)%nat.
Proof.
  intro H. unfold vget, vslice.
  rewrite nth_firstn. destruct (Nat.ltb_spec i (b - a)%nat); [|lia].
  apply nth_skipn.
Qed.

Lemma length_vslice (v : vector R) (a b : nat) :
  b <= length v -> length (vslice v a b) = (b - a)%nat.
Proof. intro H. unfold vslice. rewrite length_firstn, length_skipn. lia. Qed.

Lemma vget_vdivide (v : vector R) (s : R) (i : nat) :
  i < length v -> vget (vdivide v s) i = vget v i / s.
Proof. intro H. unfold vdivide. now rewrite vget_map. Qed.

(** Row K + K_star + i of (A, B) in terms of row i, for i < K, and the rows
    of the delayed circulation. *)
Lemma assemble_order2_recurrence (self : Dynamic.t R) (P Pw Cg CgW Bup Ass Bss : ndarray R) :
  Dynamic.integr_order self = 2%Z ->
  Dynamic.Nx self = (3 * Dynamic.K self + Dynamic.K_star self)%nat ->
  Dynamic.assemble_A self P Pw Cg CgW = Ok Ass ->
  Dynamic.assemble_B self Bup = Ok Bss ->
  let K := Dynamic.K self in
  let K_star := Dynamic.K_star self in
  forall i, i < K ->
    (forall j, j < Dynamic.Nx self ->
       item Ass (K + K_star + i)%nat j
       = Dynamic.three / Dynamic.two * item Ass i j
         + (if j =? i then - Dynamic.two else zero)
         + (if j =? (2 * K + K_star + i)%nat then one / Dynamic.two else zero)) /\
    (forall j, j < Dynamic.Nx self ->
       item Ass (2 * K + K_star + i)%nat j = if j =? i then one else zero) /\
    (forall j, j < ncols Bss ->
       item Bss (K + K_star + i)%nat j = Dynamic.three / Dynamic.two * item Bss i j) /\
    (forall j, j < ncols Bss -> item Bss (2 * K + K_star + i)%nat j = zero).
Proof.
  intros Ho HNx HA HB.
  unfold Dynamic.assemble_A in HA. unfold Dynamic.assemble_B in HB.
  rewrite Ho in HA, HB. simpl Z.eqb in HA, HB. cbv iota zeta in HA, HB.
  binds_inv HA. binds_inv HB. injection E3 as <-. injection E9 as <-.
  cbv zeta.
  set (K := Dynamic.K self) in *. set (Ks := Dynamic.K_star self) in *.
  chain_facts.
  intros i Hi'. repeat split.
  - intros j Hj.
    destruct (Nat.eqb_spec j i) as [->|Hne];
      [|destruct (Nat.eqb_spec j (2 * K + Ks + i)%nat) as [->|Hne'];
        [|destruct (Nat.lt_ge_cases j K);
          [|destruct (Nat.lt_ge_cases j (K + Ks)%nat)]]]; entry.
    + destruct (Nat.eqb_spec i (2 * K + Ks + i)%nat); [lia|].
      rewrite vget_scaled_ones by lia. ring.
    + rewrite vget_scaled_ones by lia. ring.
    + ring.
    + ring.
    + ring.
  - intros j Hj. destruct (Nat.eqb_spec j i) as [->|Hne]; entry.
    + apply vget_np_ones. lia.
    + reflexivity.
  - intros j Hj. entry. ring.
  - intros j Hj. entry. reflexivity.
Qed.

Lemma assemble_order1_recurrence (self : Dynamic.t R) (P Pw Cg CgW Bup Ass Bss : ndarray R) :
  Dynamic.integr_order self = 1%Z ->
  Dynamic.Nx self = (2 * Dynamic.K self + Dynamic.K_star self)%nat ->
  Dynamic.assemble_A self P Pw Cg CgW = Ok Ass ->
  Dynamic.assemble_B self Bup = Ok Bss ->
  let K := Dynamic.K self in
  let K_star := Dynamic.K_star self in
  forall i, i < K ->
    (forall j, j < Dynamic.Nx self ->
       item Ass (K + K_star + i)%nat j
       = item Ass i j + (if j =? i then - one else zero)) /\
    (forall j, j < ncols Bss -> item Bss (K + K_star + i)%nat j = item Bss i j).
Proof.
  intros Ho HNx HA HB.
  unfold Dynamic.assemble_A in HA. unfold Dynamic.assemble_B in HB.
  rewrite Ho in HA, HB. simpl Z.eqb in HA, HB. cbv iota zeta in HA, HB.
  binds_inv HA. binds_inv HB. injection HA as <-. injection HB as <-.
  binds_inv E3. cbv zeta.
  set (K := Dynamic.K self) in *. set (Ks := Dynamic.K_star self) in *.
  chain_facts.
  intros i Hi'. split.
  - intros j Hj.
    destruct (Nat.eqb_spec j i) as [->|Hne];
      [|destruct (Nat.lt_ge_cases j K);
        [|destruct (Nat.lt_ge_cases j (K + Ks)%nat)]]; entry.
    + rewrite vget_np_ones by lia. ring.
    + ring.
    + ring.
    + ring.
  - intros j Hj. entry. reflexivity.
Qed.

Lemma sum_n_delta (n k : nat) (c : R) (f : nat -> R) :
  k < n -> sum_n n (fun j => (if j =? k then c else zero) * f j) = c * f k.
Proof.
  intro H. rewrite (@sum_n_single R N F n k) ; [now rewrite Nat.eqb_refl|exact H|].
  intros j _ Hne. destruct (Nat.eqb_spec j k); [contradiction|ring].
Qed.

(** A step of the direct form, entry by entry. *)
Lemma vget_step (A B : ndarray R) (x v : vector R) (r : nat) :
  nrows A = nrows B -> r < nrows A ->
  vget (vplus (matvec A x) (matvec B v)) r
  = sum_n (ncols A) (fun j => item A r j * vget x j)
    + sum_n (ncols B) (fun j => item B r j * vget v j).
Proof.
  intros HAB Hr. rewrite vget_vplus by (now rewrite length_matvec).
  rewrite !vget_matvec by lia. reflexivity.
Qed.

(** One step x' = A x + B v, block by block: the rows of the circulation
    derivative and of the delayed circulation in terms of the bound
    circulation before and after the step. *)
Lemma step_recurrence (self0 : Dynamic.t R) (ass : assembly.blocks R)
    (Ass Bss Css Dss : ndarray R) (x v : vector R) :
  order_dims self0 ->
  Dynamic.assemble_matrices lu_solve self0 ass = Ok (Ass, Bss, Css, Dss) ->
  let K := Dynamic.K self0 in
  let K_star := Dynamic.K_star self0 in
  let x1 := vplus (matvec Ass x) (matvec Bss v) in
  forall i, i < K ->
    (Dynamic.integr_order self0 = 1%Z ->
       vget x1 (K + K_star + i)%nat = vget x1 i - vget x i) /\
    (Dynamic.integr_order self0 = 2%Z ->
       vget x1 (K + K_star + i)%nat
       = Dynamic.three / Dynamic.two * vget x1 i - Dynamic.two * vget x i
         + one / Dynamic.two * vget x (2 * K + K_star + i)%nat /\
       vget x1 (2 * K + K_star + i)%nat = vget x i).
Proof.
  intros Hord Em K Ks x1 i Hi.
  pose proof (assemble_matrices_shape _ _ _ Em) as (HA & HB & _ & _).
  apply shape_eq in HA, HB. destruct HA as (HA1 & HA2), HB as (HB1 & HB2).
  destruct (assemble_matrices_blocks _ _ _ Em) as (P & Pw & Bup & EA & EB).
  assert (HN : (2 * K + Ks <= Dynamic.Nx self0)%nat)
    by (destruct Hord as [(_ & ->)|(_ & ->)]; unfold K, Ks; lia).
  split; intro Ho; destruct Hord as [(Ho' & HNx)|(Ho' & HNx)]; try congruence.
  - destruct (@assemble_order1_recurrence self0 P Pw (assembly.Cgamma ass)
                (assembly.CgammaW ass) Bup Ass Bss Ho HNx EA EB i Hi) as (RA & RB).
    fold K Ks in RA, RB. unfold x1.
    rewrite !vget_step by lia. rewrite HA2.
    rewrite (@sum_n_ext R N (Dynamic.Nx self0) _
                 (fun j => item Ass i j * vget x j
                         + (if j =? i then - one else zero) * vget x j))
      by (intros j Hj; rewrite RA by exact Hj; ring).
    rewrite (@sum_n_ext R N (ncols Bss) _ (fun j => item Bss i j * vget v j))
      by (intros j Hj; rewrite RB by exact Hj; ring).
    rewrite sum_n_add, sum_n_delta by lia. ring.
  - destruct (@assemble_order2_recurrence self0 P Pw (assembly.Cgamma ass)
                (assembly.CgammaW ass) Bup Ass Bss Ho HNx EA EB i Hi)
      as (RA & RD & RB & RBD).
    fold K Ks in RA, RD, RB, RBD, HNx.
    split.
    + unfold x1.
      rewrite !vget_step by lia. rewrite HA2.
      rewrite (@sum_n_ext R N (Dynamic.Nx self0) _
                 (fun j => Dynamic.three / Dynamic.two * (item Ass i j * vget x j)
                           + (if j =? i then - Dynamic.two else zero) * vget x j
                           + (if j =? (2 * K + Ks + i)%nat then one / Dynamic.two
                              else zero) * vget x j))
        by (intros j Hj; rewrite RA by exact Hj; ring).
      rewrite (@sum_n_ext R N (ncols Bss) _
                 (fun j => Dynamic.three / Dynamic.two * (item Bss i j * vget v j)))
        by (intros j Hj; rewrite RB by exact Hj; ring).
      rewrite !sum_n_add, !sum_n_mul_l, !sum_n_delta by lia. ring.
    + unfold x1. rewrite vget_step by lia. rewrite HA2.
      rewrite (@sum_n_ext R N (Dynamic.Nx self0) _
                 (fun j => (if j =? i then one else zero) * vget x j))
        by (intros j Hj; rewrite RD by exact Hj; ring).
      rewrite (@sum_n_ext R N (ncols Bss) _ (fun j => zero))
        by (intros j Hj; rewrite RBD by exact Hj; ring).
      rewrite sum_n_delta, sum_n_zero by lia. ring.
Qed.

Lemma init_order_dims (MS : MultiAeroGridSurfaces.t) (dt : R) (order : Z) (rp : bool)
    (sd : option (R * R * R)) (sp : bool) (self0 : Dynamic.t R) :
  Dynamic.__init__ MS dt order rp sd sp = Ok self0 -> order_dims self0.
Proof.
  intro H0. apply init_inv in H0.
  destruct H0 as (Hord & _ & _ & _ & _ & _ & Ho & HNx & _).
  unfold order_dims. rewrite Ho, HNx.
  destruct Hord as [-> | ->]; [left|right]; split; reflexivity.
Qed.

(** The circulation derivative that [unpack_state] reads in the state
    returned by a step of the direct form is the backward difference of the
    bound circulations divided by the time step: of the new and the current
    one with first-order integration; with second-order integration, 3/2,
    -2 and 1/2 times the new one, the current one and the one of the step
    before, which the state holds in its last block and where the new state
    holds the current one. *)
Theorem solve_step_circulation_derivative
    (MS : MultiAeroGridSurfaces.t) (dt : R) (order : Z)
    (sd : option (R * R * R)) (sp : bool) (ass : assembly.blocks R)
    (self0 self : Dynamic.t R) (x u : vector R) (u1 : option (vector R))
    (ts : bool) (x1 y1 g gs gd g1 gs1 gd1 : vector R) :
  Dynamic.__init__ MS dt order false sd sp = Ok self0 ->
  Dynamic.assemble_ss lu_solve self0 ass = Ok self ->
  Dynamic.solve_step self x u u1 ts = Ok (x1, y1) ->
  Dynamic.unpack_state self x = (g, gs, gd) ->
  Dynamic.unpack_state self x1 = (g1, gs1, gd1) ->
  let K := Dynamic.K self in
  let K_star := Dynamic.K_star self in
  forall i, i < K ->
    (order = 1%Z -> vget gd1 i = (vget g1 i - vget g i) / dt) /\
    (order = 2%Z ->
       vget gd1 i = (Dynamic.three / Dynamic.two * vget g1 i - Dynamic.two * vget g i
                     + one / Dynamic.two * vget x (2 * K + K_star + i)%nat) / dt /\
       vget x1 (2 * K + K_star + i)%nat = vget g i).
Proof.
  intros H0 H Hstep Hu Hu1 K Ks i Hi.
  pose proof (init_order_dims _ _ _ _ _ _ H0) as Hord.
  pose proof (init_inv _ _ _ _ _ _ H0)
    as (_ & _ & _ & _ & _ & Hdt & Ho & HNx & _ & _ & Hrp & _).
  apply assemble_ss_inv in H. destruct H as (Ass & Bss & Css & Dss & Em & H).
  rewrite Hrp in H.
  pose proof (assemble_matrices_shape _ _ _ Em) as (HA & HB & _ & _).
  apply shape_eq in HA, HB. destruct HA as (HA1 & HA2), HB as (HB1 & HB2).
  assert (Eself : Dynamic.K self = Dynamic.K self0 /\
                  Dynamic.K_star self = Dynamic.K_star self0 /\
                  Dynamic.dt self = dt)
    by (rewrite H; cbn [Dynamic.set_SS Dynamic.K Dynamic.K_star Dynamic.dt]; auto).
  destruct Eself as (EK & EKs & Edt).
  unfold Dynamic.solve_step, Dynamic.get_SS in Hstep.
  rewrite H in Hstep.
  cbn [Dynamic.set_SS Dynamic.remove_predictor Dynamic.SS] in Hstep.
  rewrite Hrp in Hstep. cbn [bind libss.A libss.B libss.C libss.D] in Hstep.
  binds_inv Hstep. injection Hstep as <- <-.
  set (v := match u1 with Some w => w | None => u end) in *. clearbody v.
  apply dotv_inv in E, E0. destruct E as (Hx & ->), E0 as (Hv & ->).
  apply vadd_inv in E1. destruct E1 as (_ & ->).
  clear E2 E3 E4.
  unfold Dynamic.unpack_state in Hu, Hu1. fold K Ks in Hu, Hu1. rewrite Edt in Hu, Hu1.
  injection Hu as <- _ _. injection Hu1 as <- _ <-.
  assert (Hx1 : length (vplus (matvec Ass x) (matvec Bss v)) = Dynamic.Nx self0)
    by (now rewrite length_vplus, length_matvec).
  subst K Ks. rewrite EK in Hi. rewrite EK, EKs.
  destruct (@step_recurrence self0 ass Ass Bss Css Dss x v Hord Em i Hi) as (R1 & R2).
  set (K := Dynamic.K self0) in *. set (Ks := Dynamic.K_star self0) in *.
  assert (HN : (2 * K + Ks <= Dynamic.Nx self0)%nat)
    by (rewrite HNx; destruct (order =? 1)%Z; lia).
  rewrite vget_vdivide by (rewrite length_vslice; lia).
  rewrite !vget_vslice by lia. cbn [Nat.add].
  split; intro Eo; rewrite Eo in Ho.
  - now rewrite (R1 Ho).
  - destruct (R2 Ho) as (-> & ->). split; reflexivity.
Qed.

Lemma firstn_plus (a b : nat) (l : vector R) :
  firstn (a + b) l = (firstn a l ++ firstn b (skipn a l))%list.
Proof.
  revert l. induction a as [|a IH]; intro l; [reflexivity|].
  destruct l as [|h l]; [cbn [skipn]; now rewrite !firstn_nil|].
  cbn [Nat.add firstn skipn app]. now rewrite IH.
Qed.

(** [unpack_state] loses nothing of the first three blocks of a state: on a
    state that has them, the three arrays have K, K_star and K entries, and
    the bound circulation, the wake circulation and dt times the circulation
    derivative, one after the other, are its first 2K + K_star entries. *)
Theorem unpack_state_blocks (self : Dynamic.t R) (xvec g gs gd : vector R) :
  Dynamic.dt self <> zero ->
  (2 * Dynamic.K self + Dynamic.K_star self <= length xvec)%nat ->
  Dynamic.unpack_state self xvec = (g, gs, gd) ->
  length g = Dynamic.K self /\ length gs = Dynamic.K_star self /\
  length gd = Dynamic.K self /\
  (g ++ gs ++ map (fun v => v * Dynamic.dt self) gd)%list
  = vslice xvec 0 (2 * Dynamic.K self + Dynamic.K_star self).
Proof.
  intros Hdt Hx H. unfold Dynamic.unpack_state in H.
  set (K := Dynamic.K self) in *. set (Ks := Dynamic.K_star self) in *.
  injection H as <- <- <-.
  change (K + (K + 0) + Ks)%nat with (2 * K + Ks)%nat.
  unfold vdivide. rewrite length_map.
  rewrite (@length_vslice xvec 0 K), (@length_vslice xvec K (K + Ks)%nat),
    (@length_vslice xvec (K + Ks)%nat (2 * K + Ks)%nat) by lia.
  repeat split; try lia.
  rewrite map_map.
  rewrite (map_ext _ (fun v => v)) by (intro v; field; exact Hdt).
  rewrite map_id. unfold vslice. cbn [skipn]. rewrite !Nat.sub_0_r.
  replace (2 * K + Ks)%nat with (K + (Ks + K))%nat by lia.
  rewrite !firstn_plus, skipn_skipn.
  replace (K + Ks - K)%nat with Ks by lia.
  replace (K + (Ks + K) - (K + Ks))%nat with K by lia.
  now rewrite (Nat.add_comm Ks K).
Qed.
End StateBlocks.

(** ** The fast frequency response *)

Section FrequencyResponseProperties.
Context {R : Type} {N : Num R} {RR : Real R}.
Variables np_cos np_sin : R -> R.
Variable libsp_solve :
  ndarray (complex R) -> ndarray (complex R) -> result (ndarray (complex R)).
Variable lu_solve : ndarray R -> ndarray R -> result (ndarray R).

Lemma freqresp_point_completes (self : Dynamic.t R) (sys : libss.ss R R)
    (P Pw Bup : ndarray R) (z : complex R) :
  MultiAeroGridSurfaces.wf (Dynamic.MS self) ->
  Dynamic.K self = sum (MultiAeroGridSurfaces.KK (Dynamic.MS self)) ->
  Dynamic.K_star self = sum (MultiAeroGridSurfaces.KK_star (Dynamic.MS self)) ->
  Dynamic.integr_order self = 1%Z \/ Dynamic.integr_order self = 2%Z ->
  2 * Dynamic.K self + Dynamic.K_star self <= ncols (libss.C sys) ->
  shape (libss.D sys) = (libss.outputs sys, libss.inputs sys) ->
  shape P = (Dynamic.K self, Dynamic.K self) ->
  shape Pw = (Dynamic.K self, Dynamic.K_star self) ->
  shape Bup = (Dynamic.K self, libss.inputs sys) ->
  (forall L X, nrows L = ncols L -> nrows X = nrows L ->
     exists Y, libsp_solve L X = Ok Y /\ shape Y = shape X) ->
  exists Y,
    Dynamic.freqresp_point libsp_solve self sys P Pw Bup z = Ok Y /\
    shape Y = (libss.outputs sys, libss.inputs sys).
Proof.
  intros Hwf HK HKs Ho HC HD HP HPw HBup Hsolve.
  apply shape_eq in HD, HP, HPw, HBup.
  destruct HD as (HD1 & HD2), HP as (HP1 & HP2), HPw as (HPw1 & HPw2).
  destruct HBup as (HBup1 & HBup2).
  unfold libss.inputs, libss.outputs in *.
  destruct (@get_Cw_cpx_sums (complex R) _ _ R self z Hwf HK HKs)
    as (Cw & ECw & HCw & _).
  apply shape_eq in HCw. destruct HCw as (HCw1 & HCw2).
  unfold Dynamic.freqresp_point. cbv zeta.
  rewrite ECw. cbn [bind].
  do 3 step.
  destruct (Hsolve Z1 (astype_complex Bup)) as (Yg & EY & HY); [lia|simpl; lia|].
  apply shape_eq in HY. destruct HY as (HY1 & HY2). simpl in HY1, HY2.
  rewrite EY. cbn [bind].
  step.
  assert (Edf : exists dfact,
    (if (Dynamic.integr_order self =? 1)%Z
     then Ok (sub (cplx_of one) (div (cplx_of one) z))
     else if (Dynamic.integr_order self =? 2)%Z
     then Ok (mul (cplx_of (div one Dynamic.two))
                (add (sub (cplx_of Dynamic.three) (div (cplx_of Dynamic.four) z))
                     (div (cplx_of one) (power z 2))))
     else Raise (NameError "Specify valid integration order")) = Ok dfact)
    by (destruct Ho as [-> | ->]; simpl; eauto).
  destruct Edf as (dfact & ->). cbn [bind].
  do 5 step.
  assert (returns (np_add Z7 (astype_complex (libss.D sys)))
                  (nrows Z7) (ncols Z7)) as (Y & EYf & HYr & HYc)
    by (apply returns_np_add; shape_side).
  exists Y. split; [exact EYf|]. unfold shape. f_equal; lia.
Qed.

Lemma freqresp_loop_completes (sys : libss.ss R R)
    (point : complex R -> outcome (ndarray (complex R))) (zv : list (complex R)) :
  (forall z, exists Y, point z = Returns Y /\
                       shape Y = (libss.outputs sys, libss.inputs sys)) ->
  forall (cnt s : nat) (Yfreq : list (ndarray (complex R))),
  s + cnt <= length zv ->
  Forall (fun Y => shape Y = (libss.outputs sys, libss.inputs sys)) Yfreq ->
  exists Yfreq',
    ofor_each (seq s cnt)
      (fun Yfreq kk =>
         zval <~ lookup zv kk ;;
         Y <~ point zval ;;
         Dynamic.set_slice (libss.outputs sys) (libss.inputs sys) Yfreq Y) Yfreq
    = Returns Yfreq' /\
    length Yfreq' = length Yfreq + cnt /\
    Forall (fun Y => shape Y = (libss.outputs sys, libss.inputs sys)) Yfreq'.
Proof.
  intro Hp. induction cnt as [|cnt IH]; intros s Yfreq Hs HY.
  - exists Yfreq. split; [reflexivity|]. split; [lia | exact HY].
  - cbn [seq ofor_each]. unfold lookup at 1.
    destruct (nth_error zv s) as [z|] eqn:Ez; [|apply nth_error_None in Ez; lia].
    cbn [of_result obind].
    destruct (Hp z) as (Y & EY & HYs). rewrite EY. cbn [obind].
    unfold Dynamic.set_slice at 1.
    pose proof HYs as HYs'. apply shape_eq in HYs'. destruct HYs' as (-> & ->).
    rewrite !Nat.eqb_refl. cbn [andb of_result obind].
    destruct (IH (S s) (Yfreq ++ [Y])) as (Y' & E' & HL & HF).
    + lia.
    + apply Forall_app. split; [exact HY | constructor; [exact HYs | constructor]].
    + exists Y'. split; [exact E'|]. split; [|exact HF].
      rewrite HL, length_app. simpl. lia.
Qed.

(** [freqresp] is the fast frequency response of the direct form only.  On
    an instance whose predictor is removed it fails its assertion, whatever
    the frequencies and whether or not the model is assembled.  On an
    assembled direct-form model of a lattice whose sizes are those of its
    grids it returns, when [libsp.solve] solves the K x K systems, one array
    of Ny x Nu entries per frequency. *)
Theorem freqresp_direct_form_only :
  (forall (self : Dynamic.t R) (kv : vector R),
      Dynamic.remove_predictor self = true ->
      Dynamic.freqresp np_cos np_sin libsp_solve self kv
      = Raises (AssertionError
          "Fast frequency response not implemented for remove_predictor - True")) /\
  (forall (MS : MultiAeroGridSurfaces.t) (dt : R) (order : Z)
          (sd : option (R * R * R)) (sp : bool) (ass : assembly.blocks R)
          (self0 self : Dynamic.t R) (kv : vector R),
      Dynamic.__init__ MS dt order false sd sp = Ok self0 ->
      Dynamic.assemble_ss lu_solve self0 ass = Ok self ->
      MultiAeroGridSurfaces.wf MS ->
      (forall L X, nrows L = ncols L -> nrows X = nrows L ->
         exists Y, libsp_solve L X = Ok Y /\ shape Y = shape X) ->
      exists Yfreq,
        Dynamic.freqresp np_cos np_sin libsp_solve self kv = Returns Yfreq /\
        length Yfreq = length kv /\
        Forall (fun Y => shape Y = (Dynamic.Ny self, Dynamic.Nu self)) Yfreq).
Proof.
  split.
  - intros self kv Hrp. unfold Dynamic.freqresp. now rewrite Hrp.
  - intros MS dt order sd sp ass self0 self kv H0 H Hwf Hsolve.
    destruct (@assembled_model R N lu_solve MS dt order false sd sp ass self0 self H0 H)
      as (HMS & HK & HKs & Ho & Hrp & HNx & sys & HSS & HA & HB & HC & HD).
    apply init_inv in H0. destruct H0 as (Hord & _).
    apply shape_eq in HA, HB, HC. 
    destruct HA as (HA1 & HA2), HB as (HB1 & HB2), HC as (HC1 & HC2).
    assert (HN : 2 * Dynamic.K self + Dynamic.K_star self <= Dynamic.Nx self)
      by (rewrite HNx; destruct (order =? 1)%Z; lia).
    unfold Dynamic.freqresp, Dynamic.get_SS. rewrite Hrp, HSS. cbn [of_result obind].
    unfold Dynamic.freqresp_loop.
    destruct (@freqresp_loop_completes sys
                (fun zval => Dynamic.freqresp_point libsp_solve self sys
                   (getitem (libss.A sys) 0 (Dynamic.K self) 0 (Dynamic.K self))
                   (getitem (libss.A sys) 0 (Dynamic.K self) (Dynamic.K self)
                            (Dynamic.K self + Dynamic.K_star self))
                   (getitem (libss.B sys) 0 (Dynamic.K self) 0 (ncols (libss.B sys)))
                   zval)
                (map (fun x => Cpx (np_cos x) (np_sin x))
                     (map (fun k => mul k (libss.dt sys)) kv)))
      with (cnt := length (map (fun x => Cpx (np_cos x) (np_sin x))
                     (map (fun k => mul k (libss.dt sys)) kv))) (s := 0)
           (Yfreq := @nil (ndarray (complex R)))
      as (Yf & EYf & HL & HF).
    + intro z.
      destruct (@freqresp_point_completes self sys
                  (getitem (libss.A sys) 0 (Dynamic.K self) 0 (Dynamic.K self))
                  (getitem (libss.A sys) 0 (Dynamic.K self) (Dynamic.K self)
                           (Dynamic.K self + Dynamic.K_star self))
                  (getitem (libss.B sys) 0 (Dynamic.K self) 0 (ncols (libss.B sys))) z)
        as (Y & EY & HY); try assumption.
      * rewrite HMS. exact Hwf.
      * rewrite HMS. exact HK.
      * rewrite HMS. exact HKs.
      * rewrite Ho. exact Hord.
      * lia.
      * unfold libss.outputs, libss.inputs. rewrite HD. f_equal; congruence.
      * unfold shape. simpl. f_equal; lia.
      * unfold shape. simpl. f_equal; lia.
      * unfold shape, libss.inputs. simpl. f_equal; lia.
      * exists Y. rewrite EY. split; [reflexivity | exact HY].
    + lia.
    + constructor.
    + exists Yf. split; [exact EYf|]. split.
      * rewrite HL, !length_map. reflexivity.
      * unfold libss.outputs, libss.inputs in HF. rewrite HC1, HB2 in HF. exact HF.
Qed.
End FrequencyResponseProperties.

(** ** Steady states *)

Lemma obind_inv {A B : Type} (c : outcome A) (k : A -> outcome B) (b : B) :
  obind c k = Returns b -> exists a, c = Returns a /\ k a = Returns b.
Proof. destruct c as [a|e]; [eauto | discriminate]. Qed.

Lemma of_result_inv {A : Type} (c : result A) (a : A) :
  of_result c = Returns a -> c = Ok a.
Proof. destruct c; [intro H; injection H as <-; reflexivity | discriminate]. Qed.

(** Takes a completed chain of calls apart, call by call. *)
Ltac obinds_inv H :=
  repeat (let a := fresh "r" in
          let E := fresh "E" in
          apply obind_inv in H; destruct H as (a & E & H);
          try apply of_result_inv in E).

Section SteadyStateProperties.
Context {R : Type} {N : Num R} {F : Field R}.
Add Field SteadyField : Field_laws.
Local Open Scope num_scope.
Variable libsp_eye_as : ndarray R -> ndarray R.
Variable libsp_solve : ndarray R -> vector R -> result (vector R).
Variable linalg_solve : ndarray R -> vector R -> result (vector R).
Variable linalg_norm : vector R -> R.
Variable gt : R -> R -> bool.
Variable lu_solve : ndarray R -> ndarray R -> result (ndarray R).

Lemma np_sub_inv (X Y Z : ndarray R) :
  np_sub X Y = Ok Z -> nrows X = nrows Y /\ ncols X = ncols Y /\ Z = msub X Y.
Proof.
  unfold np_sub, same_shape.
  destruct (Nat.eqb_spec (nrows X) (nrows Y)); [|discriminate].
  destruct (Nat.eqb_spec (ncols X) (ncols Y)); [|discriminate].
  cbn [andb]. intro H. injection H as <-. auto.
Qed.

(** A solution of (I - A) x = b is a fixed point of x -> A x + b. *)
Lemma fixed_point_of_solution (Eye A : ndarray R) (x b : vector R) (n : nat) :
  shape A = (n, n) -> shape Eye = (n, n) ->
  (forall i j, item Eye i j = if i =? j then one else zero) ->
  length x = n -> length b = n ->
  matvec (msub Eye A) x = b ->
  vplus (matvec A x) b = x.
Proof.
  intros HA HE He Hx Hb Hs.
  apply shape_eq in HA, HE. destruct HA as (HA1 & HA2), HE as (HE1 & HE2).
  apply vector_ext; rewrite length_vplus, length_matvec; [congruence|].
  intros i Hi. rewrite vget_vplus by (now rewrite length_matvec).
  rewrite vget_matvec by exact Hi.
  rewrite <- Hs. rewrite vget_matvec by (cbn [msub nrows]; lia).
  cbn [msub ncols item]. rewrite HE2, HA2.
  rewrite (@sum_n_ext R N n (fun k => (item Eye i k - item A i k) * vget x k)
             (fun k => (if k =? i then one else zero) * vget x k
                       - item A i k * vget x k)).
  - rewrite sum_n_sub, sum_n_delta by lia. ring.
  - intros k Hk. rewrite He, (Nat.eqb_sym i k). ring.
Qed.

(** The steady state of the direct method is a fixed point of the time
    stepper: when [libsp.eye_as] gives the identity and [libsp.solve] a
    solution of its system, the state and the output that
    [solve_steady(usta, 'direct')] returns are returned again by a step taken
    from that state under the constant input [usta], in either form of the
    model. *)
Theorem solve_steady_direct_is_steady
    (MS : MultiAeroGridSurfaces.t) (dt : R) (order : Z) (rp : bool)
    (sd : option (R * R * R)) (sp : bool) (ass : assembly.blocks R)
    (self0 self : Dynamic.t R) (usta xsta ysta : vector R) :
  Dynamic.__init__ MS dt order rp sd sp = Ok self0 ->
  Dynamic.assemble_ss lu_solve self0 ass = Ok self ->
  (forall M, shape (libsp_eye_as M) = shape M /\
             forall i j, item (libsp_eye_as M) i j = if i =? j then one else zero) ->
  (forall L b x, libsp_solve L b = Ok x -> length x = ncols L /\ matvec L x = b) ->
  Dynamic.solve_steady libsp_eye_as libsp_solve linalg_solve linalg_norm gt
                       self usta "direct" = Returns (xsta, ysta) ->
  Dynamic.solve_step self xsta usta None false = Ok (xsta, ysta).
Proof.
  intros H0 H Heye Hsolve Hst.
  destruct (@assembled_model R N lu_solve MS dt order rp sd sp ass self0 self H0 H)
    as (_ & _ & _ & _ & _ & _ & sys & HSS & HA & HB & HC & HD).
  unfold Dynamic.solve_steady, Dynamic.get_SS in Hst.
  replace ("direct" =? "direct")%string with true in Hst by reflexivity.
  replace ("direct" =? "minsize")%string with false in Hst by reflexivity.
  cbn [negb] in Hst. rewrite !andb_false_r, HSS in Hst.
  cbn [of_result obind] in Hst.
  unfold Dynamic.solve_steady_direct in Hst. obinds_inv Hst.
  injection Hst as <- <-.
  apply np_sub_inv in E. destruct E as (_ & _ & ->).
  apply dotv_inv in E0, E2, E3. apply vadd_inv in E4.
  destruct E0 as (HBu & ->), E2 as (HCx & ->), E3 as (HDu & ->), E4 as (Hy & ->).
  destruct (Hsolve _ _ _ E1) as (Hlen & Hsol). cbn [msub ncols] in Hlen.
  destruct (Heye (libss.A sys)) as (HE & He).
  pose proof HA as HA'. apply shape_eq in HA'. destruct HA' as (HA1 & HA2).
  pose proof HB as HB'. apply shape_eq in HB'. destruct HB' as (HB1 & HB2).
  assert (Hfix : vplus (matvec (libss.A sys) r1) (matvec (libss.B sys) usta) = r1).
  { apply (@fixed_point_of_solution (libsp_eye_as (libss.A sys)) (libss.A sys) r1
             (matvec (libss.B sys) usta) (Dynamic.Nx self)); try assumption.
    - congruence.
    - rewrite Hlen. apply (f_equal snd) in HE. simpl in HE. congruence.
    - rewrite length_matvec. exact HB1. }
  unfold Dynamic.solve_step, Dynamic.get_SS. rewrite HSS.
  assert (Hlen' : ncols (libss.A sys) = length r1).
  { rewrite Hlen. apply (f_equal snd) in HE. simpl in HE. congruence. }
  destruct (Dynamic.remove_predictor self); cbn [bind];
    rewrite (dotv_ok (libss.A sys) r1) by exact Hlen'; cbn [bind];
    rewrite (dotv_ok (libss.B sys) usta) by exact HBu; cbn [bind];
    rewrite vadd_ok by (rewrite !length_matvec; congruence); cbn [bind];
    rewrite Hfix;
    rewrite (dotv_ok (libss.C sys) r1) by exact HCx; cbn [bind];
    rewrite (dotv_ok (libss.D sys) usta) by exact HDu; cbn [bind];
    rewrite vadd_ok by exact Hy; reflexivity.
Qed.

(** The rows of the bound and of the wake circulation involve these two
    blocks of the state only. *)
Lemma assemble_A_top_rows (self : Dynamic.t R) (P Pw Cg CgW Ass : ndarray R) :
  order_dims self ->
  Dynamic.assemble_A self P Pw Cg CgW = Ok Ass ->
  forall i j, (i < Dynamic.K self + Dynamic.K_star self)%nat ->
              (Dynamic.K self + Dynamic.K_star self <= j)%nat ->
              item Ass i j = zero.
Proof.
  intros Hord HA.
  assert (HNx : (2 * Dynamic.K self + Dynamic.K_star self <= Dynamic.Nx self)%nat)
    by (destruct Hord as [(_ & ->)|(_ & ->)]; lia).
  unfold Dynamic.assemble_A in HA. cbv zeta in HA.
  set (K := Dynamic.K self) in *. set (Ks := Dynamic.K_star self) in *.
  destruct Hord as [(Ho & Hn)|(Ho & Hn)]; rewrite Ho in HA;
    simpl Z.eqb in HA; cbv iota in HA; binds_inv HA.
  - injection HA as <-.
    match goal with HB : bind _ _ = Ok _ |- _ => binds_inv HB end.
    chain_facts. intros i j Hi' Hj.
    destruct (Nat.lt_ge_cases i K); entry; reflexivity.
  - match goal with HB : Ok _ = Ok _ |- _ => injection HB as <- end.
    chain_facts. intros i j Hi' Hj.
    destruct (Nat.lt_ge_cases i K); entry; reflexivity.
Qed.

Lemma vget_app_l (l l' : vector R) (k : nat) :
  k < length l -> vget (l ++ l') k = vget l k.
Proof. intro H. unfold vget. now apply app_nth1. Qed.

Lemma vget_app_r (l l' : vector R) (k : nat) :
  vget (l ++ l') (length l + k) = vget l' k.
Proof.
  unfold vget. rewrite app_nth2 by lia. f_equal. lia.
Qed.

Lemma vget_zeros (n k : nat) : vget (repeat (zero : R) n) k = zero.
Proof.
  unfold vget. destruct (Nat.lt_ge_cases k n) as [H|H].
  - now rewrite nth_repeat_lt.
  - apply nth_overflow. now rewrite repeat_length.
Qed.

(** A state whose first two blocks are carried to themselves by a step
    under the input [u], whose circulation derivative is zero and, with
    second-order integration, whose delayed circulation is its bound
    circulation, is carried to itself. *)
Lemma steady_of_blocks (self0 : Dynamic.t R) (ass : assembly.blocks R)
    (Ass Bss Css Dss : ndarray R) (x u : vector R) :
  order_dims self0 ->
  Dynamic.assemble_matrices lu_solve self0 ass = Ok (Ass, Bss, Css, Dss) ->
  length x = Dynamic.Nx self0 ->
  let K := Dynamic.K self0 in
  let K_star := Dynamic.K_star self0 in
  let x1 := vplus (matvec Ass x) (matvec Bss u) in
  (forall i, (i < K + K_star)%nat -> vget x1 i = vget x i) ->
  (forall i, i < K -> vget x (K + K_star + i)%nat = zero) ->
  (Dynamic.integr_order self0 = 2%Z ->
   forall i, i < K -> vget x (2 * K + K_star + i)%nat = vget x i) ->
  x1 = x.
Proof.
  intros Hord Em Hx K Ks x1 Htop Hder Hdel.
  pose proof (assemble_matrices_shape _ _ _ Em) as (HA & _).
  apply shape_eq in HA. destruct HA as (HA1 & HA2).
  pose proof two_neq_zero as H2.
  apply vector_ext; unfold x1; rewrite length_vplus, length_matvec; [congruence|].
  fold x1. intros r Hr. rewrite HA1 in Hr.
  destruct (Nat.lt_ge_cases r (K + Ks)%nat) as [H1|H1]; [now apply Htop|].
  destruct (Nat.lt_ge_cases r (2 * K + Ks)%nat) as [H3|H3].
  - replace r with (K + Ks + (r - (K + Ks)))%nat by lia.
    assert (Hi : (r - (K + Ks) < K)%nat) by lia.
    destruct (@step_recurrence R N F lu_solve self0 ass Ass Bss Css Dss x u Hord Em
                (r - (K + Ks))%nat Hi) as (R1 & R2).
    fold K Ks x1 in R1, R2. rewrite Hder by exact Hi.
    destruct Hord as [(Ho & _)|(Ho & _)].
    + rewrite (R1 Ho), Htop by lia. ring.
    + destruct (R2 Ho) as (-> & _). rewrite Htop, (Hdel Ho) by lia.
      unfold Dynamic.three, Dynamic.two. field. exact H2.
  - destruct Hord as [(Ho & HNx)|(Ho & HNx)]; [fold K Ks in HNx; lia|].
    fold K Ks in HNx.
    replace r with (2 * K + Ks + (r - (2 * K + Ks)))%nat by lia.
    assert (Hi : (r - (2 * K + Ks) < K)%nat) by lia.
    assert (Hord : order_dims self0) by (right; split; assumption).
    destruct (@step_recurrence R N F lu_solve self0 ass Ass Bss Css Dss x u
                Hord Em (r - (2 * K + Ks))%nat Hi) as (_ & R2).
    fold K Ks x1 in R2. destruct (R2 Ho) as (_ & ->).
    now rewrite (Hdel Ho) by exact Hi.
Qed.

Lemma top_rows_of_subsystem (self0 : Dynamic.t R) (ass : assembly.blocks R)
    (Ass Bss Css Dss : ndarray R) (xsub tail u : vector R) :
  order_dims self0 ->
  Dynamic.assemble_matrices lu_solve self0 ass = Ok (Ass, Bss, Css, Dss) ->
  let n := (Dynamic.K self0 + Dynamic.K_star self0)%nat in
  length xsub = n ->
  vplus (matvec (getitem Ass 0 n 0 n) xsub)
        (matvec (getitem Bss 0 n 0 (ncols Bss)) u) = xsub ->
  forall i, i < n ->
    vget (vplus (matvec Ass (xsub ++ tail)) (matvec Bss u)) i = vget (xsub ++ tail) i.
Proof.
  intros Hord Em n Hxs Hfix i Hi.
  pose proof (assemble_matrices_shape _ _ _ Em) as (HA & HB & _ & _).
  apply shape_eq in HA, HB. destruct HA as (HA1 & HA2), HB as (HB1 & HB2).
  destruct (assemble_matrices_blocks _ _ _ Em) as (P & Pw & Bup & EA & EB).
  pose proof (@assemble_A_top_rows self0 P Pw _ _ Ass Hord EA) as Hz. fold n in Hz.
  assert (HN : (n <= Dynamic.Nx self0)%nat)
    by (destruct Hord as [(_ & ->)|(_ & ->)]; unfold n; lia).
  rewrite vget_step by lia. rewrite vget_app_l by lia.
  pose proof (f_equal (fun v => vget v i) Hfix) as Hfi. cbv beta in Hfi.
  rewrite vget_vplus in Hfi
    by (rewrite length_matvec; cbn [getitem nrows]; rewrite Nat.min_0_l, Nat.min_l; lia).
  rewrite !vget_matvec in Hfi
    by (cbn [getitem nrows]; rewrite Nat.min_0_l, Nat.min_l; lia).
  cbn [getitem ncols item] in Hfi.
  rewrite !Nat.min_0_l, !Nat.min_id, !Nat.sub_0_r in Hfi.
  rewrite (Nat.min_l n) in Hfi by lia. cbn [Nat.add] in Hfi.
  rewrite <- Hfi. f_equal. rewrite HA2.
  replace (Dynamic.Nx self0) with (n + (Dynamic.Nx self0 - n))%nat by lia.
  rewrite sum_n_split.
  rewrite (@sum_n_ext R N (Dynamic.Nx self0 - n) _ (fun _ => zero))
    by (intros k Hk; rewrite Hz by lia; ring).
  rewrite sum_n_zero.
  rewrite (@sum_n_ext R N n (fun k => item Ass i k * vget (xsub ++ tail) k)
             (fun k => item Ass i k * vget xsub k))
    by (intros k Hk; rewrite vget_app_l by lia; reflexivity).
  ring.
Qed.

(** The sub-system method solves for the bound and the wake circulation
    and completes the state with zeros.  With first-order integration the
    state and the output it returns are a fixed point of the time stepper
    under the constant input.  With second-order integration the output is
    that of the fixed point, and the state is the fixed point except for the
    delayed circulation, which is returned as zero where the fixed point
    holds the bound circulation. *)
Theorem solve_steady_subsystem_is_steady
    (MS : MultiAeroGridSurfaces.t) (dt : R) (order : Z)
    (sd : option (R * R * R)) (ass : assembly.blocks R)
    (self0 self : Dynamic.t R) (usta xsta ysta : vector R) :
  Dynamic.__init__ MS dt order false sd false = Ok self0 ->
  Dynamic.assemble_ss lu_solve self0 ass = Ok self ->
  (forall L b x, linalg_solve L b = Ok x -> length x = ncols L /\ matvec L x = b) ->
  Dynamic.solve_steady libsp_eye_as libsp_solve linalg_solve linalg_norm gt
                       self usta "subsystem" = Returns (xsta, ysta) ->
  let K := Dynamic.K self in
  let K_star := Dynamic.K_star self in
  (order = 1%Z -> Dynamic.solve_step self xsta usta None false = Ok (xsta, ysta)) /\
  (order = 2%Z ->
     (forall i, i < K -> vget xsta (2 * K + K_star + i)%nat = zero) /\
     let steady := (vslice xsta 0 (2 * K + K_star) ++ vslice xsta 0 K)%list in
     Dynamic.solve_step self steady usta None false = Ok (steady, ysta)).
Proof.
  intros H0 H Hsolve Hst K Ks.
  pose proof (init_order_dims _ _ _ _ _ _ H0) as Hord.
  pose proof (init_inv _ _ _ _ _ _ H0)
    as (_ & _ & _ & _ & _ & _ & Ho & _ & _ & _ & Hrp & _ & _ & Hsp & _).
  apply assemble_ss_inv in H. destruct H as (Ass & Bss & Css & Dss & Em & H).
  rewrite Hrp in H.
  pose proof (assemble_matrices_shape _ _ _ Em) as (HA & HB & HC & HD).
  apply shape_eq in HA, HB, HC, HD.
  destruct HA as (HA1 & HA2), HB as (HB1 & HB2), HC as (HC1 & HC2), HD as (HD1 & HD2).
  destruct (@assemble_zero_columns R N lu_solve self0 ass Ass Bss Css Dss Hord Em)
    as (_ & HCz).
  subst K Ks. subst self.
  unfold Dynamic.solve_steady, Dynamic.get_SS in Hst.
  cbn [Dynamic.set_SS Dynamic.remove_predictor Dynamic.use_sparse Dynamic.SS
       Dynamic.K Dynamic.K_star] in Hst |- *.
  rewrite Hrp, Hsp in Hst. cbn [andb of_result obind] in Hst.
  change ("subsystem" =? "minsize")%string with false in Hst.
  change ("subsystem" =? "direct")%string with false in Hst.
  change ("subsystem" =? "recursive")%string with false in Hst.
  change ("subsystem" =? "subsystem")%string with true in Hst.
  cbv iota in Hst.
  unfold Dynamic.solve_steady_subsystem in Hst.
  cbn [Dynamic.set_SS Dynamic.K Dynamic.K_star Dynamic.integr_order
       libss.A libss.B libss.C libss.D] in Hst.
  set (K := Dynamic.K self0) in *. set (Ks := Dynamic.K_star self0) in *.
  obinds_inv Hst. injection Hst as <- <-.
  set (n := (K + Ks)%nat) in *.
  assert (HN : (n + K <= Dynamic.Nx self0)%nat)
    by (destruct Hord as [(_ & ->)|(_ & ->)]; unfold n, K, Ks; lia).
  apply np_sub_inv in E. destruct E as (_ & _ & ->).
  apply dotv_inv in E0. destruct E0 as (Hu & ->).
  cbn [getitem ncols] in Hu. rewrite Nat.min_0_l, Nat.min_id, Nat.sub_0_r in Hu.
  destruct (Hsolve _ _ _ E1) as (Hlen & Hsol). cbn [msub ncols np_eye] in Hlen.
  assert (Hfix : vplus (matvec (getitem Ass 0 n 0 n) r1)
                       (matvec (getitem Bss 0 n 0 (ncols Bss)) usta) = r1).
  { apply (@fixed_point_of_solution (np_eye n) (getitem Ass 0 n 0 n) r1 _ n);
      try assumption.
    - unfold shape. cbn [getitem nrows ncols].
      rewrite !Nat.min_0_l, !Nat.sub_0_r, !Nat.min_l by lia. reflexivity.
    - reflexivity.
    - reflexivity.
    - rewrite length_matvec. cbn [getitem nrows].
      rewrite Nat.min_0_l, Nat.sub_0_r, Nat.min_l by lia. reflexivity. }
  pose proof (fun tail => @top_rows_of_subsystem self0 ass Ass Bss Css Dss r1 tail usta
                            Hord Em Hlen Hfix) as Htop.
  fold K Ks n in Htop.
  unfold Dynamic.solve_step, Dynamic.get_SS.
  cbn [Dynamic.set_SS Dynamic.remove_predictor Dynamic.SS bind
       libss.A libss.B libss.C libss.D].
  rewrite Hrp.
  split; intro Eo; rewrite Eo in Ho; rewrite Ho in E2; simpl Z.eqb in E2; cbv iota in E2;
    injection E2 as <-.
  - assert (HNx : Dynamic.Nx self0 = (2 * K + Ks)%nat)
      by (destruct Hord as [(_ & E)|(E & _)]; [exact E | congruence]).
    assert (Hxl : length (r1 ++ repeat zero K) = Dynamic.Nx self0)
      by (rewrite length_app, repeat_length; lia).
    assert (Hst : vplus (matvec Ass (r1 ++ repeat zero K)) (matvec Bss usta)
                  = (r1 ++ repeat zero K)%list).
    { apply (@steady_of_blocks self0 ass Ass Bss Css Dss _ usta Hord Em Hxl).
      - apply Htop.
      - intros i Hi. fold K Ks n. rewrite <- Hlen, vget_app_r. apply vget_zeros.
      - congruence. }
    rewrite dotv_ok by congruence. cbn [bind].
    rewrite dotv_ok by congruence. cbn [bind].
    rewrite vadd_ok by (rewrite !length_matvec; congruence). cbn [bind].
    rewrite Hst, E3. cbn [bind]. rewrite E4. cbn [bind]. rewrite E5. reflexivity.
  - assert (HNx : Dynamic.Nx self0 = (3 * K + Ks)%nat)
      by (destruct Hord as [(E & _)|(_ & E)]; [congruence | exact E]).
    split.
    + intros i Hi. replace (2 * K + Ks + i)%nat with (length r1 + (K + i))%nat by lia.
      rewrite vget_app_r. apply vget_zeros.
    + assert (Es : (vslice (r1 ++ repeat zero (2 * K)) 0 (2 * K + Ks)
                    ++ vslice (r1 ++ repeat zero (2 * K)) 0 K)%list
                   = (r1 ++ (repeat zero K ++ firstn K r1))%list).
      { unfold vslice. cbn [skipn]. rewrite !Nat.sub_0_r.
        rewrite !firstn_app, Hlen.
        replace (2 * K + Ks - n)%nat with K by lia.
        replace (K - n)%nat with 0%nat by lia.
        rewrite (firstn_all2 (n := (2 * K + Ks)%nat) r1) by lia.
        rewrite firstn_O, app_nil_r.
        replace (2 * K)%nat with (K + K)%nat by lia.
        rewrite repeat_app, firstn_app, repeat_length, Nat.sub_diag, firstn_O, app_nil_r.
        rewrite firstn_all2 by (rewrite repeat_length; lia).
        now rewrite <- app_assoc. }
      cbv zeta. change (K + (K + 0))%nat with (2 * K)%nat in *. rewrite Es.
      set (steady := (r1 ++ (repeat zero K ++ firstn K r1))%list).
      assert (Hxl : length steady = Dynamic.Nx self0).
      { unfold steady. rewrite !length_app, repeat_length, length_firstn. lia. }
      assert (Hst : vplus (matvec Ass steady) (matvec Bss usta) = steady).
      { apply (@steady_of_blocks self0 ass Ass Bss Css Dss _ usta Hord Em Hxl).
        - apply Htop.
        - intros i Hi. fold K Ks n. unfold steady.
          rewrite <- Hlen, vget_app_r, vget_app_l by (rewrite repeat_length; exact Hi).
          apply vget_zeros.
        - intros _ i Hi. fold K Ks. unfold steady.
          replace (2 * K + Ks + i)%nat with (length r1 + (length (repeat (zero : R) K) + i))%nat
            by (rewrite repeat_length; lia).
          rewrite !vget_app_r, vget_app_l by lia.
          unfold vget. rewrite nth_firstn.
          destruct (Nat.ltb_spec i K); [reflexivity | lia]. }
      assert (HC : dotv Css steady = dotv Css (r1 ++ repeat zero (2 * K))).
      { apply (@dotv_agree R N F Css (2 * K + Ks) (3 * K + Ks)).
        - intros i j Hj. apply HCz. lia.
        - split; [rewrite Hxl, length_app, repeat_length; lia|].
          intros k [Hk|Hk].
          + unfold steady.
            destruct (Nat.lt_ge_cases k n) as [Hkn|Hkn].
            * rewrite !vget_app_l by lia. reflexivity.
            * replace k with (length r1 + (k - n))%nat by lia.
              rewrite !vget_app_r, vget_app_l by (rewrite repeat_length; lia).
              now rewrite !vget_zeros.
          + unfold vget. rewrite !nth_overflow; [reflexivity| |].
            * rewrite length_app, repeat_length. lia.
            * lia. }
      rewrite dotv_ok by congruence. cbn [bind].
      rewrite dotv_ok by congruence. cbn [bind].
      rewrite vadd_ok by (rewrite !length_matvec; congruence). cbn [bind].
      rewrite Hst, HC, E3. cbn [bind]. rewrite E4. cbn [bind]. rewrite E5. reflexivity.
Qed.

Lemma held_input_march_snoc (self : Dynamic.t R) (u : vector R) (n : nat)
    (xy : vector R * vector R) :
  held_input_march self u (S n) xy
  = (xy' <- held_input_march self u n xy ;;
     Dynamic.solve_step self (fst xy') u None false).
Proof.
  revert xy. induction n as [|n IH]; intro xy.
  - cbn [held_input_march bind]. now destruct (Dynamic.solve_step _ _ _ _ _).
  - cbn [held_input_march] in *.
    destruct (Dynamic.solve_step self (fst xy) u None false) as [xy'|e];
      cbn [bind]; [|reflexivity].
    apply IH.
Qed.

(** The loop of the recursive solution on a direct-form model: what it has
    computed after [k] passes are [k] steps of the time stepper from the
    zero state. *)
Lemma recursive_loop_marches (self : Dynamic.t R) (sys : libss.ss R R)
    (usta : vector R) :
  Dynamic.SS self = Some sys -> Dynamic.remove_predictor self = false ->
  shape (libss.A sys) = (Dynamic.Nx self, Dynamic.Nx self) ->
  shape (libss.B sys) = (Dynamic.Nx self, Dynamic.Nu self) ->
  shape (libss.C sys) = (Dynamic.Ny self, Dynamic.Nx self) ->
  shape (libss.D sys) = (Dynamic.Ny self, Dynamic.Nu self) ->
  length usta = Dynamic.Nu self ->
  forall (left k : nat) (st : Dynamic.marching) (y0 : vector R),
    length (Dynamic.m_xsta st) = Dynamic.Nx self ->
    length (Dynamic.m_Ftot0 st) = 3%nat ->
    held_input_march self usta k (repeat zero (Dynamic.Nx self), [])
    = Ok (Dynamic.m_xsta st, y0) ->
    (forall y, Dynamic.m_ysta st = Some y -> y = y0) ->
    (Dynamic.m_ysta st = None -> k = 0%nat) ->
    exists st' k' y',
      Dynamic.recursive_loop linalg_norm gt left self sys usta st = Ok st' /\
      (k <= k' <= k + left)%nat /\
      held_input_march self usta k' (repeat zero (Dynamic.Nx self), [])
      = Ok (Dynamic.m_xsta st', y') /\
      (forall y, Dynamic.m_ysta st' = Some y -> y = y') /\
      (Dynamic.m_ysta st' = None -> k' = 0%nat) /\
      (gt (Dynamic.m_er st) Dynamic.tol = true -> (1 <= left)%nat -> (k + 1 <= k')%nat).
Proof.
  intros HSS Hrp HA HB HC HD Hu.
  apply shape_eq in HA, HB, HC, HD.
  destruct HA as (HA1 & HA2), HB as (HB1 & HB2), HC as (HC1 & HC2), HD as (HD1 & HD2).
  induction left as [|left IH]; intros k st y0 Hx HF Hm Hy Hn.
  - exists st, k, y0. split; [reflexivity|]. split; [lia|]. split; [exact Hm|].
    split; [exact Hy|]. split; [exact Hn|]. lia.
  - cbn [Dynamic.recursive_loop].
    destruct (gt (Dynamic.m_er st) Dynamic.tol) eqn:Egt.
    + rewrite dotv_ok by congruence. cbn [bind].
      rewrite dotv_ok by congruence. cbn [bind].
      rewrite vadd_ok by (rewrite !length_matvec; congruence). cbn [bind].
      rewrite dotv_ok by (rewrite length_vplus, length_matvec; congruence). cbn [bind].
      rewrite dotv_ok by congruence. cbn [bind].
      rewrite vadd_ok by (rewrite !length_matvec; congruence). cbn [bind].
      rewrite vsub_ok by (rewrite length_map, length_seq; congruence). cbn [bind].
      set (x' := vplus (matvec (libss.A sys) (Dynamic.m_xsta st))
                       (matvec (libss.B sys) usta)).
      set (y' := vplus (matvec (libss.C sys) x') (matvec (libss.D sys) usta)).
      match goal with
      | |- context [Dynamic.recursive_loop _ _ _ _ _ _ ?s] => set (st1 := s)
      end.
      assert (Estep : Dynamic.solve_step self (Dynamic.m_xsta st) usta None false
                      = Ok (x', y')).
      { unfold Dynamic.solve_step, Dynamic.get_SS. rewrite Hrp, HSS. cbn [bind].
        rewrite dotv_ok by congruence. cbn [bind].
        rewrite dotv_ok by congruence. cbn [bind].
        rewrite vadd_ok by (rewrite !length_matvec; congruence). cbn [bind].
        rewrite dotv_ok by (rewrite length_vplus, length_matvec; congruence). cbn [bind].
        rewrite dotv_ok by congruence. cbn [bind].
        rewrite vadd_ok by (rewrite !length_matvec; congruence). reflexivity. }
      destruct (IH (S k) st1 y') as (st' & k' & y'' & E' & Hk' & Hm' & Hy' & Hn' & _).
      * unfold st1, x'. cbn [Dynamic.m_xsta]. rewrite length_vplus, length_matvec. exact HA1.
      * unfold st1. cbn [Dynamic.m_Ftot0]. now rewrite length_map, length_seq.
      * rewrite held_input_march_snoc, Hm. cbn [bind fst]. exact Estep.
      * unfold st1. cbn [Dynamic.m_ysta]. intros y Ey. now injection Ey as <-.
      * unfold st1. cbn [Dynamic.m_ysta]. discriminate.
      * exists st', k', y''. split; [exact E'|]. split; [lia|]. split; [exact Hm'|].
        split; [exact Hy'|]. split; [exact Hn'|]. lia.
    + exists st, k, y0. split; [reflexivity|]. split; [lia|]. split; [exact Hm|].
      split; [exact Hy|]. split; [exact Hn|]. discriminate.
Qed.

(** The recursive solution is a march of the time stepper: on an assembled
    dense direct-form model and an input of the model's size it returns,
    after at least one and at most 1000 steps under the constant input from
    the zero state, the state and the output of the last step.  (The first
    comparison of the error, 1.0, with the tolerance, 1e-4, holds.) *)
Theorem solve_steady_recursive_marches
    (MS : MultiAeroGridSurfaces.t) (dt : R) (order : Z)
    (sd : option (R * R * R)) (ass : assembly.blocks R)
    (self0 self : Dynamic.t R) (usta : vector R) :
  Dynamic.__init__ MS dt order false sd false = Ok self0 ->
  Dynamic.assemble_ss lu_solve self0 ass = Ok self ->
  length usta = Dynamic.Nu self ->
  gt one Dynamic.tol = true ->
  exists xsta ysta n,
    Dynamic.solve_steady libsp_eye_as libsp_solve linalg_solve linalg_norm gt
                         self usta "recursive" = Returns (xsta, ysta) /\
    (1 <= n <= 1000)%nat /\
    held_input_march self usta n (repeat zero (Dynamic.Nx self), []) = Ok (xsta, ysta).
Proof.
  intros H0 H Hu Hgt.
  destruct (@assembled_model R N lu_solve MS dt order false sd false ass self0 self H0 H)
    as (_ & _ & _ & _ & Hrp & _ & sys & HSS & HA & HB & HC & HD).
  assert (Hsp : Dynamic.use_sparse self = false).
  { pose proof (init_inv _ _ _ _ _ _ H0) as (_ & _ & _ & _ & _ & _ & _ & _ & _ & _ & _ & _ & _ & Hsp & _).
    apply assemble_ss_inv in H. destruct H as (? & ? & ? & ? & _ & H).
    destruct (Dynamic.remove_predictor self0);
      [destruct H as (? & ? & ? & _ & _ & _ & ->)|rewrite H]; exact Hsp. }
  unfold Dynamic.solve_steady, Dynamic.get_SS.
  rewrite Hrp, Hsp, HSS. cbn [andb of_result obind].
  change ("recursive" =? "minsize")%string with false.
  change ("recursive" =? "direct")%string with false.
  change ("recursive" =? "recursive")%string with true.
  cbv iota. unfold Dynamic.solve_steady_recursive.
  destruct (@recursive_loop_marches self sys usta HSS Hrp HA HB HC HD Hu 1000 0
              (Dynamic.mk_marching one (repeat zero 3) (repeat zero (Dynamic.Nx self)) None)
              [])
    as (st' & k' & y' & E' & Hk' & Hm' & Hy' & Hn' & Hpos).
  - cbn [Dynamic.m_xsta]. apply repeat_length.
  - reflexivity.
  - reflexivity.
  - cbn [Dynamic.m_ysta]. discriminate.
  - reflexivity.
  - rewrite E'. cbn [of_result obind].
    cbn [Dynamic.m_er] in Hpos. specialize (Hpos Hgt ltac:(lia)).
    destruct (Dynamic.m_ysta st') as [y|] eqn:Ey.
    + exists (Dynamic.m_xsta st'), y, k'. split; [reflexivity|]. split; [lia|].
      now rewrite (Hy' y eq_refl).
    + specialize (Hn' eq_refl). lia.
Qed.

(** Which methods [solve_steady] accepts.  A model built with the default
    settings of the constructor, predictor removed and sparse matrices,
    accepts the direct method only: each of the two settings alone makes
    every other method fail with its [NameError], before the state-space
    model is read, so also on a model that is not assembled.  An assembled
    dense direct-form model fails on a method that is none of the four with
    the [NameError] that names it. *)
Theorem solve_steady_methods :
  (forall (self : Dynamic.t R) (usta : vector R) (method : string),
      method <> "direct"%string ->
      Dynamic.remove_predictor self = true ->
      Dynamic.solve_steady libsp_eye_as libsp_solve linalg_solve linalg_norm gt
                           self usta method
      = Raises (Exn (NameError "Only direct solution is available if predictor term has been removed from the state-space equations (see assembly_ss)"))) /\
  (forall (self : Dynamic.t R) (usta : vector R) (method : string),
      method <> "direct"%string ->
      Dynamic.remove_predictor self = false ->
      Dynamic.use_sparse self = true ->
      Dynamic.solve_steady libsp_eye_as libsp_solve linalg_solve linalg_norm gt
                           self usta method
      = Raises (Exn (NameError "Only direct solution is available if use_sparse is True. (see assembly_ss)"))) /\
  (forall (MS : MultiAeroGridSurfaces.t) (dt : R) (order : Z)
          (sd : option (R * R * R)) (ass : assembly.blocks R)
          (self0 self : Dynamic.t R) (usta : vector R) (method : string),
      Dynamic.__init__ MS dt order false sd false = Ok self0 ->
      Dynamic.assemble_ss lu_solve self0 ass = Ok self ->
      ~ In method ["minsize"; "direct"; "recursive"; "subsystem"]%string ->
      Dynamic.solve_steady libsp_eye_as libsp_solve linalg_solve linalg_norm gt
                           self usta method
      = Raises (Exn (NameError ("Method " ++ method ++ " not recognised!")))).
Proof.
  split; [|split].
  - intros self usta method Hm Hrp. unfold Dynamic.solve_steady.
    apply String.eqb_neq in Hm. now rewrite Hrp, Hm.
  - intros self usta method Hm Hrp Hsp. unfold Dynamic.solve_steady.
    apply String.eqb_neq in Hm. now rewrite Hrp, Hsp, Hm.
  - intros MS dt order sd ass self0 self usta method H0 H Hm.
    destruct (@assembled_model R N lu_solve MS dt order false sd false ass self0 self H0 H)
      as (_ & _ & _ & _ & Hrp & _ & sys & HSS & _).
    assert (Hsp : Dynamic.use_sparse self = false).
    { pose proof (init_inv _ _ _ _ _ _ H0)
        as (_ & _ & _ & _ & _ & _ & _ & _ & _ & _ & _ & _ & _ & Hsp & _).
      apply assemble_ss_inv in H. destruct H as (? & ? & ? & ? & _ & H).
      destruct (Dynamic.remove_predictor self0);
        [destruct H as (? & ? & ? & _ & _ & _ & ->)|rewrite H]; exact Hsp. }
    unfold Dynamic.solve_steady, Dynamic.get_SS. rewrite Hrp, Hsp, HSS.
    cbn [andb of_result obind].
    assert (E : forall m, In m ["minsize"; "direct"; "recursive"; "subsystem"]%string ->
                          (method =? m)%string = false).
    { intros m Hin. apply String.eqb_neq. intros ->. exact (Hm Hin). }
    rewrite !E by (simpl; auto). reflexivity.
Qed.
End SteadyStateProperties.

(** ** The frequency description *)

Section FrequencyGains.
Context {R : Type} {N : Num R} {F : Field R}.
Add Field FGField : Field_laws.
Local Open Scope num_scope.

Lemma matmul_assoc (X Y Z : ndarray R) :
  ncols X = nrows Y -> ncols Y = nrows Z ->
  array_eq (matmul (matmul X Y) Z) (matmul X (matmul Y Z)).
Proof.
  intros H1 H2. split; [reflexivity|]. split; [reflexivity|].
  intros i j _ _. cbn [matmul item nrows ncols]. apply sum_n_assoc.
Qed.

Lemma array_eq_sym (X Y : ndarray R) : array_eq X Y -> array_eq Y X.
Proof.
  intros (H1 & H2 & H). split; [congruence|]. split; [congruence|].
  intros i j Hi Hj. symmetry. apply H; congruence.
Qed.

(** Gains on the inputs and gains on the outputs can be added in either
    order: both orders complete on matrices of matching shapes and leave the
    same B and C, the same numbers of inputs and outputs and, entry by entry,
    the same D; nothing else changes.  A [where] that is neither ['in'] nor
    ['out'] fails the assertion and leaves the instance as it is. *)
Theorem addGain_in_out_commute :
  (forall (self : Frequency.t R) (m : Frequency.matrices R) (Kin Kout : ndarray R),
      Frequency.mats self = Some m ->
      ncols (Frequency.Bss m) = nrows Kin -> ncols (Frequency.Dss m) = nrows Kin ->
      ncols Kout = nrows (Frequency.Css m) -> ncols Kout = nrows (Frequency.Dss m) ->
      exists D D',
        Frequency.addGain (fst (Frequency.addGain self Kin "in")) Kout "out"
        = (Frequency.set_outputs
             (Frequency.set_mats (Frequency.set_inputs self (ncols Kin))
                (Frequency.mk_matrices (Frequency.A0 m) (Frequency.A0W m)
                   (matmul (Frequency.Bss m) Kin) (matmul Kout (Frequency.Css m)) D))
             (nrows Kout), Returns tt) /\
        Frequency.addGain (fst (Frequency.addGain self Kout "out")) Kin "in"
        = (Frequency.set_outputs
             (Frequency.set_mats (Frequency.set_inputs self (ncols Kin))
                (Frequency.mk_matrices (Frequency.A0 m) (Frequency.A0W m)
                   (matmul (Frequency.Bss m) Kin) (matmul Kout (Frequency.Css m)) D'))
             (nrows Kout), Returns tt) /\
        array_eq D D') /\
  (forall (self : Frequency.t R) (Kgain : ndarray R) (where_ : string),
      where_ <> "in"%string -> where_ <> "out"%string ->
      Frequency.addGain self Kgain where_
      = (self, Raises (AssertionError
                         "Specify whether gains are added to input or output"))).
Proof.
  split.
  - intros self m Kin Kout Hm HB HD HC HD'.
    exists (matmul Kout (matmul (Frequency.Dss m) Kin)),
           (matmul (matmul Kout (Frequency.Dss m)) Kin).
    split; [|split].
    + unfold Frequency.addGain.
      change ("in" =? "in")%string with true. change ("in" =? "out")%string with false.
      change ("out" =? "in")%string with false. change ("out" =? "out")%string with true.
      cbn [orb]. unfold Frequency.get_mats. rewrite Hm.
      rewrite !dot_ok by assumption. cbn [fst].
      cbn [Frequency.set_mats Frequency.set_inputs Frequency.mats Frequency.Css
           Frequency.Dss Frequency.Bss Frequency.A0 Frequency.A0W].
      rewrite !dot_ok by (cbn [matmul nrows]; assumption).
      reflexivity.
    + unfold Frequency.addGain.
      change ("in" =? "in")%string with true. change ("in" =? "out")%string with false.
      change ("out" =? "in")%string with false. change ("out" =? "out")%string with true.
      cbn [orb]. unfold Frequency.get_mats. rewrite Hm.
      rewrite !dot_ok by assumption. cbn [fst].
      cbn [Frequency.set_mats Frequency.set_outputs Frequency.mats Frequency.Css
           Frequency.Dss Frequency.Bss Frequency.A0 Frequency.A0W].
      rewrite !dot_ok by (cbn [matmul ncols]; assumption).
      reflexivity.
    + apply array_eq_sym, matmul_assoc; congruence.
  - intros self Kgain where_ H1 H2. unfold Frequency.addGain.
    apply String.eqb_neq in H1, H2. now rewrite H1, H2.
Qed.

(** What [Frequency.__init__] and [Frequency.assemble] leave in the
    instance. *)
Lemma frequency_init_inv (MS : MultiAeroGridSurfaces.t) (dt : R) (order : Z) (rp : bool)
    (sd : option (R * R * R)) (sp : bool) (self : Frequency.t R) :
  Frequency.__init__ MS dt order rp sd sp = Returns self ->
  (order = 0%Z \/ order = 1%Z \/ order = 2%Z) /\
  Frequency.MS self = MS /\
  Frequency.K self = sum (MultiAeroGridSurfaces.KK MS) /\
  Frequency.K_star self = sum (MultiAeroGridSurfaces.KK_star MS) /\
  Frequency.Kzeta self = sum (MultiAeroGridSurfaces.KKzeta MS) /\
  Frequency.dt self = dt /\ Frequency.integr_order self = order /\
  Frequency.inputs self = (9 * Frequency.Kzeta self)%nat /\
  Frequency.outputs self = (3 * Frequency.Kzeta self)%nat /\
  Frequency.remove_predictor self = rp /\ Frequency.use_sparse self = sp /\
  Frequency.mats self = None /\
  Frequency.ScalingFacts self =
    (let '(l, s, d) := match sd with Some x => x | None => (one, one, one) end in
     Scaling.mk l s d (l / s) (s * l) (one / Dynamic.two * d * power s 2)
                (one / Dynamic.two * d * power s 2 * power l 2)).
Proof.
  unfold Frequency.__init__. intro H.
  destruct (Z.eqb_spec order 1) as [->|H1]; cbn [orb] in H.
  - destruct sd as [[[l s] d]|]; injection H as <-; cbn; repeat split; auto.
  - destruct (Z.eqb_spec order 2) as [->|H2]; cbn [orb] in H.
    + destruct sd as [[[l s] d]|]; injection H as <-; cbn; repeat split; auto.
    + destruct (Z.eqb_spec order 0) as [->|H3]; [|discriminate].
      destruct sd as [[[l s] d]|]; injection H as <-; cbn; repeat split; auto.
Qed.

Lemma frequency_assemble_inv (self0 self : Frequency.t R) (ass : assembly.blocks R) :
  Frequency.assemble self0 ass = Ok self ->
  exists B C D,
    self = Frequency.set_outputs
             (Frequency.set_inputs
                (Frequency.set_mats self0
                   (Frequency.mk_matrices (assembly.A0 ass) (assembly.A0W ass) B C D))
                (9 * Frequency.Kzeta self0))
             (3 * Frequency.Kzeta self0) /\
    shape B = (nrows (assembly.Ducdzeta ass),
               ncols (assembly.Ducdzeta ass) + ncols (assembly.Wnv0 ass)
               + ncols (assembly.Wnv0 ass))%nat /\
    shape C = (Frequency.outputs self0,
               2 * Frequency.K self0 + Frequency.K_star self0)%nat /\
    shape D = (Frequency.outputs self0, Frequency.inputs self0).
Proof.
  unfold Frequency.assemble. intro H. binds_inv H. injection H as <-.
  eexists _, _, _. split; [reflexivity|].
  repeat match goal with
  | H : hstack _ _ = Ok _ |- _ =>
      unfold hstack in H; destruct (_ =? _) in H; [|discriminate]; injection H as <-
  | H : setitem _ _ _ _ _ _ = Ok _ |- _ =>
      unfold setitem in H; destruct (_ && _) in H; [|discriminate]; injection H as <-
  end.
  unfold shape. cbn [nrows ncols neg amap np_zeros]. auto.
Qed.

(** Round-trip scaling of the frequency description: when the reference
    length, speed and density are nonzero, [nondimss] followed by [dimss]
    completes on an assembled instance and restores B, C, D and the time
    step; the influence matrices A0 and A0W are never scaled. *)
Theorem frequency_nondimss_dimss_round_trip
    (MS : MultiAeroGridSurfaces.t) (dt : R) (order : Z) (rp : bool)
    (length speed density : R) (sp : bool) (ass : assembly.blocks R)
    (self0 self : Frequency.t R) :
  Frequency.__init__ MS dt order rp (Some (length, speed, density)) sp = Returns self0 ->
  Frequency.assemble self0 ass = Ok self ->
  length <> zero -> speed <> zero -> density <> zero ->
  exists self1 self2 m m1 m2,
    Frequency.nondimss self = Ok self1 /\
    Frequency.dimss self1 = Ok self2 /\
    Frequency.mats self = Some m /\
    Frequency.mats self1 = Some m1 /\
    Frequency.mats self2 = Some m2 /\
    array_eq (Frequency.Bss m2) (Frequency.Bss m) /\
    array_eq (Frequency.Css m2) (Frequency.Css m) /\
    array_eq (Frequency.Dss m2) (Frequency.Dss m) /\
    Frequency.dt self2 = Frequency.dt self /\
    Frequency.A0 m1 = Frequency.A0 m /\ Frequency.A0W m1 = Frequency.A0W m /\
    Frequency.A0 m2 = Frequency.A0 m /\ Frequency.A0W m2 = Frequency.A0W m.
Proof.
  intros H0 H Hl Hs Hd.
  apply frequency_init_inv in H0.
  destruct H0 as (_ & _ & _ & _ & _ & _ & _ & _ & _ & _ & _ & _ & Hsf).
  apply frequency_assemble_inv in H. destruct H as (B & C & D & -> & _).
  destruct (scale_factors_nonzero Hl Hs Hd) as (F1 & F2 & F3 & F4 & F5 & F6).
  eexists _, _, _, _, _.
  split; [unfold Frequency.nondimss, Frequency.get_mats; reflexivity|].
  split; [unfold Frequency.dimss, Frequency.get_mats; reflexivity|].
  split; [reflexivity|]. split; [reflexivity|]. split; [reflexivity|].
  cbn [Frequency.set_outputs Frequency.set_inputs Frequency.set_mats Frequency.set_dt
       Frequency.mats Frequency.ScalingFacts Frequency.Kzeta Frequency.dt bind
       Frequency.A0 Frequency.A0W Frequency.Bss Frequency.Css Frequency.Dss].
  rewrite !Hsf.
  cbn [Scaling.length Scaling.speed Scaling.circulation Scaling.force Scaling.time].
  set (f1 := length / (speed * length)) in *.
  set (f2 := speed / (speed * length)) in *.
  set (f3 := speed * length / _) in *.
  set (f4 := length / _) in F4 |- *.
  set (f5 := speed / _) in F5 |- *.
  set (f6 := length / speed) in *.
  clearbody f1 f2 f3 f4 f5 f6.
  repeat split; simpl;
    try (intros i j Hi Hj;
         repeat match goal with
         | |- context [if ?c then _ else _] => destruct c
         end; field; auto).
  field. assumption.
Qed.
End FrequencyGains.

(** ** The frequency response of the frequency description *)

Section FrequencyCompletion.
Context {R : Type} {N : Num R} {RR : Real R}.
Local Open Scope num_scope.
Variables np_cos np_sin : R -> R.
Variable linalg_solve :
  ndarray (complex R) -> ndarray (complex R) -> result (ndarray (complex R)).

Local Abbreviation C := (complex R).

Lemma frequency_get_Cw_cpx_returns (self : Frequency.t R) (z : C) :
  MultiAeroGridSurfaces.wf (Frequency.MS self) ->
  Frequency.K self = sum (MultiAeroGridSurfaces.KK (Frequency.MS self)) ->
  Frequency.K_star self = sum (MultiAeroGridSurfaces.KK_star (Frequency.MS self)) ->
  exists Cw,
    Frequency.get_Cw_cpx self z = Ok Cw /\
    shape Cw = (Frequency.K_star self, Frequency.K self).
Proof.
  intros Hwf HK HKs.
  destruct (@Cw_surfaces C _ _ z (Frequency.MS self) (Frequency.K_star self)
              (Frequency.K self) _ _ _ _ _ _ Hwf
              0%nat (Dynamic.mk_Cw 0 0 [] [] []) 0%nat 0%nat)
    as (st & E & Li & Lj & Bi & Bj & Hsum); try reflexivity; try lia.
  unfold Frequency.get_Cw_cpx. unfold MultiAeroGridSurfaces.n_surf.
  cbv zeta. rewrite E. cbn [bind]. unfold csc_matrix.
  rewrite Li, Lj, Nat.eqb_refl, Bi, Bj. cbn [andb].
  eexists. split; reflexivity.
Qed.

(** A lattice without bound panels has no wake panels. *)
Lemma no_bound_no_wake (dl dsl : list (nat * nat)) (kl ksl kzl kzsl : list nat) :
  MultiAeroGridSurfaces.sizes_ok dl dsl kl ksl kzl kzsl ->
  sum kl = 0%nat -> sum ksl = 0%nat.
Proof.
  induction 1 as [|d ds k ks kz kzs dl dsl kl ksl kzl kzsl Hs Hrest IH].
  - reflexivity.
  - rewrite !sum_cons. intro H0.
    destruct Hs as (HM & HN & -> & -> & _).
    assert (snd d = 0%nat) by nia. rewrite HN. rewrite IH by lia. nia.
Qed.

Lemma frequency_point_completes (self : Frequency.t R) (m : Frequency.matrices R)
    (k : R) (z : C) :
  MultiAeroGridSurfaces.wf (Frequency.MS self) ->
  Frequency.K self = sum (MultiAeroGridSurfaces.KK (Frequency.MS self)) ->
  Frequency.K_star self = sum (MultiAeroGridSurfaces.KK_star (Frequency.MS self)) ->
  Frequency.integr_order self = 0%Z \/ Frequency.integr_order self = 1%Z
  \/ Frequency.integr_order self = 2%Z ->
  Frequency.mats self = Some m ->
  shape (Frequency.A0 m) = (Frequency.K self, Frequency.K self) ->
  shape (Frequency.A0W m) = (Frequency.K self, Frequency.K_star self) ->
  shape (Frequency.Bss m) = (Frequency.K self, Frequency.inputs self) ->
  shape (Frequency.Css m)
  = (Frequency.outputs self, 2 * Frequency.K self + Frequency.K_star self)%nat ->
  shape (Frequency.Dss m) = (Frequency.outputs self, Frequency.inputs self) ->
  (forall L X, nrows L = ncols L -> nrows X = nrows L ->
     exists Y, linalg_solve L X = Ok Y /\ shape Y = shape X) ->
  exists Y,
    Frequency.freqresp_point linalg_solve self k z = Ok Y /\
    shape Y = (Frequency.outputs self, Frequency.inputs self).
Proof.
  intros Hwf HK HKs Ho Hm HA HAW HB HC HD Hsolve.
  apply shape_eq in HA, HAW, HB, HC, HD.
  destruct HA as (HA1 & HA2), HAW as (HAW1 & HAW2), HB as (HB1 & HB2).
  destruct HC as (HC1 & HC2), HD as (HD1 & HD2).
  destruct (@frequency_get_Cw_cpx_returns self z Hwf HK HKs) as (Cw & ECw & HCw).
  apply shape_eq in HCw. destruct HCw as (HCw1 & HCw2).
  assert (HKz : Frequency.K self = 0%nat -> Frequency.K_star self = 0%nat).
  { rewrite HK, HKs. exact (@no_bound_no_wake _ _ _ _ _ _ Hwf). }
  unfold Frequency.freqresp_point, Frequency.get_mats. cbv zeta.
  rewrite ECw, Hm. cbn [bind].
  do 2 step.
  destruct (Hsolve Z0 (astype_complex (Frequency.Bss m))) as (Yg & EY & HY);
    [lia | simpl; lia |].
  apply shape_eq in HY. destruct HY as (HY1 & HY2). simpl in HY1, HY2.
  rewrite EY. cbn [bind].
  assert (Edf : exists dfact,
    (if (Frequency.integr_order self =? 0)%Z
     then Ok (Cpx zero k * cplx_of (Frequency.dt self))
     else if (Frequency.integr_order self =? 1)%Z
     then Ok (cplx_of one - cplx_of one / z)
     else if (Frequency.integr_order self =? 2)%Z
     then Ok (cplx_of (one / Dynamic.two)
              * (cplx_of Dynamic.three - cplx_of Dynamic.four / z
                 + cplx_of one / power z 2))
     else Raise (NameError "Specify valid integration order")) = Ok dfact)
    by (destruct Ho as [-> | [-> | ->]]; simpl; eauto).
  destruct Edf as (dfact & Edf).
  destruct (Frequency.remove_predictor self);
    (step; rewrite Edf; cbn [bind];
     destruct (Nat.eqb_spec (Frequency.K self) 0) as [HK0|HK0];
       [pose proof (HKz HK0)|];
     (do 5 step;
      match goal with
      | |- exists a, np_add ?X ?D = Ok a /\ _ =>
          assert (returns (np_add X D) (nrows X) (ncols X)) as (Y & EYf & HYr & HYc)
            by (apply returns_np_add; shape_side)
      end;
      exists Y; (split; [exact EYf|]); unfold shape; f_equal; lia)).
Qed.

Lemma frequency_loop_completes (self : Frequency.t R) (kv : vector R) (zv : list C) :
  (forall k z, exists Y,
      Frequency.freqresp_point linalg_solve self k z = Ok Y /\
      shape Y = (Frequency.outputs self, Frequency.inputs self)) ->
  length zv = length kv ->
  forall (cnt s : nat) (Yfreq : list (ndarray C)),
  (s + cnt <= length kv)%nat ->
  Forall (fun Y => shape Y = (Frequency.outputs self, Frequency.inputs self)) Yfreq ->
  exists Yfreq',
    for_each (seq s cnt)
      (fun Yfreq kk =>
         zval <- lookup zv kk ;;
         kval <- lookup kv kk ;;
         Y <- Frequency.freqresp_point linalg_solve self kval zval ;;
         Dynamic.set_slice (Frequency.outputs self) (Frequency.inputs self) Yfreq Y)
      Yfreq
    = Ok Yfreq' /\
    length Yfreq' = (length Yfreq + cnt)%nat /\
    Forall (fun Y => shape Y = (Frequency.outputs self, Frequency.inputs self)) Yfreq'.
Proof.
  intros Hp Hl. induction cnt as [|cnt IH]; intros s Yfreq Hs HY.
  - exists Yfreq. split; [reflexivity|]. split; [lia | exact HY].
  - cbn [seq for_each]. unfold lookup at 1 2.
    destruct (nth_error zv s) as [z|] eqn:Ez; [|apply nth_error_None in Ez; lia].
    destruct (nth_error kv s) as [k|] eqn:Ek; [|apply nth_error_None in Ek; lia].
    cbn [bind].
    destruct (Hp k z) as (Y & EY & HYs). rewrite EY. cbn [bind].
    unfold Dynamic.set_slice at 1.
    pose proof HYs as HYs'. apply shape_eq in HYs'. destruct HYs' as (-> & ->).
    rewrite !Nat.eqb_refl. cbn [andb bind].
    destruct (IH (S s) (Yfreq ++ [Y])) as (Y' & E' & HL & HF).
    + lia.
    + apply Forall_app. split; [exact HY | constructor; [exact HYs | constructor]].
    + exists Y'. split; [exact E'|]. split; [|exact HF].
      rewrite HL, length_app. simpl. lia.
Qed.

(** A wake operator is built before the first matrix is read. *)
Lemma frequency_loop_unassembled (self : Frequency.t R) (kv : vector R) (zv : list C) :
  (forall z : C, exists Cw, Frequency.get_Cw_cpx self z = Ok Cw) ->
  Frequency.mats self = None ->
  length zv = length kv ->
  forall (cnt s : nat) (Yfreq : list (ndarray C)),
  (s + S cnt <= length kv)%nat ->
  for_each (seq s (S cnt))
    (fun Yfreq kk =>
       zval <- lookup zv kk ;;
       kval <- lookup kv kk ;;
       Y <- Frequency.freqresp_point linalg_solve self kval zval ;;
       Dynamic.set_slice (Frequency.outputs self) (Frequency.inputs self) Yfreq Y)
    Yfreq
  = Raise (AttributeError "'Frequency' object has no attribute 'A0'").
Proof.
  intros HCw Hm Hl cnt s Yfreq Hs.
  cbn [seq for_each]. unfold lookup at 1 2.
  destruct (nth_error zv s) as [z|] eqn:Ez; [|apply nth_error_None in Ez; lia].
  destruct (nth_error kv s) as [k|] eqn:Ek; [|apply nth_error_None in Ek; lia].
  cbn [bind]. unfold Frequency.freqresp_point, Frequency.get_mats. cbv zeta.
  destruct (HCw z) as (Cw & ->). rewrite Hm. reflexivity.
Qed.


(** [freqresp] of the frequency description.  On an instance of a lattice
    whose sizes are those of its grids, assembled from blocks of the sizes of
    the lattice, it returns one array of 3 Kzeta x 9 Kzeta entries per
    frequency, for each of the integration orders 0, 1 and 2, with or
    without the predictor, when [np.linalg.solve] solves the K x K systems.
    On an instance that was never assembled it raises the AttributeError of
    the missing [A0] at the first frequency, and returns an empty response
    when there is no frequency. *)
Theorem frequency_freqresp_completes :
  (forall (MS : MultiAeroGridSurfaces.t) (dt : R) (order : Z) (rp : bool)
          (sd : option (R * R * R)) (sp : bool) (ass : assembly.blocks R)
          (self0 self : Frequency.t R) (kv : vector R),
      Frequency.__init__ MS dt order rp sd sp = Returns self0 ->
      Frequency.assemble self0 ass = Ok self ->
      MultiAeroGridSurfaces.wf MS ->
      shape (assembly.A0 ass) = (Frequency.K self0, Frequency.K self0) ->
      shape (assembly.A0W ass) = (Frequency.K self0, Frequency.K_star self0) ->
      shape (assembly.Ducdzeta ass)
      = (Frequency.K self0, 3 * Frequency.Kzeta self0)%nat ->
      ncols (assembly.Wnv0 ass) = (3 * Frequency.Kzeta self0)%nat ->
      (forall L X, nrows L = ncols L -> nrows X = nrows L ->
         exists Y, linalg_solve L X = Ok Y /\ shape Y = shape X) ->
      exists Yfreq,
        Frequency.freqresp np_cos np_sin linalg_solve self kv = Ok Yfreq /\
        length Yfreq = length kv /\
        Forall (fun Y => shape Y = (3 * Frequency.Kzeta self,
                                    9 * Frequency.Kzeta self)%nat) Yfreq) /\
  (forall (MS : MultiAeroGridSurfaces.t) (dt : R) (order : Z) (rp : bool)
          (sd : option (R * R * R)) (sp : bool)
          (self0 : Frequency.t R) (k : R) (kv : vector R),
      Frequency.__init__ MS dt order rp sd sp = Returns self0 ->
      MultiAeroGridSurfaces.wf MS ->
      Frequency.freqresp np_cos np_sin linalg_solve self0 (k :: kv)
      = Raise (AttributeError "'Frequency' object has no attribute 'A0'") /\
      Frequency.freqresp np_cos np_sin linalg_solve self0 [] = Ok []).
Proof.
  split.
  - intros MS dt order rp sd sp ass self0 self kv H0 H Hwf HA HAW HDu HW Hsolve.
    apply frequency_init_inv in H0.
    destruct H0 as (Hord & HMS & HK & HKs & HKz & Hdt & Ho & Hin & Hout & _).
    apply frequency_assemble_inv in H.
    destruct H as (B & C0 & D & -> & HB & HC & HD).
    apply shape_eq in HDu, HA, HAW, HB, HC, HD.
    destruct HDu as (HDu1 & HDu2), HA as (HA1 & HA2), HAW as (HAW1 & HAW2).
    destruct HB as (HB1 & HB2), HC as (HC1 & HC2), HD as (HD1 & HD2).
    unfold Frequency.freqresp.
    cbn [Frequency.set_outputs Frequency.set_inputs Frequency.set_mats
         Frequency.outputs Frequency.inputs Frequency.dt Frequency.Kzeta].
    match goal with
    | |- context [for_each _ ?body _] =>
        match body with
        | context [Frequency.freqresp_point _ ?slf] => set (self := slf)
        end
    end.
    destruct (@frequency_loop_completes self kv
                (map (fun x => Cpx (np_cos x) (np_sin x))
                     (map (fun k => k * Frequency.dt self0) kv)))
      with (cnt := length kv) (s := 0%nat) (Yfreq := @nil (ndarray C))
      as (Yf & EYf & HL & HF).
    + intros k z.
      apply (@frequency_point_completes self
               (Frequency.mk_matrices (assembly.A0 ass) (assembly.A0W ass) B C0 D));
        subst self; unfold shape; cbn; try assumption;
        try (f_equal; lia); try congruence.
    + now rewrite !length_map.
    + lia.
    + constructor.
    + exists Yf. split; [exact EYf|]. split; [exact HL|]. exact HF.
  - intros MS dt order rp sd sp self0 k kv H0 Hwf.
    apply frequency_init_inv in H0.
    destruct H0 as (Hord & HMS & HK & HKs & HKz & Hdt & Ho & Hin & Hout & _ & _ & Hm & _).
    split; [|reflexivity].
    unfold Frequency.freqresp. cbn [length].
    apply frequency_loop_unassembled; try assumption.
    + intro z.
      destruct (@frequency_get_Cw_cpx_returns self0 z) as (Cw & E & _).
      * rewrite HMS. exact Hwf.
      * rewrite HMS. exact HK.
      * rewrite HMS. exact HKs.
      * eauto.
    + now rewrite !length_map.
    + cbn [length]. lia.
Qed.
End FrequencyCompletion.

Section FrequencyDelay.
Context {R : Type} {N : Num R} {RR : Real R}.
Add Field FDField : (@Field_laws (complex R) _ _).
Local Open Scope num_scope.
Variables np_cos np_sin : R -> R.
Variable linalg_solve :
  ndarray (complex R) -> ndarray (complex R) -> result (ndarray (complex R)).

Local Abbreviation C := (complex R).

(** A product with a factor that is [s] times another one, entry by
    entry. *)
Lemma matmul_scaled (X Y Y' : ndarray C) (s : C) :
  (forall k j, item Y' k j = s * item Y k j) ->
  forall i j, item (matmul X Y') i j = s * item (matmul X Y) i j.
Proof.
  intros H i j. cbn [matmul item].
  rewrite <- sum_n_mul_l. apply sum_n_ext. intros k _. rewrite H. ring.
Qed.

Lemma dot_inv (X Y Z : ndarray C) :
  dot X Y = Ok Z -> ncols X = nrows Y /\ Z = matmul X Y.
Proof.
  unfold dot. destruct (Nat.eqb_spec (ncols X) (nrows Y)); [|discriminate].
  intro H. injection H as <-. auto.
Qed.

Lemma np_add_inv (X Y Z : ndarray C) :
  np_add X Y = Ok Z -> nrows X = nrows Y /\ ncols X = ncols Y /\ Z = madd X Y.
Proof.
  unfold np_add, same_shape.
  destruct (Nat.eqb_spec (nrows X) (nrows Y)); [|discriminate].
  destruct (Nat.eqb_spec (ncols X) (ncols Y)); [|discriminate].
  cbn [andb]. intro H. injection H as <-. auto.
Qed.

Lemma freqresp_point_delay (p d : Frequency.t R) (m : Frequency.matrices R)
    (k : R) (z : C) (Y : ndarray C) :
  Frequency.mats p = Some m -> Frequency.mats d = Some m ->
  Frequency.MS d = Frequency.MS p -> Frequency.K d = Frequency.K p ->
  Frequency.K_star d = Frequency.K_star p ->
  Frequency.integr_order d = Frequency.integr_order p ->
  Frequency.dt d = Frequency.dt p ->
  Frequency.remove_predictor p = true -> Frequency.remove_predictor d = false ->
  Frequency.freqresp_point linalg_solve p k z = Ok Y ->
  exists Y',
    Frequency.freqresp_point linalg_solve d k z = Ok Y' /\
    shape Y' = shape Y /\
    forall i j,
      item Y' i j
      = power z (- 1) * (item Y i j - cplx_of (item (Frequency.Dss m) i j))
        + cplx_of (item (Frequency.Dss m) i j).
Proof.
  intros Hp Hd HMS HK HKs Ho Hdt Hrp Hrd H.
  unfold Frequency.freqresp_point, Frequency.get_Cw_cpx, Frequency.get_mats in *.
  rewrite HMS, HK, HKs, Ho, Hdt, Hd, Hrd. rewrite Hp, Hrp in H.
  cbv zeta in *. binds_inv H.
  injection E0 as <-.
  rewrite E. cbn [bind]. rewrite E1. cbn [bind]. rewrite E2. cbn [bind].
  rewrite E3. cbn [bind]. rewrite E5.
  apply dot_inv in E4 as (S4 & ->). apply dot_inv in E6 as (S6 & ->).
  apply dot_inv in E7 as (S7 & ->). apply np_add_inv in E8 as (S8a & S8b & ->).
  apply dot_inv in E9 as (S9 & ->). apply np_add_inv in E10 as (S10a & S10b & ->).
  apply np_add_inv in H as (S11a & S11b & ->).
  rewrite (dot_ok r (scale (power z (- 1)) r3)) by exact S4. cbn [bind].
  rewrite dot_ok by exact S6. cbn [bind].
  rewrite dot_ok by exact S7. cbn [bind].
  rewrite np_add_ok by (cbn in *; assumption). cbn [bind].
  rewrite dot_ok by exact S9. cbn [bind].
  rewrite np_add_ok by (cbn in *; assumption). cbn [bind].
  rewrite np_add_ok by (cbn in *; assumption).
  eexists. split; [reflexivity|]. split; [reflexivity|].
  intros i j. generalize (power z (- 1)). intro s. cbn [madd item].
  rewrite (@matmul_scaled _ r3 (scale s r3) s)
    by (intros; reflexivity).
  rewrite (@matmul_scaled _ (matmul r r3) (matmul r (scale s r3)) s)
    by (intros; apply matmul_scaled; intros; reflexivity).
  rewrite (@matmul_scaled _ (scale r5 r3) (scale r5 (scale s r3)) s)
    by (intros; cbn [scale amap item]; ring).
  cbn [astype_complex amap item]. ring.
Qed.

(** Two instances built with the same arguments but the predictor flag
    hold the same matrices after [assemble]. *)
Lemma frequency_assemble_flag (MS : MultiAeroGridSurfaces.t) (dt : R) (order : Z)
    (sd : option (R * R * R)) (sp : bool) (ass : assembly.blocks R)
    (p0 d0 p d : Frequency.t R) :
  Frequency.__init__ MS dt order true sd sp = Returns p0 ->
  Frequency.__init__ MS dt order false sd sp = Returns d0 ->
  Frequency.assemble p0 ass = Ok p -> Frequency.assemble d0 ass = Ok d ->
  exists m,
    Frequency.mats p = Some m /\ Frequency.mats d = Some m /\
    Frequency.MS d = Frequency.MS p /\ Frequency.K d = Frequency.K p /\
    Frequency.K_star d = Frequency.K_star p /\
    Frequency.integr_order d = Frequency.integr_order p /\
    Frequency.dt d = Frequency.dt p /\
    Frequency.inputs d = Frequency.inputs p /\
    Frequency.outputs d = Frequency.outputs p /\
    Frequency.remove_predictor p = true /\ Frequency.remove_predictor d = false.
Proof.
  unfold Frequency.__init__. intros Hp0 Hd0 Hp Hd.
  destruct ((order =? 1)%Z || (order =? 2)%Z || (order =? 0)%Z); [|discriminate].
  destruct (match sd with Some x => x | None => (one, one, one) end) as [[l s] de].
  injection Hp0 as <-. injection Hd0 as <-.
  unfold Frequency.assemble in Hp, Hd. cbn in Hp, Hd.
  binds_inv Hp.
  rewrite E in Hd; cbn [bind] in Hd. rewrite E0 in Hd; cbn [bind] in Hd.
  rewrite E1 in Hd; cbn [bind] in Hd. rewrite E2 in Hd; cbn [bind] in Hd.
  rewrite E3 in Hd; cbn [bind] in Hd. rewrite E4 in Hd; cbn [bind] in Hd.
  rewrite E5 in Hd; cbn [bind] in Hd. rewrite E6 in Hd; cbn [bind] in Hd.
  rewrite E7 in Hd; cbn [bind] in Hd. rewrite E8 in Hd; cbn [bind] in Hd.
  injection Hp as <-. injection Hd as <-.
  eexists. cbn. repeat split; reflexivity.
Qed.

Lemma freqresp_loop_delay (p d : Frequency.t R) (m : Frequency.matrices R)
    (kv : vector R) (zv : list C) :
  Frequency.mats p = Some m -> Frequency.mats d = Some m ->
  Frequency.MS d = Frequency.MS p -> Frequency.K d = Frequency.K p ->
  Frequency.K_star d = Frequency.K_star p ->
  Frequency.integr_order d = Frequency.integr_order p ->
  Frequency.dt d = Frequency.dt p ->
  Frequency.inputs d = Frequency.inputs p ->
  Frequency.outputs d = Frequency.outputs p ->
  Frequency.remove_predictor p = true -> Frequency.remove_predictor d = false ->
  forall (cnt s : nat) (acc acc' Yf : list (ndarray C)),
  length acc = s -> length acc' = s ->
  delayed_slices zv (Frequency.Dss m) acc acc' ->
  for_each (seq s cnt)
    (fun Yfreq kk =>
       zval <- lookup zv kk ;;
       kval <- lookup kv kk ;;
       Y <- Frequency.freqresp_point linalg_solve p kval zval ;;
       Dynamic.set_slice (Frequency.outputs p) (Frequency.inputs p) Yfreq Y) acc
  = Ok Yf ->
  exists Yf',
    for_each (seq s cnt)
      (fun Yfreq kk =>
         zval <- lookup zv kk ;;
         kval <- lookup kv kk ;;
         Y <- Frequency.freqresp_point linalg_solve d kval zval ;;
         Dynamic.set_slice (Frequency.outputs d) (Frequency.inputs d) Yfreq Y) acc'
    = Ok Yf' /\
    length Yf' = length Yf /\ length Yf = (s + cnt)%nat /\
    delayed_slices zv (Frequency.Dss m) Yf Yf'.
Proof.
  intros Hp Hd HMS HK HKs Ho Hdt Hin Hout Hrp Hrd.
  induction cnt as [|cnt IH]; intros s acc acc' Yf La La' Hrel H.
  - cbn in H. injection H as <-. exists acc'. cbn.
    repeat split; [lia | lia | | ]; apply (Hrel kk z Y Y'); assumption.
  - cbn [seq for_each] in *. binds_inv H. rename H into Hloop.
    binds_inv E. rename r0 into z0, r1 into k0, r2 into Y0, r into acc1.
    rename E0 into Ez, E1 into Ek, E2 into EY.
    rewrite Ez. cbn [bind]. rewrite Ek. cbn [bind].
    destruct (@freqresp_point_delay p d m k0 z0 Y0 Hp Hd HMS HK HKs Ho Hdt Hrp Hrd EY)
      as (Y' & EY' & HS & HI).
    rewrite EY'. cbn [bind].
    unfold Dynamic.set_slice in E |- *.
    destruct ((nrows Y0 =? Frequency.outputs p) && (ncols Y0 =? Frequency.inputs p))
      eqn:Esh; [|discriminate].
    injection E as <-.
    injection HS as HS1 HS2. rewrite <- Hout, <- Hin in Esh.
    rewrite HS1, HS2, Esh. cbn [bind].
    destruct (IH (S s) (acc ++ [Y0]) (acc' ++ [Y']) Yf) as (Yf' & EYf' & L1 & L2 & Hr).
    + rewrite length_app. cbn. lia.
    + rewrite length_app. cbn. lia.
    + intros kk z Y Y2 Hz HY HY2.
      destruct (Nat.lt_ge_cases kk s) as [Hlt|Hge].
      * rewrite nth_error_app1 in HY, HY2 by lia. apply (Hrel kk z Y Y2); assumption.
      * rewrite nth_error_app2 in HY, HY2 by lia.
        rewrite La in HY. rewrite La' in HY2.
        destruct (kk - s)%nat as [|q] eqn:Eq.
        -- cbn in HY, HY2. injection HY as <-. injection HY2 as <-.
           assert (kk = s) by lia. subst kk.
           unfold lookup in Ez. rewrite Hz in Ez. injection Ez as <-.
           split; [unfold shape; f_equal; assumption | exact HI].
        -- cbn in HY. destruct q; discriminate.
    + exact Hloop.
    + exists Yf'. repeat split; [exact EYf' | exact L1 | lia | | ];
        apply (Hr kk z Y Y'0); assumption.
Qed.

(** In the frequency description the predictor flag is a one-step delay of
    the circulation part of the response.  Take two instances built and
    assembled from the same data, one with the predictor removed and one
    without.  Wherever [freqresp] returns for the first, it returns for the
    second, with as many slices of the same shapes, and at each frequency k
    the second response minus the feed-through D is the first one minus D
    divided by z = cos(k dt) + i sin(k dt). *)
Theorem frequency_freqresp_predictor_delay
    (MS : MultiAeroGridSurfaces.t) (dt : R) (order : Z)
    (sd : option (R * R * R)) (sp : bool) (ass : assembly.blocks R)
    (p0 d0 p d : Frequency.t R) (kv : vector R) (Yf : list (ndarray C)) :
  Frequency.__init__ MS dt order true sd sp = Returns p0 ->
  Frequency.__init__ MS dt order false sd sp = Returns d0 ->
  Frequency.assemble p0 ass = Ok p -> Frequency.assemble d0 ass = Ok d ->
  Frequency.freqresp np_cos np_sin linalg_solve p kv = Ok Yf ->
  exists m Yf',
    Frequency.mats p = Some m /\ Frequency.mats d = Some m /\
    Frequency.freqresp np_cos np_sin linalg_solve d kv = Ok Yf' /\
    length Yf = length kv /\ length Yf' = length kv /\
    forall kk k Y Y',
      nth_error kv kk = Some k ->
      nth_error Yf kk = Some Y -> nth_error Yf' kk = Some Y' ->
      shape Y' = shape Y /\
      forall i j,
        item Y' i j
        = power (Cpx (np_cos (k * dt)) (np_sin (k * dt))) (- 1)
          * (item Y i j - cplx_of (item (Frequency.Dss m) i j))
          + cplx_of (item (Frequency.Dss m) i j).
Proof.
  intros Hp0 Hd0 Hp Hd H.
  assert (Hdt0 : Frequency.dt p = dt).
  { apply frequency_init_inv in Hp0.
    destruct Hp0 as (_ & _ & _ & _ & _ & Hdt0 & _).
    apply frequency_assemble_inv in Hp. destruct Hp as (B & C0 & D & -> & _).
    exact Hdt0. }
  destruct (@frequency_assemble_flag MS dt order sd sp ass p0 d0 p d Hp0 Hd0 Hp Hd)
    as (m & Hmp & Hmd & HMS & HK & HKs & Ho & Hdt & Hin & Hout & Hrp & Hrd).
  unfold Frequency.freqresp in H |- *.
  destruct (@freqresp_loop_delay p d m kv
              (map (fun x => Cpx (np_cos x) (np_sin x))
                   (map (fun k => k * Frequency.dt p) kv))
              Hmp Hmd HMS HK HKs Ho Hdt Hin Hout Hrp Hrd
              (length kv) 0%nat [] [] Yf eq_refl eq_refl)
    as (Yf' & EYf' & L1 & L2 & Hrel).
  - intros kk z Y Y' _ HY. destruct kk; discriminate.
  - exact H.
  - exists m, Yf'. rewrite Hdt.
    split; [exact Hmp|]. split; [exact Hmd|]. split; [exact EYf'|].
    split; [exact L2|]. split; [lia|].
    intros kk k Y Y' Hk HY HY'.
    apply (Hrel kk _ Y Y'); [|exact HY|exact HY'].
    rewrite map_map, nth_error_map, Hk, Hdt0. reflexivity.
Qed.
End FrequencyDelay.

(** ** The gains of the steady solver *)

Lemma for_each_seq_invariant {St : Type} (body : St -> nat -> result St)
    (I : nat -> St -> Prop) (cnt : nat) :
  forall (s : nat) (st : St),
  I s st ->
  (forall k st, s <= k < s + cnt -> I k st ->
     exists st', body st k = Ok st' /\ I (S k) st') ->
  exists st', for_each (seq s cnt) body st = Ok st' /\ I (s + cnt) st'.
Proof.
  induction cnt as [|cnt IH]; intros s st H0 Hstep.
  - exists st. rewrite Nat.add_0_r. split; [reflexivity | exact H0].
  - cbn [seq for_each].
    destruct (Hstep s st) as (st1 & E1 & H1); [lia | exact H0 |].
    rewrite E1. cbn [bind].
    destruct (IH (S s) st1 H1) as (st' & E' & H').
    + intros k st2 Hk. apply Hstep. lia.
    + exists st'. split; [exact E'|]. now rewrite <- Nat.add_succ_comm.
Qed.

Lemma vertex_position_split (M N cc mm nn : nat) :
  vertex_position M N cc mm nn = cc * ((M + 1) * (N + 1)) + (mm * (N + 1) + nn).
Proof. unfold vertex_position. nia. Qed.

Lemma vertex_position_lt (M N cc mm nn : nat) :
  cc < 3 -> mm <= M -> nn <= N ->
  vertex_position M N cc mm nn < 3 * ((M + 1) * (N + 1)).
Proof. intros. rewrite vertex_position_split. nia. Qed.

Lemma radix_inj (d a b a' b' : nat) :
  b < d -> b' < d -> a * d + b = a' * d + b' -> a = a' /\ b = b'.
Proof.
  intros Hb Hb' H.
  assert (a = a').
  { destruct (Nat.lt_trichotomy a a') as [Hlt|[Heq|Hgt]]; [|exact Heq|].
    - assert ((a + 1) * d <= a' * d) by (apply Nat.mul_le_mono_r; lia). lia.
    - assert ((a' + 1) * d <= a * d) by (apply Nat.mul_le_mono_r; lia). lia. }
  subst a'. split; [reflexivity | lia].
Qed.

Lemma vertex_position_inj (M N cc mm nn cc' mm' nn' : nat) :
  mm <= M -> nn <= N -> mm' <= M -> nn' <= N ->
  vertex_position M N cc mm nn = vertex_position M N cc' mm' nn' ->
  cc = cc' /\ mm = mm' /\ nn = nn'.
Proof.
  unfold vertex_position. intros Hm Hn Hm' Hn' H.
  apply radix_inj in H; [|lia|lia]. destruct H as (H & ->).
  apply radix_inj in H; [|lia|lia]. tauto.
Qed.

Lemma ravel_vertex (M N cc mm nn : nat) :
  cc < 3 -> mm <= M -> nn <= N ->
  ravel_multi_index [cc; mm; nn] [3; M + 1; N + 1]
  = Ok (vertex_position M N cc mm nn).
Proof.
  intros Hc Hm Hn. unfold ravel_multi_index, vertex_position. cbn [ravel_from].
  rewrite (proj2 (Nat.ltb_lt cc 3)) by lia.
  rewrite (proj2 (Nat.ltb_lt mm (M + 1))) by lia.
  rewrite (proj2 (Nat.ltb_lt nn (N + 1))) by lia.
  f_equal.
Qed.

Section StaticIndices.
Context {R : Type} {N : Num R}.
Variable Surfs_zeta : nat -> nat -> nat -> nat -> R.

Lemma vertex_indices_ok (start M N0 mm nn : nat) :
  mm <= M -> nn <= N0 ->
  Static.vertex_indices start M N0 mm nn
  = Ok [start + vertex_position M N0 0 mm nn;
        start + vertex_position M N0 1 mm nn;
        start + vertex_position M N0 2 mm nn].
Proof.
  intros Hm Hn. unfold Static.vertex_indices. cbn [seq list_comp].
  rewrite !ravel_vertex by lia. reflexivity.
Qed.
End StaticIndices.

Lemma sum_firstn_S (l : list nat) (ss k : nat) :
  nth_error l ss = Some k -> sum (firstn (S ss) l) = sum (firstn ss l) + k.
Proof.
  revert ss. induction l as [|a l IH]; intros [|ss] H; try discriminate.
  - cbn in H. injection H as ->. cbn [firstn]. rewrite sum_cons.
    change (sum []) with 0. lia.
  - cbn [nth_error] in H. rewrite !firstn_cons, !sum_cons.
    rewrite (IH ss H). lia.
Qed.

Lemma sum_firstn_le (l : list nat) (ss : nat) : sum (firstn ss l) <= sum l.
Proof.
  revert ss. induction l as [|a l IH]; intros [|ss];
    rewrite ?firstn_nil, ?firstn_O, ?firstn_cons, ?sum_cons;
    try (change (sum []) with 0; lia).
  specialize (IH ss). lia.
Qed.

Lemma sum_firstn_mono (l : list nat) (a b : nat) :
  a <= b -> sum (firstn a l) <= sum (firstn b l).
Proof.
  revert a b. induction l as [|x l IH]; intros [|a] [|b] H;
    rewrite ?firstn_nil, ?firstn_O, ?firstn_cons, ?sum_cons;
    try (change (sum []) with 0; lia).
  specialize (IH a b). lia.
Qed.

Lemma sizes_ok_vertices (dl dsl : list (nat * nat)) (kl ksl kzl kzsl : list nat) :
  MultiAeroGridSurfaces.sizes_ok dl dsl kl ksl kzl kzsl ->
  length kzl = length dl /\
  forall ss M N,
    nth_error dl ss = Some (M, N) -> nth_error kzl ss = Some ((M + 1) * (N + 1)).
Proof.
  induction 1 as [|d ds k ks kz kzs dl dsl kl ksl kzl kzsl Hs Hrest IH].
  - split; [reflexivity|]. intros [|ss]; discriminate.
  - destruct IH as (IHl & IHn). split; [cbn; now rewrite IHl|].
    intros [|ss] M N Hd.
    + cbn in Hd. injection Hd as ->.
      destruct Hs as (_ & _ & _ & _ & -> & _). reflexivity.
    + cbn [nth_error] in *. now apply IHn.
Qed.

Section FancyIndexingFacts.
Context {T : Type} {N : Num T}.
Local Open Scope num_scope.

Lemma iadd_pairs_3 (X : ndarray T) (i0 i1 i2 : nat) (v : T) :
  ncols X = 3%nat ->
  (i0 < nrows X)%nat -> (i1 < nrows X)%nat -> (i2 < nrows X)%nat ->
  i0 <> i1 -> i0 <> i2 -> i1 <> i2 ->
  exists Y,
    iadd_pairs X [i0; i1; i2] [0; 1; 2]%nat v = Ok Y /\
    shape Y = shape X /\
    forall i c,
      item Y i c
      = if ((i =? i0) && (c =? 0)) || ((i =? i1) && (c =? 1))
           || ((i =? i2) && (c =? 2))
        then item X i c + v else item X i c.
Proof.
  intros Hc H0 H1 H2 D01 D02 D12.
  unfold iadd_pairs, rows_ok, cols_ok. cbn [length forallb Nat.eqb].
  rewrite Hc.
  rewrite (proj2 (Nat.ltb_lt i0 _) H0), (proj2 (Nat.ltb_lt i1 _) H1),
          (proj2 (Nat.ltb_lt i2 _) H2).
  cbn [andb Nat.ltb Nat.leb combine fold_left fst snd].
  eexists. split; [reflexivity|]. split; [reflexivity|].
  intros i c. cbn [set_entry item].
  destruct c as [|[|[|c]]]; cbn [Nat.eqb andb orb];
    rewrite ?andb_false_r, ?andb_true_r, ?orb_false_r;
    destruct (Nat.eqb_spec i i0), (Nat.eqb_spec i i1), (Nat.eqb_spec i i2);
    subst; cbn [orb]; try reflexivity; try congruence.
Qed.

Lemma setitem_rows_at_3 (X S : ndarray T) (i0 i1 i2 : nat) :
  ncols X = 3%nat -> shape S = (3, 3)%nat ->
  (i0 < nrows X)%nat -> (i1 < nrows X)%nat -> (i2 < nrows X)%nat ->
  i0 <> i1 -> i0 <> i2 -> i1 <> i2 ->
  exists Y,
    setitem_rows_at X [i0; i1; i2] S = Ok Y /\
    shape Y = shape X /\
    forall i c, (c < 3)%nat ->
      item Y i c
      = if i =? i0 then item S 0 c
        else if i =? i1 then item S 1 c
        else if i =? i2 then item S 2 c
        else item X i c.
Proof.
  intros Hc HS H0 H1 H2 D01 D02 D12.
  apply shape_eq in HS. destruct HS as (HS1 & HS2).
  unfold setitem_rows_at, rows_ok. cbn [length forallb].
  rewrite Hc, HS1, HS2.
  rewrite (proj2 (Nat.ltb_lt i0 _) H0), (proj2 (Nat.ltb_lt i1 _) H1),
          (proj2 (Nat.ltb_lt i2 _) H2).
  cbn [andb Nat.eqb seq fold_left nth].
  eexists. split; [reflexivity|]. split; [reflexivity|].
  intros i c Hlt. cbn [set_entry item].
  destruct c as [|[|[|c]]]; [| | |lia]; cbn [Nat.eqb andb];
    rewrite ?andb_false_r, ?andb_true_r;
    destruct (Nat.eqb_spec i i0), (Nat.eqb_spec i i1), (Nat.eqb_spec i i2);
    subst; try reflexivity; try congruence.
Qed.
End FancyIndexingFacts.

Section FancyAssignmentFacts.
Context {T : Type} {N : Num T}.

Lemma setitem_pairs_3 (X : ndarray T) (r0 r1 r2 c0 c1 c2 : nat) (v : T) :
  (r0 < nrows X)%nat -> (r1 < nrows X)%nat -> (r2 < nrows X)%nat ->
  (c0 < ncols X)%nat -> (c1 < ncols X)%nat -> (c2 < ncols X)%nat ->
  exists Y,
    setitem_pairs X [r0; r1; r2] [c0; c1; c2] v = Ok Y /\
    shape Y = shape X /\
    forall i j,
      item Y i j
      = if ((i =? r0) && (j =? c0)) || ((i =? r1) && (j =? c1))
           || ((i =? r2) && (j =? c2))
        then v else item X i j.
Proof.
  intros R0 R1 R2 C0 C1 C2.
  unfold setitem_pairs, rows_ok, cols_ok. cbn [length forallb Nat.eqb].
  rewrite (proj2 (Nat.ltb_lt r0 _) R0), (proj2 (Nat.ltb_lt r1 _) R1),
          (proj2 (Nat.ltb_lt r2 _) R2), (proj2 (Nat.ltb_lt c0 _) C0),
          (proj2 (Nat.ltb_lt c1 _) C1), (proj2 (Nat.ltb_lt c2 _) C2).
  cbn [andb combine fold_left fst snd].
  eexists. split; [reflexivity|]. split; [reflexivity|].
  intros i j. cbn [set_entry item].
  destruct ((i =? r2) && (j =? c2)), ((i =? r1) && (j =? c1)),
           ((i =? r0) && (j =? c0)); reflexivity.
Qed.

Lemma setitem_ix_3 (X S : ndarray T) (r0 r1 r2 c0 c1 c2 : nat) :
  shape S = (3, 3)%nat ->
  (r0 < nrows X)%nat -> (r1 < nrows X)%nat -> (r2 < nrows X)%nat ->
  (c0 < ncols X)%nat -> (c1 < ncols X)%nat -> (c2 < ncols X)%nat ->
  r0 <> r1 -> r0 <> r2 -> r1 <> r2 -> c0 <> c1 -> c0 <> c2 -> c1 <> c2 ->
  exists Y,
    setitem_ix X [r0; r1; r2] [c0; c1; c2] S = Ok Y /\
    shape Y = shape X /\
    forall i j,
      item Y i j
      = let a := if i =? r0 then Some 0%nat else if i =? r1 then Some 1%nat
                 else if i =? r2 then Some 2%nat else None in
        let b := if j =? c0 then Some 0%nat else if j =? c1 then Some 1%nat
                 else if j =? c2 then Some 2%nat else None in
        match a, b with
        | Some a, Some b => item S a b
        | _, _ => item X i j
        end.
Proof.
  intros HS R0 R1 R2 C0 C1 C2 D01 D02 D12 E01 E02 E12.
  apply shape_eq in HS. destruct HS as (HS1 & HS2).
  unfold setitem_ix, rows_ok, cols_ok. cbn [length forallb].
  rewrite HS1, HS2.
  rewrite (proj2 (Nat.ltb_lt r0 _) R0), (proj2 (Nat.ltb_lt r1 _) R1),
          (proj2 (Nat.ltb_lt r2 _) R2), (proj2 (Nat.ltb_lt c0 _) C0),
          (proj2 (Nat.ltb_lt c1 _) C1), (proj2 (Nat.ltb_lt c2 _) C2).
  cbn [andb Nat.eqb seq fold_left nth].
  eexists. split; [reflexivity|]. split; [reflexivity|].
  intros i j. cbn [set_entry item]. cbv zeta.
  destruct (Nat.eqb_spec i r0), (Nat.eqb_spec i r1), (Nat.eqb_spec i r2);
    subst; try congruence;
    destruct (Nat.eqb_spec j c0), (Nat.eqb_spec j c1), (Nat.eqb_spec j c2);
    subst; try congruence; cbn [andb]; reflexivity.
Qed.
End FancyAssignmentFacts.

Lemma ravel_section (N0 cc nn : nat) :
  cc < 3 -> nn <= N0 ->
  ravel_multi_index [cc; nn] [3; N0 + 1] = Ok (section_position N0 cc nn).
Proof.
  intros Hc Hn. unfold ravel_multi_index, section_position. cbn [ravel_from].
  rewrite (proj2 (Nat.ltb_lt cc 3)) by lia.
  rewrite (proj2 (Nat.ltb_lt nn (N0 + 1))) by lia.
  reflexivity.
Qed.

Lemma sum_firstn_all (l : list nat) : sum (firstn (length l) l) = sum l.
Proof. now rewrite firstn_all. Qed.

Lemma visited_next (s n m ss mm nn : nat) :
  visited s n (S m) ss mm nn <->
  visited s n m ss mm nn \/ (ss = s /\ nn = n /\ mm = m).
Proof. unfold visited. lia. Qed.

(** *** Indices of a lattice whose sizes are those of its grids *)

Section LatticeGains.
Variable MS : MultiAeroGridSurfaces.t.
Hypothesis Hwf : MultiAeroGridSurfaces.wf MS.

Lemma vertex_offset_S (ss M N0 : nat) :
  nth_error (MultiAeroGridSurfaces.dimensions MS) ss = Some (M, N0) ->
  vertex_offset MS (S ss) = (vertex_offset MS ss + 3 * ((M + 1) * (N0 + 1)))%nat.
Proof.
  intro Hd. unfold vertex_offset.
  destruct (@sizes_ok_vertices _ _ _ _ _ _ Hwf) as (_ & Hn).
  rewrite (@sum_firstn_S _ ss _ (Hn ss M N0 Hd)). lia.
Qed.

Lemma vertex_offset_mono (a b : nat) :
  (a <= b)%nat -> (vertex_offset MS a <= vertex_offset MS b)%nat.
Proof.
  intro H. unfold vertex_offset.
  pose proof (@sum_firstn_mono (MultiAeroGridSurfaces.KKzeta MS) a b H). lia.
Qed.

Lemma vertex_offset_le (a : nat) :
  (vertex_offset MS a <= 3 * sum (MultiAeroGridSurfaces.KKzeta MS))%nat.
Proof.
  unfold vertex_offset.
  pose proof (sum_firstn_le (MultiAeroGridSurfaces.KKzeta MS) a). lia.
Qed.

Lemma vertex_entry_range (ss cc mm nn i : nat) :
  vertex_entry MS ss cc mm nn i ->
  (vertex_offset MS ss <= i < vertex_offset MS (S ss))%nat /\
  (i < 3 * sum (MultiAeroGridSurfaces.KKzeta MS))%nat.
Proof.
  intros (M & N0 & Hd & Hc & Hm & Hn & ->).
  pose proof (@vertex_position_lt M N0 cc mm nn Hc Hm Hn).
  pose proof (vertex_offset_le (S ss)).
  rewrite (@vertex_offset_S ss M N0 Hd) in *. lia.
Qed.

(** An entry holds one coordinate of one vertex. *)
Lemma vertex_entry_inj (ss cc mm nn ss' cc' mm' nn' i : nat) :
  vertex_entry MS ss cc mm nn i -> vertex_entry MS ss' cc' mm' nn' i ->
  ss = ss' /\ cc = cc' /\ mm = mm' /\ nn = nn'.
Proof.
  intros H H'.
  pose proof (@vertex_entry_range ss cc mm nn i H) as (Hr & _).
  pose proof (@vertex_entry_range ss' cc' mm' nn' i H') as (Hr' & _).
  assert (ss = ss').
  { destruct (Nat.lt_trichotomy ss ss') as [Hlt|[Heq|Hgt]]; [|exact Heq|].
    - pose proof (@vertex_offset_mono (S ss) ss'). lia.
    - pose proof (@vertex_offset_mono (S ss') ss). lia. }
  subst ss'. split; [reflexivity|].
  destruct H as (M & N0 & Hd & Hc & Hm & Hn & E).
  destruct H' as (M' & N0' & Hd' & Hc' & Hm' & Hn' & E').
  rewrite Hd in Hd'. injection Hd' as <- <-.
  apply (@vertex_position_inj M N0 cc mm nn cc' mm' nn'); try assumption. lia.
Qed.

Lemma vertex_entry_bounds (ss cc mm nn i M N0 : nat) :
  vertex_entry MS ss cc mm nn i ->
  nth_error (MultiAeroGridSurfaces.dimensions MS) ss = Some (M, N0) ->
  (mm <= M)%nat /\ (nn <= N0)%nat.
Proof.
  intros (M' & N' & Hd' & _ & Hm & Hn & _) Hd.
  rewrite Hd in Hd'. injection Hd' as <- <-. auto.
Qed.

Lemma lattice_lookups (ss : nat) :
  (ss < MultiAeroGridSurfaces.n_surf MS)%nat ->
  exists M N0,
    nth_error (MultiAeroGridSurfaces.dimensions MS) ss = Some (M, N0) /\
    lookup (MultiAeroGridSurfaces.MM MS) ss = Ok M /\
    lookup (MultiAeroGridSurfaces.NN MS) ss = Ok N0 /\
    lookup (MultiAeroGridSurfaces.KKzeta MS) ss = Ok ((M + 1) * (N0 + 1))%nat.
Proof.
  unfold MultiAeroGridSurfaces.n_surf. intro Hs.
  destruct (nth_error (MultiAeroGridSurfaces.dimensions MS) ss) as [[M N0]|] eqn:Hd;
    [|apply nth_error_None in Hd; lia].
  exists M, N0. split; [reflexivity|].
  destruct (@sizes_ok_vertices _ _ _ _ _ _ Hwf) as (_ & Hk).
  unfold lookup, MultiAeroGridSurfaces.MM, MultiAeroGridSurfaces.NN.
  rewrite !nth_error_map, Hd, (Hk ss M N0 Hd). cbn. auto.
Qed.

Lemma section_offset_S (ss M N0 : nat) :
  nth_error (MultiAeroGridSurfaces.dimensions MS) ss = Some (M, N0) ->
  section_offset MS (S ss) = (section_offset MS ss + 3 * (N0 + 1))%nat.
Proof.
  intro Hd. unfold section_offset, MultiAeroGridSurfaces.NN.
  rewrite (@sum_firstn_S _ ss (N0 + 1)%nat); [lia|].
  rewrite !nth_error_map, Hd. reflexivity.
Qed.

Lemma section_offset_mono (a b : nat) :
  (a <= b)%nat -> (section_offset MS a <= section_offset MS b)%nat.
Proof.
  intro H. unfold section_offset.
  pose proof (@sum_firstn_mono
                (map (fun n => (n + 1)%nat) (MultiAeroGridSurfaces.NN MS)) a b H). lia.
Qed.

Lemma section_offset_le (a : nat) :
  (section_offset MS a
   <= 3 * sum (map (fun n => (n + 1)%nat) (MultiAeroGridSurfaces.NN MS)))%nat.
Proof.
  unfold section_offset.
  pose proof (sum_firstn_le
                (map (fun n => (n + 1)%nat) (MultiAeroGridSurfaces.NN MS)) a). lia.
Qed.

Lemma section_entry_range (ss cc nn i : nat) :
  section_entry MS ss cc nn i ->
  (section_offset MS ss <= i < section_offset MS (S ss))%nat /\
  (i < 3 * sum (map (fun n => (n + 1)%nat) (MultiAeroGridSurfaces.NN MS)))%nat.
Proof.
  intros (M & N0 & Hd & Hc & Hn & ->).
  pose proof (section_offset_le (S ss)).
  rewrite (@section_offset_S ss M N0 Hd) in *.
  unfold section_position. nia.
Qed.

(** A row holds one coordinate of one section. *)
Lemma section_entry_inj (ss cc nn ss' cc' nn' i : nat) :
  section_entry MS ss cc nn i -> section_entry MS ss' cc' nn' i ->
  ss = ss' /\ cc = cc' /\ nn = nn'.
Proof.
  intros H H'.
  pose proof (@section_entry_range ss cc nn i H) as (Hr & _).
  pose proof (@section_entry_range ss' cc' nn' i H') as (Hr' & _).
  assert (ss = ss').
  { destruct (Nat.lt_trichotomy ss ss') as [Hlt|[Heq|Hgt]]; [|exact Heq|].
    - pose proof (@section_offset_mono (S ss) ss'). lia.
    - pose proof (@section_offset_mono (S ss') ss). lia. }
  subst ss'. split; [reflexivity|].
  destruct H as (M & N0 & Hd & Hc & Hn & E).
  destruct H' as (M' & N0' & Hd' & Hc' & Hn' & E').
  rewrite Hd in Hd'. injection Hd' as <- <-.
  unfold section_position in *.
  apply (@radix_inj (N0 + 1) cc nn cc' nn'); lia.
Qed.

Lemma count_sections_value :
  Static.count_sections MS
  = Ok (sum (map (fun n => (n + 1)%nat) (MultiAeroGridSurfaces.NN MS))).
Proof.
  unfold Static.count_sections.
  destruct (@for_each_seq_invariant nat
              (fun Ntot ss => n <- lookup (MultiAeroGridSurfaces.NN MS) ss ;;
                              Ok (Ntot + (n + 1))%nat)
              (fun k Ntot =>
                 Ntot = sum (firstn k (map (fun n => (n + 1)%nat)
                                           (MultiAeroGridSurfaces.NN MS))))
              (MultiAeroGridSurfaces.n_surf MS) 0%nat 0%nat eq_refl)
    as (Ntot & E & H).
  - intros k st Hk ->.
    destruct (@lattice_lookups k) as (M & N0 & Hd & _ & EN & _); [lia|].
    rewrite EN. cbn [bind]. eexists. split; [reflexivity|].
    rewrite (@sum_firstn_S _ k (N0 + 1)%nat); [reflexivity|].
    unfold MultiAeroGridSurfaces.NN. rewrite !nth_error_map, Hd. reflexivity.
  - rewrite E, H. f_equal. cbn [Nat.add].
    unfold MultiAeroGridSurfaces.n_surf, MultiAeroGridSurfaces.NN.
    rewrite <- (length_map snd), <- (length_map (fun n => (n + 1)%nat)).
    apply sum_firstn_all.
Qed.

Lemma vertex_column_eq (ss M N0 cc mm nn : nat) :
  nth_error (MultiAeroGridSurfaces.dimensions MS) ss = Some (M, N0) ->
  vertex_column MS ss cc mm nn
  = (vertex_offset MS ss + vertex_position M N0 cc mm nn)%nat.
Proof.
  intro Hd. unfold vertex_column.
  rewrite (nth_error_nth _ _ _ Hd). reflexivity.
Qed.

Lemma vertex_column_entry (ss M N0 cc mm nn : nat) :
  nth_error (MultiAeroGridSurfaces.dimensions MS) ss = Some (M, N0) ->
  (cc < 3)%nat -> (mm <= M)%nat -> (nn <= N0)%nat ->
  vertex_entry MS ss cc mm nn (vertex_column MS ss cc mm nn).
Proof.
  intros Hd Hc Hm Hn. exists M, N0. repeat split; auto.
  now apply vertex_column_eq.
Qed.

Section RigidMotionGains.
Context {R : Type} {N : Num R} {F : Field R}.
Add Field RMField : Field_laws.
Local Open Scope num_scope.
Variable Surfs_zeta : nat -> nat -> nat -> nat -> R.
Variable zeta_rotation : vector R.
Hypothesis Hrot : length zeta_rotation = 3%nat.

Lemma rigid_vertex_step (s M N0 n m : nat) (g : Static.rigid_gains R) :
  nth_error (MultiAeroGridSurfaces.dimensions MS) s = Some (M, N0) ->
  (n <= N0)%nat -> (m <= M)%nat ->
  rigid_invariant Surfs_zeta MS zeta_rotation (visited s n m) g ->
  exists g',
    Static.rigid_vertex Surfs_zeta s M N0 n zeta_rotation (vertex_offset MS s) g m
    = Ok g' /\
    rigid_invariant Surfs_zeta MS zeta_rotation (visited s n (S m)) g'.
Proof.
  intros Hd Hn Hm (S1 & S2 & S3 & S4 & Hin & Hout).
  apply shape_eq in S1, S2, S3, S4.
  destruct S1 as (S1r & S1c), S2 as (S2r & S2c), S3 as (S3r & S3c), S4 as (S4r & S4c).
  set (V := fun c => (vertex_offset MS s + vertex_position M N0 c m n)%nat).
  assert (HV : forall c, (c < 3)%nat -> vertex_entry MS s c m n (V c)).
  { intros c Hc. exists M, N0. repeat split; auto. }
  assert (HVr : forall c, (c < 3)%nat ->
                (V c < 3 * sum (MultiAeroGridSurfaces.KKzeta MS))%nat).
  { intros c Hc. apply (@vertex_entry_range s c m n (V c) (HV c Hc)). }
  assert (HVd : forall a b, (a < 3)%nat -> (b < 3)%nat -> V a = V b -> a = b).
  { intros a b Ha Hb E.
    apply (@vertex_entry_inj s a m n s b m n (V a) (HV a Ha)).
    rewrite E. exact (HV b Hb). }
  assert (Hnew : forall c, (c < 3)%nat ->
            forall ss cc mm nn, vertex_entry MS ss cc mm nn (V c) ->
            ~ visited s n m ss mm nn).
  { intros c Hc ss cc mm nn Ht Hv.
    destruct (@vertex_entry_inj ss cc mm nn s c m n (V c) Ht (HV c Hc))
      as (-> & -> & -> & ->).
    unfold visited in Hv. lia. }
  unfold Static.rigid_vertex.
  rewrite vertex_indices_ok by assumption. cbn [bind]. fold (V 0%nat) (V 1%nat) (V 2%nat).
  assert (D01 : V 0%nat <> V 1%nat) by (intro E; apply HVd in E; lia).
  assert (D02 : V 0%nat <> V 2%nat) by (intro E; apply HVd in E; lia).
  assert (D12 : V 1%nat <> V 2%nat) by (intro E; apply HVd in E; lia).
  pose proof (HVr 0%nat ltac:(lia)) as R0.
  pose proof (HVr 1%nat ltac:(lia)) as R1.
  pose proof (HVr 2%nat ltac:(lia)) as R2.
  destruct (@iadd_pairs_3 R N (Static.Ktra g) (V 0%nat) (V 1%nat) (V 2%nat) one)
    as (Kt & EKt & SKt & IKt); try lia.
  destruct (@iadd_pairs_3 R N (Static.Ktra_dot g) (V 0%nat) (V 1%nat) (V 2%nat) one)
    as (Ktd & EKtd & SKtd & IKtd); try lia.
  rewrite EKt. cbn [bind]. rewrite EKtd. cbn [bind].
  unfold vsub, vminus, tabulate, Static.zeta_node. cbn [length].
  rewrite Hrot. cbn [Nat.eqb bind seq map unpack3].
  match goal with |- context [setitem_rows_at _ _ ?S] => set (D := S) end.
  destruct (@setitem_rows_at_3 R (Static.Krot g) D (V 0%nat) (V 1%nat) (V 2%nat))
    as (Kr & EKr & SKr & IKr); try lia; try reflexivity.
  destruct (@setitem_rows_at_3 R (Static.Krot_dot g) D (V 0%nat) (V 1%nat) (V 2%nat))
    as (Krd & EKrd & SKrd & IKrd); try lia; try reflexivity.
  rewrite EKr. cbn [bind]. rewrite EKrd. cbn [bind].
  eexists. split; [reflexivity|].
  unfold rigid_invariant.
  cbn [Static.Ktra Static.Ktra_dot Static.Krot Static.Krot_dot].
  rewrite SKt, SKtd, SKr, SKrd. unfold shape.
  rewrite S1r, S1c, S2r, S2c, S3r, S3c, S4r, S4c.
  do 4 (split; [reflexivity|]).
  split.
  - intros ss cc mm nn i Ht Hv c Hc.
    apply visited_next in Hv. destruct Hv as [Hv | (-> & -> & ->)].
    + assert (Hi : forall a, (a < 3)%nat -> i <> V a).
      { intros a Ha E. subst i. exact (Hnew a Ha ss cc mm nn Ht Hv). }
      rewrite IKt, IKtd, IKr, IKrd by exact Hc.
      rewrite (proj2 (Nat.eqb_neq i (V 0%nat)) (Hi 0%nat ltac:(lia))).
      rewrite (proj2 (Nat.eqb_neq i (V 1%nat)) (Hi 1%nat ltac:(lia))).
      rewrite (proj2 (Nat.eqb_neq i (V 2%nat)) (Hi 2%nat ltac:(lia))).
      cbn [andb orb]. exact (Hin ss cc mm nn i Ht Hv c Hc).
    + assert (i = V cc).
      { destruct Ht as (M' & N' & Hd' & _ & _ & _ & ->).
        rewrite Hd in Hd'. injection Hd' as <- <-. reflexivity. }
      subst i.
      assert (Hcc : (cc < 3)%nat) by (destruct Ht as (? & ? & _ & Hcc & _); exact Hcc).
      rewrite IKt, IKtd, IKr, IKrd by exact Hc.
      destruct (Hout (V cc) (Hnew cc Hcc) c) as (Z1 & Z2). rewrite Z1, Z2.
      cbv zeta. unfold cross_matrix, vminus, tabulate, Static.zeta_node.
      cbn [length seq map]. fold D.
      pose proof (proj2 (Nat.eqb_neq _ _) D01) as B01.
      pose proof (proj2 (Nat.eqb_neq _ _) D02) as B02.
      pose proof (proj2 (Nat.eqb_neq _ _) D12) as B12.
      assert (B10 : (V 1%nat =? V 0%nat) = false) by (apply Nat.eqb_neq; congruence).
      assert (B20 : (V 2%nat =? V 0%nat) = false) by (apply Nat.eqb_neq; congruence).
      assert (B21 : (V 2%nat =? V 1%nat) = false) by (apply Nat.eqb_neq; congruence).
      destruct cc as [|[|[|cc]]]; [| | |lia];
        destruct c as [|[|[|c]]]; try lia;
        rewrite ?Nat.eqb_refl, ?B01, ?B02, ?B12, ?B10, ?B20, ?B21;
        cbn [andb orb Nat.eqb];
        repeat split; try reflexivity; ring.
  - intros i Hnot c.
    assert (Hi : forall a, (a < 3)%nat -> i <> V a).
    { intros a Ha E. subst i.
      apply (Hnot s a m n (HV a Ha)). apply visited_next. right. auto. }
    rewrite IKt, IKtd.
    rewrite (proj2 (Nat.eqb_neq i (V 0%nat)) (Hi 0%nat ltac:(lia))).
    rewrite (proj2 (Nat.eqb_neq i (V 1%nat)) (Hi 1%nat ltac:(lia))).
    rewrite (proj2 (Nat.eqb_neq i (V 2%nat)) (Hi 2%nat ltac:(lia))).
    cbn [andb orb]. apply Hout.
    intros ss cc mm nn Ht Hv. apply (Hnot ss cc mm nn Ht).
    apply visited_next. left. exact Hv.
Qed.

Lemma rigid_invariant_ext (P Q : nat -> nat -> nat -> Prop) (g : Static.rigid_gains R) :
  (forall ss cc mm nn i, vertex_entry MS ss cc mm nn i -> (P ss mm nn <-> Q ss mm nn)) ->
  rigid_invariant Surfs_zeta MS zeta_rotation P g ->
  rigid_invariant Surfs_zeta MS zeta_rotation Q g.
Proof.
  intros HPQ (S1 & S2 & S3 & S4 & Hin & Hout).
  unfold rigid_invariant. do 4 (split; [assumption|]). split.
  - intros ss cc mm nn i Ht HQ. apply (Hin ss cc mm nn i Ht).
    apply (HPQ ss cc mm nn i Ht). exact HQ.
  - intros i Hnot. apply Hout. intros ss cc mm nn Ht HP.
    apply (Hnot ss cc mm nn Ht). apply (HPQ ss cc mm nn i Ht). exact HP.
Qed.

Lemma rigid_section_loop (s M N0 n : nat) (g : Static.rigid_gains R) :
  nth_error (MultiAeroGridSurfaces.dimensions MS) s = Some (M, N0) ->
  (n <= N0)%nat ->
  rigid_invariant Surfs_zeta MS zeta_rotation (visited s n 0) g ->
  exists g',
    for_each (seq 0 (M + 1))
      (Static.rigid_vertex Surfs_zeta s M N0 n zeta_rotation (vertex_offset MS s)) g
    = Ok g' /\
    rigid_invariant Surfs_zeta MS zeta_rotation (visited s (S n) 0) g'.
Proof.
  intros Hd Hn H0.
  destruct (@for_each_seq_invariant _
              (Static.rigid_vertex Surfs_zeta s M N0 n zeta_rotation (vertex_offset MS s))
              (fun m g => rigid_invariant Surfs_zeta MS zeta_rotation (visited s n m) g)
              (M + 1) 0%nat g H0) as (g' & E & H').
  - intros m g1 Hm H1. apply rigid_vertex_step; try assumption. lia.
  - exists g'. split; [exact E|].
    apply (@rigid_invariant_ext (visited s n (0 + (M + 1)))); [|exact H'].
    intros ss cc mm nn i Ht. unfold visited.
    destruct (Nat.eq_dec ss s) as [->|Hne]; [|lia].
    destruct (@vertex_entry_bounds s cc mm nn i M N0 Ht Hd). lia.
Qed.

Lemma rigid_sections_loop (s M N0 : nat) (g : Static.rigid_gains R) :
  nth_error (MultiAeroGridSurfaces.dimensions MS) s = Some (M, N0) ->
  rigid_invariant Surfs_zeta MS zeta_rotation (visited s 0 0) g ->
  exists g',
    for_each (seq 0 (N0 + 1))
      (fun g nn =>
         for_each (seq 0 (M + 1))
           (Static.rigid_vertex Surfs_zeta s M N0 nn zeta_rotation (vertex_offset MS s)) g)
      g
    = Ok g' /\
    rigid_invariant Surfs_zeta MS zeta_rotation (visited (S s) 0 0) g'.
Proof.
  intros Hd H0.
  destruct (@for_each_seq_invariant _
              (fun g nn =>
                 for_each (seq 0 (M + 1))
                   (Static.rigid_vertex Surfs_zeta s M N0 nn zeta_rotation
                      (vertex_offset MS s)) g)
              (fun n g => rigid_invariant Surfs_zeta MS zeta_rotation (visited s n 0) g)
              (N0 + 1) 0%nat g H0) as (g' & E & H').
  - intros n g1 Hn H1. apply rigid_section_loop; try assumption. lia.
  - exists g'. split; [exact E|].
    apply (@rigid_invariant_ext (visited s (0 + (N0 + 1)) 0)); [|exact H'].
    intros ss cc mm nn i Ht. unfold visited.
    destruct (Nat.eq_dec ss s) as [->|Hne]; [|lia].
    destruct (@vertex_entry_bounds s cc mm nn i M N0 Ht Hd). lia.
Qed.

Lemma rigid_surface_step (s Kz : nat) (g : Static.rigid_gains R) :
  (s < MultiAeroGridSurfaces.n_surf MS)%nat ->
  Kz = vertex_offset MS s ->
  rigid_invariant Surfs_zeta MS zeta_rotation (visited s 0 0) g ->
  exists Kz' g',
    Static.rigid_surface Surfs_zeta MS zeta_rotation (Kz, g) s = Ok (Kz', g') /\
    Kz' = vertex_offset MS (S s) /\
    rigid_invariant Surfs_zeta MS zeta_rotation (visited (S s) 0 0) g'.
Proof.
  intros Hs -> H0.
  destruct (lattice_lookups Hs) as (M & N0 & Hd & EM & EN & EK).
  unfold Static.rigid_surface. rewrite EM, EN. cbn [bind].
  destruct (@rigid_sections_loop s M N0 g Hd H0) as (g' & E & H').
  rewrite E. cbn [bind]. rewrite EK. cbn [bind].
  eexists _, g'. split; [reflexivity|]. split; [|exact H'].
  rewrite (@vertex_offset_S s M N0 Hd). reflexivity.
Qed.

Lemma rigid_gains_invariant :
  exists g,
    Static.get_rigid_motion_gains Surfs_zeta (Static.__init__ MS) zeta_rotation = Ok g /\
    rigid_invariant Surfs_zeta MS zeta_rotation (fun _ _ _ => True) g.
Proof.
  unfold Static.get_rigid_motion_gains.
  cbn [Static.MS Static.__init__ Static.Kzeta].
  rewrite count_sections_value. cbn [bind].
  set (Z := np_zeros (3 * sum (MultiAeroGridSurfaces.KKzeta MS)) 3).
  destruct (@for_each_seq_invariant _
              (Static.rigid_surface Surfs_zeta MS zeta_rotation)
              (fun s st => fst st = vertex_offset MS s /\
                           rigid_invariant Surfs_zeta MS zeta_rotation
                             (visited s 0 0) (snd st))
              (MultiAeroGridSurfaces.n_surf MS) 0%nat
              (0%nat, Static.mk_rigid Z Z Z Z))
    as (st & E & HK & H').
  - split; [reflexivity|]. cbn [snd].
    unfold rigid_invariant. cbn [Static.Ktra Static.Ktra_dot Static.Krot Static.Krot_dot].
    do 4 (split; [reflexivity|]). split.
    + intros ss cc mm nn i _ Hv. unfold visited in Hv. lia.
    + intros i _ c. split; reflexivity.
  - intros s [Kz g] Hs (HKz & Hg). cbn [fst snd] in *.
    destruct (@rigid_surface_step s Kz g) as (Kz' & g' & E & HKz' & Hg');
      [lia | exact HKz | exact Hg |].
    exists (Kz', g'). split; [exact E|]. split; assumption.
  - rewrite E. cbn [bind]. exists (snd st). split; [reflexivity|].
    apply (@rigid_invariant_ext (visited (0 + MultiAeroGridSurfaces.n_surf MS) 0 0));
      [|exact H'].
    intros ss cc mm nn i (M & N0 & Hd & _) . unfold visited.
    assert (ss < MultiAeroGridSurfaces.n_surf MS)%nat
      by (apply nth_error_Some; rewrite Hd; discriminate).
    split; [auto | intros _; lia].
Qed.

(** The rigid-motion gains move every vertex as the doc string of
    [get_rigid_motion_gains] says.  On a lattice whose sizes are those of
    its grids and a rotation point of three coordinates the call returns
    four matrices of 3 Kzeta x 3 entries, and at the entry of coordinate
    [cc] of the vertex (mm, nn) of surface [ss] the product of [Ktra] and
    of [Ktra_dot] with u is u[cc], and the product of [Krot] and of
    [Krot_dot] with u is coordinate [cc] of (zeta - zeta_rotation) x u, for
    zeta the position of the vertex. *)
Theorem rigid_motion_gains_move_vertices :
  exists g,
    Static.get_rigid_motion_gains Surfs_zeta (Static.__init__ MS) zeta_rotation = Ok g /\
    let r := (3 * Static.Kzeta (Static.__init__ (R:=R) MS))%nat in
    shape (Static.Ktra g) = (r, 3%nat) /\ shape (Static.Ktra_dot g) = (r, 3%nat) /\
    shape (Static.Krot g) = (r, 3%nat) /\ shape (Static.Krot_dot g) = (r, 3%nat) /\
    forall ss M N0 mm nn cc (u : vector R),
      nth_error (MultiAeroGridSurfaces.dimensions MS) ss = Some (M, N0) ->
      (mm <= M)%nat -> (nn <= N0)%nat -> (cc < 3)%nat -> length u = 3%nat ->
      let i := (vertex_offset MS ss + vertex_position M N0 cc mm nn)%nat in
      let d := vminus (Static.zeta_node Surfs_zeta ss mm nn) zeta_rotation in
      vget (matvec (Static.Ktra g) u) i = vget u cc /\
      vget (matvec (Static.Ktra_dot g) u) i = vget u cc /\
      vget (matvec (Static.Krot g) u) i = vget (np_cross d u) cc /\
      vget (matvec (Static.Krot_dot g) u) i = vget (np_cross d u) cc.
Proof.
  destruct rigid_gains_invariant as (g & E & S1 & S2 & S3 & S4 & Hin & _).
  exists g. split; [exact E|]. intro r. subst r.
  cbn [Static.__init__ Static.Kzeta].
  do 4 (split; [assumption|]).
  intros ss M N0 mm nn cc u Hd Hm Hn Hc Hu.
  set (i := (vertex_offset MS ss + vertex_position M N0 cc mm nn)%nat).
  set (d := vminus (Static.zeta_node Surfs_zeta ss mm nn) zeta_rotation).
  assert (Ht : vertex_entry MS ss cc mm nn i) by (exists M, N0; repeat split; auto).
  pose proof (@vertex_entry_range ss cc mm nn i Ht) as (_ & Hi).
  apply shape_eq in S1, S2, S3, S4.
  destruct S1 as (S1r & S1c), S2 as (S2r & S2c), S3 as (S3r & S3c), S4 as (S4r & S4c).
  rewrite !vget_matvec by lia. rewrite S1c, S2c, S3c, S4c. cbn [sum_n].
  destruct (Hin ss cc mm nn i Ht I 0%nat ltac:(lia)) as (A0 & B0 & C0 & D0).
  destruct (Hin ss cc mm nn i Ht I 1%nat ltac:(lia)) as (A1 & B1 & C1 & D1).
  destruct (Hin ss cc mm nn i Ht I 2%nat ltac:(lia)) as (A2 & B2 & C2 & D2).
  cbv zeta in C0, C1, C2, D0, D1, D2. fold d in C0, C1, C2, D0, D1, D2.
  rewrite A0, A1, A2, B0, B1, B2, C0, C1, C2, D0, D1, D2.
  unfold cross_matrix, np_cross, np_array.
  destruct cc as [|[|[|cc]]]; [| | |lia]; cbn [Nat.eqb item nth vget];
    repeat split; ring.
Qed.
End RigidMotionGains.

Section SectionalGains.
Context {R : Type} {N : Num R} {F : Field R}.
Add Field SGField : Field_laws.
Local Open Scope num_scope.
Variable Surfs_zeta : nat -> nat -> nat -> nat -> R.

(** Sums of entries that are all zero. *)
Lemma sum_n_all_zero (n : nat) (f : nat -> R) :
  (forall k, (k < n)%nat -> f k = zero) -> sum_n n f = zero.
Proof.
  intro H. rewrite (@sum_n_ext R N n f (fun _ => zero)) by exact H.
  apply sum_n_zero.
Qed.

Lemma chord_count_next (s n m ss nn : nat) :
  chord_count MS s n (S m) ss nn
  = if (ss =? s) && (nn =? n) then S m else chord_count MS s n m ss nn.
Proof.
  unfold chord_count.
  destruct (Nat.eqb_spec ss s) as [->|Hs]; cbn [andb orb]; [|reflexivity].
  destruct (Nat.eqb_spec nn n) as [->|Hn]; cbn [andb orb]; [|reflexivity].
  rewrite !Nat.ltb_irrefl. reflexivity.
Qed.

Lemma chord_count_here (s n m : nat) : chord_count MS s n m s n = m.
Proof.
  unfold chord_count. now rewrite !Nat.ltb_irrefl, !Nat.eqb_refl.
Qed.

(** One more vertex in a row of deltas. *)
Lemma delta_sum_step (m j : nat) (col : nat -> nat) (w : nat -> R) (old : R) :
  old = sum_n m (fun mm => if j =? col mm then w mm else zero) ->
  (forall mm, (mm < m)%nat -> col mm <> col m) ->
  (if j =? col m then w m else old)
  = sum_n (S m) (fun mm => if j =? col mm then w mm else zero).
Proof.
  intros Hold Hd. cbn [sum_n]. rewrite <- Hold.
  destruct (Nat.eqb_spec j (col m)) as [->|Hne]; [|ring].
  rewrite Hold, sum_n_all_zero; [ring|].
  intros mm Hmm. destruct (Nat.eqb_spec (col m) (col mm)) as [E|_]; [|reflexivity].
  exfalso. apply (Hd mm Hmm). congruence.
Qed.

Lemma delta_sum_step3 (m j : nat) (col : nat -> nat -> nat) (w : nat -> nat -> R)
    (old : R) :
  old = sum_n m (fun mm => sum_n 3 (fun b => if j =? col b mm then w b mm else zero)) ->
  (forall b b' mm, (b < 3)%nat -> (b' < 3)%nat -> (mm < m)%nat -> col b mm <> col b' m) ->
  col 0%nat m <> col 1%nat m -> col 0%nat m <> col 2%nat m ->
  col 1%nat m <> col 2%nat m ->
  (if j =? col 0%nat m then w 0%nat m
   else if j =? col 1%nat m then w 1%nat m
   else if j =? col 2%nat m then w 2%nat m else old)
  = sum_n (S m) (fun mm => sum_n 3 (fun b => if j =? col b mm then w b mm else zero)).
Proof.
  intros Hold Hd D01 D02 D12.
  change (sum_n (S m) (fun mm => sum_n 3 (fun b => if j =? col b mm then w b mm else zero)))
    with (sum_n m (fun mm => sum_n 3 (fun b => if j =? col b mm then w b mm else zero))
          + sum_n 3 (fun b => if j =? col b m then w b m else zero)).
  rewrite <- Hold.
  assert (Hz : forall b', (b' < 3)%nat -> j = col b' m -> old = zero).
  { intros b' Hb' ->. rewrite Hold. apply sum_n_all_zero. intros mm Hmm.
    apply sum_n_all_zero. intros b Hb.
    destruct (Nat.eqb_spec (col b' m) (col b mm)) as [E|_]; [|reflexivity].
    exfalso. apply (Hd b b' mm Hb Hb' Hmm). congruence. }
  cbn [sum_n].
  destruct (Nat.eqb_spec j (col 0%nat m)) as [E0|N0'].
  - rewrite (Hz 0%nat ltac:(lia) E0).
    destruct (Nat.eqb_spec j (col 1%nat m)); [congruence|].
    destruct (Nat.eqb_spec j (col 2%nat m)); [congruence|]. ring.
  - destruct (Nat.eqb_spec j (col 1%nat m)) as [E1|N1'].
    + rewrite (Hz 1%nat ltac:(lia) E1).
      destruct (Nat.eqb_spec j (col 2%nat m)); [congruence|]. ring.
    + destruct (Nat.eqb_spec j (col 2%nat m)) as [E2|N2'].
      * rewrite (Hz 2%nat ltac:(lia) E2). ring.
      * ring.
Qed.

Lemma sect_vertex_step (s M N0 n m : nat) (g : Static.sect_gains R) :
  nth_error (MultiAeroGridSurfaces.dimensions MS) s = Some (M, N0) ->
  (n <= N0)%nat -> (m <= M)%nat ->
  sect_invariant Surfs_zeta MS (chord_count MS s n m) g ->
  exists g',
    Static.sect_vertex Surfs_zeta s M N0 n
      [(section_offset MS s + section_position N0 0 n)%nat;
       (section_offset MS s + section_position N0 1 n)%nat;
       (section_offset MS s + section_position N0 2 n)%nat]
      (vertex_offset MS s) g m
    = Ok g' /\
    sect_invariant Surfs_zeta MS (chord_count MS s n (S m)) g'.
Proof.
  intros Hd Hn Hm (S1 & S2 & Hin).
  apply shape_eq in S1, S2. destruct S1 as (S1r & S1c), S2 as (S2r & S2c).
  set (V := fun c => (vertex_offset MS s + vertex_position M N0 c m n)%nat).
  set (W := fun c => (section_offset MS s + section_position N0 c n)%nat).
  assert (HV : forall c, (c < 3)%nat -> vertex_entry MS s c m n (V c)).
  { intros c Hc. exists M, N0. repeat split; auto. }
  assert (HW : forall c, (c < 3)%nat -> section_entry MS s c n (W c)).
  { intros c Hc. exists M, N0. repeat split; auto. }
  assert (HVr : forall c, (c < 3)%nat ->
                (V c < 3 * sum (MultiAeroGridSurfaces.KKzeta MS))%nat).
  { intros c Hc. apply (@vertex_entry_range s c m n (V c) (HV c Hc)). }
  assert (HWr : forall c, (c < 3)%nat ->
                (W c < 3 * sum (map (fun n => (n + 1)%nat)
                                    (MultiAeroGridSurfaces.NN MS)))%nat).
  { intros c Hc. apply (@section_entry_range s c n (W c) (HW c Hc)). }
  assert (HVd : forall a b, (a < 3)%nat -> (b < 3)%nat -> V a = V b -> a = b).
  { intros a b Ha Hb E.
    apply (@vertex_entry_inj s a m n s b m n (V a) (HV a Ha)).
    rewrite E. exact (HV b Hb). }
  assert (HWd : forall a b, (a < 3)%nat -> (b < 3)%nat -> W a = W b -> a = b).
  { intros a b Ha Hb E.
    apply (@section_entry_inj s a n s b n (W a) (HW a Ha)).
    rewrite E. exact (HW b Hb). }
  unfold Static.sect_vertex.
  rewrite vertex_indices_ok by assumption. cbn [bind].
  fold (V 0%nat) (V 1%nat) (V 2%nat) (W 0%nat) (W 1%nat) (W 2%nat).
  assert (D01 : V 0%nat <> V 1%nat) by (intro E; apply HVd in E; lia).
  assert (D02 : V 0%nat <> V 2%nat) by (intro E; apply HVd in E; lia).
  assert (D12 : V 1%nat <> V 2%nat) by (intro E; apply HVd in E; lia).
  assert (E01 : W 0%nat <> W 1%nat) by (intro E; apply HWd in E; lia).
  assert (E02 : W 0%nat <> W 2%nat) by (intro E; apply HWd in E; lia).
  assert (E12 : W 1%nat <> W 2%nat) by (intro E; apply HWd in E; lia).
  pose proof (HVr 0%nat ltac:(lia)) as R0.
  pose proof (HVr 1%nat ltac:(lia)) as R1.
  pose proof (HVr 2%nat ltac:(lia)) as R2.
  pose proof (HWr 0%nat ltac:(lia)) as Q0.
  pose proof (HWr 1%nat ltac:(lia)) as Q1.
  pose proof (HWr 2%nat ltac:(lia)) as Q2.
  destruct (@setitem_pairs_3 R (Static.Kfsec g) (W 0%nat) (W 1%nat) (W 2%nat)
              (V 0%nat) (V 1%nat) (V 2%nat) one)
    as (Kf & EKf & SKf & IKf); try lia.
  rewrite EKf. cbn [bind].
  unfold vsub, vminus, tabulate, Static.zeta_node. cbn [length].
  cbn [Nat.eqb bind seq map unpack3].
  match goal with |- context [setitem_ix _ _ _ ?S] => set (D := S) end.
  destruct (@setitem_ix_3 R (Static.Kmsec g) D (W 0%nat) (W 1%nat) (W 2%nat)
              (V 0%nat) (V 1%nat) (V 2%nat))
    as (Km & EKm & SKm & IKm); try lia; try reflexivity.
  rewrite EKm. cbn [bind].
  eexists. split; [reflexivity|].
  unfold sect_invariant. cbn [Static.Kfsec Static.Kmsec].
  rewrite SKf, SKm. unfold shape. rewrite S1r, S1c, S2r, S2c.
  do 2 (split; [reflexivity|]).
  assert (EV : forall c, V c = vertex_column MS s c m n)
    by (intro c; symmetry; apply (@vertex_column_eq s M N0 c m n Hd)).
  assert (Hfar : forall b b' mm, (b < 3)%nat -> (b' < 3)%nat -> (mm < m)%nat ->
            vertex_column MS s b mm n <> vertex_column MS s b' m n).
  { intros b b' mm Hb Hb' Hmm E.
    destruct (@vertex_entry_inj s b mm n s b' m n (vertex_column MS s b mm n))
      as (_ & _ & Hx & _).
    - apply (@vertex_column_entry s M N0); auto; lia.
    - rewrite E. apply (@vertex_column_entry s M N0); auto.
    - lia. }
  assert (HD : forall a b,
            item (cross_matrix (section_arm Surfs_zeta MS s m n)) a b = item D a b).
  { intros a b. unfold section_arm. rewrite (nth_error_nth _ _ _ Hd). reflexivity. }
  pose proof (proj2 (Nat.eqb_neq _ _) E01) as B01.
  pose proof (proj2 (Nat.eqb_neq _ _) E02) as B02.
  pose proof (proj2 (Nat.eqb_neq _ _) E12) as B12.
  assert (B10 : (W 1%nat =? W 0%nat) = false) by (apply Nat.eqb_neq; congruence).
  assert (B20 : (W 2%nat =? W 0%nat) = false) by (apply Nat.eqb_neq; congruence).
  assert (B21 : (W 2%nat =? W 1%nat) = false) by (apply Nat.eqb_neq; congruence).
  intros ss a nn i Ht j.
  rewrite chord_count_next.
  assert (Hcase : (ss = s /\ nn = n) \/ (forall c, (c < 3)%nat -> i <> W c)).
  { destruct (Nat.eq_dec ss s) as [->|Hs]; [destruct (Nat.eq_dec nn n) as [->|Hnn]|].
    - left. auto.
    - right. intros c Hc E. subst i.
      destruct (@section_entry_inj s a nn s c n (W c) Ht (HW c Hc)) as (_ & _ & Hx).
      contradiction.
    - right. intros c Hc E. subst i.
      destruct (@section_entry_inj ss a nn s c n (W c) Ht (HW c Hc)) as (Hx & _).
      contradiction. }
  destruct Hcase as [(-> & ->) | Hi].
  - rewrite !Nat.eqb_refl. cbn [andb].
    assert (Ha : (a < 3)%nat) by (destruct Ht as (? & ? & _ & Ha & _); exact Ha).
    assert (i = W a).
    { destruct Ht as (M' & N' & Hd' & _ & _ & ->).
      rewrite Hd in Hd'. injection Hd' as <- <-. reflexivity. }
    subst i.
    destruct (Hin s a n (W a) (HW a Ha) j) as (Ef & Em).
    rewrite chord_count_here in Ef, Em.
    split.
    + rewrite <- (@delta_sum_step m j (fun mm => vertex_column MS s a mm n)
                   (fun _ => one) (item (Static.Kfsec g) (W a) j) Ef)
        by (intros mm Hmm; apply Hfar; auto).
      rewrite IKf, <- (EV a).
      destruct a as [|[|[|a]]]; [| | |lia];
        rewrite ?Nat.eqb_refl, ?B01, ?B02, ?B12, ?B10, ?B20, ?B21;
        cbn [andb orb]; rewrite ?orb_false_r; reflexivity.
    + rewrite <- (@delta_sum_step3 m j (fun b mm => vertex_column MS s b mm n)
                   (fun b mm => item (cross_matrix (section_arm Surfs_zeta MS s mm n)) a b)
                   (item (Static.Kmsec g) (W a) j) Em)
        by (rewrite <- ?EV; auto).
      rewrite IKm, <- !EV, !HD. cbv zeta.
      destruct a as [|[|[|a]]]; [| | |lia];
        rewrite ?Nat.eqb_refl, ?B01, ?B02, ?B12, ?B10, ?B20, ?B21;
        destruct (j =? V 0%nat), (j =? V 1%nat), (j =? V 2%nat); reflexivity.
  - assert (Hnot : (ss =? s) && (nn =? n) = false).
    { destruct (Nat.eqb_spec ss s) as [->|]; [|reflexivity].
      destruct (Nat.eqb_spec nn n) as [->|]; [|reflexivity].
      exfalso.
      assert (Ha : (a < 3)%nat) by (destruct Ht as (? & ? & _ & Ha & _); exact Ha).
      apply (Hi a Ha).
      destruct Ht as (M' & N' & Hd' & _ & _ & ->).
      rewrite Hd in Hd'. injection Hd' as <- <-. reflexivity. }
    rewrite Hnot, IKf, IKm. cbv zeta.
    rewrite (proj2 (Nat.eqb_neq i (W 0%nat)) (Hi 0%nat ltac:(lia))).
    rewrite (proj2 (Nat.eqb_neq i (W 1%nat)) (Hi 1%nat ltac:(lia))).
    rewrite (proj2 (Nat.eqb_neq i (W 2%nat)) (Hi 2%nat ltac:(lia))).
    cbn [andb orb]. exact (Hin ss a nn i Ht j).
Qed.

Lemma sect_invariant_ext (cnt cnt' : nat -> nat -> nat) (g : Static.sect_gains R) :
  (forall ss a nn i, section_entry MS ss a nn i -> cnt ss nn = cnt' ss nn) ->
  sect_invariant Surfs_zeta MS cnt g -> sect_invariant Surfs_zeta MS cnt' g.
Proof.
  intros Hc (S1 & S2 & Hin).
  unfold sect_invariant. do 2 (split; [assumption|]).
  intros ss a nn i Ht j. rewrite <- (Hc ss a nn i Ht). exact (Hin ss a nn i Ht j).
Qed.

Lemma sect_section_step (s M N0 n : nat) (g : Static.sect_gains R) :
  nth_error (MultiAeroGridSurfaces.dimensions MS) s = Some (M, N0) ->
  (n <= N0)%nat ->
  sect_invariant Surfs_zeta MS (chord_count MS s n 0) g ->
  exists g',
    Static.sect_section Surfs_zeta s M N0 (vertex_offset MS s) (section_offset MS s) g n
    = Ok g' /\
    sect_invariant Surfs_zeta MS (chord_count MS s (S n) 0) g'.
Proof.
  intros Hd Hn H0.
  unfold Static.sect_section. cbn [seq list_comp].
  rewrite !ravel_section by lia. cbn [bind].
  destruct (@for_each_seq_invariant _
              (Static.sect_vertex Surfs_zeta s M N0 n
                 [(section_offset MS s + section_position N0 0 n)%nat;
                  (section_offset MS s + section_position N0 1 n)%nat;
                  (section_offset MS s + section_position N0 2 n)%nat]
                 (vertex_offset MS s))
              (fun m g => sect_invariant Surfs_zeta MS (chord_count MS s n m) g)
              (M + 1) 0%nat g H0) as (g' & E & H').
  - intros m g1 Hm H1. apply sect_vertex_step; try assumption. lia.
  - exists g'. split; [exact E|].
    apply (@sect_invariant_ext (chord_count MS s n (0 + (M + 1)))); [|exact H'].
    intros ss a nn i _. unfold chord_count.
    destruct (Nat.eqb_spec ss s) as [->|Hs]; cbn [andb orb]; [|reflexivity].
    rewrite !Nat.ltb_irrefl. cbn [orb].
    destruct (Nat.eqb_spec nn n) as [->|Hnn].
    + rewrite Nat.ltb_irrefl, (proj2 (Nat.ltb_lt n (S n))) by lia.
      rewrite (nth_error_nth _ _ _ Hd). reflexivity.
    + destruct (Nat.ltb_spec nn n), (Nat.ltb_spec nn (S n)); try lia; try reflexivity.
      destruct (Nat.eqb_spec nn (S n)); reflexivity.
Qed.

Lemma sect_surface_step (s Kz II : nat) (g : Static.sect_gains R) :
  (s < MultiAeroGridSurfaces.n_surf MS)%nat ->
  Kz = vertex_offset MS s -> II = section_offset MS s ->
  sect_invariant Surfs_zeta MS (chord_count MS s 0 0) g ->
  exists Kz' II' g',
    Static.sect_surface Surfs_zeta MS (Kz, II, g) s = Ok (Kz', II', g') /\
    Kz' = vertex_offset MS (S s) /\ II' = section_offset MS (S s) /\
    sect_invariant Surfs_zeta MS (chord_count MS (S s) 0 0) g'.
Proof.
  intros Hs -> -> H0.
  destruct (lattice_lookups Hs) as (M & N0 & Hd & EM & EN & EK).
  unfold Static.sect_surface. rewrite EM, EN. cbn [bind].
  destruct (@for_each_seq_invariant _
              (Static.sect_section Surfs_zeta s M N0 (vertex_offset MS s)
                                   (section_offset MS s))
              (fun n g => sect_invariant Surfs_zeta MS (chord_count MS s n 0) g)
              (N0 + 1) 0%nat g H0) as (g' & E & H').
  - intros n g1 Hn H1. apply sect_section_step; try assumption. lia.
  - rewrite E. cbn [bind]. rewrite EK. cbn [bind].
    eexists _, _, g'. split; [reflexivity|].
    split; [now rewrite (@vertex_offset_S s M N0 Hd)|].
    split; [now rewrite (@section_offset_S s M N0 Hd)|].
    apply (@sect_invariant_ext (chord_count MS s (0 + (N0 + 1)) 0)); [|exact H'].
    intros ss a nn i Ht. unfold chord_count.
    destruct (Nat.eqb_spec ss s) as [->|Hne]; cbn [andb orb].
    + destruct Ht as (M' & N' & Hd' & _ & Hnn & _).
      rewrite Hd in Hd'. injection Hd' as <- <-.
      rewrite Nat.ltb_irrefl, (proj2 (Nat.ltb_lt s (S s))) by lia.
      rewrite (proj2 (Nat.ltb_lt nn (0 + (N0 + 1)))) by lia. reflexivity.
    + destruct (Nat.ltb_spec ss s), (Nat.ltb_spec ss (S s)); try lia; cbn [orb];
        try reflexivity.
      destruct (Nat.eqb_spec ss (S s)); cbn [andb]; [|reflexivity].
      destruct (nn <? 0) eqn:E0; [apply Nat.ltb_lt in E0; lia|].
      destruct (nn =? 0); reflexivity.
Qed.

Lemma sect_gains_invariant :
  exists g,
    Static.get_sect_forces_gain Surfs_zeta (Static.__init__ MS) = Ok g /\
    sect_invariant Surfs_zeta MS
      (fun ss _ => (fst (nth ss (MultiAeroGridSurfaces.dimensions MS) (0, 0)) + 1)%nat) g.
Proof.
  unfold Static.get_sect_forces_gain.
  cbn [Static.MS Static.__init__ Static.Kzeta].
  rewrite count_sections_value. cbn [bind].
  match goal with
  | |- context [Static.mk_sect ?Z _] => set (Z0 := Z)
  end.
  destruct (@for_each_seq_invariant _
              (Static.sect_surface Surfs_zeta MS)
              (fun s st => fst (fst st) = vertex_offset MS s /\
                           snd (fst st) = section_offset MS s /\
                           sect_invariant Surfs_zeta MS (chord_count MS s 0 0) (snd st))
              (MultiAeroGridSurfaces.n_surf MS) 0%nat
              (0%nat, 0%nat, Static.mk_sect Z0 Z0))
    as (st & E & HK & HI & H').
  - split; [reflexivity|]. split; [reflexivity|]. cbn [snd].
    unfold sect_invariant. cbn [Static.Kfsec Static.Kmsec].
    do 2 (split; [reflexivity|]).
    intros ss a nn i _ j. unfold chord_count. cbn [Nat.ltb Nat.leb orb andb].
    rewrite andb_false_r. cbn [orb].
    destruct ((ss =? 0) && (nn =? 0)); split; reflexivity.
  - intros s [[Kz II] g] Hs (HKz & HII & Hg). cbn [fst snd] in *.
    destruct (@sect_surface_step s Kz II g) as (Kz' & II' & g' & E & HKz' & HII' & Hg');
      [lia | exact HKz | exact HII | exact Hg |].
    exists (Kz', II', g'). split; [exact E|].
    split; [exact HKz'|]. split; [exact HII'|exact Hg'].
  - rewrite E. cbn [bind]. exists (snd st). split; [reflexivity|].
    apply (@sect_invariant_ext (chord_count MS (0 + MultiAeroGridSurfaces.n_surf MS) 0 0));
      [|exact H'].
    intros ss a nn i (M & N0 & Hd & _). unfold chord_count.
    assert (ss < MultiAeroGridSurfaces.n_surf MS)%nat
      by (apply nth_error_Some; rewrite Hd; discriminate).
    rewrite (proj2 (Nat.ltb_lt ss (0 + MultiAeroGridSurfaces.n_surf MS))) by lia.
    reflexivity.
Qed.

(** The product of a row of sums with a vector, sum by sum. *)
Lemma row_of_sums (n cnt : nat) (h : nat -> nat -> R) (f : nat -> R) :
  sum_n n (fun j => sum_n cnt (fun mm => h mm j) * f j)
  = sum_n cnt (fun mm => sum_n n (fun j => h mm j * f j)).
Proof.
  rewrite <- sum_n_exchange. apply sum_n_ext. intros j _.
  now rewrite sum_n_mul_r.
Qed.

Lemma row_of_deltas (n cnt : nat) (col : nat -> nat) (w f : nat -> R) :
  (forall mm, (mm < cnt)%nat -> (col mm < n)%nat) ->
  sum_n n (fun j => sum_n cnt (fun mm => if j =? col mm then w mm else zero) * f j)
  = sum_n cnt (fun mm => w mm * f (col mm)).
Proof.
  intro Hc. rewrite row_of_sums. apply sum_n_ext. intros mm Hmm.
  apply sum_n_delta. now apply Hc.
Qed.

Lemma sect_gains_products :
  exists g,
    Static.get_sect_forces_gain Surfs_zeta (Static.__init__ MS) = Ok g /\
    let r := (3 * sum (map (fun n => n + 1) (MultiAeroGridSurfaces.NN MS)))%nat in
    let c := (3 * Static.Kzeta (Static.__init__ (R:=R) MS))%nat in
    shape (Static.Kfsec g) = (r, c) /\ shape (Static.Kmsec g) = (r, c) /\
    forall ss M N0 nn cc (f : vector R),
      nth_error (MultiAeroGridSurfaces.dimensions MS) ss = Some (M, N0) ->
      (nn <= N0)%nat -> (cc < 3)%nat -> length f = c ->
      let i := (section_offset MS ss + section_position N0 cc nn)%nat in
      let fnode := fun mm => [vget f (vertex_column MS ss 0 mm nn);
                              vget f (vertex_column MS ss 1 mm nn);
                              vget f (vertex_column MS ss 2 mm nn)] in
      vget (matvec (Static.Kfsec g) f) i
      = sum_n (M + 1) (fun mm => vget (fnode mm) cc) /\
      vget (matvec (Static.Kmsec g) f) i
      = sum_n (M + 1)
          (fun mm => vget (np_cross (section_arm Surfs_zeta MS ss mm nn) (fnode mm)) cc).
Proof.
  destruct sect_gains_invariant as (g & E & S1 & S2 & Hin).
  exists g. split; [exact E|]. intros r c. subst r c.
  cbn [Static.__init__ Static.Kzeta].
  do 2 (split; [assumption|]).
  intros ss M N0 nn cc f Hd Hn Hc Hf.
  set (i := (section_offset MS ss + section_position N0 cc nn)%nat).
  assert (Ht : section_entry MS ss cc nn i) by (exists M, N0; repeat split; auto).
  pose proof (@section_entry_range ss cc nn i Ht) as (_ & Hi).
  apply shape_eq in S1, S2. destruct S1 as (S1r & S1c), S2 as (S2r & S2c).
  assert (Hcol : forall b mm, (b < 3)%nat -> (mm < M + 1)%nat ->
            (vertex_column MS ss b mm nn
             < 3 * sum (MultiAeroGridSurfaces.KKzeta MS))%nat).
  { intros b mm Hb Hmm.
    apply (@vertex_entry_range ss b mm nn).
    apply (@vertex_column_entry ss M N0); auto. lia. }
  rewrite !vget_matvec by lia. rewrite S1c, S2c.
  pose proof (Hin ss cc nn i Ht) as Hrow. cbv beta in Hrow.
  rewrite (nth_error_nth _ _ _ Hd) in Hrow. cbn [fst] in Hrow.
  split.
  - rewrite (@sum_n_ext R N _ _
               (fun j => sum_n (M + 1)
                           (fun mm => if j =? vertex_column MS ss cc mm nn
                                      then one else zero) * vget f j))
      by (intros j _; now rewrite (proj1 (Hrow j))).
    rewrite row_of_deltas by (intros; apply Hcol; auto).
    apply sum_n_ext. intros mm _.
    destruct cc as [|[|[|cc]]]; [| | |lia]; cbn [vget nth]; ring.
  - rewrite (@sum_n_ext R N _ _
               (fun j => sum_n (M + 1)
                           (fun mm => sum_n 3 (fun b =>
                              if j =? vertex_column MS ss b mm nn
                              then item (cross_matrix (section_arm Surfs_zeta MS ss mm nn))
                                        cc b
                              else zero)) * vget f j))
      by (intros j _; now rewrite (proj2 (Hrow j))).
    rewrite row_of_sums. apply sum_n_ext. intros mm Hmm.
    rewrite row_of_deltas by (intros; apply Hcol; auto).
    unfold cross_matrix, np_cross, np_array.
    destruct cc as [|[|[|cc]]]; [| | |lia]; cbn [sum_n item nth vget]; ring.
Qed.

(** The sectional gains give the force and the moment of every section.
    On a lattice whose sizes are those of its grids [get_sect_forces_gain]
    returns two matrices of 3 Ntot x 3 Kzeta entries, Ntot the number of
    span-wise sections.  For a vector f of 3 Kzeta entries, the forces at
    the vertices, entry (cc, nn) of surface [ss] of the product of [Kfsec]
    with f is the sum over the chord of coordinate [cc] of the forces at the
    vertices of section [nn], and that of the product of [Kmsec] with f is
    the sum over the chord of coordinate [cc] of the moments of these forces
    about the vertex at the middle of the chord, (M // 2, nn). *)
Theorem sect_forces_gain_sums_sections :
  exists g,
    Static.get_sect_forces_gain Surfs_zeta (Static.__init__ MS) = Ok g /\
    let r := (3 * sum (map (fun n => n + 1) (MultiAeroGridSurfaces.NN MS)))%nat in
    let c := (3 * Static.Kzeta (Static.__init__ (R:=R) MS))%nat in
    shape (Static.Kfsec g) = (r, c) /\ shape (Static.Kmsec g) = (r, c) /\
    forall ss M N0 nn cc (f : vector R),
      nth_error (MultiAeroGridSurfaces.dimensions MS) ss = Some (M, N0) ->
      (nn <= N0)%nat -> (cc < 3)%nat -> length f = c ->
      let i := (section_offset MS ss + section_position N0 cc nn)%nat in
      let fnode := fun mm => [vget f (vertex_column MS ss 0 mm nn);
                              vget f (vertex_column MS ss 1 mm nn);
                              vget f (vertex_column MS ss 2 mm nn)] in
      vget (matvec (Static.Kfsec g) f) i
      = sum_n (M + 1) (fun mm => vget (fnode mm) cc) /\
      vget (matvec (Static.Kmsec g) f) i
      = sum_n (M + 1)
          (fun mm => vget (np_cross (section_arm Surfs_zeta MS ss mm nn) (fnode mm)) cc).
Proof. exact sect_gains_products. Qed.
End SectionalGains.

Lemma sizes_ok_panels (dl dsl : list (nat * nat)) (kl ksl kzl kzsl : list nat) :
  MultiAeroGridSurfaces.sizes_ok dl dsl kl ksl kzl kzsl ->
  forall ss M N,
    nth_error dl ss = Some (M, N) -> nth_error kl ss = Some (M * N).
Proof.
  induction 1 as [|d ds k ks kz kzs dl dsl kl ksl kzl kzsl Hs Hrest IH].
  - intros [|ss]; discriminate.
  - intros [|ss] M N Hd.
    + cbn in Hd. injection Hd as ->.
      destruct Hs as (_ & _ & -> & _). reflexivity.
    + cbn [nth_error] in *. now apply IH.
Qed.

Section TotalForces.
Context {R : Type} {N : Num R} {F : Field R}.
Add Field TFField : Field_laws.
Local Open Scope num_scope.
Variable Surfs_zeta : nat -> nat -> nat -> nat -> R.

Lemma reshape_lists_returns (self : Static.t R) (gamma fqs : vector R) :
  Static.MS self = MS ->
  Static.gamma self = Some gamma -> Static.fqs self = Some fqs ->
  length gamma = sum (MultiAeroGridSurfaces.KK MS) ->
  length fqs = (3 * sum (MultiAeroGridSurfaces.KKzeta MS))%nat ->
  exists G Fq,
    Static.reshape_lists self = Ok (G, Fq) /\
    holds_forces MS fqs Fq.
Proof.
  intros HMS Hg Hf Lg Lf.
  unfold Static.reshape_lists. rewrite HMS, Hg, Hf.
  destruct (@for_each_seq_invariant _
              (Static.reshape_surface MS gamma fqs)
              (fun s st =>
                 let '(Ktot, Kz, G, Fq) := st in
                 Ktot = sum (firstn s (MultiAeroGridSurfaces.KK MS)) /\
                 Kz = vertex_offset MS s /\
                 length Fq = s /\
                 forall ss M N0,
                   (ss < s)%nat ->
                   nth_error (MultiAeroGridSurfaces.dimensions MS) ss = Some (M, N0) ->
                   exists Y,
                     nth_error Fq ss = Some Y /\
                     dim0 Y = 3%nat /\ dim1 Y = (M + 1)%nat /\ dim2 Y = (N0 + 1)%nat /\
                     forall c m n, (c < 3)%nat -> (m <= M)%nat -> (n <= N0)%nat ->
                       item3 Y c m n = vget fqs (vertex_column MS ss c m n))
              (MultiAeroGridSurfaces.n_surf MS) 0%nat
              (0%nat, 0%nat, [], []))
    as ([[[Ktot Kz] G] Fq] & E & H).
  - repeat split; try reflexivity. intros ss M N0 Hss. lia.
  - intros s [[[Ktot Kz] G] Fq] Hs (HK & HKz & HL & HY).
    destruct (@lattice_lookups s) as (M & N0 & Hd & EM & EN & EK); [lia|].
    pose proof (@sizes_ok_panels _ _ _ _ _ _ Hwf s M N0 Hd) as EKK.
    unfold Static.reshape_surface,
      MultiAeroGridSurfaces.Surfs_maps_M, MultiAeroGridSurfaces.Surfs_maps_N,
      MultiAeroGridSurfaces.Surfs_maps_K, MultiAeroGridSurfaces.Surfs_maps_Kzeta.
    rewrite EM, EN, EK. unfold lookup at 1. rewrite EKK. cbn [bind].
    assert (HbK : (Ktot + M * N0 <= length gamma)%nat).
    { rewrite Lg, HK, <- (@sum_firstn_S _ s _ EKK). apply sum_firstn_le. }
    assert (HbZ : (Kz + 3 * ((M + 1) * (N0 + 1)) <= length fqs)%nat).
    { rewrite Lf, HKz, <- (@vertex_offset_S s M N0 Hd). apply vertex_offset_le. }
    unfold take_range.
    rewrite (proj2 (Nat.leb_le _ _) HbK), (proj2 (Nat.leb_le _ _) HbZ).
    cbn [orb bind]. unfold reshape2, reshape3.
    rewrite !length_vslice by assumption.
    replace (Ktot + M * N0 - Ktot)%nat with (M * N0)%nat by lia.
    replace (Kz + 3 * ((M + 1) * (N0 + 1)) - Kz)%nat
      with (3 * (M + 1) * (N0 + 1))%nat by lia.
    rewrite !Nat.eqb_refl. cbn [bind].
    eexists. split; [reflexivity|]. cbv beta iota.
    split; [rewrite (@sum_firstn_S _ s _ EKK); lia|].
    split; [rewrite (@vertex_offset_S s M N0 Hd); lia|].
    split; [rewrite length_app; cbn; lia|].
    intros ss M' N' Hss Hd'.
    destruct (Nat.eq_dec ss s) as [->|Hne].
    + rewrite Hd in Hd'. injection Hd' as <- <-.
      rewrite nth_error_app2 by lia. rewrite HL, Nat.sub_diag. cbn [nth_error].
      eexists. split; [reflexivity|]. cbn [dim0 dim1 dim2 item3].
      do 3 (split; [reflexivity|]).
      intros c m n Hc Hm Hn.
      rewrite vget_vslice.
      * rewrite (@vertex_column_eq s M N0 c m n Hd), HKz. reflexivity.
      * pose proof (@vertex_position_lt M N0 c m n Hc Hm Hn) as Hlt.
        unfold vertex_position in Hlt. lia.
    + destruct (HY ss M' N' ltac:(lia) Hd') as (Y & EY & HYs).
      exists Y. split; [|exact HYs].
      rewrite nth_error_app1 by lia. exact EY.
  - rewrite E. cbn [bind]. exists G, Fq. split; [reflexivity|].
    destruct H as (_ & _ & _ & HY).
    intros ss M N0 Hd. apply HY; [|exact Hd].
    apply nth_error_Some. rewrite Hd. discriminate.
Qed.

(** A loop that adds a contribution to each entry of two arrays of three
    entries. *)
Lemma totals_loop (body : vector R * vector R -> nat -> result (vector R * vector R))
    (hF hM : nat -> nat -> R) (n : nat) :
  (forall k Ft Mt, (k < n)%nat -> length Ft = 3%nat -> length Mt = 3%nat ->
     exists Ft' Mt',
       body (Ft, Mt) k = Ok (Ft', Mt') /\ length Ft' = 3%nat /\ length Mt' = 3%nat /\
       forall cc, (cc < 3)%nat ->
         vget Ft' cc = vget Ft cc + hF k cc /\ vget Mt' cc = vget Mt cc + hM k cc) ->
  forall Ft Mt, length Ft = 3%nat -> length Mt = 3%nat ->
  exists Ft' Mt',
    for_each (seq 0 n) body (Ft, Mt) = Ok (Ft', Mt') /\
    length Ft' = 3%nat /\ length Mt' = 3%nat /\
    forall cc, (cc < 3)%nat ->
      vget Ft' cc = vget Ft cc + sum_n n (fun k => hF k cc) /\
      vget Mt' cc = vget Mt cc + sum_n n (fun k => hM k cc).
Proof.
  intros Hbody Ft Mt LF LM.
  destruct (@for_each_seq_invariant _ body
              (fun k st =>
                 length (fst st) = 3%nat /\ length (snd st) = 3%nat /\
                 forall cc, (cc < 3)%nat ->
                   vget (fst st) cc = vget Ft cc + sum_n k (fun k => hF k cc) /\
                   vget (snd st) cc = vget Mt cc + sum_n k (fun k => hM k cc))
              n 0%nat (Ft, Mt))
    as ([Ft' Mt'] & E & L1 & L2 & H).
  - cbn [fst snd sum_n]. repeat split; try assumption; ring.
  - intros k [F1 M1] Hk (L1 & L2 & H1). cbn [fst snd] in *.
    destruct (Hbody k F1 M1 ltac:(lia) L1 L2) as (F2 & M2 & E2 & L3 & L4 & H2).
    exists (F2, M2). split; [exact E2|]. cbn [fst snd].
    split; [exact L3|]. split; [exact L4|].
    intros cc Hc. destruct (H1 cc Hc) as (A1 & B1), (H2 cc Hc) as (A2 & B2).
    cbn [sum_n]. rewrite A2, B2, A1, B1. split; ring.
  - exists Ft', Mt'. cbn [fst snd Nat.add] in *. auto.
Qed.

Variable fqs : vector R.
Variable zeta_pole : vector R.
Hypothesis Hpole : length zeta_pole = 3%nat.

Local Abbreviation fnode := (vertex_force MS fqs).
Local Abbreviation mnode := (vertex_moment Surfs_zeta MS fqs zeta_pole).

Lemma total_vertex_step (Fq : list (ndarray3 R)) (Y : ndarray3 R)
    (ss M N0 nn mm : nat) (Ft Mt : vector R) :
  nth_error Fq ss = Some Y ->
  dim0 Y = 3%nat -> dim1 Y = (M + 1)%nat -> dim2 Y = (N0 + 1)%nat ->
  (forall c m n, (c < 3)%nat -> (m <= M)%nat -> (n <= N0)%nat ->
     item3 Y c m n = vget fqs (vertex_column MS ss c m n)) ->
  (nn <= N0)%nat -> (mm <= M)%nat ->
  length Ft = 3%nat -> length Mt = 3%nat ->
  Static.total_vertex Surfs_zeta Fq zeta_pole ss nn (Ft, Mt) mm
  = Ok (vplus Ft (fnode ss nn mm), vplus Mt (mnode ss nn mm)).
Proof.
  intros EY D0 D1 D2 HY Hn Hm LF LM.
  unfold Static.total_vertex, lookup. rewrite EY. cbn [bind].
  unfold column3. rewrite D0, D1, D2.
  rewrite (proj2 (Nat.ltb_lt mm (M + 1))), (proj2 (Nat.ltb_lt nn (N0 + 1))) by lia.
  cbn [andb bind]. unfold tabulate. cbn [seq map].
  rewrite !HY by lia. fold (vertex_force MS fqs ss nn mm).
  unfold vadd at 1. rewrite LF. cbn [length Nat.eqb bind].
  unfold vsub. cbn [Static.zeta_node length]. rewrite Hpole. cbn [Nat.eqb bind].
  unfold cross. rewrite length_vminus. cbn [length Nat.eqb andb bind].
  unfold vadd. rewrite LM. cbn [np_cross length Nat.eqb bind].
  reflexivity.
Qed.

Lemma total_surface_loop (Fq : list (ndarray3 R)) (ss : nat) (Ft Mt : vector R) :
  (ss < MultiAeroGridSurfaces.n_surf MS)%nat ->
  holds_forces MS fqs Fq ->
  length Ft = 3%nat -> length Mt = 3%nat ->
  exists Ft' Mt',
    Static.total_surface Surfs_zeta MS Fq zeta_pole (Ft, Mt) ss = Ok (Ft', Mt') /\
    length Ft' = 3%nat /\ length Mt' = 3%nat /\
    forall cc, (cc < 3)%nat ->
      let d := nth ss (MultiAeroGridSurfaces.dimensions MS) (0%nat, 0%nat) in
      vget Ft' cc
      = vget Ft cc
        + sum_n (snd d + 1) (fun nn => sum_n (fst d + 1) (fun mm => vget (fnode ss nn mm) cc)) /\
      vget Mt' cc
      = vget Mt cc
        + sum_n (snd d + 1) (fun nn => sum_n (fst d + 1) (fun mm => vget (mnode ss nn mm) cc)).
Proof.
  intros Hs HFq LF LM.
  destruct (@lattice_lookups ss Hs) as (M & N0 & Hd & EM & EN & _).
  destruct (HFq ss M N0 Hd) as (Y & EY & D0 & D1 & D2 & HY).
  unfold Static.total_surface,
    MultiAeroGridSurfaces.Surfs_maps_M, MultiAeroGridSurfaces.Surfs_maps_N.
  rewrite EM, EN. cbn [bind].
  rewrite (nth_error_nth _ _ _ Hd). cbn [fst snd].
  apply (@totals_loop
           (fun st nn => for_each (seq 0 (M + 1))
                           (Static.total_vertex Surfs_zeta Fq zeta_pole ss nn) st)
           (fun nn cc => sum_n (M + 1) (fun mm => vget (fnode ss nn mm) cc))
           (fun nn cc => sum_n (M + 1) (fun mm => vget (mnode ss nn mm) cc))
           (N0 + 1)); [|exact LF|exact LM].
  intros nn F1 M1 Hnn L1 L2.
  apply (@totals_loop
           (Static.total_vertex Surfs_zeta Fq zeta_pole ss nn)
           (fun mm cc => vget (fnode ss nn mm) cc)
           (fun mm cc => vget (mnode ss nn mm) cc)
           (M + 1)); [|exact L1|exact L2].
  intros mm F2 M2 Hmm L3 L4.
  exists (vplus F2 (fnode ss nn mm)), (vplus M2 (mnode ss nn mm)).
  split; [apply (@total_vertex_step Fq Y ss M N0 nn mm F2 M2); assumption || lia|].
  rewrite !length_vplus. split; [exact L3|]. split; [exact L4|].
  intros cc Hc. rewrite !vget_vplus by lia. split; reflexivity.
Qed.

Lemma total_loops_sums (Fq : list (ndarray3 R)) :
  holds_forces MS fqs Fq ->
  exists Ft Mt,
    for_each (seq 0 (MultiAeroGridSurfaces.n_surf MS))
             (Static.total_surface Surfs_zeta MS Fq zeta_pole)
             (repeat zero 3, repeat zero 3)
    = Ok (Ft, Mt) /\
    length Ft = 3%nat /\ length Mt = 3%nat /\
    forall cc, (cc < 3)%nat ->
      vget Ft cc
      = sum_n (MultiAeroGridSurfaces.n_surf MS)
          (fun ss =>
             let d := nth ss (MultiAeroGridSurfaces.dimensions MS) (0%nat, 0%nat) in
             sum_n (snd d + 1)
               (fun nn => sum_n (fst d + 1) (fun mm => vget (fnode ss nn mm) cc))) /\
      vget Mt cc
      = sum_n (MultiAeroGridSurfaces.n_surf MS)
          (fun ss =>
             let d := nth ss (MultiAeroGridSurfaces.dimensions MS) (0%nat, 0%nat) in
             sum_n (snd d + 1)
               (fun nn => sum_n (fst d + 1) (fun mm => vget (mnode ss nn mm) cc))).
Proof.
  intro HFq.
  destruct (@totals_loop
              (Static.total_surface Surfs_zeta MS Fq zeta_pole)
              (fun ss cc =>
                 let d := nth ss (MultiAeroGridSurfaces.dimensions MS) (0%nat, 0%nat) in
                 sum_n (snd d + 1)
                   (fun nn => sum_n (fst d + 1) (fun mm => vget (fnode ss nn mm) cc)))
              (fun ss cc =>
                 let d := nth ss (MultiAeroGridSurfaces.dimensions MS) (0%nat, 0%nat) in
                 sum_n (snd d + 1)
                   (fun nn => sum_n (fst d + 1) (fun mm => vget (mnode ss nn mm) cc)))
              (MultiAeroGridSurfaces.n_surf MS))
    with (Ft := repeat (zero : R) 3) (Mt := repeat (zero : R) 3)
    as (Ft & Mt & ET & LF & LM & HT); try reflexivity.
  - intros ss F1 M1 Hs L1 L2.
    apply (@total_surface_loop Fq ss F1 M1 Hs HFq L1 L2).
  - exists Ft, Mt. split; [exact ET|]. split; [exact LF|]. split; [exact LM|].
    intros cc Hc. destruct (HT cc Hc) as (A & B).
    rewrite A, B, !vget_zeros. cbv zeta. split; ring.
Qed.

Lemma total_forces_sums (gamma : vector R) :
  length gamma = sum (MultiAeroGridSurfaces.KK MS) ->
  length fqs = (3 * sum (MultiAeroGridSurfaces.KKzeta MS))%nat ->
  let self0 := Static.set_solution (Static.__init__ MS) gamma fqs in
  exists G Fq Ft Mt,
    Static.total_forces Surfs_zeta self0 zeta_pole
    = Ok (Static.set_totals (Static.set_reshaped self0 G Fq) Ft Mt) /\
    holds_forces MS fqs Fq /\
    length Ft = 3%nat /\ length Mt = 3%nat /\
    forall cc, (cc < 3)%nat ->
      vget Ft cc
      = sum_n (MultiAeroGridSurfaces.n_surf MS)
          (fun ss =>
             let d := nth ss (MultiAeroGridSurfaces.dimensions MS) (0%nat, 0%nat) in
             sum_n (snd d + 1)
               (fun nn => sum_n (fst d + 1) (fun mm => vget (fnode ss nn mm) cc))) /\
      vget Mt cc
      = sum_n (MultiAeroGridSurfaces.n_surf MS)
          (fun ss =>
             let d := nth ss (MultiAeroGridSurfaces.dimensions MS) (0%nat, 0%nat) in
             sum_n (snd d + 1)
               (fun nn => sum_n (fst d + 1) (fun mm => vget (mnode ss nn mm) cc))).
Proof.
  intros Lg Lf self0.
  destruct (@reshape_lists_returns self0 gamma fqs eq_refl eq_refl eq_refl Lg Lf)
    as (G & Fq & E & HFq).
  destruct (@total_loops_sums Fq HFq) as (Ft & Mt & ET & LF & LM & HT).
  unfold Static.total_forces.
  cbn [Static.Gamma Static.Fqs Static.set_solution Static.__init__ self0].
  fold self0. rewrite E. cbn [bind].
  cbn [Static.MS Static.set_reshaped Static.set_solution Static.__init__ self0].
  rewrite ET. cbn [bind fst snd].
  exists G, Fq, Ft, Mt. split; [reflexivity|]. split; [exact HFq|].
  split; [exact LF|]. split; [exact LM|]. exact HT.
Qed.

(** The moment of a force about the pole is its moment about another point
    plus the moment about the pole of the force moved to that point. *)
Lemma cross_transport (z p q f : vector R) (cc : nat) :
  length z = 3%nat -> length q = 3%nat -> (cc < 3)%nat ->
  vget (np_cross (vminus z p) f) cc
  = vget (np_cross (vminus z q) f) cc + vget (np_cross (vminus q p) f) cc.
Proof.
  intros Lz Lq Hc. unfold np_cross.
  rewrite !vget_vminus by lia.
  destruct cc as [|[|[|cc]]]; [| | |lia]; cbn [vget nth]; ring.
Qed.

(** The cross product with a sum of forces, entry by entry. *)
Lemma cross_sum (a : vector R) (n : nat) (f : nat -> vector R) (cc : nat) :
  (cc < 3)%nat ->
  vget (np_cross a [sum_n n (fun k => vget (f k) 0);
                    sum_n n (fun k => vget (f k) 1);
                    sum_n n (fun k => vget (f k) 2)]) cc
  = sum_n n (fun k => vget (np_cross a (f k)) cc).
Proof.
  intro Hc. unfold np_cross.
  destruct cc as [|[|[|cc]]]; [| | |lia]; cbn [vget nth];
    rewrite <- !sum_n_mul_l, <- sum_n_sub; reflexivity.
Qed.

(** The sectional forces and moments add up to the total force and moment.
    Take an instance whose state [gamma] and output [fqs] have the sizes of
    a lattice whose sizes are those of its grids, and a pole of three
    coordinates.  [total_forces] returns, reshaping the output on the way,
    and so does [get_sect_forces_gain]; the total force is the sum over the
    sections of the sectional forces [Kfsec fqs], and the total moment about
    the pole is the sum over the sections of the sectional moment
    [Kmsec fqs] and of the moment about the pole of the sectional force put
    at the vertex at the middle of the chord of the section. *)
Theorem total_forces_add_up_sections (gamma : vector R) :
  length gamma = sum (MultiAeroGridSurfaces.KK MS) ->
  length fqs = (3 * sum (MultiAeroGridSurfaces.KKzeta MS))%nat ->
  exists self g Ft Mt,
    Static.total_forces Surfs_zeta
      (Static.set_solution (Static.__init__ MS) gamma fqs) zeta_pole = Ok self /\
    Static.Ftot self = Some Ft /\ Static.Mtot self = Some Mt /\
    length Ft = 3%nat /\ length Mt = 3%nat /\
    Static.get_sect_forces_gain Surfs_zeta self = Ok g /\
    forall cc, (cc < 3)%nat ->
      let Fsec := fun ss nn =>
        [vget (matvec (Static.Kfsec g) fqs) (section_row MS ss 0 nn);
         vget (matvec (Static.Kfsec g) fqs) (section_row MS ss 1 nn);
         vget (matvec (Static.Kfsec g) fqs) (section_row MS ss 2 nn)] in
      let Msec := fun ss nn =>
        vget (matvec (Static.Kmsec g) fqs) (section_row MS ss cc nn) in
      let mid := fun ss nn =>
        Static.zeta_node Surfs_zeta ss
          (fst (nth ss (MultiAeroGridSurfaces.dimensions MS) (0%nat, 0%nat)) / 2) nn in
      vget Ft cc = sum_sections MS (fun ss nn => vget (Fsec ss nn) cc) /\
      vget Mt cc
      = sum_sections MS
          (fun ss nn =>
             Msec ss nn + vget (np_cross (vminus (mid ss nn) zeta_pole) (Fsec ss nn)) cc).
Proof.
  intros Lg Lf.
  destruct (@total_forces_sums gamma Lg Lf) as (G & Fq & Ft & Mt & E & _ & LF & LM & HT).
  destruct (@sect_gains_products R N F Surfs_zeta) as (g & Eg & _ & _ & Hg).
  eexists _, g, Ft, Mt. split; [exact E|].
  split; [reflexivity|]. split; [reflexivity|].
  split; [exact LF|]. split; [exact LM|].
  split; [exact Eg|].
  intros cc Hc. cbv zeta. destruct (HT cc Hc) as (A & B). rewrite A, B.
  unfold sum_sections.
  assert (Hsec : forall ss nn c,
            (ss < MultiAeroGridSurfaces.n_surf MS)%nat ->
            (nn < snd (nth ss (MultiAeroGridSurfaces.dimensions MS) (0%nat, 0%nat)) + 1)%nat ->
            (c < 3)%nat ->
            let M := fst (nth ss (MultiAeroGridSurfaces.dimensions MS) (0%nat, 0%nat)) in
            vget (matvec (Static.Kfsec g) fqs) (section_row MS ss c nn)
            = sum_n (M + 1) (fun mm => vget (fnode ss nn mm) c) /\
            vget (matvec (Static.Kmsec g) fqs) (section_row MS ss c nn)
            = sum_n (M + 1)
                (fun mm => vget (np_cross (section_arm Surfs_zeta MS ss mm nn)
                                          (fnode ss nn mm)) c)).
  { intros ss nn c Hs Hnn Hcc.
    destruct (@lattice_lookups ss Hs) as (M & N0 & Hd & _).
    unfold section_row. rewrite (nth_error_nth _ _ _ Hd) in *. cbn [fst snd] in *.
    apply (Hg ss M N0 nn c fqs Hd); [lia | exact Hcc | exact Lf]. }
  split.
  - apply sum_n_ext. intros ss Hs. apply sum_n_ext. intros nn Hnn.
    destruct (Hsec ss nn cc Hs Hnn Hc) as (PF & _).
    destruct cc as [|[|[|cc]]]; [| | |lia]; cbn [vget nth]; now rewrite PF.
  - apply sum_n_ext. intros ss Hs. apply sum_n_ext. intros nn Hnn.
    destruct (Hsec ss nn cc Hs Hnn Hc) as (_ & PM).
    destruct (Hsec ss nn 0%nat Hs Hnn ltac:(lia)) as (P0 & _).
    destruct (Hsec ss nn 1%nat Hs Hnn ltac:(lia)) as (P1 & _).
    destruct (Hsec ss nn 2%nat Hs Hnn ltac:(lia)) as (P2 & _).
    rewrite PM, P0, P1, P2.
    rewrite (@cross_sum _ _ (fun mm => fnode ss nn mm) cc Hc).
    rewrite <- sum_n_add. apply sum_n_ext. intros mm _.
    unfold vertex_moment, section_arm.
    apply cross_transport; [reflexivity | reflexivity | exact Hc].
Qed.
End TotalForces.

Section ReshapedOnce.
Context {R : Type} {N : Num R} {F : Field R}.
Variable Surfs_zeta : nat -> nat -> nat -> nat -> R.
Variable zeta_pole : vector R.
Hypothesis Hpole : length zeta_pole = 3.

(** [total_forces] reshapes the output once.  After a first call, on the
    state and the output of a first solution, a call on the instance that
    holds a second solution returns the total force and moment of the
    first one again: [Gamma] and [Fqs] are there and are not rebuilt.  With
    a call of [reshape] in between it returns those of the second solution,
    as a new instance does. *)
Theorem total_forces_reshapes_once (gamma1 fqs1 gamma2 fqs2 : vector R) :
  length gamma1 = sum (MultiAeroGridSurfaces.KK MS) ->
  length fqs1 = 3 * sum (MultiAeroGridSurfaces.KKzeta MS) ->
  length gamma2 = sum (MultiAeroGridSurfaces.KK MS) ->
  length fqs2 = 3 * sum (MultiAeroGridSurfaces.KKzeta MS) ->
  exists first second reshaped third fresh,
    Static.total_forces Surfs_zeta
      (Static.set_solution (Static.__init__ MS) gamma1 fqs1) zeta_pole = Ok first /\
    Static.total_forces Surfs_zeta
      (Static.set_solution first gamma2 fqs2) zeta_pole = Ok second /\
    Static.Ftot second = Static.Ftot first /\ Static.Mtot second = Static.Mtot first /\
    Static.reshape (Static.set_solution first gamma2 fqs2) = Ok reshaped /\
    Static.total_forces Surfs_zeta reshaped zeta_pole = Ok third /\
    Static.total_forces Surfs_zeta
      (Static.set_solution (Static.__init__ MS) gamma2 fqs2) zeta_pole = Ok fresh /\
    Static.Ftot third = Static.Ftot fresh /\ Static.Mtot third = Static.Mtot fresh.
Proof.
  intros Lg1 Lf1 Lg2 Lf2.
  set (self1 := Static.set_solution (Static.__init__ MS) gamma1 fqs1).
  set (self2 := Static.set_solution (Static.__init__ MS) gamma2 fqs2).
  destruct (@reshape_lists_returns R N self1 gamma1 fqs1 eq_refl eq_refl eq_refl Lg1 Lf1)
    as (G1 & Fq1 & E1 & H1).
  destruct (@reshape_lists_returns R N self2 gamma2 fqs2 eq_refl eq_refl eq_refl Lg2 Lf2)
    as (G2 & Fq2 & E2 & H2).
  destruct (@total_loops_sums R N F Surfs_zeta fqs1 zeta_pole Hpole Fq1 H1)
    as (Ft1 & Mt1 & ET1 & _).
  destruct (@total_loops_sums R N F Surfs_zeta fqs2 zeta_pole Hpole Fq2 H2)
    as (Ft2 & Mt2 & ET2 & _).
  exists (Static.set_totals (Static.set_reshaped self1 G1 Fq1) Ft1 Mt1).
  exists (Static.set_totals
            (Static.set_solution
               (Static.set_totals (Static.set_reshaped self1 G1 Fq1) Ft1 Mt1)
               gamma2 fqs2) Ft1 Mt1).
  exists (Static.set_reshaped
            (Static.set_solution
               (Static.set_totals (Static.set_reshaped self1 G1 Fq1) Ft1 Mt1)
               gamma2 fqs2) G2 Fq2).
  exists (Static.set_totals
            (Static.set_reshaped
               (Static.set_solution
                  (Static.set_totals (Static.set_reshaped self1 G1 Fq1) Ft1 Mt1)
                  gamma2 fqs2) G2 Fq2) Ft2 Mt2).
  exists (Static.set_totals (Static.set_reshaped self2 G2 Fq2) Ft2 Mt2).
  assert (E2' : Static.reshape_lists
                  (Static.set_solution
                     (Static.set_totals (Static.set_reshaped self1 G1 Fq1) Ft1 Mt1)
                     gamma2 fqs2) = Ok (G2, Fq2)) by exact E2.
  repeat split.
  - unfold Static.total_forces. cbn [Static.Gamma Static.Fqs Static.set_solution
                                     Static.__init__ self1].
    fold self1. rewrite E1. cbn [bind].
    cbn [Static.MS Static.set_reshaped Static.set_solution Static.__init__ self1].
    rewrite ET1. reflexivity.
  - unfold Static.total_forces.
    cbn [Static.Gamma Static.Fqs Static.MS Static.set_solution Static.set_totals
         Static.set_reshaped Static.__init__ self1 bind].
    rewrite ET1. reflexivity.
  - unfold Static.reshape. rewrite E2'. reflexivity.
  - unfold Static.total_forces.
    cbn [Static.Gamma Static.Fqs Static.MS Static.set_solution Static.set_totals
         Static.set_reshaped Static.__init__ self1 bind].
    rewrite ET2. reflexivity.
  - unfold Static.total_forces. cbn [Static.Gamma Static.Fqs Static.set_solution
                                     Static.__init__ self2].
    fold self2. rewrite E2. cbn [bind].
    cbn [Static.MS Static.set_reshaped Static.set_solution Static.__init__ self2].
    rewrite ET2. reflexivity.
Qed.
End ReshapedOnce.

End LatticeGains.

(** ** The further properties on the example lattice *)

Lemma solve_step_transform_state_matches_direct_witness :
  exists x1 y1,
    Dynamic.solve_step (ex_model 2 false None) ex_x0 ex_u0
                       (Some (repeat (Q2Qc 2) 36)) false = Ok (x1, y1) /\
    Dynamic.solve_step (ex_model 2 true None) ex_x0 ex_u0
                       (Some (repeat (Q2Qc 2) 36)) true = Ok (x1, y1) /\
    length x1 = Dynamic.Nx (ex_model 2 false None) /\
    length y1 = Dynamic.Ny (ex_model 2 false None).
Proof.
  apply (@solve_step_transform_state_matches_direct Qc _ _ ex_lu_solve ex_MS (Q2Qc 1) 2
           None false false ex_blocks (ex_init 2 false None) (ex_init 2 true None)).
  - ok_by_evaluation.
  - ok_by_evaluation.
  - ok_by_evaluation.
  - ok_by_evaluation.
  - reflexivity.
  - reflexivity.
  - reflexivity.
Defined.

Lemma solve_step_relative_velocity_witness :
  Dynamic.solve_step (ex_model 2 false None) ex_x0
    (add_velocity (Dynamic.Kzeta (ex_model 2 false None)) ex_u0 (repeat (Q2Qc 5) 12))
    (Some (add_velocity (Dynamic.Kzeta (ex_model 2 false None))
                        (repeat (Q2Qc 2) 36) (repeat (Q2Qc 7) 12))) false
  = Dynamic.solve_step (ex_model 2 false None) ex_x0 ex_u0
                       (Some (repeat (Q2Qc 2) 36)) false.
Proof.
  apply (@solve_step_relative_velocity Qc _ _ ex_lu_solve ex_MS (Q2Qc 1) 2 false None
           false ex_blocks (ex_init 2 false None)).
  - ok_by_evaluation.
  - ok_by_evaluation.
  - unfold blocks_shaped. simpl. repeat split; reflexivity.
  - intros rhs _. exists rhs. split; reflexivity.
  - reflexivity.
  - reflexivity.
Defined.

Lemma solve_step_ignores_circulation_derivative_witness :
  Dynamic.solve_step (ex_model 2 true None) ex_x0 ex_u0 None true
  = Dynamic.solve_step (ex_model 2 true None)
                       [Q2Qc 1; Q2Qc 2; Q2Qc 7; Q2Qc 4] ex_u0 None true.
Proof.
  apply (@solve_step_ignores_circulation_derivative Qc _ _ ex_lu_solve ex_MS (Q2Qc 1) 2
           true None false ex_blocks (ex_init 2 true None)).
  - ok_by_evaluation.
  - ok_by_evaluation.
  - split; [reflexivity|].
    intros [|[|[|k]]] Hk; try reflexivity.
    exfalso. revert Hk. vm_compute. lia.
Defined.

Lemma solve_step_sizes_witness :
  (exists x1 y1,
     Dynamic.solve_step ex_direct ex_x0 ex_u0 (Some ex_u0) false = Ok (x1, y1) /\
     length x1 = Dynamic.Nx ex_direct /\ length y1 = Dynamic.Ny ex_direct) /\
  Dynamic.solve_step ex_direct [Q2Qc 1; Q2Qc 2; Q2Qc 3] ex_u0 (Some ex_u0) false
  = Raise ValueError.
Proof.
  split.
  - apply (proj1 (@solve_step_sizes Qc _ ex_lu_solve ex_MS (Q2Qc 1) 2 false None false
                    ex_blocks (ex_init 2 false None) ex_direct
                    ex_x0 ex_u0 ex_u0 false
                    ltac:(ok_by_evaluation) ltac:(ok_by_evaluation))).
    split; [vm_compute; reflexivity|]. split; [vm_compute; reflexivity|].
    intro H. discriminate.
  - apply (proj2 (@solve_step_sizes Qc _ ex_lu_solve ex_MS (Q2Qc 1) 2 false None false
                    ex_blocks (ex_init 2 false None) ex_direct
                    [Q2Qc 1; Q2Qc 2; Q2Qc 3] ex_u0 ex_u0 false
                    ltac:(ok_by_evaluation) ltac:(ok_by_evaluation))).
    + intros (Hx & _). vm_compute in Hx. discriminate.
    + intros (Hrp & _). discriminate.
Defined.

Lemma solve_step_of_scaled_model_witness :
  exists nd,
    Dynamic.nondimss ex_scaled = Ok nd /\
    let sf := Dynamic.ScalingFacts ex_scaled in
    let Kzeta := Dynamic.Kzeta ex_scaled in
    Dynamic.solve_step nd (nondim_state sf ex_x0) (nondim_input sf Kzeta ex_u0)
                       (option_map (nondim_input sf Kzeta) None) false
    = Ok (nondim_state sf (fst ex_step), nondim_output sf (snd ex_step)).
Proof.
  apply (@solve_step_of_scaled_model Qc _ _ ex_lu_solve ex_MS (Q2Qc 1) 2 false
           (Q2Qc 2) (Q2Qc 3) (Q2Qc 5) false ex_blocks
           (ex_init 2 false (Some (Q2Qc 2, Q2Qc 3, Q2Qc 5)))).
  - ok_by_evaluation.
  - ok_by_evaluation.
  - apply Qc_neq. reflexivity.
  - apply Qc_neq. reflexivity.
  - apply Qc_neq. reflexivity.
  - rewrite <- surjective_pairing. ok_by_evaluation.
Defined.

Lemma solve_step_circulation_derivative_witness :
  vget (snd (Dynamic.unpack_state ex_direct (fst ex_direct_step))) 0
  = div (add (sub (mul (div Dynamic.three Dynamic.two)
                       (vget (fst (fst (Dynamic.unpack_state ex_direct
                                          (fst ex_direct_step)))) 0))
                  (mul Dynamic.two
                       (vget (fst (fst (Dynamic.unpack_state ex_direct ex_x0))) 0)))
             (mul (div one Dynamic.two)
                  (vget ex_x0 (2 * Dynamic.K ex_direct + Dynamic.K_star ex_direct + 0))))
        (Q2Qc 1) /\
  vget (fst ex_direct_step) (2 * Dynamic.K ex_direct + Dynamic.K_star ex_direct + 0)
  = vget (fst (fst (Dynamic.unpack_state ex_direct ex_x0))) 0.
Proof.
  refine (proj2 (@solve_step_circulation_derivative Qc _ _ ex_lu_solve ex_MS (Q2Qc 1) 2
                   None false ex_blocks (ex_init 2 false None) ex_direct ex_x0 ex_u0
                   None false (fst ex_direct_step) (snd ex_direct_step)
                   _ _ _ _ _ _ _ _ _ _ _ 0 _) eq_refl).
  - ok_by_evaluation.
  - ok_by_evaluation.
  - rewrite <- surjective_pairing. ok_by_evaluation.
  - rewrite <- !surjective_pairing. reflexivity.
  - rewrite <- !surjective_pairing. reflexivity.
  - vm_compute. lia.
Defined.

Lemma unpack_state_blocks_witness :
  length (fst (fst (Dynamic.unpack_state ex_direct ex_x0))) = Dynamic.K ex_direct /\
  length (snd (fst (Dynamic.unpack_state ex_direct ex_x0))) = Dynamic.K_star ex_direct /\
  length (snd (Dynamic.unpack_state ex_direct ex_x0)) = Dynamic.K ex_direct /\
  fst (fst (Dynamic.unpack_state ex_direct ex_x0))
  ++ snd (fst (Dynamic.unpack_state ex_direct ex_x0))
  ++ map (fun v => mul v (Dynamic.dt ex_direct))
         (snd (Dynamic.unpack_state ex_direct ex_x0))
  = vslice ex_x0 0 (2 * Dynamic.K ex_direct + Dynamic.K_star ex_direct).
Proof.
  apply (@unpack_state_blocks Qc _ _ ex_direct ex_x0).
  - vm_compute. discriminate.
  - vm_compute. lia.
  - rewrite <- !surjective_pairing. reflexivity.
Defined.

Lemma freqresp_direct_form_only_witness :
  exists Yfreq,
    Dynamic.freqresp ex_cos ex_sin ex_solve ex_direct ex_kv = Returns Yfreq /\
    length Yfreq = length ex_kv /\
    Forall (fun Y => shape Y = (Dynamic.Ny ex_direct, Dynamic.Nu ex_direct)) Yfreq.
Proof.
  apply (proj2 (@freqresp_direct_form_only Qc _ _ ex_cos ex_sin ex_solve ex_lu_solve)
           ex_MS (Q2Qc 1) 2%Z None false ex_blocks (ex_init 2 false None)).
  - ok_by_evaluation.
  - ok_by_evaluation.
  - exact ex_MS_wf.
  - intros L X _ _. exists X. split; reflexivity.
Defined.

Lemma get_returned_eq {A : Type} (c : outcome A) (d : A) :
  has_returned c = true -> c = Returns (get_returned c d).
Proof. destruct c; [reflexivity | discriminate]. Qed.

Lemma vector_eqb_eq (x y : vector Qc) : vector_eqb x y = true -> x = y.
Proof.
  revert y. induction x as [|a x IH]; intros [|b y] H; try discriminate; [reflexivity|].
  simpl in H. apply andb_prop in H. destruct H as (H1 & H2).
  apply Qc_eq_bool_correct in H1. now rewrite H1, (IH y H2).
Qed.

Lemma ex_solve_vector_solves (L : ndarray Qc) (b x : vector Qc) :
  ex_solve_vector L b = Ok x -> length x = ncols L /\ matvec L x = b.
Proof.
  unfold ex_solve_vector.
  destruct (_ && _) eqn:E; [|discriminate]. intro H. injection H as <-.
  apply andb_prop in E. destruct E as (E1 & E2).
  apply Nat.eqb_eq in E1. apply vector_eqb_eq in E2. auto.
Qed.

Lemma solve_steady_direct_is_steady_witness :
  Dynamic.solve_step ex_direct (fst (ex_steady "direct")) ex_u0 None false
  = Ok (fst (ex_steady "direct"), snd (ex_steady "direct")).
Proof.
  apply (@solve_steady_direct_is_steady Qc _ _ ex_eye_as ex_solve_vector ex_solve_vector
           ex_norm ex_gt ex_lu_solve ex_MS (Q2Qc 1) 2 false None false ex_blocks
           (ex_init 2 false None)).
  - ok_by_evaluation.
  - ok_by_evaluation.
  - intro M. split; reflexivity.
  - exact ex_solve_vector_solves.
  - rewrite <- surjective_pairing. apply get_returned_eq. vm_compute. reflexivity.
Defined.

Lemma solve_steady_subsystem_is_steady_witness :
  (forall i, i < Dynamic.K ex_direct ->
     vget (fst (ex_steady "subsystem"))
          (2 * Dynamic.K ex_direct + Dynamic.K_star ex_direct + i) = zero) /\
  let steady :=
    vslice (fst (ex_steady "subsystem")) 0
           (2 * Dynamic.K ex_direct + Dynamic.K_star ex_direct)
    ++ vslice (fst (ex_steady "subsystem")) 0 (Dynamic.K ex_direct) in
  Dynamic.solve_step ex_direct steady ex_u0 None false
  = Ok (steady, snd (ex_steady "subsystem")).
Proof.
  refine (proj2 (@solve_steady_subsystem_is_steady Qc _ _ ex_eye_as ex_solve_vector
                   ex_solve_vector ex_norm ex_gt ex_lu_solve ex_MS (Q2Qc 1) 2 None
                   ex_blocks (ex_init 2 false None) ex_direct ex_u0
                   (fst (ex_steady "subsystem")) (snd (ex_steady "subsystem"))
                   _ _ _ _) eq_refl).
  - ok_by_evaluation.
  - ok_by_evaluation.
  - exact ex_solve_vector_solves.
  - rewrite <- surjective_pairing. apply get_returned_eq. vm_compute. reflexivity.
Defined.

Lemma solve_steady_recursive_marches_witness :
  exists xsta ysta n,
    Dynamic.solve_steady ex_eye_as ex_solve_vector ex_solve_vector ex_norm ex_gt
                         ex_direct ex_u0 "recursive" = Returns (xsta, ysta) /\
    1 <= n <= 1000 /\
    held_input_march ex_direct ex_u0 n (repeat zero (Dynamic.Nx ex_direct), [])
    = Ok (xsta, ysta).
Proof.
  apply (@solve_steady_recursive_marches Qc _ ex_eye_as ex_solve_vector ex_solve_vector
           ex_norm ex_gt ex_lu_solve ex_MS (Q2Qc 1) 2 None ex_blocks
           (ex_init 2 false None)).
  - ok_by_evaluation.
  - ok_by_evaluation.
  - reflexivity.
  - reflexivity.
Defined.

Lemma solve_steady_methods_witness :
  Dynamic.solve_steady ex_eye_as ex_solve_vector ex_solve_vector ex_norm ex_gt
                       ex_direct ex_u0 "iterative"
  = Raises (Exn (NameError "Method iterative not recognised!")).
Proof.
  apply (proj2 (proj2 (@solve_steady_methods Qc _ ex_eye_as ex_solve_vector
                         ex_solve_vector ex_norm ex_gt ex_lu_solve))
           ex_MS (Q2Qc 1) 2%Z None ex_blocks (ex_init 2 false None)).
  - ok_by_evaluation.
  - ok_by_evaluation.
  - simpl. intros [H|[H|[H|[H|[]]]]]; discriminate.
Defined.

Lemma addGain_in_out_commute_witness :
  exists D D',
    Frequency.addGain (fst (Frequency.addGain (ex_frequency 2 true None) ex_Kin "in"))
                      ex_Kout "out"
    = (Frequency.set_outputs
         (Frequency.set_mats (Frequency.set_inputs (ex_frequency 2 true None) (ncols ex_Kin))
            (Frequency.mk_matrices (Frequency.A0 ex_frequency_mats)
               (Frequency.A0W ex_frequency_mats)
               (matmul (Frequency.Bss ex_frequency_mats) ex_Kin)
               (matmul ex_Kout (Frequency.Css ex_frequency_mats)) D))
         (nrows ex_Kout), Returns tt) /\
    Frequency.addGain (fst (Frequency.addGain (ex_frequency 2 true None) ex_Kout "out"))
                      ex_Kin "in"
    = (Frequency.set_outputs
         (Frequency.set_mats (Frequency.set_inputs (ex_frequency 2 true None) (ncols ex_Kin))
            (Frequency.mk_matrices (Frequency.A0 ex_frequency_mats)
               (Frequency.A0W ex_frequency_mats)
               (matmul (Frequency.Bss ex_frequency_mats) ex_Kin)
               (matmul ex_Kout (Frequency.Css ex_frequency_mats)) D'))
         (nrows ex_Kout), Returns tt) /\
    array_eq D D'.
Proof.
  apply (proj1 (@addGain_in_out_commute Qc _ _) (ex_frequency 2 true None)
           ex_frequency_mats ex_Kin ex_Kout).
  - vm_compute. reflexivity.
  - reflexivity.
  - reflexivity.
  - reflexivity.
  - reflexivity.
Defined.

Lemma frequency_nondimss_dimss_round_trip_witness :
  exists self1 self2 m m1 m2,
    Frequency.nondimss (ex_frequency 1 false (Some (Q2Qc 2, Q2Qc 3, Q2Qc 5))) = Ok self1 /\
    Frequency.dimss self1 = Ok self2 /\
    Frequency.mats (ex_frequency 1 false (Some (Q2Qc 2, Q2Qc 3, Q2Qc 5))) = Some m /\
    Frequency.mats self1 = Some m1 /\
    Frequency.mats self2 = Some m2 /\
    array_eq (Frequency.Bss m2) (Frequency.Bss m) /\
    array_eq (Frequency.Css m2) (Frequency.Css m) /\
    array_eq (Frequency.Dss m2) (Frequency.Dss m) /\
    Frequency.dt self2 = Frequency.dt (ex_frequency 1 false (Some (Q2Qc 2, Q2Qc 3, Q2Qc 5))) /\
    Frequency.A0 m1 = Frequency.A0 m /\ Frequency.A0W m1 = Frequency.A0W m /\
    Frequency.A0 m2 = Frequency.A0 m /\ Frequency.A0W m2 = Frequency.A0W m.
Proof.
  apply (@frequency_nondimss_dimss_round_trip Qc _ _ ex_MS (Q2Qc 1) 1 false
           (Q2Qc 2) (Q2Qc 3) (Q2Qc 5) false ex_blocks
           (ex_frequency_init 1 false (Some (Q2Qc 2, Q2Qc 3, Q2Qc 5)))).
  - apply get_returned_eq. vm_compute. reflexivity.
  - ok_by_evaluation.
  - apply Qc_neq. reflexivity.
  - apply Qc_neq. reflexivity.
  - apply Qc_neq. reflexivity.
Defined.

Lemma frequency_freqresp_completes_witness :
  exists Yfreq,
    Frequency.freqresp ex_cos35 ex_sin45 ex_solve (ex_frequency 0 false None) ex_kv2
    = Ok Yfreq /\
    length Yfreq = length ex_kv2 /\
    Forall (fun Y => shape Y = (3 * Frequency.Kzeta (ex_frequency 0 false None),
                                9 * Frequency.Kzeta (ex_frequency 0 false None))%nat)
           Yfreq.
Proof.
  apply (proj1 (@frequency_freqresp_completes Qc _ _ ex_cos35 ex_sin45 ex_solve)
           ex_MS (Q2Qc 1) 0%Z false None false ex_blocks
           (ex_frequency_init 0 false None)).
  - apply get_returned_eq. vm_compute. reflexivity.
  - ok_by_evaluation.
  - exact ex_MS_wf.
  - reflexivity.
  - reflexivity.
  - reflexivity.
  - reflexivity.
  - intros L X _ _. exists X. split; reflexivity.
Defined.

Lemma frequency_freqresp_predictor_delay_witness :
  exists m Yf',
    Frequency.mats (ex_frequency 2 true None) = Some m /\
    Frequency.mats (ex_frequency 2 false None) = Some m /\
    Frequency.freqresp ex_cos35 ex_sin45 ex_solve (ex_frequency 2 false None) ex_kv2
    = Ok Yf' /\
    length ex_frequency_response = length ex_kv2 /\ length Yf' = length ex_kv2 /\
    forall kk k Y Y',
      nth_error ex_kv2 kk = Some k ->
      nth_error ex_frequency_response kk = Some Y -> nth_error Yf' kk = Some Y' ->
      shape Y' = shape Y /\
      forall i j,
        item Y' i j
        = add (mul (power (Cpx (ex_cos35 (mul k (Q2Qc 1))) (ex_sin45 (mul k (Q2Qc 1)))) (- 1))
                   (sub (item Y i j) (cplx_of (item (Frequency.Dss m) i j))))
              (cplx_of (item (Frequency.Dss m) i j)).
Proof.
  apply (@frequency_freqresp_predictor_delay Qc _ _ ex_cos35 ex_sin45 ex_solve
           ex_MS (Q2Qc 1) 2%Z None false ex_blocks
           (ex_frequency_init 2 true None) (ex_frequency_init 2 false None)).
  - apply get_returned_eq. vm_compute. reflexivity.
  - apply get_returned_eq. vm_compute. reflexivity.
  - ok_by_evaluation.
  - ok_by_evaluation.
  - ok_by_evaluation.
Defined.

Lemma ex_lattice_wf : MultiAeroGridSurfaces.wf ex_lattice.
Proof.
  unfold MultiAeroGridSurfaces.wf, ex_lattice. cbn.
  repeat constructor; cbn; lia.
Qed.

Lemma rigid_motion_gains_move_vertices_witness :
  exists g,
    Static.get_rigid_motion_gains ex_zeta (Static.__init__ ex_lattice) ex_pole = Ok g /\
    let r := 3 * Static.Kzeta (Static.__init__ (R:=Qc) ex_lattice) in
    shape (Static.Ktra g) = (r, 3) /\ shape (Static.Ktra_dot g) = (r, 3) /\
    shape (Static.Krot g) = (r, 3) /\ shape (Static.Krot_dot g) = (r, 3) /\
    forall ss M N0 mm nn cc (u : vector Qc),
      nth_error (MultiAeroGridSurfaces.dimensions ex_lattice) ss = Some (M, N0) ->
      mm <= M -> nn <= N0 -> cc < 3 -> length u = 3 ->
      let i := vertex_offset ex_lattice ss + vertex_position M N0 cc mm nn in
      let d := vminus (Static.zeta_node ex_zeta ss mm nn) ex_pole in
      vget (matvec (Static.Ktra g) u) i = vget u cc /\
      vget (matvec (Static.Ktra_dot g) u) i = vget u cc /\
      vget (matvec (Static.Krot g) u) i = vget (np_cross d u) cc /\
      vget (matvec (Static.Krot_dot g) u) i = vget (np_cross d u) cc.
Proof.
  apply (@rigid_motion_gains_move_vertices ex_lattice ex_lattice_wf Qc _ _
           ex_zeta ex_pole).
  reflexivity.
Defined.

Lemma sect_forces_gain_sums_sections_witness :
  exists g,
    Static.get_sect_forces_gain ex_zeta (Static.__init__ ex_lattice) = Ok g /\
    let r := 3 * sum (map (fun n => n + 1) (MultiAeroGridSurfaces.NN ex_lattice)) in
    let c := 3 * Static.Kzeta (Static.__init__ (R:=Qc) ex_lattice) in
    shape (Static.Kfsec g) = (r, c) /\ shape (Static.Kmsec g) = (r, c) /\
    forall ss M N0 nn cc (f : vector Qc),
      nth_error (MultiAeroGridSurfaces.dimensions ex_lattice) ss = Some (M, N0) ->
      nn <= N0 -> cc < 3 -> length f = c ->
      let i := section_offset ex_lattice ss + section_position N0 cc nn in
      let fnode := fun mm => [vget f (vertex_column ex_lattice ss 0 mm nn);
                              vget f (vertex_column ex_lattice ss 1 mm nn);
                              vget f (vertex_column ex_lattice ss 2 mm nn)] in
      vget (matvec (Static.Kfsec g) f) i
      = sum_n (M + 1) (fun mm => vget (fnode mm) cc) /\
      vget (matvec (Static.Kmsec g) f) i
      = sum_n (M + 1)
          (fun mm => vget (np_cross (section_arm ex_zeta ex_lattice ss mm nn) (fnode mm)) cc).
Proof.
  exact (@sect_forces_gain_sums_sections ex_lattice ex_lattice_wf Qc _ _ ex_zeta).
Defined.

Lemma total_forces_add_up_sections_witness :
  exists self g Ft Mt,
    Static.total_forces ex_zeta
      (Static.set_solution (Static.__init__ ex_lattice) ex_gamma1 ex_fqs1) ex_pole
    = Ok self /\
    Static.Ftot self = Some Ft /\ Static.Mtot self = Some Mt /\
    length Ft = 3 /\ length Mt = 3 /\
    Static.get_sect_forces_gain ex_zeta self = Ok g /\
    forall cc, cc < 3 ->
      let Fsec := fun ss nn =>
        [vget (matvec (Static.Kfsec g) ex_fqs1) (section_row ex_lattice ss 0 nn);
         vget (matvec (Static.Kfsec g) ex_fqs1) (section_row ex_lattice ss 1 nn);
         vget (matvec (Static.Kfsec g) ex_fqs1) (section_row ex_lattice ss 2 nn)] in
      let Msec := fun ss nn =>
        vget (matvec (Static.Kmsec g) ex_fqs1) (section_row ex_lattice ss cc nn) in
      let mid := fun ss nn =>
        Static.zeta_node ex_zeta ss
          (fst (nth ss (MultiAeroGridSurfaces.dimensions ex_lattice) (0, 0)) / 2) nn in
      vget Ft cc = sum_sections ex_lattice (fun ss nn => vget (Fsec ss nn) cc) /\
      vget Mt cc
      = sum_sections ex_lattice
          (fun ss nn =>
             add (Msec ss nn)
                 (vget (np_cross (vminus (mid ss nn) ex_pole) (Fsec ss nn)) cc)).
Proof.
  apply (@total_forces_add_up_sections ex_lattice ex_lattice_wf Qc _ _
           ex_zeta ex_fqs1 ex_pole eq_refl ex_gamma1).
  - reflexivity.
  - reflexivity.
Defined.

Lemma total_forces_reshapes_once_witness :
  exists first second reshaped third fresh,
    Static.total_forces ex_zeta
      (Static.set_solution (Static.__init__ ex_lattice) ex_gamma1 ex_fqs1) ex_pole
    = Ok first /\
    Static.total_forces ex_zeta
      (Static.set_solution first ex_gamma2 ex_fqs2) ex_pole = Ok second /\
    Static.Ftot second = Static.Ftot first /\ Static.Mtot second = Static.Mtot first /\
    Static.reshape (Static.set_solution first ex_gamma2 ex_fqs2) = Ok reshaped /\
    Static.total_forces ex_zeta reshaped ex_pole = Ok third /\
    Static.total_forces ex_zeta
      (Static.set_solution (Static.__init__ ex_lattice) ex_gamma2 ex_fqs2) ex_pole
    = Ok fresh /\
    Static.Ftot third = Static.Ftot fresh /\ Static.Mtot third = Static.Mtot fresh.
Proof.
  apply (@total_forces_reshapes_once ex_lattice ex_lattice_wf Qc _ _
           ex_zeta ex_pole eq_refl ex_gamma1 ex_fqs1 ex_gamma2 ex_fqs2);
    reflexivity.
Defined.
